(* ===== verification/_CoqProject ===== *)
-Q . S2P
Prelude.v
GoStrings.v
GoNet.v
Effects.v
Ending.v
Sim.v
GoTime.v
GoFloat.v
Shell.v
Route.v
Cisco.v
Clients.v
Conns.v
Service.v
Pinner.v
Discovery.v
Supervisor.v
Socks.v
Lan.v
Proxy.v
Dns.v
Start.v
System.v
Log.v
Config.v
Tui.v
