(* ===== verification/Prelude.v ===== *)
(** * cisco-socks-server: a verification development

    cisco-socks-server keeps a Cisco Secure Client VPN connected on macOS and shares the
    tunnel through a SOCKS5 proxy, on loopback and on the LAN, and a DNS forwarder.
    Because the VPN client breaks ARP on the LAN, it also pins the MAC address of every
    LAN client in the kernel's ARP table.  The development is a shallow embedding of the
    Go sources under [src/].

    ** The program and the files that model it

    [src/cmd/main.go] reads the configuration and runs [service.Start], which starts five
    goroutines that share one [Service] record (State, client registry, connection
    tracker, the channels [ciscoReady] and [lanCheck]):

    - the supervisor ([internal/service/cisco.go], file Supervisor) polls the VPN agent
      through the [vpn] CLI ([internal/utils/cisco], file Cisco), connects, watches a
      reconnect, re-detects the LAN ([internal/utils/route], file Route), turns pf off,
      and at its first success closes [ciscoReady], for which the others wait;
    - the pinner ([internal/service/service.go], file Pinner) compares the registry with
      the kernel's ARP table and pins or adopts MACs;
    - the sniffer ([sniff.go] and the discovery half of [clients.go], file Discovery) reads
      the SYNs tcpdump prints and registers their senders;
    - the proxy ([proxy.go], [socks.go], [lan.go], [bind_*.go]; files Conns, Socks, Lan,
      Proxy) owns the loopback listener, the LAN listener that follows [State], one
      goroutine per connection, and the watcher that drops connections on VPN loss;
    - the DNS forwarder ([dns.go], file Dns).

    Below them: the client registry ([clients.go], file Clients), the shared state, its
    accessors and the waits ([service.go], [lan.go], file Service), command execution
    ([internal/utils/shell], file Shell).  Beside them: the configuration and the run
    ([cmd/], file Config), the log handler ([internal/utils/log], file Log) and the
    terminal UI ([internal/utils/tui], file Tui).  Start gives every goroutine its code
    ([body]) and System puts them together.  GoStrings, GoNet, GoTime and GoFloat model
    the parts of Go's [strings], [net], [net/netip], [time] and [float64] that the
    sources use; Effects is the language of effectful code, Ending adds how goroutines
    end, and Sim has concrete worlds for the witnesses.  Prelude has errors, time, the
    tactics [split_match] and [bools], and the hint databases.

    Definitions have the names of the Go functions, types and fields where Rocq allows;
    a Go method's body split in two has the second half under a name of its own
    ([tick] and [tick_connected], [startProxy] and [proxy_body]).

    ** How code is modelled

    - A pure function is a function.  [(T, error)] is a sum, [error] alone an option,
      [(T, bool)] an option or a pair.  Errors carry their text and what they wrap.
    - An effectful function is a [prog]: a tree whose nodes are calls to the outside
      ([Sys]) and critical sections ([Crit]).  A mutex-guarded block is one [Crit] node on
      [Service], so the grain of interleaving is that of the code.  [exec] runs one
      goroutine against a [World], any function that answers calls; [cstep] interleaves
      goroutines with arbitrary changes of the world.
    - A log line, a command, a sleep, a close is an event of the run: the statements
      about what the program does outside speak of the events.
    - A [context.Context] is its derivation from the one passed in; whether it has ended is
      what the world answers.  A [select] is a call to the world that may take any
      case it has.
    - Times and durations are nanoseconds in Z; the zero [time.Time] is 0; [t.Sub] saturates
      at 64 bits.  A map is a gmap, and [range] over one comes in any order ([MapRange]).
      Strings are byte strings; IP addresses and masks are numbers and bytes at Go's widths.
    - A goroutine the code starts is a [Spawn] with its name, which [body] maps to its code;
      a closure handed to gocui is named the same way ([run_update]).
    - Loops without a bound take fuel and return [None] when it is used up.  That the fuel
      suffices is proved: alone, the supervisor and the pinner return within as many rounds
      as the context has sleeps left ([loop_terminates] over [Cancels]), and the scan of a
      command's output with more fuel than lines ([stream_delivers]); interleaved, every
      goroutine of the service returns with more fuel than the context has answers left
      that say it goes on ([service_ends], by the [paced] judgement of Ending over [Ends]).
      Statements that hold at every moment of a loop ([service_invariant], [one_listener])
      hold for any fuel.  A [select] on channels of the program is a loop that looks until
      a case is ready, so its looks count as rounds.
    - [float64] is a mantissa and an exponent, each operation rounded to nearest even.

    ** Interfaces

    - [World] answers calls; [Cancels] adds a context that ends, [Scanner] the lines of a
      running command, [Kernel] an ARP table behind [arp] and [route]; the type [sim] of Sim
      has an instance of each.  [Ends] bounds what a context that ends still answers (instance
      [mortal_ends]), [Views] is gocui's [SetView] (instance [gui_views]).
    - [PinOps] are the two ARP operations the service can be given; [ArpSpec] says what
      they promise, the pinner's theorems are proved against it, and the operations of
      Route meet it on every [Kernel] ([route_arp_spec]).
    - [Peers] gives the remote address of a connection; [DnsLib] and [DnsLaws] are what the
      forwarder uses of miekg/dns.

    ** What the theorems show

    - System: an invariant of the shared state under every interleaving of the goroutines
      of [Start] and those they start, the supervisor being the single writer of the LAN
      and VPN fields (the [owns] judgement of Effects); and the end of all of them
      ([service_ends]).
    - Safety of the tunnel: [vpn_gated], [vpn_loss_drops], [shutdown_disconnects],
      [no_connect_over_agent], [no_open_proxy]; [proxy_cleanup], [dns_cleanup].
    - The pinner: a pass refines the specification [pass_effect] client by client
      ([pass_exact]), runs no other command ([pass_commands]), and a settled state stays
      so ([pass_converges]); a MAC seen in a frame wins over the kernel's ([frame_wins]).
    - The LAN: what is detected is usable ([DetectLAN_sound]), a change is debounced
      ([lan_change_debounced]), the listener follows it ([listener_follows_lan],
      [one_listener]).
    - The registry: [expire_exact], [registry_typed], [discovered_is_target]; and from the
      configuration to it: [config_clients], [validate_iff].
    - Timing: [reconnect_grace], [backoff_schedule]; lemmas on single goroutines:
      [supervisor_returns], [pinner_returns].
    - The run and the terminal UI: what is reported and when ([run_reports]), the terminal is
      given back ([tui_restores]), one goroutine per panel ([panels_once]), the log channel
      ([log_channel]), the uptime ([uptime_exact]).
    - Formats: [syn_line_roundtrip], [arp_output_roundtrip], [mac_denotes],
      [default_route_first], [ipv4Prefix_masks], [parseState_last_wins].
    - Behaviours that are surely not meant: non-contiguous masks in [ipv4Prefix_masks],
      IPv4-mapped clients in [config_clients], and [stale_mac_race] (a pass that overlaps a
      change of the LAN stores a MAC of the old network after the reset), on a concrete
      schedule.

    ** What is not modelled

    What is third party: errgroup (what [g.Wait] returns is the world's answer [GroupWait]),
    the SOCKS5 protocol (go-socks5; [proxyLogger] only forwards its errors to slog), DNS
    messages and the server loop (miekg/dns), YAML, and gocui's views, drawing and main
    loop.  Of the system: the delivery of signals, which shows as the end of the root
    context, and the user database, environment and files, which are parameters of
    [loadConfig]; the texts of its errors are values.  Memory races are excluded by the
    model: shared data that changes after [New] is under a mutex or on a channel, but for
    the colour of the banner, which two goroutines share without one.

    ** What is left to do

    - the supervisor as a refinement of an abstract connection automaton;
    - the steps of the main loop of the UI interleaved with its goroutines. *)

From Stdlib Require Export ZArith Lia Ascii String.
From stdpp Require Export base tactics option list strings gmap fin_maps sets sorting pretty.

#[global] Open Scope Z_scope.

(** [naive_solver] clears hypotheses that are already gone. *)
#[export] Set Warnings "-clear-no-such-hyp".

(** ** Errors *)

(** Go errors: a package-level [errors.New] (or an [Errorf] without [%w]),
    or an [Errorf] whose [%w] operand is kept as the wrapped error; [text] is
    always the full message. *)
Inductive error : Type :=
| ErrNew (text : string)
| ErrWrap (text : string) (inner : error).

#[global] Instance error_eq_dec : EqDecision error.
Proof. solve_decision. Defined.

(** [err.Error()]. *)
Definition Error (e : error) : string :=
  match e with ErrNew t => t | ErrWrap t _ => t end.

(** [errors.Is(err, target)]: the unwrap chain meets the target. *)
Fixpoint errors_Is (e target : error) : bool :=
  bool_decide (e = target) ||
  match e with
  | ErrNew _ => false
  | ErrWrap _ i => errors_Is i target
  end.

(** ** Time: nanoseconds, [0] being the zero [time.Time] *)

Definition Millisecond : Z := 1000000.
Definition Second : Z := 1000 * Millisecond.
Definition Minute : Z := 60 * Second.
Definition Hour : Z := 60 * Minute.

Definition minDuration : Z := - 2 ^ 63.
Definition maxDuration : Z := 2 ^ 63 - 1.

(** [t.Sub(u)] saturates at the ends of the 64-bit [Duration]. *)
Definition time_Sub (t u : Z) : Z := Z.max minDuration (Z.min maxDuration (t - u)).

Definition time_IsZero (t : Z) : bool := bool_decide (t = 0).

(** ** Automation *)

Create HintDb gosocks discriminated.
Create Rewrite HintDb gostr.

(** Case analysis on the scrutinee of the first [match] or [if] in the goal. *)
Ltac split_match :=
  match goal with
  | |- context [match ?x with _ => _ end] => destruct x eqn:?
  end.

(** The same in a hypothesis. *)
Ltac split_match_in H :=
  match type of H with
  | context [match ?x with _ => _ end] => destruct x eqn:?
  end.

(** Booleans of the code to propositions. *)
Ltac bools :=
  repeat match goal with
  | H : bool_decide _ = true |- _ => apply bool_decide_eq_true_1 in H
  | H : bool_decide _ = false |- _ => apply bool_decide_eq_false_1 in H
  | H : andb _ _ = true |- _ => apply andb_true_iff in H as [? ?]
  | H : orb _ _ = false |- _ => apply orb_false_iff in H as [? ?]
  | H : negb _ = true |- _ => apply negb_true_iff in H
  | H : negb _ = false |- _ => apply negb_false_iff in H
  | H : (_ <=? _) = true |- _ => apply Z.leb_le in H
  | H : (_ <=? _) = false |- _ => apply Z.leb_gt in H
  | H : (_ <? _) = true |- _ => apply Z.ltb_lt in H
  | H : (_ <? _) = false |- _ => apply Z.ltb_ge in H
  | H : (_ =? _) = true |- _ => apply Z.eqb_eq in H
  | H : (_ =? _) = false |- _ => apply Z.eqb_neq in H
  end.

(** ** Generic lemmas *)

Lemma time_Sub_small t u :
  minDuration <= t - u <= maxDuration -> time_Sub t u = t - u.
Proof. unfold time_Sub. lia. Qed.

Lemma time_Sub_range t u : minDuration <= time_Sub t u <= maxDuration.
Proof. unfold time_Sub, minDuration, maxDuration. lia. Qed.

(** Comparing a saturated difference with a bound inside the range is
    comparing the exact one. *)
Lemma time_Sub_lt t u d :
  minDuration < d <= maxDuration -> (time_Sub t u < d <-> t - u < d).
Proof. unfold time_Sub. lia. Qed.

Lemma errors_Is_refl e : errors_Is e e = true.
Proof. destruct e; cbn; rewrite bool_decide_eq_true_2 by done; done. Qed.

Lemma errors_Is_wrap t i target :
  errors_Is i target = true -> errors_Is (ErrWrap t i) target = true.
Proof. intros H. cbn. rewrite H. apply orb_true_r. Qed.

#[export] Hint Resolve errors_Is_refl errors_Is_wrap : gosocks.

(** A decidable fact about every number below a bound, by evaluation. *)
Lemma below_forall (f : Z -> bool) (bound n : Z) :
  List.forallb f (map Z.of_nat (List.seq 0 (Z.to_nat bound))) = true ->
  0 <= n < bound -> f n = true.
Proof.
  intros H Hn. rewrite List.forallb_forall in H. apply H, List.in_map_iff.
  exists (Z.to_nat n). split; [lia|]. apply List.in_seq. lia.
Qed.
