(* ===== verification/GoStrings.v ===== *)
(** * Go's [strings] package, as far as the program uses it

    A Go string is a sequence of bytes; it is modelled by Rocq's [string],
    whose characters are the 256 bytes.  White space is Unicode's White_Space
    property, recognised on the UTF-8 bytes: no white-space rune starts with a
    continuation byte and none is a proper part of another rune, so testing for
    one of the byte sequences at every position is the same as decoding runes
    first. *)

From S2P Require Import Prelude.
#[global] Open Scope string_scope.
#[global] Open Scope list_scope.
#[global] Open Scope Z_scope.
#[local] Open Scope nat_scope.

(** The byte with this code. *)
Definition asc (n : nat) : ascii := ascii_of_nat n.

Definition newline : string := String (asc 10) "".
Definition dquote : string := String (asc 34) "".

(** [len(s)]. *)
Definition len (s : string) : Z := Z.of_nat (String.length s).

Definition HasPrefix (s p : string) : bool := String.prefix p s.

(** Drops the first [n] bytes: [s[n:]]. *)
Fixpoint drop_bytes (n : nat) (s : string) : string :=
  match n, s with
  | S n', String _ r => drop_bytes n' r
  | _, _ => s
  end.

Definition CutPrefix (s p : string) : string * bool :=
  if HasPrefix s p then (drop_bytes (String.length p) s, true) else (s, false).

Fixpoint Contains (s sub : string) : bool :=
  HasPrefix s sub ||
  match s with
  | EmptyString => false
  | String _ r => Contains r sub
  end.

(** [strings.Cut(s, sep)] when [sep] occurs in [s]. *)
Fixpoint Cut_opt (s sep : string) : option (string * string) :=
  if HasPrefix s sep then Some ("", drop_bytes (String.length sep) s)
  else match s with
       | EmptyString => None
       | String c r =>
           match Cut_opt r sep with
           | Some (before, after) => Some (String c before, after)
           | None => None
           end
       end.

(** [before, after, found := strings.Cut(s, sep)]. *)
Definition Cut (s sep : string) : string * string * bool :=
  match Cut_opt s sep with
  | Some (before, after) => (before, after, true)
  | None => (s, "", false)
  end.

(** The first element of a split and the others: [Split] never yields an
    empty slice for a non-empty separator. *)
Fixpoint split_go (sep : ascii) (s : string) : string * list string :=
  match s with
  | EmptyString => ("", [])
  | String c r =>
      let '(w, ws) := split_go sep r in
      if Ascii.eqb c sep then ("", w :: ws) else (String c w, ws)
  end.

(** [strings.Split(s, sep)] and [strings.SplitSeq(s, sep)] for a one-byte
    separator. *)
Definition Split (s : string) (sep : ascii) : list string :=
  let '(w, ws) := split_go sep s in w :: ws.

(** [strings.Join(elems, sep)]. *)
Fixpoint Join (elems : list string) (sep : string) : string :=
  match elems with
  | [] => ""
  | [e] => e
  | e :: rest => e +:+ sep +:+ Join rest sep
  end.

(** [strings.LastIndexByte(s, c)]; [None] for [-1]. *)
Fixpoint LastIndexByte (s : string) (c : ascii) : option nat :=
  match s with
  | EmptyString => None
  | String d r =>
      match LastIndexByte r c with
      | Some i => Some (S i)
      | None => if Ascii.eqb d c then Some 0 else None
      end
  end.

(** [s[:n]]. *)
Fixpoint take_bytes (n : nat) (s : string) : string :=
  match n, s with
  | S n', String c r => String c (take_bytes n' r)
  | _, _ => ""
  end.

(** The bytes of the white-space rune [s] starts with, 0 when it does not:
    TAB LF VT FF CR SPACE, U+0085, U+00A0, U+1680, U+2000..U+200A, U+2028,
    U+2029, U+202F, U+205F, U+3000. *)
Definition space_len (s : string) : nat :=
  match s with
  | EmptyString => 0
  | String c0 r0 =>
      let b0 := nat_of_ascii c0 in
      if (b0 =? 32) || ((9 <=? b0) && (b0 <=? 13)) then 1
      else match r0 with
      | EmptyString => 0
      | String c1 r1 =>
          let b1 := nat_of_ascii c1 in
          if (b0 =? 194) && ((b1 =? 133) || (b1 =? 160)) then 2
          else match r1 with
          | EmptyString => 0
          | String c2 _ =>
              let b2 := nat_of_ascii c2 in
              if ((b0 =? 225) && (b1 =? 154) && (b2 =? 128))
                 || ((b0 =? 226) && (b1 =? 128) &&
                     (((128 <=? b2) && (b2 <=? 138)) || (b2 =? 168) || (b2 =? 169) || (b2 =? 175)))
                 || ((b0 =? 226) && (b1 =? 129) && (b2 =? 159))
                 || ((b0 =? 227) && (b1 =? 128) && (b2 =? 128))
              then 3 else 0
          end
      end
  end.

Definition cons_nonempty (w : string) (ws : list string) : list string :=
  match w with EmptyString => ws | _ => w :: ws end.

(** The word [s] starts with (maybe empty) and the later fields; [skip] counts
    the remaining bytes of a white-space rune. *)
Fixpoint fields_go (skip : nat) (s : string) : string * list string :=
  match s with
  | EmptyString => ("", [])
  | String c r =>
      match skip with
      | S k => let '(w, ws) := fields_go k r in ("", cons_nonempty w ws)
      | O =>
          match space_len s with
          | O => let '(w, ws) := fields_go 0 r in (String c w, ws)
          | S k => let '(w, ws) := fields_go k r in ("", cons_nonempty w ws)
          end
      end
  end.

(** [strings.Fields(s)]. *)
Definition Fields (s : string) : list string :=
  let '(w, ws) := fields_go 0 s in cons_nonempty w ws.

Fixpoint trim_left (skip : nat) (s : string) : string :=
  match s with
  | EmptyString => ""
  | String _ r =>
      match skip with
      | S k => trim_left k r
      | O => match space_len s with
             | O => s
             | S k => trim_left k r
             end
      end
  end.

Fixpoint trim_right (s : string) : string :=
  match trim_left 0 s with
  | EmptyString => ""
  | _ => match s with
         | EmptyString => ""
         | String c r => String c (trim_right r)
         end
  end.

(** [strings.TrimSpace(s)]. *)
Definition TrimSpace (s : string) : string := trim_right (trim_left 0 s).

(** ** Words: the tokens of the command-line tools' output *)

(** A printable ASCII byte other than the space. *)
Definition graphic (c : ascii) : bool :=
  (33 <=? nat_of_ascii c) && (nat_of_ascii c <=? 126).

Fixpoint string_forallb (f : ascii -> bool) (s : string) : bool :=
  match s with
  | EmptyString => true
  | String c r => f c && string_forallb f r
  end.

(** A non-empty string of graphic bytes. *)
Definition word (s : string) : bool :=
  match s with EmptyString => false | _ => string_forallb graphic s end.

(** The byte [c] does not occur in [s]. *)
Definition lacks (c : ascii) (s : string) : bool :=
  string_forallb (fun d => negb (Ascii.eqb d c)) s.

(** ** Lemmas *)

Lemma append_nil_l s : "" +:+ s = s.
Proof. reflexivity. Qed.

Lemma append_cons c s t : String c s +:+ t = String c (s +:+ t).
Proof. reflexivity. Qed.

Lemma append_nil_r s : s +:+ "" = s.
Proof. induction s as [|c s IH]; [done|]. by rewrite append_cons, IH. Qed.

Lemma append_assoc s t u : (s +:+ t) +:+ u = s +:+ (t +:+ u).
Proof. induction s as [|c s IH]; [done|]. by rewrite !append_cons, IH. Qed.

Lemma length_append s t : String.length (s +:+ t) = String.length s + String.length t.
Proof. induction s as [|c s IH]; [done|]. rewrite append_cons. cbn. by rewrite IH. Qed.

#[export] Hint Rewrite append_nil_l append_nil_r append_cons append_assoc : gostr.

Lemma string_forallb_app f s t :
  string_forallb f (s +:+ t) = string_forallb f s && string_forallb f t.
Proof.
  induction s as [|c s IH]; [done|]. rewrite append_cons. cbn.
  by rewrite IH, andb_assoc.
Qed.

Lemma string_forallb_impl (f g : ascii -> bool) s :
  (forall c, f c = true -> g c = true) ->
  string_forallb f s = true -> string_forallb g s = true.
Proof.
  intros Hfg. induction s as [|c s IH]; [done|]. cbn. intros [Hc Hs]%andb_true_iff.
  by rewrite (Hfg c Hc), IH.
Qed.

Lemma HasPrefix_app p s : HasPrefix (p +:+ s) p = true.
Proof.
  unfold HasPrefix. induction p as [|c p IH]; [by destruct s|].
  rewrite append_cons. cbn. destruct (ascii_dec c c); done.
Qed.

Lemma HasPrefix_cons c d s p :
  HasPrefix (String c s) (String d p) = (Ascii.eqb c d && HasPrefix s p).
Proof.
  unfold HasPrefix. cbn. destruct (ascii_dec d c) as [->|Hne].
  - by rewrite Ascii.eqb_refl.
  - by rewrite (proj2 (Ascii.eqb_neq c d)) by congruence.
Qed.

Lemma drop_bytes_app p s : drop_bytes (String.length p) (p +:+ s) = s.
Proof. induction p as [|c p IH]; [by destruct s|]. done. Qed.

Lemma take_bytes_app p s : take_bytes (String.length p) (p +:+ s) = p.
Proof. induction p as [|c p IH]; [done|]. rewrite append_cons. cbn. by rewrite IH. Qed.

Lemma HasPrefix_inv s p :
  HasPrefix s p = true -> s = p +:+ drop_bytes (String.length p) s.
Proof.
  unfold HasPrefix. revert s. induction p as [|c p IH]; intros s H; [by destruct s|].
  destruct s as [|d s]; cbn in H; [done|].
  destruct (ascii_dec c d) as [<-|]; [|done]. rewrite append_cons. cbn. by rewrite <- IH.
Qed.

(** A string starts with [p] exactly when it is [p] followed by something. *)
Lemma HasPrefix_iff s p : HasPrefix s p = true <-> exists r, s = p +:+ r.
Proof.
  split; [|intros [r ->]; apply HasPrefix_app].
  intros H%HasPrefix_inv. eauto.
Qed.

Lemma CutPrefix_spec s p r : CutPrefix s p = (r, true) <-> s = p +:+ r.
Proof.
  unfold CutPrefix. split.
  - destruct (HasPrefix s p) eqn:H; [|done]. intros [= <-]. by apply HasPrefix_inv.
  - intros ->. by rewrite HasPrefix_app, drop_bytes_app.
Qed.

(** [Contains] is the existence of an occurrence. *)
Lemma Contains_iff s sub : Contains s sub = true <-> exists a b, s = a +:+ sub +:+ b.
Proof.
  split.
  - induction s as [|c s IH]; cbn [Contains]; intros [H|H]%orb_true_iff; try done.
    + apply HasPrefix_iff in H as [r Hr]. by exists "", r.
    + apply HasPrefix_iff in H as [r Hr]. by exists "", r.
    + destruct (IH H) as (a & b & ->). by exists (String c a), b.
  - intros (a & b & ->). induction a as [|c a IH].
    + rewrite append_nil_l. destruct (sub +:+ b) eqn:E; cbn [Contains];
        rewrite <- E, HasPrefix_app; done.
    + rewrite append_cons. cbn [Contains]. by rewrite IH, orb_true_r.
Qed.

(** *** Fields *)

Lemma graphic_not_space c r : graphic c = true -> space_len (String c r) = 0.
Proof.
  destruct c as [[] [] [] [] [] [] [] []]; intros H; try discriminate H;
    destruct r as [|? [|? ?]]; reflexivity.
Qed.

Lemma fields_go_graphic w s :
  string_forallb graphic w = true ->
  fields_go 0 (w +:+ s) = (w +:+ fst (fields_go 0 s), snd (fields_go 0 s)).
Proof.
  induction w as [|c w IH]; cbn [string_forallb].
  - intros _. rewrite !append_nil_l. by destruct (fields_go 0 s).
  - intros [Hc Hw]%andb_true_iff. rewrite append_cons. cbn [fields_go].
    rewrite graphic_not_space by done. rewrite IH by done. done.
Qed.

Lemma word_graphic w : word w = true -> string_forallb graphic w = true.
Proof. by destruct w. Qed.

(** One field, then a blank. *)
Lemma Fields_word_then w c s :
  word w = true -> space_len (String c s) = 1 ->
  Fields (w +:+ String c s) = w :: Fields s.
Proof.
  intros Hw Hc. unfold Fields. rewrite fields_go_graphic by by apply word_graphic.
  assert (fields_go 0 (String c s) = ("", Fields s)) as ->.
  { cbn [fields_go]. rewrite Hc. unfold Fields. by destruct (fields_go 0 s). }
  cbn [fst snd]. rewrite append_nil_r. by destruct w.
Qed.

Lemma Fields_word w : word w = true -> Fields w = [w].
Proof.
  intros Hw. unfold Fields. rewrite <- (append_nil_r w) at 1.
  rewrite fields_go_graphic by by apply word_graphic. cbn [fst snd fields_go].
  rewrite append_nil_r. by destruct w.
Qed.

Lemma Fields_word_sp w s :
  word w = true -> Fields (w +:+ String " " s) = w :: Fields s.
Proof. intros Hw. by apply Fields_word_then. Qed.

Lemma Fields_word_nl w s :
  word w = true -> Fields (w +:+ newline +:+ s) = w :: Fields s.
Proof. intros Hw. unfold newline. rewrite append_cons. by apply Fields_word_then. Qed.

(** *** Split *)

Lemma split_go_app sep s t :
  split_go sep (s +:+ String sep t) =
    (fst (split_go sep s), snd (split_go sep s) ++ Split t sep).
Proof.
  induction s as [|c s IH].
  - rewrite append_nil_l. cbn [split_go]. unfold Split.
    destruct (split_go sep t). by rewrite Ascii.eqb_refl.
  - rewrite append_cons. cbn [split_go]. rewrite IH. destruct (split_go sep s) as [w ws]. cbn.
    by destruct (Ascii.eqb c sep).
Qed.

(** Splitting distributes over a separator. *)
Lemma Split_app sep s t : Split (s +:+ String sep t) sep = Split s sep ++ Split t sep.
Proof.
  unfold Split at 1 2. rewrite split_go_app. by destruct (split_go sep s).
Qed.

Lemma Join_cons e e' r c :
  Join (e :: e' :: r) (String c "") = e +:+ String c (Join (e' :: r) (String c "")).
Proof. reflexivity. Qed.

Lemma Join_one e sep : Join [e] sep = e.
Proof. reflexivity. Qed.

Lemma Split_lacks sep s : lacks sep s = true -> Split s sep = [s].
Proof.
  unfold Split. intros H. assert (split_go sep s = (s, [])) as ->; [|done].
  induction s as [|c s IH]; [done|]. cbn in H |- *.
  apply andb_true_iff in H as [Hc Hs]. rewrite IH by done.
  apply negb_true_iff in Hc. by rewrite Hc.
Qed.

(** Split is a left inverse of Join on parts without the separator. *)
Lemma Split_Join sep ws :
  ws <> [] -> Forall (fun w => lacks sep w = true) ws ->
  Split (Join ws (String sep "")) sep = ws.
Proof.
  intros Hne Hws. induction Hws as [|w ws Hw Hws IH]; [done|].
  destruct ws as [|w' ws]; [by apply Split_lacks|].
  change (Join (w :: w' :: ws) (String sep "")) with
    (w +:+ String sep (Join (w' :: ws) (String sep ""))).
  rewrite Split_app, Split_lacks, IH by done. done.
Qed.

(** *** Cut and LastIndexByte *)

Lemma Cut_opt_skip c s sep :
  HasPrefix (String c s) sep = false ->
  Cut_opt (String c s) sep =
    match Cut_opt s sep with Some (b, a) => Some (String c b, a) | None => None end.
Proof. intros H. cbn [Cut_opt]. by rewrite H. Qed.

(** Text without the separator's first byte is skipped. *)
Lemma Cut_opt_lacks d sep a s :
  lacks d a = true ->
  Cut_opt (a +:+ s) (String d sep) =
    match Cut_opt s (String d sep) with Some (b, t) => Some (a +:+ b, t) | None => None end.
Proof.
  induction a as [|c a IH]; intros Ha.
  - rewrite append_nil_l. by destruct (Cut_opt s _) as [[? ?]|].
  - cbn in Ha. apply andb_true_iff in Ha as [Hc Ha]. apply negb_true_iff in Hc.
    rewrite append_cons, Cut_opt_skip by (by rewrite HasPrefix_cons, Hc). rewrite IH by done.
    by destruct (Cut_opt s _) as [[? ?]|].
Qed.

Lemma LastIndexByte_lacks c s : lacks c s = true -> LastIndexByte s c = None.
Proof.
  induction s as [|d s IH]; [done|]. cbn. intros [Hd Hs]%andb_true_iff.
  rewrite IH by done. apply negb_true_iff in Hd. by rewrite Hd.
Qed.

Lemma LastIndexByte_last c s t :
  lacks c t = true -> LastIndexByte (s +:+ String c t) c = Some (String.length s).
Proof.
  intros Ht. induction s as [|d s IH].
  - rewrite append_nil_l. cbn [LastIndexByte]. by rewrite LastIndexByte_lacks, Ascii.eqb_refl.
  - rewrite append_cons. cbn [LastIndexByte]. by rewrite IH.
Qed.
