(* ===== verification/GoNet.v ===== *)
(** * Go's [net] and [net/netip], as far as the program uses them

    Hardware addresses are lists of bytes (values 0..255); a [netip.Addr] is
    the zero address, an IPv4 address (a 32-bit number) or an IPv6 address (a
    128-bit number with a zone); a [netip.Prefix] keeps [bitsPlusOne] as Go
    does, so the zero [Prefix{}] is invalid. *)

From Stdlib Require Export Strings.Byte.
From S2P Require Import Prelude GoStrings.

(** ** Hardware addresses *)

Definition HardwareAddr : Type := list Z.

Definition code (c : ascii) : Z := Z.of_nat (nat_of_ascii c).
Definition chr (n : Z) : ascii := ascii_of_nat (Z.to_nat n).

(** A hexadecimal digit's value, as [xtoi] reads it. *)
Definition hexval (c : ascii) : option Z :=
  let n := code c in
  if (48 <=? n) && (n <=? 57) then Some (n - 48)
  else if (97 <=? n) && (n <=? 102) then Some (n - 87)
  else if (65 <=? n) && (n <=? 70) then Some (n - 55)
  else None.

Definition hexdigit (n : Z) : ascii := if n <? 10 then chr (48 + n) else chr (87 + n).

(** Two lower-case digits. *)
Definition hex2 (n : Z) : string :=
  String (hexdigit (n / 16)) (String (hexdigit (n mod 16)) "").

Definition colon : ascii := ":".
Definition dash : ascii := "-".
Definition dot : ascii := ".".
Definition percent : ascii := "%".

(** Octets of two digits separated by [sep]. *)
Fixpoint parse_octets (sep : ascii) (s : string) : option HardwareAddr :=
  match s with
  | String a (String b r) =>
      match hexval a, hexval b with
      | Some x, Some y =>
          match r with
          | EmptyString => Some [16 * x + y]
          | String c r' =>
              if Ascii.eqb c sep then
                match parse_octets sep r' with
                | Some hw => Some (16 * x + y :: hw)
                | None => None
                end
              else None
          end
      | _, _ => None
      end
  | _ => None
  end.

(** Groups of four digits separated by dots. *)
Fixpoint parse_groups (s : string) : option HardwareAddr :=
  match s with
  | String a (String b (String c (String d r))) =>
      match hexval a, hexval b, hexval c, hexval d with
      | Some x, Some y, Some z, Some t =>
          match r with
          | EmptyString => Some [16 * x + y; 16 * z + t]
          | String e r' =>
              if Ascii.eqb e dot then
                match parse_groups r' with
                | Some hw => Some (16 * x + y :: 16 * z + t :: hw)
                | None => None
                end
              else None
          end
      | _, _, _, _ => None
      end
  | _ => None
  end.

Definition mac_len_ok (n : Z) : bool := (n =? 6) || (n =? 8) || (n =? 20).

(** [net.ParseMAC(s)]; [None] for the error. *)
Definition ParseMAC (s : string) : option HardwareAddr :=
  if len s <? 14 then None
  else match String.get 2 s, String.get 4 s with
  | Some c2, Some c4 =>
      if Ascii.eqb c2 colon || Ascii.eqb c2 dash then
        if negb ((len s + 1) mod 3 =? 0) then None
        else if negb (mac_len_ok ((len s + 1) / 3)) then None
        else parse_octets c2 s
      else if Ascii.eqb c4 dot then
        if negb ((len s + 1) mod 5 =? 0) then None
        else if negb (mac_len_ok (2 * (len s + 1) / 5)) then None
        else parse_groups s
      else None
  | _, _ => None
  end.

(** [hw.String()]. *)
Definition HardwareAddr_String (hw : HardwareAddr) : string :=
  Join (map hex2 hw) (String colon "").

(** ** Addresses *)

Inductive Addr : Type :=
| Addr0
| Addr4 (v : Z)
| Addr6 (v : Z) (zone : string).

#[global] Instance Addr_eq_dec : EqDecision Addr.
Proof. solve_decision. Defined.

Definition Is4 (a : Addr) : bool := match a with Addr4 _ => true | _ => false end.

Definition BitLen (a : Addr) : Z :=
  match a with Addr0 => 0 | Addr4 _ => 32 | Addr6 _ _ => 128 end.

Definition hasZone (a : Addr) : bool :=
  match a with Addr6 _ (String _ _) => true | _ => false end.

Definition withoutZone (a : Addr) : Addr :=
  match a with Addr6 v _ => Addr6 v "" | _ => a end.

Definition WithZone (a : Addr) (z : string) : Addr :=
  match a with Addr6 v _ => Addr6 v z | _ => a end.

(** An IPv4-mapped IPv6 address: ::ffff:0:0/96. *)
Definition Is4In6 (a : Addr) : bool :=
  match a with Addr6 v _ => Z.shiftr v 32 =? 65535 | _ => false end.

Definition Unmap (a : Addr) : Addr :=
  match a with
  | Addr6 v _ => if Is4In6 a then Addr4 (Z.land v (Z.ones 32)) else a
  | _ => a
  end.

(** The number big-endian digits in base [2^w] denote. *)
Definition of_digits (w : Z) (l : list Z) : Z :=
  fold_left (fun acc d => acc * 2 ^ w + d) l 0.

(** A byte's value. *)
Definition bval (b : Byte.byte) : Z := Z.of_N (Byte.to_N b).

(** [netip.AddrFromSlice]: 4 or 16 bytes. *)
Definition AddrFromSlice (b : list Byte.byte) : option Addr :=
  if Z.of_nat (length b) =? 4 then Some (Addr4 (of_digits 8 (map bval b)))
  else if Z.of_nat (length b) =? 16 then Some (Addr6 (of_digits 8 (map bval b)) "")
  else None.

(** *** Parsing *)

Definition decval (c : ascii) : option Z :=
  let n := code c in
  if (48 <=? n) && (n <=? 57) then Some (n - 48) else None.

(** The loop of [parseIPv4Fields]; [acc] holds the finished fields, last first. *)
Fixpoint ipv4_fields (s : string) (val digLen pos : Z) (acc : list Z) : option (list Z) :=
  match s with
  | EmptyString => if pos <? 3 then None else Some (rev (val :: acc))
  | String c r =>
      match decval c with
      | Some d =>
          if (digLen =? 1) && (val =? 0) then None
          else let val' := val * 10 + d in
               if 255 <? val' then None
               else ipv4_fields r val' (digLen + 1) pos acc
      | None =>
          if Ascii.eqb c dot then
            if (digLen =? 0) || bool_decide (r = "") then None
            else if pos =? 3 then None
            else ipv4_fields r 0 0 (pos + 1) (val :: acc)
          else None
      end
  end.

Definition parseIPv4 (s : string) : option Addr :=
  match ipv4_fields s 0 0 0 [] with
  | Some f => Some (Addr4 (of_digits 8 f))
  | None => None
  end.

(** A run of hex digits: its length, its value and the rest; [None] past four
    digits. *)
Fixpoint hex_run (s : string) (off acc : Z) : option (Z * Z * string) :=
  match s with
  | EmptyString => Some (off, acc, "")
  | String c r =>
      match hexval c with
      | None => Some (off, acc, s)
      | Some d => if 3 <? off then None else hex_run r (off + 1) (acc * 16 + d)
      end
  end.

(** The group loop of [parseIPv6]; [fuel] is the number of 16-bit groups that
    still fit, [groups] the ones read.  Result: groups, place of the ellipsis,
    unread text. *)
Fixpoint ipv6_groups (fuel : nat) (s : string) (groups : list Z) (ellipsis : option nat)
  : option (list Z * option nat * string) :=
  match fuel with
  | O => Some (groups, ellipsis, s)
  | S fuel' =>
      match hex_run s 0 0 with
      | None => None
      | Some (off, acc, rest) =>
          if off =? 0 then None
          else match rest with
          | EmptyString => Some (groups ++ [acc], ellipsis, "")
          | String c r =>
              if Ascii.eqb c dot then
                if bool_decide (ellipsis = None) && negb (Nat.eqb fuel 2) then None
                else if Nat.ltb fuel 2 then None
                else match ipv4_fields s 0 0 0 [] with
                     | Some [a; b; c'; d] =>
                         Some (groups ++ [a * 256 + b; c' * 256 + d], ellipsis, "")
                     | _ => None
                     end
              else if negb (Ascii.eqb c colon) then None
              else match r with
                   | EmptyString => None
                   | String c2 r2 =>
                       if Ascii.eqb c2 colon then
                         if bool_decide (ellipsis = None) then
                           let e := Some (S (length groups)) in
                           match r2 with
                           | EmptyString => Some (groups ++ [acc], e, "")
                           | _ => ipv6_groups fuel' r2 (groups ++ [acc]) e
                           end
                         else None
                       else ipv6_groups fuel' r (groups ++ [acc]) ellipsis
                   end
          end
      end
  end.

(** The end of [parseIPv6]: nothing unread, the ellipsis expanded. *)
Definition ipv6_finish (r : list Z * option nat * string) : option Z :=
  let '(g, e, s) := r in
  match s with
  | String _ _ => None
  | EmptyString =>
      if Nat.ltb (length g) 8 then
        match e with
        | None => None
        | Some k => Some (of_digits 16 (take k g ++ replicate (8 - length g) 0 ++ drop k g))
        end
      else match e with Some _ => None | None => Some (of_digits 16 g) end
  end.

Definition parseIPv6 (inp : string) : option Addr :=
  let '(s, zone, found) := Cut inp "%" in
  if found && bool_decide (zone = "") then None
  else
    let v :=
      if HasPrefix s "::" then
        match drop_bytes 2 s with
        | EmptyString => Some 0
        | r => r' ← ipv6_groups 8 r [] (Some 0%nat); ipv6_finish r'
        end
      else r' ← ipv6_groups 8 s [] None; ipv6_finish r' in
    match v with Some v => Some (Addr6 v zone) | None => None end.

Fixpoint ParseAddr_scan (whole s : string) : option Addr :=
  match s with
  | EmptyString => None
  | String c r =>
      if Ascii.eqb c dot then parseIPv4 whole
      else if Ascii.eqb c colon then parseIPv6 whole
      else if Ascii.eqb c percent then None
      else ParseAddr_scan whole r
  end.

(** [netip.ParseAddr(s)]; [None] for the error. *)
Definition ParseAddr (s : string) : option Addr := ParseAddr_scan s s.

(** *** Printing *)

Definition decdigit (n : Z) : ascii := chr (48 + n).

Definition dec_octet (n : Z) : string :=
  let last := String (decdigit (n mod 10)) "" in
  if n <? 10 then last
  else if n <? 100 then String (decdigit (n / 10)) last
  else String (decdigit (n / 100)) (String (decdigit (n / 10 mod 10)) last).

Definition octet (v i : Z) : Z := Z.land (Z.shiftr v (8 * i)) 255.

Definition Addr4_String (v : Z) : string :=
  Join (map dec_octet [octet v 3; octet v 2; octet v 1; octet v 0]) ".".

(** A 16-bit group without leading zeros. *)
Definition hex_group (n : Z) : string :=
  (if n <? 4096 then "" else String (hexdigit (n / 4096)) "") +:+
  (if n <? 256 then "" else String (hexdigit (n / 256 mod 16)) "") +:+
  (if n <? 16 then "" else String (hexdigit (n / 16 mod 16)) "") +:+
  String (hexdigit (n mod 16)) "".

Fixpoint zero_run (l : list Z) : nat :=
  match l with
  | d :: l' => if d =? 0 then S (zero_run l') else O
  | [] => O
  end.

(** The first longest run of two or more zero groups: [(start, length)]. *)
Fixpoint best_run (l : list Z) (i : nat) (best : nat * nat) : nat * nat :=
  match l with
  | [] => best
  | _ :: l' =>
      let k := zero_run l in
      best_run l' (S i) (if Nat.leb 2 k && Nat.ltb (snd best) k then (i, k) else best)
  end.

Definition Addr6_String (v : Z) : string :=
  let g := map (fun i => Z.land (Z.shiftr v (16 * i)) 65535) [7; 6; 5; 4; 3; 2; 1; 0] in
  let '(start, k) := best_run g 0%nat (0%nat, 0%nat) in
  if Nat.eqb k 0 then Join (map hex_group g) ":"
  else Join (map hex_group (take start g)) ":" +:+ "::" +:+
       Join (map hex_group (drop (start + k)%nat g)) ":".

(** [ip.String()]. *)
Definition Addr_String (a : Addr) : string :=
  match a with
  | Addr0 => "invalid IP"
  | Addr4 v => Addr4_String v
  | Addr6 v zone =>
      let z := match zone with EmptyString => "" | _ => "%" +:+ zone end in
      if Is4In6 a then "::ffff:" +:+ Addr4_String (Z.land v (Z.ones 32)) +:+ z
      else Addr6_String v +:+ z
  end.

(** *** Classes of addresses *)

Definition IsPrivate (a : Addr) : bool :=
  match Unmap a with
  | Addr4 v => (octet v 3 =? 10)
      || ((octet v 3 =? 172) && (Z.land (octet v 2) 240 =? 16))
      || ((octet v 3 =? 192) && (octet v 2 =? 168))
  | Addr6 v _ => Z.land (Z.shiftr v 120) 254 =? 252
  | Addr0 => false
  end.

Definition IsLoopback (a : Addr) : bool :=
  match Unmap a with
  | Addr4 v => octet v 3 =? 127
  | Addr6 v _ => v =? 1
  | Addr0 => false
  end.

Definition IsLinkLocalUnicast (a : Addr) : bool :=
  match Unmap a with
  | Addr4 v => (octet v 3 =? 169) && (octet v 2 =? 254)
  | Addr6 v _ => Z.land (Z.shiftr v 112) 65472 =? 65152
  | Addr0 => false
  end.

(** ** Prefixes *)

Record Prefix : Type := MkPrefix { p_ip : Addr; p_bitsPlusOne : Z }.

#[global] Instance Prefix_eq_dec : EqDecision Prefix.
Proof. solve_decision. Defined.

(** [netip.Prefix{}]. *)
Definition Prefix0 : Prefix := MkPrefix Addr0 0.

Definition Bits (p : Prefix) : Z := p_bitsPlusOne p - 1.

Definition Prefix_IsValid (p : Prefix) : bool := 0 <? p_bitsPlusOne p.

Definition PrefixFrom (a : Addr) (bits : Z) : Prefix :=
  MkPrefix (withoutZone a)
    (if negb (bool_decide (a = Addr0)) && (0 <=? bits) && (bits <=? BitLen a)
     then bits + 1 else 0).

(** The top [b] bits of a [w]-bit number. *)
Definition mask_top (w b v : Z) : Z := Z.land v (Z.shiftl (Z.ones b) (w - b)).

(** [ip.Prefix(b)]; the error and the zero address give [Prefix{}]. *)
Definition Addr_Prefix (a : Addr) (b : Z) : Prefix :=
  match a with
  | Addr0 => Prefix0
  | Addr4 v =>
      if (b <? 0) || (32 <? b) then Prefix0 else PrefixFrom (Addr4 (mask_top 32 b v)) b
  | Addr6 v z =>
      if (b <? 0) || (128 <? b) then Prefix0 else PrefixFrom (Addr6 (mask_top 128 b v) "") b
  end.

Definition Masked (p : Prefix) : Prefix := Addr_Prefix (p_ip p) (Bits p).

(** [p.Contains(ip)]. *)
Definition Prefix_Contains (p : Prefix) (a : Addr) : bool :=
  if negb (Prefix_IsValid p) || hasZone a then false
  else match p_ip p, a with
  | Addr4 u, Addr4 v => Z.shiftr (Z.lxor v u) (32 - Bits p) =? 0
  | Addr6 u _, Addr6 v _ => mask_top 128 (Bits p) (Z.lxor v u) =? 0
  | _, _ => false
  end.

(** ** [net.IP], [net.IPMask], [net.IPNet] *)

(** [ip.To4()]; [None] for [nil]. *)
Definition To4 (ip : list Byte.byte) : option (list Byte.byte) :=
  if Z.of_nat (length ip) =? 4 then Some ip
  else if (Z.of_nat (length ip) =? 16) &&
          bool_decide (map bval (take 12 ip) = replicate 10 0 ++ [255; 255])
  then Some (drop 12 ip)
  else None.

(** The leading one bits of a byte, when only zeros follow them. *)
Definition byte_ones (b : Z) : option Z :=
  if b =? 255 then Some 8 else if b =? 254 then Some 7 else if b =? 252 then Some 6
  else if b =? 248 then Some 5 else if b =? 240 then Some 4 else if b =? 224 then Some 3
  else if b =? 192 then Some 2 else if b =? 128 then Some 1 else if b =? 0 then Some 0
  else None.

(** [simpleMaskLength]; [None] for [-1]. *)
Fixpoint simpleMaskLength (m : list Byte.byte) : option Z :=
  match m with
  | [] => Some 0
  | b :: m' =>
      if bval b =? 255 then n ← simpleMaskLength m'; Some (8 + n)
      else if forallb (fun x => bval x =? 0) m' then byte_ones (bval b) else None
  end.

(** [ones, bits := m.Size()]: [0, 0] for a mask that is not canonical. *)
Definition Mask_Size (m : list Byte.byte) : Z * Z :=
  match simpleMaskLength m with
  | Some n => (n, 8 * Z.of_nat (length m))
  | None => (0, 0)
  end.

Record IPNet : Type := MkIPNet { n_IP : list Byte.byte; n_Mask : list Byte.byte }.

(** The [net.Addr]s an interface lists: only [*net.IPNet] matters. *)
Inductive IfAddr : Type := IfIPNet (n : IPNet) | IfOther.

Record Interface : Type := MkInterface { i_Name : string; i_Index : Z; i_Flags : Z }.

Definition FlagUp : Z := 1.
Definition FlagLoopback : Z := 4.
Definition FlagPointToPoint : Z := 8.

(** [net.ParseIP(s)] as the 16 bytes' address: IPv4 addresses are mapped, a
    zone is refused. *)
Definition ParseIP (s : string) : option Z :=
  match ParseAddr s with
  | Some (Addr4 v) => Some (65535 * 2 ^ 32 + v)
  | Some (Addr6 v "") => Some v
  | _ => None
  end.

(** [ip.To4() != nil] for a 16-byte address. *)
Definition ip16_is4 (v : Z) : bool := Z.shiftr v 32 =? 65535.

(** The peer address of a connection: only [*net.TCPAddr] matters. *)
Inductive NetAddr : Type :=
| TCPAddr (ip : list Byte.byte) (port : Z) (zone : string)
| OtherNetAddr.

(** [net.JoinHostPort(host, port)]. *)
Definition JoinHostPort (host port : string) : string :=
  if Contains host ":" then "[" +:+ host +:+ "]:" +:+ port else host +:+ ":" +:+ port.

(** ** Well-formed values *)

Definition is_byte (b : Z) : Prop := 0 <= b < 256.

(** The length of a hardware address [ParseMAC] accepts. *)
Definition mac_ok (hw : HardwareAddr) : Prop :=
  Forall is_byte hw /\ mac_len_ok (Z.of_nat (length hw)) = true.

(** Two hex digits of either case that denote [b]. *)
Definition pair_text (b : Z) (t : string) : Prop :=
  exists c1 c2 x y, t = String c1 (String c2 "") /\ hexval c1 = Some x /\
    hexval c2 = Some y /\ b = 16 * x + y.

(** ** Lemmas: hardware addresses *)

Lemma hexval_range c n : hexval c = Some n -> 0 <= n < 16.
Proof.
  unfold hexval. intros H.
  repeat (split_match_in H; [injection H as <-; bools; lia|]). done.
Qed.

Lemma hexval_hexdigit n : 0 <= n < 16 -> hexval (hexdigit n) = Some n.
Proof.
  intros Hn.
  pose proof (below_forall (fun n => bool_decide (hexval (hexdigit n) = Some n)) 16 n
    eq_refl Hn) as H.
  cbv beta in H. by bools.
Qed.

Lemma hexval_hex2 b :
  is_byte b ->
  hexval (hexdigit (b / 16)) = Some (b / 16) /\ hexval (hexdigit (b mod 16)) = Some (b mod 16).
Proof.
  unfold is_byte. intros Hb. split; apply hexval_hexdigit.
  - split; [apply Z.div_pos; lia|apply Z.div_lt_upper_bound; lia].
  - apply Z.mod_pos_bound. lia.
Qed.

Lemma hexval_colon c n : hexval c = Some n -> Ascii.eqb c colon = false.
Proof. intros H. apply Ascii.eqb_neq. by intros ->. Qed.

Lemma pair_text_hex2 b : is_byte b -> pair_text b (hex2 b).
Proof.
  intros Hb. destruct (hexval_hex2 b Hb) as [H1 H2].
  exists (hexdigit (b / 16)), (hexdigit (b mod 16)), (b / 16), (b mod 16).
  repeat split; [done|done|]. apply Z.div_mod. lia.
Qed.

Lemma pair_text_byte b t : pair_text b t -> is_byte b.
Proof.
  intros (c1 & c2 & x & y & _ & H1%hexval_range & H2%hexval_range & ->). split; lia.
Qed.

Lemma pair_text_lacks b t : pair_text b t -> lacks colon t = true.
Proof.
  intros (c1 & c2 & x & y & -> & H1%hexval_colon & H2%hexval_colon & _).
  unfold lacks. cbn [string_forallb]. by rewrite H1, H2.
Qed.

Lemma parse_octets_pairs hw ts :
  Forall2 pair_text hw ts -> hw <> [] ->
  parse_octets colon (Join ts (String colon "")) = Some hw.
Proof.
  induction 1 as [|b t hw ts Hb Hts IH]; [done|]. intros _.
  destruct Hb as (c1 & c2 & x & y & -> & H1 & H2 & ->).
  destruct Hts as [|b' t' hw ts Hb' Hts].
  - rewrite Join_one. cbn [parse_octets]. by rewrite H1, H2.
  - rewrite Join_cons, !append_cons, append_nil_l. cbn [parse_octets].
    rewrite H1, H2, Ascii.eqb_refl, IH by done. done.
Qed.

Lemma length_Join_pairs hw ts :
  Forall2 pair_text hw ts -> hw <> [] ->
  len (Join ts (String colon "")) = 3 * Z.of_nat (length hw) - 1.
Proof.
  unfold len. induction 1 as [|b t hw ts Hb Hts IH]; [done|]. intros _.
  destruct Hb as (c1 & c2 & x & y & -> & _).
  destruct Hts as [|b' t' hw ts Hb' Hts]; [done|].
  rewrite Join_cons, length_append. cbn [String.length]. cbn [length] in *.
  specialize (IH ltac:(done)). lia.
Qed.

Lemma mac_len_cases n : mac_len_ok n = true -> n = 6 \/ n = 8 \/ n = 20.
Proof. unfold mac_len_ok. rewrite !orb_true_iff, !Z.eqb_eq. lia. Qed.

(** Colon-separated pairs of hex digits parse to the bytes they denote. *)
Lemma ParseMAC_pairs hw ts :
  Forall2 pair_text hw ts -> mac_len_ok (Z.of_nat (length hw)) = true ->
  ParseMAC (Join ts (String colon "")) = Some hw.
Proof.
  intros Hts Hlen. pose proof (mac_len_cases _ Hlen) as Hl.
  assert (hw <> []) as Hne by (intros ->; cbn in Hl; lia).
  pose proof (length_Join_pairs hw ts Hts Hne) as HL.
  pose proof (parse_octets_pairs hw ts Hts Hne) as HP.
  assert (exists a b r, Join ts (String colon "") = String a (String b (String colon r))) as Hs.
  { destruct Hts as [|b t hw ts (c1 & c2 & x & y & -> & _) Hts]; [done|].
    destruct Hts; [cbn in Hl; lia|].
    rewrite Join_cons, !append_cons, append_nil_l. eauto. }
  destruct Hs as (a & b & r & Hs). unfold ParseMAC.
  rewrite (proj2 (Z.ltb_ge _ _)) by lia.
  rewrite Hs at 1. cbn [String.get].
  assert (exists c4, String.get 4 (Join ts (String colon "")) = Some c4) as [c4 ->].
  { rewrite Hs in HL |- *. unfold len in HL.
    destruct r as [|? [|? ?]]; cbn in HL |- *; [lia|lia|eauto]. }
  rewrite Ascii.eqb_refl. cbn [orb].
  replace (len (Join ts (String colon "")) + 1) with (Z.of_nat (length hw) * 3) by lia.
  rewrite Z.mod_mul, Z.div_mul by lia. cbn [Z.eqb negb]. rewrite Hlen. exact HP.
Qed.

(** Printing then parsing a hardware address is the identity. *)
Lemma ParseMAC_String hw : mac_ok hw -> ParseMAC (HardwareAddr_String hw) = Some hw.
Proof.
  intros [Hb Hlen]. apply ParseMAC_pairs; [|done].
  clear Hlen. induction Hb; cbn [map]; constructor; auto using pair_text_hex2.
Qed.

Lemma parse_octets_length sep s hw :
  parse_octets sep s = Some hw -> len s + 1 = 3 * Z.of_nat (length hw).
Proof.
  revert hw. induction s as [s IH] using (induction_ltof1 _ String.length).
  unfold ltof in IH. intros hw H.
  destruct s as [|a [|b r]]; cbn in H; [done|done|].
  destruct (hexval a), (hexval b); try done.
  destruct r as [|c r]; [by injection H as <-|].
  destruct (Ascii.eqb c sep); [|done].
  destruct (parse_octets sep r) as [hw'|] eqn:E; [|done]. injection H as <-.
  apply IH in E; [|cbn; lia]. unfold len in *. cbn [String.length length]. lia.
Qed.

Lemma parse_octets_bytes sep s hw : parse_octets sep s = Some hw -> Forall is_byte hw.
Proof.
  revert hw. induction s as [s IH] using (induction_ltof1 _ String.length).
  unfold ltof in IH. intros hw H.
  destruct s as [|a [|b r]]; cbn in H; [done|done|].
  destruct (hexval a) as [x|] eqn:Ha, (hexval b) as [y|] eqn:Hb; try done.
  apply hexval_range in Ha, Hb.
  destruct r as [|c r]; [injection H as <-; by repeat constructor; lia|].
  destruct (Ascii.eqb c sep); [|done].
  destruct (parse_octets sep r) as [hw'|] eqn:E; [|done]. injection H as <-.
  constructor; [split; lia|]. apply IH in E; [done|cbn; lia].
Qed.

Lemma parse_groups_ok s hw :
  parse_groups s = Some hw -> Forall is_byte hw /\ 2 * (len s + 1) = 5 * Z.of_nat (length hw).
Proof.
  revert hw. induction s as [s IH] using (induction_ltof1 _ String.length).
  unfold ltof in IH. intros hw H.
  destruct s as [|a [|b [|c [|d r]]]]; cbn in H; try done.
  destruct (hexval a) as [x|] eqn:Ha, (hexval b) as [y|] eqn:Hb,
    (hexval c) as [z|] eqn:Hc, (hexval d) as [t|] eqn:Hd; try done.
  apply hexval_range in Ha, Hb, Hc, Hd.
  destruct r as [|e r].
  - injection H as <-. split; [repeat constructor; lia|done].
  - destruct (Ascii.eqb e dot); [|done].
    destruct (parse_groups r) as [hw'|] eqn:E; [|done]. injection H as <-.
    apply IH in E as [E1 E2]; [|cbn; lia].
    split; [do 2 (constructor; [split; lia|]); done|].
    unfold len in *. cbn [String.length length]. lia.
Qed.

(** Every parsed hardware address has byte octets and an accepted length. *)
Lemma ParseMAC_ok s hw : ParseMAC s = Some hw -> mac_ok hw.
Proof.
  unfold ParseMAC. intros H.
  destruct (len s <? 14) eqn:E0; [done|].
  destruct (String.get 2 s) as [c2|]; [|done]. destruct (String.get 4 s) as [c4|]; [|done].
  destruct (Ascii.eqb c2 colon || Ascii.eqb c2 dash).
  - split_match_in H; [done|]. split_match_in H; [done|]. bools.
    pose proof (parse_octets_length _ _ _ H) as HL. split; [by eapply parse_octets_bytes|].
    rewrite HL, (Z.mul_comm 3), Z.div_mul in * by lia. done.
  - split_match_in H; [|done]. split_match_in H; [done|]. split_match_in H; [done|]. bools.
    apply parse_groups_ok in H as [HB HL]. split; [done|].
    rewrite HL, (Z.mul_comm 5), Z.div_mul in * by lia. done.
Qed.

(** Every MAC [ParseMAC] accepts is colon-separated pairs, or has no colon at all. *)

Lemma hexval_pair a b x y :
  hexval a = Some x -> hexval b = Some y -> pair_text (16 * x + y) (String a (String b "")).
Proof. intros Ha Hb. exists a, b, x, y. auto. Qed.

Lemma lacks_hex c x s : hexval c = Some x -> lacks colon s = true -> lacks colon (String c s) = true.
Proof. intros Hc%hexval_colon Hs. unfold lacks in *. cbn [string_forallb]. by rewrite Hc. Qed.

Lemma parse_octets_text s hw :
  parse_octets colon s = Some hw -> exists ts, s = Join ts (String colon "") /\ Forall2 pair_text hw ts.
Proof.
  revert hw. induction s as [s IH] using (induction_ltof1 _ String.length).
  unfold ltof in IH. intros hw H.
  destruct s as [|a [|b r]]; cbn in H; [done|done|].
  destruct (hexval a) as [x|] eqn:Ex; [|done]. destruct (hexval b) as [y|] eqn:Ey; [|done].
  destruct r as [|c r].
  { injection H as <-. exists [String a (String b "")]. split; [done|]. constructor; [by apply hexval_pair|constructor]. }
  destruct (Ascii.eqb_spec c colon) as [->|]; [|done].
  destruct (parse_octets colon r) as [hw'|] eqn:E; [|done]. injection H as <-.
  destruct (IH r ltac:(cbn; lia) hw' E) as (ts & -> & Hts).
  exists (String a (String b "") :: ts). split; [|constructor; [by apply hexval_pair|done]].
  destruct ts as [|t ts].
  - done.
  - rewrite Join_cons. done.
Qed.

Lemma parse_octets_lacks sep s hw :
  Ascii.eqb sep colon = false -> parse_octets sep s = Some hw -> lacks colon s = true.
Proof.
  intros Hsep. revert hw. induction s as [s IH] using (induction_ltof1 _ String.length).
  unfold ltof in IH. intros hw H.
  destruct s as [|a [|b r]]; cbn in H; [done|done|].
  destruct (hexval a) as [x|] eqn:Ex; [|done]. destruct (hexval b) as [y|] eqn:Ey; [|done].
  eapply lacks_hex; [done|]. eapply lacks_hex; [done|].
  destruct r as [|c r]; [done|]. destruct (Ascii.eqb_spec c sep) as [->|]; [|done].
  destruct (parse_octets sep r) as [hw'|] eqn:E; [|done].
  apply IH in E; [|cbn; lia]. unfold lacks in *. cbn [string_forallb]. by rewrite Hsep.
Qed.

Lemma parse_groups_lacks s hw : parse_groups s = Some hw -> lacks colon s = true.
Proof.
  revert hw. induction s as [s IH] using (induction_ltof1 _ String.length).
  unfold ltof in IH. intros hw H.
  destruct s as [|a [|b [|c [|d r]]]]; cbn in H; try done.
  destruct (hexval a) as [x|] eqn:Ex; [|done]. destruct (hexval b) as [y|] eqn:Ey; [|done].
  destruct (hexval c) as [z|] eqn:Ez; [|done]. destruct (hexval d) as [t|] eqn:Et; [|done].
  do 4 (eapply lacks_hex; [done|]).
  destruct r as [|e r]; [done|]. destruct (Ascii.eqb_spec e dot) as [->|]; [|done].
  destruct (parse_groups r) as [hw'|] eqn:E; [|done].
  apply IH in E; [|cbn; lia]. unfold lacks in *. cbn [string_forallb]. done.
Qed.

Lemma ParseMAC_shape s hw :
  ParseMAC s = Some hw ->
  (exists ts, s = Join ts (String colon "") /\ Forall2 pair_text hw ts) \/ (lacks colon s = true /\ 14 <= len s).
Proof.
  unfold ParseMAC. destruct (Z.ltb_spec (len s) 14) as [|H14]; [done|]. intros H.
  destruct (String.get 2 s) as [c2|]; [|done]. destruct (String.get 4 s) as [c4|]; [|done].
  destruct (Ascii.eqb_spec c2 colon) as [->|Hc]; cbn [orb] in H.
  - do 2 (split_match_in H; [done|]). left. by apply parse_octets_text.
  - right. split; [|done]. destruct (Ascii.eqb c2 dash).
    + do 2 (split_match_in H; [done|]). eapply parse_octets_lacks; [|done]. by apply Ascii.eqb_neq.
    + destruct (Ascii.eqb c4 dot); [|done]. do 2 (split_match_in H; [done|]). by eapply parse_groups_lacks.
Qed.

(** ** Lemmas: addresses *)

#[local] Ltac Zify.zify_post_hook ::= Z.to_euclidean_division_equations.

Lemma decval_decdigit d : 0 <= d < 10 -> decval (decdigit d) = Some d.
Proof.
  intros Hd.
  pose proof (below_forall (fun d => bool_decide (decval (decdigit d) = Some d)) 10 d
    eq_refl Hd) as H.
  cbv beta in H. by bools.
Qed.

Lemma ipv4_fields_digit d r val digLen pos acc :
  0 <= d < 10 -> (digLen <> 1 \/ val <> 0) -> val * 10 + d <= 255 ->
  ipv4_fields (String (decdigit d) r) val digLen pos acc =
    ipv4_fields r (val * 10 + d) (digLen + 1) pos acc.
Proof.
  intros Hd Hv Hle. cbn [ipv4_fields]. rewrite decval_decdigit by done.
  destruct (Z.eqb_spec digLen 1), (Z.eqb_spec val 0); try lia; cbn [andb];
    by rewrite (proj2 (Z.ltb_ge _ _)) by lia.
Qed.

(** A printed octet is read back as one field. *)
Lemma ipv4_fields_octet n r pos acc :
  is_byte n ->
  exists k, 0 < k /\ ipv4_fields (dec_octet n +:+ r) 0 0 pos acc = ipv4_fields r n k pos acc.
Proof.
  unfold is_byte, dec_octet. intros Hn.
  destruct (Z.ltb_spec n 10); [|destruct (Z.ltb_spec n 100)];
    rewrite !append_cons, append_nil_l;
    [exists 1|exists 2|exists 3]; (split; [lia|]);
    rewrite !ipv4_fields_digit by lia; f_equal; lia.
Qed.

Lemma ipv4_fields_dot r n k pos acc :
  0 < k -> r <> "" -> pos <> 3 ->
  ipv4_fields (String dot r) n k pos acc = ipv4_fields r 0 0 (pos + 1) (n :: acc).
Proof.
  intros Hk Hr Hp. cbn [ipv4_fields]. change (decval dot) with (@None Z).
  rewrite Ascii.eqb_refl, (proj2 (Z.eqb_neq k 0)), bool_decide_eq_false_2 by (done || lia).
  by rewrite (proj2 (Z.eqb_neq pos 3)).
Qed.

Lemma dec_octet_app_ne n r : dec_octet n +:+ r <> "".
Proof. unfold dec_octet. by destruct (n <? 10), (n <? 100). Qed.

Lemma ipv4_fields_print a b c d :
  is_byte a -> is_byte b -> is_byte c -> is_byte d ->
  ipv4_fields (Join (map dec_octet [a; b; c; d]) ".") 0 0 0 [] = Some [a; b; c; d].
Proof.
  intros Ha Hb Hc Hd. cbn [map]. change "." with (String dot "").
  rewrite !Join_cons, Join_one.
  rewrite <- (append_nil_r (dec_octet d)).
  destruct (ipv4_fields_octet a
    (String dot (dec_octet b +:+ String dot (dec_octet c +:+ String dot (dec_octet d +:+ ""))))
    0 [] Ha) as (k1 & H1 & E1).
  destruct (ipv4_fields_octet b
    (String dot (dec_octet c +:+ String dot (dec_octet d +:+ ""))) 1 [a] Hb) as (k2 & H2 & E2).
  destruct (ipv4_fields_octet c (String dot (dec_octet d +:+ "")) 2 [b; a] Hc) as (k3 & H3 & E3).
  destruct (ipv4_fields_octet d "" 3 [c; b; a] Hd) as (k4 & H4 & E4).
  rewrite E1, ipv4_fields_dot by (done || lia || apply dec_octet_app_ne).
  change (0 + 1) with 1.
  rewrite E2, ipv4_fields_dot by (done || lia || apply dec_octet_app_ne).
  change (1 + 1) with 2.
  rewrite E3, ipv4_fields_dot by (done || lia || apply dec_octet_app_ne).
  change (2 + 1) with 3. by rewrite E4.
Qed.

Lemma octet_byte v i : is_byte (octet v i).
Proof.
  unfold is_byte, octet. change 255 with (Z.ones 8). rewrite Z.land_ones by lia.
  apply Z.mod_pos_bound. lia.
Qed.

Lemma octet_div v i : 0 <= i -> octet v i = v / 2 ^ (8 * i) mod 256.
Proof.
  intros Hi. unfold octet. change 255 with (Z.ones 8).
  by rewrite Z.land_ones, Z.shiftr_div_pow2 by lia.
Qed.

Lemma of_digits_octets v :
  0 <= v < 2 ^ 32 -> of_digits 8 [octet v 3; octet v 2; octet v 1; octet v 0] = v.
Proof.
  intros Hv. rewrite !octet_div by lia. unfold of_digits. cbn [fold_left].
  change (2 ^ (8 * 3)) with 16777216. change (2 ^ (8 * 2)) with 65536.
  change (2 ^ (8 * 1)) with 256. change (2 ^ (8 * 0)) with 1. change (2 ^ 8) with 256.
  change (2 ^ 32) with 4294967296 in Hv. lia.
Qed.

Lemma ParseAddr_scan_digits whole n r :
  is_byte n -> ParseAddr_scan whole (dec_octet n +:+ r) = ParseAddr_scan whole r.
Proof.
  assert (forall d s, 0 <= d < 10 ->
    ParseAddr_scan whole (String (decdigit d) s) = ParseAddr_scan whole s) as Hd.
  { intros d s Hd. cbn [ParseAddr_scan].
    pose proof (below_forall (fun d => negb (Ascii.eqb (decdigit d) dot ||
      Ascii.eqb (decdigit d) colon || Ascii.eqb (decdigit d) percent)) 10 d eq_refl Hd) as H.
    cbv beta in H. bools. by repeat match goal with H : Ascii.eqb _ _ = false |- _ => rewrite H; clear H end. }
  unfold is_byte, dec_octet. intros Hn.
  destruct (Z.ltb_spec n 10); [|destruct (Z.ltb_spec n 100)];
    rewrite !append_cons, append_nil_l; by rewrite !Hd by lia.
Qed.

(** Printing then parsing an IPv4 address is the identity. *)
Lemma ParseAddr_String4 v :
  0 <= v < 2 ^ 32 -> ParseAddr (Addr_String (Addr4 v)) = Some (Addr4 v).
Proof.
  intros Hv. unfold ParseAddr. cbn [Addr_String].
  set (w := Addr4_String v) at 1. unfold Addr4_String. cbn [map].
  change "." with (String dot ""). rewrite Join_cons.
  rewrite ParseAddr_scan_digits by apply octet_byte. cbn [ParseAddr_scan]. rewrite Ascii.eqb_refl.
  unfold parseIPv4, w, Addr4_String. rewrite ipv4_fields_print by apply octet_byte.
  by rewrite of_digits_octets.
Qed.

(** An IPv4 address has one text: the parser accepts the printed form only. *)

Lemma dec_octet_snoc val d :
  0 < val -> 0 <= d < 10 -> val * 10 + d <= 255 ->
  dec_octet val +:+ String (decdigit d) "" = dec_octet (val * 10 + d).
Proof.
  intros Hv Hd Hle.
  pose proof (below_forall (fun n => negb (10 <=? n) || String.eqb (dec_octet n)
    (dec_octet (n / 10) +:+ String (decdigit (n mod 10)) "")) 256 (val * 10 + d) eq_refl ltac:(lia)) as H.
  cbv beta in H. rewrite (proj2 (Z.leb_le 10 _)) in H by lia. cbn [negb orb] in H.
  apply String.eqb_eq in H. rewrite H. f_equal; [f_equal; lia|do 3 f_equal; lia].
Qed.

Lemma decval_inv c d : decval c = Some d -> 0 <= d < 10 /\ c = decdigit d.
Proof.
  unfold decval. intros H. split_match_in H; [|done]. injection H as <-. bools.
  split; [lia|]. unfold decdigit, chr, code in *.
  replace (48 + (Z.of_nat (nat_of_ascii c) - 48)) with (Z.of_nat (nat_of_ascii c)) by lia.
  by rewrite Nat2Z.id, ascii_nat_embedding.
Qed.

(** What has been read of the current field. *)
Definition field_read (t : string) (val digLen : Z) : Prop :=
  (t = "" /\ val = 0 /\ digLen = 0) \/
  (t = dec_octet val /\ is_byte val /\ 0 < digLen /\ (val = 0 -> digLen = 1)).

Lemma ipv4_fields_text s t val digLen acc f :
  field_read t val digLen -> (t = "" -> s <> "") -> (length acc <= 3)%nat ->
  ipv4_fields s val digLen (Z.of_nat (length acc)) acc = Some f ->
  exists fs, f = rev acc ++ fs /\ length f = 4%nat /\ Forall is_byte fs /\
    t +:+ s = Join (map dec_octet fs) ".".
Proof.
  revert t val digLen acc. induction s as [|c s IH]; intros t val digLen acc Ht Hne Hacc; cbn [ipv4_fields].
  - destruct (Z.ltb_spec (Z.of_nat (length acc)) 3); [done|]. intros [= <-].
    destruct Ht as [[-> _]|(-> & Hb & _)]; [by destruct Hne|].
    exists [val]. cbn. rewrite length_app, length_rev, append_nil_r. cbn. split_and!; [done|lia| |done].
    by constructor.
  - destruct (decval c) as [d|] eqn:Ec.
    + destruct ((digLen =? 1) && (val =? 0)) eqn:E0; [done|].
      destruct (Z.ltb_spec 255 (val * 10 + d)); [done|]. apply decval_inv in Ec as [Hd ->]. intros Hf.
      assert (exists t', field_read t' (val * 10 + d) (digLen + 1) /\ t' <> "" /\
        t +:+ String (decdigit d) s = t' +:+ s) as (t' & Ht' & Hne' & ->).
      { destruct Ht as [(-> & -> & ->)|(-> & Hb & Hl & Hz)].
        - exists (dec_octet d). split_and!.
          + right. unfold is_byte. split_and!; lia || done.
          + rewrite <- (append_nil_r (dec_octet d)). apply dec_octet_app_ne.
          + unfold dec_octet. rewrite (proj2 (Z.ltb_lt d 10)), Z.mod_small by lia. done.
        - assert (0 < val) as Hpos.
          { unfold is_byte in Hb. destruct (Z.eq_dec val 0) as [->|]; [|lia]. by rewrite Hz in E0. }
          exists (dec_octet (val * 10 + d)). rewrite <- dec_octet_snoc by lia. split_and!.
          + right. rewrite dec_octet_snoc by lia. unfold is_byte in *. split_and!; lia || done.
          + apply dec_octet_app_ne.
          + by rewrite append_assoc. }
      eapply IH; [exact Ht'|done|done|exact Hf].
    + destruct (Ascii.eqb_spec c dot) as [->|]; [|done].
      destruct (Z.eqb_spec digLen 0); [done|]. case_bool_decide as Hs; [done|]. cbn [orb].
      destruct (Z.eqb_spec (Z.of_nat (length acc)) 3); [done|]. intros Hf.
      destruct Ht as [(-> & -> & ->)|(-> & Hb & Hl & Hz)]; [done|].
      replace (Z.of_nat (length acc) + 1) with (Z.of_nat (length (val :: acc))) in Hf by (cbn; lia).
      apply (IH "") in Hf as (fs & -> & Hlen & Hfs & Heq); [|by left|done|cbn; lia].
      exists (val :: fs). cbn [rev] in *. rewrite <- app_assoc in *. cbn [app] in *.
      split_and!; [done|done|by constructor|].
      rewrite append_nil_l in Heq. subst s. cbn [map].
      destruct fs as [|g fs]; [cbn in Hs; done|]. cbn [map]. change "." with (String dot "").
      by rewrite Join_cons.
Qed.

Lemma ParseAddr_scan_v4 whole s v : ParseAddr_scan whole s = Some (Addr4 v) -> parseIPv4 whole = Some (Addr4 v).
Proof.
  induction s as [|c s IH]; cbn [ParseAddr_scan]; [done|].
  destruct (Ascii.eqb c dot); [done|]. destruct (Ascii.eqb c colon); [|destruct (Ascii.eqb c percent); auto; done].
  unfold parseIPv6. intros H. repeat split_match_in H; done.
Qed.

Lemma ParseAddr4_text s v :
  ParseAddr s = Some (Addr4 v) -> s = Addr_String (Addr4 v) /\ 0 <= v < 2 ^ 32.
Proof.
  intros H%ParseAddr_scan_v4. unfold parseIPv4 in H.
  destruct (ipv4_fields s 0 0 0 []) as [f|] eqn:E; [|done]. injection H as <-.
  destruct (ipv4_fields_text s "" 0 0 [] f) as (fs & -> & Hlen & Hfs & Hs);
    [by left|by destruct s|cbn; lia|done|].
  rewrite append_nil_l in Hs. subst s. cbn [rev app] in *. destruct fs as [|a [|b [|c [|d [|]]]]]; try done.
  rewrite !Forall_cons in Hfs. destruct Hfs as (Ha & Hb & Hc & Hd & _). unfold is_byte in *.
  unfold of_digits. cbn [fold_left]. change (2 ^ 8) with 256. change (2 ^ 32) with 4294967296.
  split; [|lia]. cbn [Addr_String]. unfold Addr4_String. do 2 f_equal.
  rewrite !octet_div by lia. change (2 ^ (8 * 3)) with 16777216. change (2 ^ (8 * 2)) with 65536.
  change (2 ^ (8 * 1)) with 256. change (2 ^ (8 * 0)) with 1.
  repeat f_equal; lia.
Qed.

Lemma bval_range b : is_byte (bval b).
Proof.
  unfold is_byte, bval. pose proof (Byte.to_N_bounded b). lia.
Qed.

Lemma AddrFromSlice4 b :
  length b = 4%nat -> exists v, AddrFromSlice b = Some (Addr4 v) /\ 0 <= v < 2 ^ 32.
Proof.
  intros Hl. destruct b as [|b3 [|b2 [|b1 [|b0 [|? ?]]]]]; try done.
  eexists. split; [reflexivity|]. unfold of_digits. cbn [fold_left map].
  pose proof (bval_range b3). pose proof (bval_range b2).
  pose proof (bval_range b1). pose proof (bval_range b0). unfold is_byte in *.
  change (2 ^ 8) with 256. change (2 ^ 32) with 4294967296. lia.
Qed.

Lemma To4_length ip b : To4 ip = Some b -> length b = 4%nat.
Proof.
  unfold To4. intros H. split_match_in H; [injection H as <-; bools; lia|].
  split_match_in H; [|done]. injection H as <-. bools. rewrite length_drop. lia.
Qed.

(** ** Lemmas: prefixes *)

(** Membership in the subnet of an interface address: equal network bits. *)
Lemma Contains_Masked4 u v b :
  0 <= b <= 32 -> 0 <= u < 2 ^ 32 ->
  Prefix_Contains (Masked (PrefixFrom (Addr4 u) b)) (Addr4 v) =
    bool_decide (Z.shiftr v (32 - b) = Z.shiftr u (32 - b)).
Proof.
  intros Hb Hu.
  assert (forall u, PrefixFrom (Addr4 u) b = MkPrefix (Addr4 u) (b + 1)) as HP.
  { intros u'. unfold PrefixFrom. cbn [withoutZone BitLen].
    by rewrite bool_decide_eq_false_2, !(proj2 (Z.leb_le _ _)) by (done || lia). }
  unfold Masked, Bits. rewrite HP. cbn [p_ip p_bitsPlusOne Addr_Prefix].
  replace (b + 1 - 1) with b by lia.
  rewrite !(proj2 (Z.ltb_ge _ _)) by lia. cbn [orb]. rewrite HP.
  unfold Prefix_Contains, Prefix_IsValid, Bits. cbn [p_bitsPlusOne p_ip hasZone].
  rewrite (proj2 (Z.ltb_lt _ _)) by lia. cbn [negb orb].
  replace (32 - (b + 1 - 1)) with (32 - b) by lia.
  unfold mask_top. rewrite Z.shiftr_lxor, Z.shiftr_land.
  rewrite Z.shiftr_shiftl_l, Z.sub_diag, Z.shiftl_0_r by lia.
  assert (Z.land (Z.shiftr u (32 - b)) (Z.ones b) = Z.shiftr u (32 - b)) as ->.
  { rewrite Z.land_ones by lia. apply Z.mod_small. rewrite Z.shiftr_div_pow2 by lia.
    split; [apply Z.div_pos; lia|]. apply Z.div_lt_upper_bound; [lia|].
    rewrite <- Z.pow_add_r by lia. replace (32 - b + b) with 32 by lia. lia. }
  case_bool_decide as H.
  - rewrite H, Z.lxor_nilpotent. done.
  - apply Z.eqb_neq. intros H'. apply H. by apply Z.lxor_eq.
Qed.

Lemma Contains_self4 u b :
  0 <= b <= 32 -> 0 <= u < 2 ^ 32 ->
  Prefix_Contains (Masked (PrefixFrom (Addr4 u) b)) (Addr4 u) = true.
Proof. intros Hb Hu. rewrite Contains_Masked4 by done. by apply bool_decide_eq_true_2. Qed.

Lemma Prefix0_Contains a : Prefix_Contains Prefix0 a = false.
Proof. reflexivity. Qed.

#[export] Hint Resolve Contains_self4 ParseAddr_String4 ParseMAC_String octet_byte : gosocks.
