(* ===== verification/Effects.v ===== *)
(** * Effectful code

    A Go function that reads the clock, runs a command, logs or touches shared
    state is a [prog]: a tree of atomic actions.  [Sys] is a call to the outside
    (operating system, or a library that talks to the network); its result is
    whatever the world answers.  [Crit] is a critical section: a function applied
    to the shared state while its mutex is held.  [exec] runs one goroutine to its
    end; [cstep] interleaves the actions of several goroutines with arbitrary
    changes of the world. *)

From S2P Require Import Prelude GoStrings GoNet.

(** ** The outside *)

(** [context.Context] values, by how they were derived from the one passed in. *)
Inductive ctx : Type :=
| CtxParent
| CtxWithCancel (c : ctx)
| CtxWithTimeout (c : ctx) (d : Z)
| CtxWithoutCancel (c : ctx).

#[global] Instance ctx_eq_dec : EqDecision ctx.
Proof. solve_decision. Defined.

Inductive level : Type := LevelDebug | LevelInfo | LevelWarn | LevelError.

#[global] Instance level_eq_dec : EqDecision level.
Proof. solve_decision. Defined.

(** What ends the wait of the LAN listener's owner: its context, a LAN change, the
    retry timer, or the end of the accept loop with its result. *)
Inductive lan_wake : Type :=
| WakeCtx
| WakeCheck
| WakeRetry
| WakeDone (err : option error).

(** The goroutines of the service, as the code starts them: the five of [Start], the
    three of [startProxy] ([GoLoopback] on its listener), the accept loop of a LAN
    listener, one per connection, and the watcher of [sniffLAN] for a LAN. *)
Inductive goroutine : Type :=
| GoCisco
| GoProxy
| GoDNS
| GoPinner
| GoSniffer
| GoLoopback (l : positive)
| GoServeLAN
| GoDropConns
| GoAccept (l : positive)
| GoConn (c : positive) (lan : bool)
| GoWatcher (subnet : Prefix) (iface : string).

#[global] Instance goroutine_eq_dec : EqDecision goroutine.
Proof. solve_decision. Defined.

(** The terminal UI: its goroutines, the closures given to [g.Update], what it does to
    the library's widgets (by the name of the view) and to the process, and the calls
    that can fail. *)
Inductive tui_goroutine : Type :=
| TuiAnimate
| TuiQuitWatch
| TuiLogs
| TuiStatus
| TuiUptime (start : Z).

Inductive gui_update : Type :=
| UpdQuit
| UpdBanner
| UpdLog (msg : string)
| UpdStatus
| UpdUptime (start : Z).

Inductive gui_do : Type :=
| GuiGo (g : tui_goroutine)
| GuiUpdate (u : gui_update)
| GuiColors                                       (* g.BgColor, g.FgColor = ColorDefault *)
| GuiSetManager
| GuiClose
| GuiFrame (view : string) (on : bool)
| GuiTitle (view title : string)
| GuiWrap (view : string)
| GuiAutoscroll (view : string)
| GuiFgColor (view : string) (cl : Z)
| GuiClear (view : string)
| GuiPrint (view text : string)
| CloseDone                                       (* close(done) *)
| StdToNull                                       (* os.Stdout, os.Stderr = devNull *)
| StdRestore
| DevNullClose.

Inductive gui_try : Type :=
| DevNullOpen
| GuiNew
| GuiSetView (view : string) (x0 y0 x1 y1 : Z)
| GuiView (view : string)                         (* g.View *)
| GuiBindCtrlC
| GuiMainLoop.

#[global] Instance tui_goroutine_eq_dec : EqDecision tui_goroutine.
Proof. solve_decision. Defined.
#[global] Instance gui_update_eq_dec : EqDecision gui_update.
Proof. solve_decision. Defined.
#[global] Instance gui_do_eq_dec : EqDecision gui_do.
Proof. solve_decision. Defined.
#[global] Instance gui_try_eq_dec : EqDecision gui_try.
Proof. solve_decision. Defined.

(** Calls that leave the program; a [sum] is a Go [(value, error)] pair. *)
Inductive osE : Type -> Type :=
| Exec (c : ctx) (name : string) (args : list string) (stdin : string)
    : osE (string * option error)                 (* CombinedOutput of a command *)
| CmdStart (c : ctx) (name : string) (args : list string) : osE (option error)
| CmdPipe : osE (option error)                    (* StdoutPipe *)
| CmdScan : osE (option string)                   (* next stdout line; None: scanner stopped *)
| CmdDrain : osE unit                             (* io.Copy(io.Discard, stdout) *)
| CmdWait : osE (list string * option error)      (* stderr writes, exit error *)
| TimeNow : osE Z
| SelectTimer (c : ctx) (d : Z) : osE bool        (* true: the timer fired first *)
| CtxErr (c : ctx) : osE (option error)
| NetInterfaces : osE (list Interface + error)
| NetInterfaceByName (name : string) : osE (Interface + error)
| NetAddrs (ifi : Interface) : osE (list IfAddr + error)
| Slog (l : level) (msg : string) (attrs : list (string * string)) : osE unit
| SocksSendReply (rep : Z) : osE (option error)
| SocksDNSResolve (name : string) : osE (list Byte.byte + error)
| NetListen (c : ctx) (network addr : string) (bound : option Z) : osE (positive + error)
                                                  (* bound: the index given to IP_BOUND_IF *)
| Spawn (g : goroutine) : osE unit
| GroupWait : osE (option error)                  (* g.Wait() of an errgroup *)
| ListenerClose (l : positive) : osE unit
| ListenerAddr (l : positive) : osE string
| Accept (l : positive) : osE (positive + error)
| SelectPick : osE bool                           (* which of two ready cases is taken *)
| SelectLAN (retry done : bool) : osE lan_wake
| ServeConn (c : positive) (auth : option (string * string)) : osE unit
| GuiDo (d : gui_do) : osE unit
| GuiTry (t : gui_try) : osE (option error)
| GuiSize : osE (Z * Z)
| GuiTick (d : Z) : osE bool                      (* true: the ticker; false: done is closed *)
| GuiDone : osE bool                              (* whether a select takes the closed done *)
| RandIntn (n : Z) : osE Z
| LogSetup (to_tui : bool) (level : Z) : osE unit (* log.Setup on the TUI's writer or os.Stdout *)
| GoTUI (level : Z) : osE unit                    (* go func() { defer cancel(); tuiErr <- CreateTUI } *)
| TuiErr : osE (option error)                     (* <-tuiErr, sent by that goroutine *)
| Cancel : osE unit                               (* the cancel function of the root context *)
| Exit (code : Z) : osE unit.

(** What an observer of the process sees of a call. *)
Inductive event : Type :=
| EvExec (c : ctx) (name : string) (args : list string) (stdin : string)
| EvLog (l : level) (msg : string) (attrs : list (string * string))
| EvSleep (d : Z)
| EvReply (rep : Z)
| EvResolve (name : string)
| EvListen (network addr : string) (bound : option Z)
| EvSpawn (g : goroutine)
| EvCloseListener (l : positive)
| EvCloseConn (c : positive)
| EvServe (c : positive) (auth : option (string * string))
| EvGui (d : gui_do)
| EvGuiTry (t : gui_try)
| EvLogSetup (to_tui : bool) (level : Z)
| EvGoTUI (level : Z)
| EvTuiErr
| EvCancel
| EvExit (code : Z).

#[global] Instance event_eq_dec : EqDecision event.
Proof. solve_decision. Defined.

Definition os_event {X} (e : osE X) : list event :=
  match e with
  | Exec c n a i => [EvExec c n a i]
  | CmdStart c n a => [EvExec c n a ""]
  | Slog l m a => [EvLog l m a]
  | SelectTimer _ d => [EvSleep d]
  | SocksSendReply r => [EvReply r]
  | SocksDNSResolve n => [EvResolve n]
  | NetListen _ n a i => [EvListen n a i]
  | Spawn g => [EvSpawn g]
  | ListenerClose l => [EvCloseListener l]
  | ServeConn c auth => [EvServe c auth]
  | GuiDo d => [EvGui d]
  | GuiTry t => [EvGuiTry t]
  | LogSetup to level => [EvLogSetup to level]
  | GoTUI level => [EvGoTUI level]
  | TuiErr => [EvTuiErr]
  | Cancel => [EvCancel]
  | Exit code => [EvExit code]
  | _ => []
  end.

(** A world answers every call and moves on. *)
Class World (W : Type) : Type := os_handle : forall X, osE X -> W -> X * W.
Arguments os_handle {W _ X} e w.

(** ** Programs *)

Inductive prog (S A : Type) : Type :=
| Ret (a : A)
| Sys (X : Type) (e : osE X) (k : X -> prog S A)
| Crit (X : Type) (f : S -> X * S * list event) (k : X -> prog S A).
Arguments Ret {S A} a.
Arguments Sys {S A X} e k.
Arguments Crit {S A X} f k.

Fixpoint bind {S A B} (k : A -> prog S B) (p : prog S A) : prog S B :=
  match p with
  | Ret a => k a
  | Sys e k' => Sys e (fun x => bind k (k' x))
  | Crit f k' => Crit f (fun x => bind k (k' x))
  end.

#[global] Instance prog_ret {S} : MRet (prog S) := fun A a => Ret a.
#[global] Instance prog_bind {S} : MBind (prog S) := fun A B k p => bind k p.

Definition sys {S X} (e : osE X) : prog S X := Sys e Ret.

(** [mu.Lock(); x := f(); mu.Unlock()] *)
Definition crit {S X} (f : S -> X * S * list event) : prog S X := Crit f Ret.

(** A critical section that only reads. *)
Definition reads {S X} (f : S -> X) : prog S X := crit (fun s => (f s, s, [])).

Definition slog {S} (l : level) (msg : string) (attrs : list (string * string)) : prog S unit :=
  sys (Slog l msg attrs).

Definition skip {S} : prog S unit := Ret tt.

Definition when {S} (b : bool) (p : prog S unit) : prog S unit := if b then p else skip.

(** [for _, x := range l { f(x) }] *)
Fixpoint for_each {S A} (l : list A) (f : A -> prog S unit) : prog S unit :=
  match l with
  | [] => skip
  | x :: l' => f x ≫= fun _ => for_each l' f
  end.

(** A [for] loop: [inl] continues with a new loop state, [inr] leaves; [None]
    when the fuel, the number of iterations looked at, is used up. *)
Fixpoint loop {S L R} (fuel : nat) (body : L -> prog S (L + R)) (l : L) : prog S (option R) :=
  match fuel with
  | O => Ret None
  | Datatypes.S fuel' =>
      body l ≫= fun r =>
      match r with
      | inl l' => loop fuel' body l'
      | inr x => Ret (Some x)
      end
  end.

(** The iteration order of a Go map is not specified: every theorem holds for
    any of them. *)
Class MapRange : Type := {
  range : forall {K} `{Countable K} {V}, gmap K V -> list (K * V);
  range_perm : forall {K} `{Countable K} {V} (m : gmap K V), range m ≡ₚ map_to_list m
}.

(** ** Running one goroutine *)

Record outcome (S W A : Type) : Type := Out {
  out_val : A;
  out_state : S;
  out_world : W;
  out_events : list event
}.
Arguments Out {S W A}.
Arguments out_val {S W A}.
Arguments out_state {S W A}.
Arguments out_world {S W A}.
Arguments out_events {S W A}.

Section Running.
Context {S W : Type} `{!World W}.

Fixpoint exec {A} (p : prog S A) (s : S) (w : W) : outcome S W A :=
  match p with
  | Ret a => Out a s w []
  | Sys e k =>
      let '(x, w') := os_handle e w in
      let o := exec (k x) s w' in
      Out (out_val o) (out_state o) (out_world o) (os_event e ++ out_events o)
  | Crit f k =>
      let '(x, s', ev) := f s in
      let o := exec (k x) s' w in
      Out (out_val o) (out_state o) (out_world o) (ev ++ out_events o)
  end.

(** ** Running several goroutines *)

Definition step1 {A} (p : prog S A) (s : S) (w : W) : option (prog S A * S * W * list event) :=
  match p with
  | Ret _ => None
  | Sys e k => let '(x, w') := os_handle e w in Some (k x, s, w', os_event e)
  | Crit f k => let '(x, s', ev) := f s in Some (k x, s', w, ev)
  end.

Definition config (A : Type) : Type := list (prog S A) * S * W.

Inductive cstep {A} : config A -> config A -> Prop :=
| cstep_thread i p p' ts s s' w w' ev :
    ts !! i = Some p -> step1 p s w = Some (p', s', w', ev) ->
    cstep (ts, s, w) (<[i := p']> ts, s', w')
| cstep_world ts s w w' :
    cstep (ts, s, w) (ts, s, w').

(** The configuration a schedule leads to: the threads to step, in order; a thread that
    is done is passed over. *)
Fixpoint schedule {A} (order : list nat) (c : config A) : config A :=
  match order with
  | [] => c
  | i :: rest =>
      let '(ts, s, w) := c in
      match ts !! i with
      | Some p =>
          match step1 p s w with
          | Some (p', s', w', _) => schedule rest (<[i := p']> ts, s', w')
          | None => schedule rest c
          end
      | None => schedule rest c
      end
  end.

End Running.

(** The critical sections a program can reach all preserve [I]. *)
Fixpoint preserves {S A} (I : S -> Prop) (p : prog S A) : Prop :=
  match p with
  | Ret _ => True
  | Sys e k => forall x, preserves I (k x)
  | Crit f k =>
      (forall s, I s -> I (snd (fst (f s)))) /\ (forall x, preserves I (k x))
  end.

(** Every event a program can emit satisfies [P], whatever the world answers and
    whatever the other goroutines do. *)
Fixpoint emits {S A} (P : event -> Prop) (p : prog S A) : Prop :=
  match p with
  | Ret _ => True
  | Sys e k => Forall P (os_event e) /\ (forall x, emits P (k x))
  | Crit f k => (forall s, Forall P (f s).2) /\ (forall x, emits P (k x))
  end.

(** Every result a program can return satisfies [Q]. *)
Fixpoint returns {S A} (Q : A -> Prop) (p : prog S A) : Prop :=
  match p with
  | Ret a => Q a
  | Sys e k => forall x, returns Q (k x)
  | Crit f k => forall x, returns Q (k x)
  end.

(** A goroutine that alone writes the part [V] of the shared state: it knows that
    part, whatever the others do, and keeps [I]; [Q] is what it knows at its end. *)
Fixpoint owns {S A L} (V : S -> L) (I : S -> Prop) (l : L) (p : prog S A) (Q : A -> L -> Prop)
  : Prop :=
  match p with
  | Ret a => Q a l
  | Sys e k => forall x, owns V I l (k x) Q
  | Crit f k =>
      forall s, I s -> V s = l -> I (f s).1.2 /\ owns V I (V (f s).1.2) (k (f s).1.1) Q
  end.

(** ** Cancellation *)

(** A world whose context ends after at most [budget] more sleeps. *)
Class Cancels (W : Type) `{!World W} : Type := {
  budget : W -> nat;
  budget_sleep : forall c d w,
    (os_handle (SelectTimer c d) w).1 = true ->
    (budget (os_handle (SelectTimer c d) w).2 < budget w)%nat;
  budget_mono : forall X (e : osE X) w, (budget (os_handle e w).2 <= budget w)%nat
}.

(** ** Lemmas *)

Section Facts.
Context {S W : Type} `{!World W}.

Lemma exec_Ret {A} (a : A) (s : S) (w : W) : exec (Ret a) s w = Out a s w [].
Proof. reflexivity. Qed.

Lemma exec_mret {A} (a : A) (s : S) (w : W) : exec (mret a) s w = Out a s w [].
Proof. reflexivity. Qed.

Lemma exec_skip (s : S) (w : W) : exec skip s w = Out tt s w [].
Proof. reflexivity. Qed.

Lemma exec_Sys {A X} (e : osE X) (k : X -> prog S A) s (w : W) :
  exec (Sys e k) s w =
    let r := os_handle e w in
    let o := exec (k r.1) s r.2 in
    Out (out_val o) (out_state o) (out_world o) (os_event e ++ out_events o).
Proof. cbn. by destruct (os_handle e w). Qed.

Lemma exec_bind {A B} (p : prog S A) (k : A -> prog S B) s (w : W) :
  exec (p ≫= k) s w =
    let o := exec p s w in
    let o' := exec (k (out_val o)) (out_state o) (out_world o) in
    Out (out_val o') (out_state o') (out_world o') (out_events o ++ out_events o').
Proof.
  unfold mbind, prog_bind. revert s w.
  induction p as [a|X e k' IH|X f k' IH]; intros s w; cbn.
  - by destruct (exec (k a) s w).
  - destruct (os_handle e w) as [x w']. rewrite IH. cbn. by rewrite app_assoc.
  - destruct (f s) as [[x s'] ev]. rewrite IH. cbn. by rewrite app_assoc.
Qed.

Lemma exec_sys {X} (e : osE X) (s : S) (w : W) :
  exec (sys e) s w = Out (os_handle e w).1 s (os_handle e w).2 (os_event e).
Proof. cbn. destruct (os_handle e w). cbn. by rewrite app_nil_r. Qed.

Lemma exec_crit {X} (f : S -> X * S * list event) (s : S) (w : W) :
  exec (crit f) s w = Out (f s).1.1 (f s).1.2 w (f s).2.
Proof. cbn. destruct (f s) as [[??]?]. cbn. by rewrite app_nil_r. Qed.

Lemma exec_reads {X} (f : S -> X) (s : S) (w : W) :
  exec (reads f) s w = Out (f s) s w [].
Proof. reflexivity. Qed.

Lemma exec_slog l msg attrs (s : S) (w : W) :
  exec (slog l msg attrs) s w =
    Out (os_handle (Slog l msg attrs) w).1 s (os_handle (Slog l msg attrs) w).2
      [EvLog l msg attrs].
Proof. apply exec_sys. Qed.

Lemma preserves_bind {A B} (I : S -> Prop) (p : prog S A) (k : A -> prog S B) :
  preserves I p -> (forall x, preserves I (k x)) -> preserves I (p ≫= k).
Proof.
  unfold mbind, prog_bind. intros Hp Hk.
  induction p as [a|X e k' IH|X f k' IH]; cbn in *; [done|auto|].
  destruct Hp as [Hf Hp]. auto.
Qed.

Lemma preserves_bind_returns {A B} (I : S -> Prop) (Q : A -> Prop) (p : prog S A) (k : A -> prog S B) :
  preserves I p -> returns Q p -> (forall x, Q x -> preserves I (k x)) -> preserves I (p ≫= k).
Proof.
  unfold mbind, prog_bind. intros Hp HQ Hk.
  induction p as [a|X e k' IH|X f k' IH]; cbn in *; [auto|auto|].
  destruct Hp as [Hf Hp]. auto.
Qed.

Lemma returns_bind {A B} (Q : B -> Prop) (p : prog S A) (k : A -> prog S B) :
  (forall x, returns Q (k x)) -> returns Q (p ≫= k).
Proof. unfold mbind, prog_bind. intros Hk. induction p; cbn in *; auto. Qed.

Lemma returns_bind2 {A B} (R : A -> Prop) (Q : B -> Prop) (p : prog S A) (k : A -> prog S B) :
  returns R p -> (forall x, R x -> returns Q (k x)) -> returns Q (p ≫= k).
Proof. unfold mbind, prog_bind. intros Hp Hk. induction p; cbn in *; auto. Qed.

Lemma returns_exec {A} (Q : A -> Prop) (p : prog S A) s (w : W) :
  returns Q p -> Q (out_val (exec p s w)).
Proof.
  revert s w. induction p as [a|X e k IH|X f k IH]; intros s w Hp; cbn in *; [done| |].
  - destruct (os_handle e w). cbn. auto.
  - destruct (f s) as [[x s'] ev]. cbn. auto.
Qed.

Lemma preserves_sys {X} (I : S -> Prop) (e : osE X) : preserves I (sys e : prog S X).
Proof. cbn. done. Qed.

Lemma preserves_mret {A} (I : S -> Prop) (a : A) : preserves I (mret a : prog S A).
Proof. done. Qed.

Lemma preserves_slog (I : S -> Prop) l msg attrs : preserves I (slog l msg attrs : prog S unit).
Proof. apply preserves_sys. Qed.

Lemma preserves_crit {X} (I : S -> Prop) (f : S -> X * S * list event) :
  (forall s, I s -> I (f s).1.2) -> preserves I (crit f).
Proof. intros Hf. cbn. auto. Qed.

Lemma preserves_reads {X} (I : S -> Prop) (f : S -> X) : preserves I (reads f).
Proof. by apply preserves_crit. Qed.

Lemma preserves_when (I : S -> Prop) b (p : prog S unit) :
  preserves I p -> preserves I (when b p).
Proof. by destruct b. Qed.

Lemma preserves_for_each {A} (I : S -> Prop) (l : list A) (f : A -> prog S unit) :
  (forall x, preserves I (f x)) -> preserves I (for_each l f).
Proof. intros Hf. induction l as [|x l IH]; cbn; [done|]. by apply preserves_bind. Qed.

Lemma preserves_loop {L R} (I : S -> Prop) fuel (body : L -> prog S (L + R)) l :
  (forall l, preserves I (body l)) -> preserves I (loop fuel body l).
Proof.
  intros Hb. revert l. induction fuel as [|fuel IH]; intros l; cbn; [done|].
  apply preserves_bind; [done|]. by intros [l'|x].
Qed.

(** A goroutine running alone keeps what its critical sections keep. *)
Lemma preserves_exec {A} (I : S -> Prop) (p : prog S A) s (w : W) :
  preserves I p -> I s -> I (out_state (exec p s w)).
Proof.
  revert s w. induction p as [a|X e k IH|X f k IH]; intros s w Hp HI; cbn in *; [done| |].
  - destruct (os_handle e w). cbn. auto.
  - destruct Hp as [Hf Hp]. specialize (Hf s HI).
    destruct (f s) as [[x s'] ev]. cbn in *. auto.
Qed.

Lemma schedule_rtc {A} order (c : @config S W A) : rtc cstep c (schedule order c).
Proof.
  revert c. induction order as [|i order IH]; intros [[ts s] w]; cbn [schedule]; [constructor|].
  destruct (ts !! i) as [p|] eqn:Ei; [|apply IH].
  destruct (step1 p s w) as [[[[p' s'] w'] ev]|] eqn:Es; [|apply IH].
  eapply rtc_l; [by eapply cstep_thread|apply IH].
Qed.

Lemma step1_preserves {A} (I : S -> Prop) (p p' : prog S A) s s' (w w' : W) ev :
  preserves I p -> I s -> step1 p s w = Some (p', s', w', ev) -> preserves I p' /\ I s'.
Proof.
  destruct p as [a|X e k|X f k]; cbn; [done| |].
  - intros Hp HI. destruct (os_handle e w). intros [= <- <- <- <-]. auto.
  - intros [Hf Hp] HI. specialize (Hf s HI). destruct (f s) as [[x s1] ev1].
    intros [= <- <- <- <-]. auto.
Qed.

(** Any interleaving of such goroutines keeps it too. *)
Lemma interleaving_preserves {A} (I : S -> Prop) (c c' : config A) :
  rtc cstep c c' ->
  Forall (preserves I) c.1.1 -> I c.1.2 -> Forall (preserves I) c'.1.1 /\ I c'.1.2.
Proof.
  induction 1 as [c|c1 c2 c3 Hstep _ IH]; intros Hts HI; [done|].
  destruct Hstep as [i p p' ts s s' w w' ev Hi Hs|ts s w w']; cbn in *; [|by apply IH].
  assert (preserves I p) as Hp by (eapply Forall_lookup_1; eauto).
  destruct (step1_preserves I p p' s s' w w' ev Hp HI Hs) as [Hp' HI'].
  apply IH; [|done]. by apply Forall_insert.
Qed.

(** Alone, a goroutine emits only what it can emit. *)
Lemma emits_exec {A} (P : event -> Prop) (p : prog S A) s (w : W) :
  emits P p -> Forall P (out_events (exec p s w)).
Proof.
  revert s w. induction p as [a|X e k IH|X f k IH]; intros s w Hp; cbn in *; [constructor| |].
  - destruct Hp as [He Hk]. destruct (os_handle e w). cbn. apply Forall_app. auto.
  - destruct Hp as [Hf Hk]. specialize (Hf s). destruct (f s) as [[x s'] ev]. cbn in *.
    apply Forall_app. auto.
Qed.

Lemma emits_bind {A B} P (p : prog S A) (k : A -> prog S B) :
  emits P p -> (forall x, emits P (k x)) -> emits P (p ≫= k).
Proof.
  unfold mbind, prog_bind. intros Hp Hk.
  induction p as [a|X e k' IH|X f k' IH]; cbn in *; [done| |]; destruct Hp; auto.
Qed.

Lemma emits_mret {A} P (a : A) : emits P (mret a : prog S A).
Proof. done. Qed.

Lemma emits_sys {X} P (e : osE X) : Forall P (os_event e) -> emits P (sys e : prog S X).
Proof. cbn. done. Qed.

Lemma emits_reads {X} P (f : S -> X) : emits P (reads f).
Proof. cbn. auto. Qed.

Lemma emits_crit {X} P (f : S -> X * S * list event) :
  (forall s, Forall P (f s).2) -> emits P (crit f).
Proof. cbn. auto. Qed.

Lemma emits_for_each {A} P (l : list A) (f : A -> prog S unit) :
  (forall x, x ∈ l -> emits P (f x)) -> emits P (for_each l f).
Proof.
  induction l as [|x l IH]; intros Hf; cbn; [done|].
  apply emits_bind; [apply Hf; left|intros _; apply IH; intros; apply Hf; by right].
Qed.

Lemma exec_budget `{!Cancels W} {A} (p : prog S A) s w :
  (budget (out_world (exec p s w)) <= budget w)%nat.
Proof.
  revert s w. induction p as [a|X e k IH|X f k IH]; intros s w; cbn; [lia| |].
  - pose proof (budget_mono X e w) as Hm. destruct (os_handle e w) as [x w']. cbn in *.
    specialize (IH x s w'). lia.
  - destruct (f s) as [[x s'] ev]. cbn. apply IH.
Qed.

(** A loop that sleeps in every round it continues ends, with more fuel than there
    are sleeps left. *)
Lemma loop_terminates `{!Cancels W} {L R} fuel (body : L -> prog S (L + R)) l s (w : W) :
  (forall l s w l', out_val (exec (body l) s w) = inl l' ->
     (budget (out_world (exec (body l) s w)) < budget w)%nat) ->
  (budget w < fuel)%nat -> exists r, out_val (exec (loop fuel body l) s w) = Some r.
Proof.
  intros Hb. revert l s w. induction fuel as [|fuel IH]; intros l s w Hf; [lia|].
  cbn [loop]. rewrite exec_bind. cbv zeta. cbn [out_val].
  destruct (out_val (exec (body l) s w)) as [l'|r] eqn:E; [|by exists r].
  apply IH. specialize (Hb _ _ _ _ E). lia.
Qed.

(** ** Single-writer goroutines *)

Section Owner.
Context {L : Type} (V : S -> L) (I : S -> Prop).

(** A goroutine that leaves the owned part alone. *)
Definition leaves {A} (p : prog S A) : Prop := forall l, preserves (fun s => I s /\ V s = l) p.

Lemma owns_bind {A B} l (p : prog S A) (k : A -> prog S B) Q :
  owns V I l p (fun x l' => owns V I l' (k x) Q) -> owns V I l (p ≫= k) Q.
Proof.
  unfold mbind, prog_bind. revert l.
  induction p as [a|X e k' IH|X f k' IH]; intros l Hp; cbn in *; [auto|auto|].
  intros s HI HV. destruct (Hp s HI HV) as [? ?]. auto.
Qed.

Lemma owns_mono {A} l (p : prog S A) (Q Q' : A -> L -> Prop) :
  owns V I l p Q -> (forall x l', Q x l' -> Q' x l') -> owns V I l p Q'.
Proof.
  intros Hp HQ. revert l Hp. induction p as [a|X e k' IH|X f k' IH]; intros l Hp; cbn in *; [auto|auto|].
  intros s HI HV. destruct (Hp s HI HV). auto.
Qed.

Lemma owns_mret {A} l (a : A) (Q : A -> L -> Prop) : Q a l -> owns V I l (mret a) Q.
Proof. done. Qed.

Lemma owns_sys {X} l (e : osE X) Q : (forall x, Q x l) -> owns V I l (sys e) Q.
Proof. done. Qed.

Lemma owns_crit {X} l (f : S -> X * S * list event) Q :
  (forall s, I s -> V s = l -> I (f s).1.2 /\ Q (f s).1.1 (V (f s).1.2)) ->
  owns V I l (crit f) Q.
Proof. done. Qed.

(** A program that leaves the owned part alone is one the owner may run. *)
Lemma owns_leaves {A} l (p : prog S A) (Q : A -> L -> Prop) :
  preserves (fun s => I s /\ V s = l) p -> (forall x, Q x l) -> owns V I l p Q.
Proof.
  induction p as [a|X e k' IH|X f k' IH]; cbn; [auto|auto|].
  intros [Hf Hk] HQ s HI HV. destruct (Hf s (conj HI HV)) as [HI' HV']. split; [done|].
  rewrite HV'. auto.
Qed.

Lemma owns_frame {A} l (p : prog S A) (R : A -> Prop) :
  (forall I, preserves I p) -> returns R p -> owns V I l p (fun x l' => R x /\ l' = l).
Proof.
  intros Hp. specialize (Hp (fun s => I s /\ V s = l)). revert Hp.
  induction p as [a|X e k' IH|X f k' IH]; cbn; [done|auto|].
  intros [Hf Hk] HR s HI HV. destruct (Hf s (conj HI HV)) as [HI' HV']. split; [done|].
  rewrite HV'. auto.
Qed.

Lemma owns_returns {A} l (p : prog S A) (Q : A -> L -> Prop) (R : A -> Prop) :
  owns V I l p Q -> returns R p -> owns V I l p (fun x l' => Q x l' /\ R x).
Proof.
  revert l. induction p as [a|X e k' IH|X f k' IH]; cbn; [done|auto|].
  intros l Ho HR s HI HV. destruct (Ho s HI HV). auto.
Qed.

Lemma owns_loop {A R} (J : A -> L -> Prop) fuel (body : A -> prog S (A + R)) a l Q :
  J a l -> (forall l, Q None l) ->
  (forall a l, J a l ->
     owns V I l (body a) (fun r l' => match r with inl a' => J a' l' | inr x => Q (Some x) l' end)) ->
  owns V I l (loop fuel body a) Q.
Proof.
  intros HJ HN Hb. revert a l HJ. induction fuel as [|fuel IH]; intros a l HJ; cbn [loop]; [apply HN|].
  apply owns_bind. eapply owns_mono; [by apply Hb|]. intros [a'|x] l' H; [by apply IH|done].
Qed.

Lemma owns_step1 {A} l (p p' : prog S A) s s' (w w' : W) ev Q :
  owns V I l p Q -> I s -> V s = l -> step1 p s w = Some (p', s', w', ev) ->
  I s' /\ owns V I (V s') p' Q.
Proof.
  destruct p as [a|X e k|X f k]; cbn; [done| |].
  - intros Hp HI <-. destruct (os_handle e w). intros [= <- <- <- <-]. auto.
  - intros Hp HI HV. specialize (Hp s HI HV). destruct (f s) as [[x s1] ev1].
    by intros [= <- <- <- <-].
Qed.

(** The invariant holds in every reachable configuration of the owner, thread 0, and
    goroutines that leave its part alone; the owner still knows its part. *)
Lemma owner_interleaving {A} (c c' : @config S W A) p0 ts Q :
  c.1.1 = p0 :: ts -> rtc cstep c c' ->
  I c.1.2 -> owns V I (V c.1.2) p0 Q -> Forall leaves ts ->
  I c'.1.2 /\ exists p' ts', c'.1.1 = p' :: ts' /\ owns V I (V c'.1.2) p' Q.
Proof.
  intros Hc Hr. revert p0 ts Hc.
  induction Hr as [c|c1 c2 c3 Hstep _ IH]; intros p0 ts Hc HI Ho Hl; [by eauto|].
  destruct Hstep as [i p p' ts' s s' w w' ev Hi Hs|ts' s w w']; cbn in *; subst.
  - destruct i as [|i]; cbn in *.
    + injection Hi as ->. destruct (owns_step1 _ _ _ _ _ _ _ _ _ Ho HI eq_refl Hs) as [HI' Ho'].
      by eapply IH.
    + assert (leaves p) as Hp by (eapply Forall_lookup_1; eauto).
      assert (forall l, I s /\ V s = l -> preserves (fun s => I s /\ V s = l) p' /\ I s' /\ V s' = l)
        as Hstep.
      { intros l Hl'. eapply (step1_preserves (fun s => I s /\ V s = l)); [apply Hp|done|exact Hs]. }
      destruct (Hstep (V s) (conj HI eq_refl)) as (_ & HI' & HV').
      eapply IH; [done|done|by rewrite HV'|]. apply Forall_insert; [done|].
      intros l. destruct p as [a|X e k|X f k]; cbn in Hs; [done| |].
      * destruct (os_handle e w). injection Hs as <- <- <- <-. apply Hp.
      * destruct (f s) as [[x s1] ev1]. injection Hs as <- <- <- <-. apply (Hp l).
  - by eapply IH.
Qed.

End Owner.

End Facts.

#[export] Instance map_range_to_list : MapRange := {
  range := fun K _ _ V m => map_to_list m;
  range_perm := fun K _ _ V m => reflexivity _
}.

Create Rewrite HintDb exec.
#[export] Hint Rewrite @exec_Ret @exec_mret @exec_skip @exec_bind @exec_sys @exec_crit @exec_reads @exec_slog : exec.
#[export] Hint Resolve preserves_sys preserves_mret preserves_slog preserves_reads
  : gosocks.

(** Proves [preserves I p] by following the program; the critical sections are
    left to the hints, or to the user. *)
Ltac preserves_step :=
  match goal with
  | |- forall _, _ => intros ?
  | |- preserves _ (mbind _ _) => apply preserves_bind
  | |- preserves _ (when _ _) => apply preserves_when
  | |- preserves _ (for_each _ _) => apply preserves_for_each
  | |- preserves _ (loop _ _ _) => apply preserves_loop
  | |- preserves _ _ => solve [auto with gosocks nocore]
  | |- preserves _ skip => exact Logic.I
  | |- preserves _ (match ?x with _ => _ end) => destruct x
  | |- preserves _ ((match ?x with _ => _ end) _) => destruct x
  | |- preserves _ _ => progress cbv beta iota zeta
  end.
Ltac preserves := repeat preserves_step.


(** Proves [emits P p] the same way; the events are left to the hints, or to the user. *)
#[export] Hint Resolve emits_mret emits_reads : gosocks.

Ltac emits_step :=
  match goal with
  | |- forall _, _ => intros ?
  | |- emits _ (mbind _ _) => apply emits_bind
  | |- emits _ (when ?b _) => destruct b; cbn [when]
  | |- emits _ (sys _) => apply emits_sys; cbn [os_event]
  | |- emits _ (slog _ _ _) => apply emits_sys; cbn [os_event]
  | |- emits _ _ => solve [auto with gosocks nocore]
  | |- emits _ skip => exact Logic.I
  | |- emits _ (match ?x with _ => _ end) => destruct x
  | |- emits _ ((match ?x with _ => _ end) _) => destruct x
  | |- emits _ _ => progress cbv beta iota zeta
  | |- Forall _ [] => constructor
  | |- Forall _ (_ :: _) => constructor
  end.
Ltac emits := repeat emits_step.

(** Runs the program in the goal (or everywhere) one construct at a time. *)
Ltac run :=
  repeat progress (autorewrite with exec; cbn [out_val out_state out_world out_events fst snd app]).
Ltac run_in H :=
  repeat progress (autorewrite with exec in H;
                   cbn [out_val out_state out_world out_events fst snd app] in H).
