(* ===== verification/Ending.v ===== *)
(** * How goroutines end

    A context ends at some time, so a run gets only finitely many answers that say it has
    not: [Ends] counts them down.  [paced] follows a goroutine under interference, by the
    number of such answers left; a loop that hears one in every round it continues ends
    by itself.  [estep] interleaves goroutines; it has no infinite run. *)

From S2P Require Import Prelude GoStrings GoNet Effects.

(** ** The outside *)

(** An answer that only a world whose context goes on gives: a timer that fired, a
    context that has not ended, one more line of a command that runs under it, one more
    connection, a wake-up other than its end. *)
Definition alive {X} (e : osE X) : X -> bool :=
  match e in osE X return X -> bool with
  | SelectTimer _ _ => fun fired => fired
  | CtxErr _ => fun err => match err with None => true | Some _ => false end
  | CmdScan => fun line => match line with Some _ => true | None => false end
  | Accept _ => fun r => match r with inl _ => true | inr _ => false end
  | SelectLAN _ _ => fun w => match w with WakeCheck | WakeRetry => true | _ => false end
  | GuiTick _ => fun fired => fired
  | GuiDone => negb
  | _ => fun _ => false
  end.

(** A world whose context ends: [pulse] bounds the answers to come that say it has not. *)
Class Ends (W : Type) `{!World W} : Type := {
  pulse : W -> nat;
  pulse_alive : forall X (e : osE X) w,
    alive e (os_handle e w).1 = true -> (pulse (os_handle e w).2 < pulse w)%nat;
  pulse_mono : forall X (e : osE X) w, (pulse (os_handle e w).2 <= pulse w)%nat
}.

(** ** Goroutines *)

(** What a goroutine does while [b] such answers are left: whatever it hears and the
    others do, it ends with a value that satisfies [Q]. *)
Fixpoint paced {S A} (b : nat) (p : prog S A) (Q : A -> nat -> Prop) : Prop :=
  match p with
  | Ret a => Q a b
  | Sys e k => forall x b', (b' <= b)%nat -> (alive e x = true -> (b' < b)%nat) -> paced b' (k x) Q
  | Crit f k => forall x b', (b' <= b)%nat -> paced b' (k x) Q
  end.

Section Interleaving.
Context {S W : Type} `{!World W} `{!Ends W}.

(** One goroutine takes one action; the world may have moved on before it, but not
    back. *)
Inductive estep {A} : @config S W A -> @config S W A -> Prop :=
| estep_thread i p p' ts s s' w0 w w' ev :
    (pulse w <= pulse w0)%nat ->
    ts !! i = Some p -> step1 p s w = Some (p', s', w', ev) ->
    estep (ts, s, w0) (<[i := p']> ts, s', w').

(** ** Lemmas *)

Lemma paced_mono {A} b b' (p : prog S A) (Q Q' : A -> nat -> Prop) :
  paced b p Q -> (b' <= b)%nat -> (forall x n n', (n' <= n)%nat -> Q x n -> Q' x n') -> paced b' p Q'.
Proof.
  intros Hp Hb HQ. revert b b' Hb Hp. induction p as [a|X e k IH|X f k IH]; intros b b' Hb Hp; cbn in *.
  - by eapply HQ.
  - intros x b'' Hle Ha. apply (IH x b'' b''); [done|]. apply Hp; [lia|]. intros Hx. specialize (Ha Hx). lia.
  - intros x b'' Hle. apply (IH x b'' b''); [done|]. apply Hp. lia.
Qed.

(** The answers left never grow. *)
Lemma paced_conseq {A} b (p : prog S A) (Q Q' : A -> nat -> Prop) :
  paced b p Q -> (forall x n, (n <= b)%nat -> Q x n -> Q' x n) -> paced b p Q'.
Proof.
  revert b. induction p as [a|X e k IH|X f k IH]; intros b Hp HQ; cbn in *; [by apply HQ| |].
  - intros x n Hn Ha. apply IH; [by apply Hp|]. intros y m Hm. apply HQ. lia.
  - intros x n Hn. apply IH; [by apply Hp|]. intros y m Hm. apply HQ. lia.
Qed.

Lemma paced_bind {A B} b (p : prog S A) (k : A -> prog S B) Q :
  paced b p (fun x b' => paced b' (k x) Q) -> paced b (p ≫= k) Q.
Proof.
  unfold mbind, prog_bind. revert b. induction p as [a|X e k' IH|X f k' IH]; intros b Hp; cbn in *; auto.
Qed.

Lemma paced_step1 {A} (p p' : prog S A) s s' (w w' : W) ev Q :
  paced (pulse w) p Q -> step1 p s w = Some (p', s', w', ev) ->
  paced (pulse w') p' Q /\ (pulse w' <= pulse w)%nat.
Proof.
  destruct p as [a|X e k|X f k]; cbn; [done| |].
  - intros Hp. pose proof (pulse_mono X e w) as Hm. pose proof (pulse_alive X e w) as Ha.
    destruct (os_handle e w) as [x w1]. cbn in *. intros [= <- <- <- <-]. split; [|done]. by apply Hp.
  - intros Hp. destruct (f s) as [[x s1] ev1]. intros [= <- <- <- <-]. split; [|done]. by apply Hp.
Qed.

(** A program without a loop. *)
Lemma paced_any {A} b (p : prog S A) (Q : A -> nat -> Prop) :
  (forall x n, (n <= b)%nat -> Q x n) -> paced b p Q.
Proof.
  revert b. induction p as [a|X e k IH|X f k IH]; intros b HQ; cbn; [by apply HQ| |].
  - intros x b' Hb _. apply IH. intros y n Hn. apply HQ. lia.
  - intros x b' Hb. apply IH. intros y n Hn. apply HQ. lia.
Qed.

(** A call whose answer shows whether the context goes on. *)
Lemma paced_sys {X} b (e : osE X) (Q : X -> nat -> Prop) :
  (forall x b', (b' <= b)%nat -> (alive e x = true -> (b' < b)%nat) -> Q x b') -> paced b (sys e : prog S X) Q.
Proof. done. Qed.

Lemma paced_mret {A} b (a : A) (Q : A -> nat -> Prop) : Q a b -> paced b (mret a : prog S A) Q.
Proof. done. Qed.

(** A round that hears the context goes on before it continues, or ends well. *)
Definition paced_round {L R} (b : nat) (p : prog S (L + R)) (Q : R -> Prop) : Prop :=
  paced b p (fun r b' => match r with inl _ => (b' < b)%nat | inr x => Q x end).

Lemma paced_loop {L R} b fuel (body : L -> prog S (L + R)) l (Q : R -> Prop) :
  (forall l b', (b' <= b)%nat -> paced_round b' (body l) Q) -> (b < fuel)%nat ->
  paced b (loop fuel body l) (fun r _ => exists x, r = Some x /\ Q x).
Proof.
  revert b l. induction fuel as [|fuel IH]; intros b l Hb Hf; [lia|]. cbn [loop].
  apply paced_bind. eapply paced_conseq; [apply (Hb l b); lia|].
  intros [l'|x] n Hn Hr; [|by exists x]. apply IH; [|lia]. intros l2 b' Hb'. apply Hb. lia.
Qed.

Lemma estep_cstep {A} (c c' : @config S W A) : estep c c' -> rtc cstep c c'.
Proof.
  intros [i p p' ts s s' w0 w w' ev _ Hi Hs].
  eapply rtc_l; [apply (cstep_world ts s w0 w)|]. eapply rtc_once. by eapply cstep_thread.
Qed.

(** Interleaved goroutines stay paced. *)
Lemma estep_paced {A} (c c' : @config S W A) Q :
  rtc estep c c' -> Forall (fun p => paced (pulse c.2) p Q) c.1.1 ->
  (forall x n n', (n' <= n)%nat -> Q x n -> Q x n') ->
  Forall (fun p => paced (pulse c'.2) p Q) c'.1.1.
Proof.
  intros Hr Hts HQ. induction Hr as [c|c1 c2 c3 Hstep _ IH]; [done|]. apply IH.
  destruct Hstep as [i p p' ts s s' w0 w w' ev Hw Hi Hs]. cbn in *.
  assert (Forall (fun p => paced (pulse w) p Q) ts) as Hts'.
  { eapply Forall_impl; [exact Hts|]. intros q Hq. eapply paced_mono; [exact Hq|exact Hw|exact HQ]. }
  destruct (paced_step1 p p' s s' w w' ev Q) as [Hp Hle]; [exact (Forall_lookup_1 _ _ _ _ Hts' Hi)|done|].
  apply Forall_insert; [|done]. eapply Forall_impl; [exact Hts'|]. intros q Hq. eapply paced_mono; [exact Hq|exact Hle|exact HQ].
Qed.

(** ** Runs are finite *)

(** The rest of a program after one action. *)
Definition rest_of {A} (p' p : prog S A) : Prop :=
  match p with
  | Ret _ => False
  | Sys e k => exists x, p' = k x
  | Crit f k => exists x, p' = k x
  end.

Lemma rest_of_wf {A} : well_founded (@rest_of A).
Proof.
  intros p. induction p as [a|X e k IH|X f k IH]; constructor; intros p' Hp; [done| |];
    destruct Hp as [x ->]; apply IH.
Qed.

Lemma step1_rest {A} (p p' : prog S A) s s' (w w' : W) ev :
  step1 p s w = Some (p', s', w', ev) -> rest_of p' p.
Proof.
  destruct p as [a|X e k|X f k]; cbn; [done| |].
  - destruct (os_handle e w) as [x w1]. intros [= <- _ _ _]. by exists x.
  - destruct (f s) as [[x s1] ev1]. intros [= <- _ _ _]. by exists x.
Qed.

(** One of several programs takes an action. *)
Definition rests_of {A} (ts' ts : list (prog S A)) : Prop :=
  exists i p p', ts !! i = Some p /\ rest_of p' p /\ ts' = <[i := p']> ts.

Lemma rests_of_wf {A} : well_founded (@rests_of A).
Proof.
  intros ts. induction ts as [|p ts IHts].
  { constructor. by intros ts' (i & p & p' & Hi & _). }
  revert ts IHts. induction (rest_of_wf p) as [p _ IHp]. intros ts Hts.
  induction Hts as [ts Hacc IHts]. constructor. intros ts' ([|i] & q & q' & Hi & Hq & ->); cbn in *.
  - injection Hi as ->. apply IHp; [done|]. by constructor.
  - apply IHts. by exists i, q, q'.
Qed.

(** No run is infinite, whoever is scheduled. *)
Lemma estep_wf {A} : well_founded (fun c' c : @config S W A => estep c c').
Proof.
  intros [[ts s] w]. revert s w. induction (rests_of_wf ts) as [ts _ IH]. intros s w.
  constructor. intros c' Hc. inversion Hc as [i p p' ? ? s' ? w1 w' ev Hw Hi Hs]; subst.
  apply IH. exists i, p, p'. split_and!; [done|by eapply step1_rest|done].
Qed.

(** A run stops only when every goroutine has ended. *)
Lemma estep_stuck {A} ts s (w : W) :
  (forall c', ~ estep (ts, s, w) c') -> Forall (fun p : prog S A => exists a, p = Ret a) ts.
Proof.
  intros Hn. apply Forall_lookup. intros i p Hi.
  assert (forall x, step1 p s w <> Some x) as Hp.
  { intros [[[p' s'] w'] ev] Hs. eapply Hn. by eapply (estep_thread i p p'). }
  destruct p as [a|X e k|X f k]; [by exists a| |]; exfalso; cbn in Hp.
  - destruct (os_handle e w) as [x w']. by eapply Hp.
  - destruct (f s) as [[x s'] ev]. by eapply Hp.
Qed.

Lemma estep_ended {A} ts s (w : W) c' :
  Forall (fun p : prog S A => exists a, p = Ret a) ts -> ~ estep (ts, s, w) c'.
Proof.
  intros Hts Hc. inversion Hc as [i p p' ? ? s' ? w1 w' ev Hw Hi Hs]; subst.
  destruct (Forall_lookup_1 _ _ _ _ Hts Hi) as [a ->]. done.
Qed.

Lemma schedule_estep {A} order (c : @config S W A) : rtc estep c (schedule order c).
Proof.
  revert c. induction order as [|i order IH]; intros [[ts s] w]; cbn [schedule]; [constructor|].
  destruct (ts !! i) as [p|] eqn:Ei; [|apply IH].
  destruct (step1 p s w) as [[[[p' s'] w'] ev]|] eqn:Es; [|apply IH].
  eapply rtc_l; [by eapply (estep_thread i p p' ts s s' w w)|apply IH].
Qed.

End Interleaving.
