(* ===== verification/Sim.v ===== *)
(** * A simulated host

    A concrete [World] for the witnesses: a clock, a context that is cancelled
    after a number of sleeps, a kernel ARP table behind [arp] and [route], a list
    of interfaces, and fixed answers of the other commands. *)

From S2P Require Import Prelude GoStrings GoNet Effects Ending.

Record sim : Type := MkSim {
  sim_now : Z;
  sim_sleeps : nat;                                  (* sleeps before cancellation *)
  sim_arp : gmap string (string * string);           (* ip to (mac, interface) *)
  sim_route : gmap string string;                    (* host routes *)
  sim_ifaces : list (Interface * list IfAddr);
  sim_cmds : list (string * (string * option error)); (* command line to answer *)
  sim_lines : list string                            (* stdout of a streamed command *)
}.

Definition sim0 : sim := MkSim 0 1000 ∅ ∅ [] [] [].

Definition with_now (n : Z) (w : sim) : sim :=
  MkSim n (sim_sleeps w) (sim_arp w) (sim_route w) (sim_ifaces w) (sim_cmds w) (sim_lines w).
Definition with_sleeps (n : nat) (w : sim) : sim :=
  MkSim (sim_now w) n (sim_arp w) (sim_route w) (sim_ifaces w) (sim_cmds w) (sim_lines w).
Definition with_arp (m : gmap string (string * string)) (w : sim) : sim :=
  MkSim (sim_now w) (sim_sleeps w) m (sim_route w) (sim_ifaces w) (sim_cmds w) (sim_lines w).
Definition with_route (m : gmap string string) (w : sim) : sim :=
  MkSim (sim_now w) (sim_sleeps w) (sim_arp w) m (sim_ifaces w) (sim_cmds w) (sim_lines w).
Definition with_ifaces (l : list (Interface * list IfAddr)) (w : sim) : sim :=
  MkSim (sim_now w) (sim_sleeps w) (sim_arp w) (sim_route w) l (sim_cmds w) (sim_lines w).
Definition with_cmds (l : list (string * (string * option error))) (w : sim) : sim :=
  MkSim (sim_now w) (sim_sleeps w) (sim_arp w) (sim_route w) (sim_ifaces w) l (sim_lines w).
Definition with_lines (l : list string) (w : sim) : sim :=
  MkSim (sim_now w) (sim_sleeps w) (sim_arp w) (sim_route w) (sim_ifaces w) (sim_cmds w) l.

Definition exit_error : error := ErrNew "exit status 1".
Definition canceled : error := ErrNew "context canceled".

Definition sim_answer (cmd : string) (w : sim) : string * option error :=
  match find (fun p => bool_decide (p.1 = cmd)) (sim_cmds w) with
  | Some p => p.2
  | None => ("", Some exit_error)
  end.

Definition sim_exec (name : string) (args : list string) (w : sim) : (string * option error) * sim :=
  match args with
  | [a; ip] =>
      if bool_decide (name = "arp") && bool_decide (a = "-n") then
        (match sim_arp w !! ip with
         | Some (mac, iface) =>
             (Join ["?"; "(" +:+ ip +:+ ")"; "at"; mac; "on"; iface; "ifscope"; "[ethernet]"] " "
                +:+ newline, None)
         | None => (ip +:+ " (" +:+ ip +:+ ") -- no entry" +:+ newline, Some exit_error)
         end, w)
      else (sim_answer (Join (name :: args) " ") w, w)
  | [a; ip; x; y] =>
      if bool_decide (name = "route") && bool_decide (a = "change") then
        (("", None), with_route (<[ip := y]> (sim_route w)) w)
      else if bool_decide (name = "arp") && bool_decide (a = "-S") then
        match sim_route w !! ip with
        | Some iface => (("", None), with_arp (<[ip := (x, iface)]> (sim_arp w)) w)
        | None => (("arp: cannot intuit interface index", Some exit_error), w)
        end
      else (sim_answer (Join (name :: args) " ") w, w)
  | _ => (sim_answer (Join (name :: args) " ") w, w)
  end.

(** What a host answers on which everything fails, while the context goes on or after it
    has ended. *)
Definition refuse {X} (going : bool) (e : osE X) : X :=
  match e in osE X return X with
  | Exec _ _ _ _ => ("", Some exit_error)
  | CmdStart _ _ _ => None
  | CmdPipe => None
  | CmdScan => None
  | CmdDrain => tt
  | CmdWait => ([], None)
  | TimeNow => 0
  | SelectTimer _ _ => going
  | CtxErr _ => if going then None else Some canceled
  | NetInterfaces => inl []
  | NetInterfaceByName _ => inr exit_error
  | NetAddrs _ => inr exit_error
  | Slog _ _ _ => tt
  | SocksSendReply _ => None
  | SocksDNSResolve _ => inl []
  | NetListen _ _ _ _ => inr exit_error
  | Spawn _ => tt
  | GroupWait => None
  | ListenerClose _ => tt
  | ListenerAddr _ => ""
  | Accept _ => inr exit_error
  | SelectPick => true
  | SelectLAN _ _ => WakeCtx
  | ServeConn _ _ => tt
  | GuiDo _ => tt
  | GuiTry _ => Some exit_error
  | GuiSize => (80, 24)
  | GuiTick _ => going
  | GuiDone => negb going
  | RandIntn _ => 0
  | LogSetup _ _ => tt
  | GoTUI _ => tt
  | TuiErr => Some exit_error
  | Cancel => tt
  | Exit _ => tt
  end.

#[global] Instance sim_world : World sim := fun X e w =>
  match e in osE X return X * sim with
  | Exec _ name args _ => sim_exec name args w
  | CmdStart _ _ _ => (None, w)
  | CmdPipe => (None, w)
  | CmdScan =>
      match sim_lines w with
      | [] => (None, w)
      | l :: rest => (Some l, with_lines rest w)
      end
  | CmdDrain => (tt, w)
  | CmdWait => (([], None), w)
  | TimeNow => (sim_now w, w)
  | SelectTimer _ d =>
      match sim_sleeps w with
      | O => (false, w)
      | S n => (true, with_now (sim_now w + d) (with_sleeps n w))
      end
  | CtxErr _ => (match sim_sleeps w with O => Some canceled | _ => None end, w)
  | NetInterfaces => (inl (map fst (sim_ifaces w)), w)
  | NetInterfaceByName name =>
      (match find (fun p => bool_decide (i_Name p.1 = name)) (sim_ifaces w) with
       | Some p => inl p.1
       | None => inr (ErrNew "no such network interface")
       end, w)
  | NetAddrs ifi =>
      (match find (fun p => bool_decide (i_Name p.1 = i_Name ifi)) (sim_ifaces w) with
       | Some p => inl p.2
       | None => inr (ErrNew "no such network interface")
       end, w)
  | Slog _ _ _ => (tt, w)
  | SocksSendReply _ => (None, w)
  | SocksDNSResolve _ => (inl [x0a; x00; x00; x05], w)
  | NetListen _ _ _ _ => (inl 1%positive, w)
  | Spawn _ => (tt, w)
  | GroupWait => (None, w)
  | ListenerClose _ => (tt, w)
  | ListenerAddr _ => ("0.0.0.0:8080", w)
  | Accept _ => (inl 2%positive, w)
  | SelectPick => (true, w)
  | SelectLAN _ _ => (match sim_sleeps w with O => WakeCtx | _ => WakeCheck end,
                      with_sleeps (pred (sim_sleeps w)) w)
  | ServeConn _ _ => (tt, w)
  | GuiDo _ => (tt, w)
  | GuiTry _ => (None, w)
  | GuiSize => ((80, 24), w)
  | GuiTick _ => (true, w)
  | GuiDone => (false, w)
  | RandIntn _ => (0, w)
  | LogSetup _ _ => (tt, w)
  | GoTUI _ => (tt, w)
  | TuiErr => (None, w)
  | Cancel => (tt, w)
  | Exit _ => (tt, w)
  end.

#[global] Instance sim_cancels : Cancels sim.
Proof.
  refine {| budget := sim_sleeps |}.
  - intros c d w. cbn. destruct (sim_sleeps w); cbn; [done|lia].
  - intros X e w. destruct e; cbn; try lia.
    + unfold sim_exec. repeat split_match; cbn; lia.
    + destruct (sim_lines w); cbn; lia.
    + destruct (sim_sleeps w) eqn:E; cbn; lia.
Defined.

(** A home network: en0 with 192.168.0.105/24, a tunnel utun4, and the routing
    table macOS shows while the VPN is up. *)
Definition home_ifaces : list (Interface * list IfAddr) :=
  [(MkInterface "lo0" 1 5, [IfIPNet (MkIPNet [x7f; x00; x00; x01] [xff; x00; x00; x00])]);
   (MkInterface "utun4" 9 17, [IfIPNet (MkIPNet [x0a; x0a; x00; x07] [xff; xff; xff; xff])]);
   (MkInterface "en0" 4 3, [IfOther; IfIPNet (MkIPNet [xc0; xa8; x00; x69] [xff; xff; xff; x00])])].

Definition home_netstat : string :=
  "default            link#22            UCSIg               utun4" +:+ newline +:+
  "default            192.168.0.1        UGScg                 en0" +:+ newline.

Definition home : sim :=
  with_cmds [("netstat -rn -f inet", (home_netstat, None))] (with_ifaces home_ifaces sim0).

(** ** A host whose context ends *)

(** A host and the number of answers to come that say that the context goes on. *)
Definition mortal : Type := nat * sim.

#[global] Instance mortal_world : World mortal := fun X e w =>
  let '(x, w') := sim_world X e w.2 in
  if alive e x then
    match w.1 with
    | O => (refuse false e, w)
    | Datatypes.S n => (x, (n, w'))
    end
  else (x, (w.1, w')).

Lemma refuse_over {X} (e : osE X) : alive e (refuse false e) = false.
Proof. by destruct e. Qed.

#[global] Instance mortal_ends : Ends mortal.
Proof.
  refine {| pulse := fst |}; intros X e [n w]; unfold os_handle, mortal_world; cbn [fst snd];
    destruct (sim_world X e w) as [x w']; destruct (alive e x) eqn:Ea.
  - destruct n as [|n]; cbn [fst snd]; [by rewrite refuse_over|lia].
  - cbn [fst]. by rewrite Ea.
  - destruct n; cbn; lia.
  - done.
Defined.
