(* ===== verification/GoTime.v ===== *)
(** * Durations as Go prints and rounds them (package time)

    [Duration_String] and [Duration_Round] for the durations the service logs. *)

From S2P Require Import Prelude GoStrings.

(** [strconv.Itoa] *)
Definition Itoa (n : Z) : string := pretty n.

(** [fmtFrac(v, prec)]: the fraction of [v / 10^prec] without trailing zeros, with
    its point, and the whole part. *)
Fixpoint fmtFrac (prec : nat) (v : Z) (acc : string) : string * Z :=
  match prec with
  | O => (match acc with EmptyString => "" | _ => "." +:+ acc end, v)
  | S prec' =>
      let digit := v mod 10 in
      fmtFrac prec' (v / 10)
        (if bool_decide (acc <> "") || negb (digit =? 0) then Itoa digit +:+ acc else acc)
  end.

Definition fmt_unit (prec : nat) (v : Z) (unit : string) : string :=
  let '(frac, whole) := fmtFrac prec v "" in Itoa whole +:+ frac +:+ unit.

(** [d.String()] *)
Definition Duration_String (d : Z) : string :=
  let u := Z.abs d in
  let sign := if d <? 0 then "-" else "" in
  if u =? 0 then "0s"
  else if u <? 1000 then sign +:+ Itoa u +:+ "ns"
  else if u <? 1000000 then sign +:+ fmt_unit 3 u (String (asc 194) (String (asc 181) "s"))
  else if u <? Second then sign +:+ fmt_unit 6 u "ms"
  else
    let '(frac, secs) := fmtFrac 9 u "" in
    let mins := secs / 60 in
    let hours := mins / 60 in
    sign +:+ (if 0 <? hours then Itoa hours +:+ "h" else "") +:+
    (if 0 <? mins then Itoa (mins mod 60) +:+ "m" else "") +:+
    Itoa (secs mod 60) +:+ frac +:+ "s".

(** [d.Round(m)]: to the nearest multiple, halves away from zero. *)
Definition Duration_Round (d m : Z) : Z :=
  if m <=? 0 then d
  else
    let r := Z.rem d m in
    if d <? 0 then
      let r := - r in
      if r + r <? m then d + r else Z.max minDuration (d - m + r)
    else if r + r <? m then d - r else Z.min maxDuration (d + m - r).

Example Duration_String_5s : Duration_String (5 * Second) = "5s".
Proof. reflexivity. Qed.
Example Duration_String_1m : Duration_String Minute = "1m0s".
Proof. reflexivity. Qed.
Example Duration_String_frac : Duration_String (1500 * Millisecond) = "1.5s".
Proof. reflexivity. Qed.
Example Duration_String_h : Duration_String (Hour + 61 * Second) = "1h1m1s".
Proof. reflexivity. Qed.
Example Duration_Round_half : Duration_Round (2500 * Millisecond) Second = 3 * Second.
Proof. reflexivity. Qed.
