(* ===== verification/GoFloat.v ===== *)
(** * Go's [float64], as far as the uptime needs it

    Non-negative finite numbers, as a mantissa and an exponent; each operation is the
    exact one rounded to the nearest number of 53 bits, ties to even.  The numbers here
    stay far from the ends of the exponent's range. *)

From S2P Require Import Prelude.

(** [m * 2 ^ e] *)
Record float64 : Type := MkFloat { f_mant : Z; f_exp : Z }.

(** The binary exponent of [n / d]. *)
Definition ratio_log2 (n d : Z) : Z :=
  let a := Z.log2 n - Z.log2 d in
  if n * 2 ^ Z.max (- a) 0 <? d * 2 ^ Z.max a 0 then a - 1 else a.

(** The nearest integer to [n / d], ties to even. *)
Definition nearest (n d : Z) : Z :=
  let q := n / d in
  let r := n mod d in
  if 2 * r <? d then q else if d <? 2 * r then q + 1 else q + q mod 2.

(** The number nearest to [n / d], for [0 <= n] and [0 < d]. *)
Definition round64 (n d : Z) : float64 :=
  if n =? 0 then MkFloat 0 0
  else
    let k := 52 - ratio_log2 n d in
    MkFloat (nearest (n * 2 ^ Z.max k 0) (d * 2 ^ Z.max (- k) 0)) (- k).

(** [float64(n)] *)
Definition of_int (n : Z) : float64 := round64 n 1.

Definition fadd (x y : float64) : float64 :=
  let e := Z.min (f_exp x) (f_exp y) in
  let n := f_mant x * 2 ^ (f_exp x - e) + f_mant y * 2 ^ (f_exp y - e) in
  round64 (n * 2 ^ Z.max e 0) (2 ^ Z.max (- e) 0).

Definition fdiv (x y : float64) : float64 :=
  let e := f_exp x - f_exp y in
  round64 (f_mant x * 2 ^ Z.max e 0) (f_mant y * 2 ^ Z.max (- e) 0).

(** [int(x)] *)
Definition to_int (x : float64) : Z :=
  f_mant x * 2 ^ Z.max (f_exp x) 0 / 2 ^ Z.max (- f_exp x) 0.

(** ** Lemmas *)

Lemma nearest_bounds n d :
  0 <= n -> 0 < d ->
  n / d <= nearest n d /\ 2 * (nearest n d * d) <= 2 * n + d /\ 2 * n <= 2 * (nearest n d * d) + d.
Proof.
  intros Hn Hd. unfold nearest. pose proof (Z.div_mod n d) as E. pose proof (Z.mod_pos_bound n d Hd) as Hr.
  pose proof (Z.mod_pos_bound (n / d) 2) as H2.
  destruct (Z.ltb_spec (2 * (n mod d)) d); [nia|]. destruct (Z.ltb_spec d (2 * (n mod d))); nia.
Qed.

(** [2 ^ ratio_log2 n d <= n / d < 2 ^ (ratio_log2 n d + 1)]. *)
Lemma ratio_log2_spec n d :
  0 < n -> 0 < d ->
  let a := ratio_log2 n d in
  d * 2 ^ Z.max a 0 <= n * 2 ^ Z.max (- a) 0 /\
  n * 2 ^ Z.max (- (a + 1)) 0 < d * 2 ^ Z.max (a + 1) 0.
Proof.
  intros Hn Hd. cbv zeta. unfold ratio_log2.
  destruct (Z.log2_spec n Hn) as [Hn1 Hn2]. destruct (Z.log2_spec d Hd) as [Hd1 Hd2].
  pose proof (Z.log2_nonneg n) as Hln. pose proof (Z.log2_nonneg d) as Hld.
  set (ln := Z.log2 n) in *. set (ld := Z.log2 d) in *. set (a := ln - ld).
  rewrite Z.pow_succ_r in Hn2, Hd2 by lia.
  assert (2 ^ ln * 2 ^ Z.max (- a) 0 = 2 ^ ld * 2 ^ Z.max a 0) as Hp
    by (rewrite <- !Z.pow_add_r by lia; f_equal; unfold a; lia).
  assert (0 < 2 ^ Z.max (- a) 0) by (apply Z.pow_pos_nonneg; lia).
  assert (0 < 2 ^ Z.max a 0) by (apply Z.pow_pos_nonneg; lia).
  assert (forall b, 2 ^ Z.max (b + 1) 0 * 2 ^ Z.max (- b) 0 = 2 * (2 ^ Z.max b 0 * 2 ^ Z.max (- (b + 1)) 0)) as Hs.
  { intros b. rewrite <- !Z.pow_add_r by lia. rewrite <- Z.pow_succ_r by lia. f_equal. lia. }
  assert (forall b, 0 < 2 ^ Z.max b 0) as Hpos by (intros b; apply Z.pow_pos_nonneg; lia).
  destruct (Z.ltb_spec (n * 2 ^ Z.max (- a) 0) (d * 2 ^ Z.max a 0)) as [Hlt|Hge].
  - replace (a - 1 + 1) with a by lia. split; [|done].
    specialize (Hs (a - 1)). replace (a - 1 + 1) with a in Hs by lia.
    pose proof (Hpos (- a)). pose proof (Hpos (a - 1)). pose proof (Hpos (- (a - 1))).
    assert (d * 2 ^ Z.max a 0 <= 2 * (n * 2 ^ Z.max (- a) 0)) as Hd' by nia.
    nia.
  - split; [done|]. specialize (Hs a). pose proof (Hpos (a + 1)). pose proof (Hpos (- (a + 1))).
    assert (n * 2 ^ Z.max (- a) 0 < 2 * (d * 2 ^ Z.max a 0)) as Hn' by nia.
    nia.
Qed.

(** Below [2 ^ A], the rounding is to at least [53 - A] bits after the point. *)
Lemma round64_below n d A :
  0 < n -> 0 < d -> 0 <= A <= 53 -> n < d * 2 ^ A ->
  exists k, 53 - A <= k /\ round64 n d = MkFloat (nearest (n * 2 ^ k) d) (- k).
Proof.
  intros Hn Hd HA Hlt. destruct (ratio_log2_spec n d Hn Hd) as [Hlo _].
  assert (ratio_log2 n d <= A - 1) as Ha.
  { apply Z.nlt_ge. intros Hc. rewrite (Z.max_l (ratio_log2 n d)), (Z.max_r (- ratio_log2 n d)) in Hlo by lia.
    assert (2 ^ A <= 2 ^ ratio_log2 n d) by (apply Z.pow_le_mono_r; lia). nia. }
  exists (52 - ratio_log2 n d). split; [lia|]. unfold round64.
  rewrite (proj2 (Z.eqb_neq n 0)), Z.max_l, Z.max_r, Z.pow_0_r, Z.mul_1_r by lia. done.
Qed.

(** The integer part survives the rounding, when what is missing to the next integer is
    more than half the last bit. *)
Lemma round64_floor n d A :
  0 <= n -> 0 < d -> 0 <= A <= 53 -> n < d * 2 ^ A -> d < 2 ^ (54 - A) * (d - n mod d) ->
  to_int (round64 n d) = n / d.
Proof.
  intros Hn Hd HA Hlt Hfrac. destruct (Z.eq_dec n 0) as [->|Hne]; [done|].
  destruct (round64_below n d A) as (k & Hk & ->); [lia..|]. unfold to_int. cbn [f_mant f_exp].
  rewrite Z.max_r, Z.max_l, Z.pow_0_r, Z.mul_1_r, Z.opp_involutive by lia.
  assert (0 < 2 ^ k) as Hpk by (apply Z.pow_pos_nonneg; lia).
  destruct (nearest_bounds (n * 2 ^ k) d) as (Hlo & Hhi & _); [nia|lia|].
  assert (2 ^ (54 - A) <= 2 * 2 ^ k) as H2k.
  { rewrite <- Z.pow_succ_r by lia. apply Z.pow_le_mono_r; lia. }
  pose proof (Z.div_mod n d) as E. pose proof (Z.mod_pos_bound n d Hd) as Hr.
  set (m := nearest (n * 2 ^ k) d) in *. set (h := n / d) in *. set (r := n mod d) in *.
  assert (h * 2 ^ k <= m) as Hm1.
  { etrans; [|exact Hlo]. apply Z.div_le_lower_bound; [lia|]. rewrite E by lia. nia. }
  assert (m < (h + 1) * 2 ^ k) as Hm2.
  { apply (Z.mul_lt_mono_pos_r d); [lia|]. rewrite E in Hhi by lia. nia. }
  symmetry. apply (Z.div_unique m (2 ^ k) h (m - h * 2 ^ k)); [left; lia|lia].
Qed.

(** Small integers are exact. *)
Lemma of_int_exact n :
  0 <= n < 2 ^ 53 -> exists k, 0 <= k /\ of_int n = MkFloat (n * 2 ^ k) (- k).
Proof.
  intros [Hn Hlt]. destruct (Z.eq_dec n 0) as [->|Hne]; [by exists 0|].
  destruct (round64_below n 1 53) as (k & Hk & E); [lia..|]. exists k. split; [lia|]. unfold of_int. rewrite E.
  f_equal. unfold nearest. by rewrite Z.div_1_r, Z.mod_1_r.
Qed.

(** A quotient below one stays below it by almost what it was. *)
Lemma fdiv_below_one a D :
  0 <= a < D -> D < 2 ^ 53 ->
  exists m k, 0 <= k /\ 0 <= m /\ fdiv (of_int a) (of_int D) = MkFloat m (- k) /\
    2 ^ k * (2 ^ 54 - D) <= (2 ^ k - m) * D * 2 ^ 54.
Proof.
  intros [Ha Hlt] HD. destruct (of_int_exact a) as (ka & Hka & ->); [lia|].
  destruct (of_int_exact D) as (kd & Hkd & ->); [lia|]. unfold fdiv. cbn [f_mant f_exp].
  set (M := Z.max ka kd). assert (0 < 2 ^ M) as HM by (apply Z.pow_pos_nonneg; lia).
  assert (a * 2 ^ ka * 2 ^ Z.max (- ka - - kd) 0 = a * 2 ^ M) as ->.
  { rewrite <- Z.mul_assoc, <- Z.pow_add_r by lia. do 2 f_equal. lia. }
  assert (D * 2 ^ kd * 2 ^ Z.max (- (- ka - - kd)) 0 = D * 2 ^ M) as ->.
  { rewrite <- Z.mul_assoc, <- Z.pow_add_r by lia. do 2 f_equal. lia. }
  destruct (Z.eq_dec a 0) as [->|Hne].
  { exists 0, 0. split_and!; [lia|lia|done|]. rewrite Z.pow_0_r. lia. }
  destruct (round64_below (a * 2 ^ M) (D * 2 ^ M) 0) as (k & Hk & ->); [nia|nia|lia|rewrite Z.pow_0_r; nia|].
  assert (0 < 2 ^ k) as Hpk by (apply Z.pow_pos_nonneg; lia).
  destruct (nearest_bounds (a * 2 ^ M * 2 ^ k) (D * 2 ^ M)) as (Hlo & Hhi & _); [nia|nia|].
  set (m := nearest _ _) in *. exists m, k. split_and!; [lia| |done|].
  - etrans; [|exact Hlo]. apply Z.div_pos; nia.
  - assert (2 ^ 53 <= 2 ^ k) as H53 by (apply Z.pow_le_mono_r; lia).
    assert (2 * (m * D) <= 2 * (a * 2 ^ k) + D) as Hm by nia.
    change (2 ^ 54) with (2 * 2 ^ 53) in *. nia.
Qed.

(** [int(float64(h) + float64(a)/D)] is [h]. *)
Lemma int_part_exact h a D A :
  0 <= h < 2 ^ A -> 0 <= a < D -> 0 <= A <= 53 -> D * 2 ^ A < 2 ^ 54 - D -> D < 2 ^ 53 ->
  to_int (fadd (of_int h) (fdiv (of_int a) (of_int D))) = h.
Proof.
  intros [Hh HhA] Ha HA HD HD53. destruct (fdiv_below_one a D Ha HD53) as (m & k & Hk & Hm & -> & Hf).
  assert (2 ^ A <= 2 ^ 53) by (apply Z.pow_le_mono_r; lia).
  destruct (of_int_exact h) as (kh & Hkh & ->); [lia|]. unfold fadd. cbn [f_mant f_exp].
  set (K := Z.max kh k). replace (Z.min (- kh) (- k)) with (- K) by lia.
  replace (- kh - - K) with (K - kh) by lia. replace (- k - - K) with (K - k) by lia.
  rewrite <- Z.mul_assoc, <- Z.pow_add_r by lia. replace (kh + (K - kh)) with K by lia.
  rewrite Z.max_r, Z.max_l, Z.pow_0_r, Z.mul_1_r, Z.opp_involutive by lia.
  assert (0 < 2 ^ k) as Hpk by (apply Z.pow_pos_nonneg; lia).
  assert (0 < 2 ^ (K - k)) as HpK by (apply Z.pow_pos_nonneg; lia).
  assert (2 ^ K = 2 ^ k * 2 ^ (K - k)) as EK by (rewrite <- Z.pow_add_r by lia; f_equal; lia).
  assert (0 < 2 ^ A) as HpA by (apply Z.pow_pos_nonneg; lia).
  assert (0 < 2 ^ (54 - A)) as HpB by (apply Z.pow_pos_nonneg; lia).
  assert (2 ^ 54 = 2 ^ A * 2 ^ (54 - A)) as E54 by (rewrite <- Z.pow_add_r by lia; f_equal; lia).
  assert (2 ^ k < 2 ^ (54 - A) * (2 ^ k - m)) as Hgap.
  { assert (2 ^ k * (D * 2 ^ A) < (2 ^ k - m) * D * 2 ^ 54) as Hgap by nia. rewrite E54 in Hgap.
    apply (Z.mul_lt_mono_pos_r (D * 2 ^ A)); nia. }
  assert (m < 2 ^ k) as Hmk by nia.
  assert (0 <= m * 2 ^ (K - k) < 2 ^ K) as Hfrac.
  { rewrite EK. split; [by apply Z.mul_nonneg_nonneg; lia|by apply Z.mul_lt_mono_pos_r]. }
  assert (0 < 2 ^ K) as HpK2 by lia.
  assert ((h * 2 ^ K + m * 2 ^ (K - k)) / 2 ^ K = h) as Hq
    by (rewrite Z.add_comm, Z.div_add, Z.div_small by lia; lia).
  assert ((h * 2 ^ K + m * 2 ^ (K - k)) mod 2 ^ K = m * 2 ^ (K - k)) as Hr
    by (rewrite Z.add_comm, Z.mod_add, Z.mod_small by lia; lia).
  assert ((h + 1) * 2 ^ K <= 2 ^ A * 2 ^ K) as HA2 by (apply Z.mul_le_mono_nonneg_r; lia).
  rewrite (round64_floor _ _ A); [exact Hq| |lia|lia| |].
  - assert (0 <= h * 2 ^ K) by (apply Z.mul_nonneg_nonneg; lia). lia.
  - lia.
  - rewrite Hr, EK. replace (2 ^ k * 2 ^ (K - k) - m * 2 ^ (K - k)) with ((2 ^ k - m) * 2 ^ (K - k)) by lia.
    rewrite Z.mul_assoc. by apply Z.mul_lt_mono_pos_r.
Qed.
