(* ===== verification/Shell.v ===== *)
(** * internal/utils/shell: running external commands

    [Run] (whole output), [Stream] (line by line) and the [tailBuffer] that
    keeps the end of a command's stderr. *)

From S2P Require Import Prelude GoStrings GoNet Effects Sim.

(** ** [tailBuffer] *)

Definition tailSize : Z := 1024.

Record tailBuffer : Type := MkTailBuffer { buf : string }.

Definition tailBuffer0 : tailBuffer := MkTailBuffer "".

(** [t.Write(p)]: the new buffer and the count reported to the writer. *)
Definition Write (t : tailBuffer) (p : string) : tailBuffer * (Z * option error) :=
  let b := buf t +:+ p in
  let over := len b - tailSize in
  (MkTailBuffer (if 0 <? over then drop_bytes (Z.to_nat over) b else b), (len p, None)).

Definition tail_String (t : tailBuffer) : string := buf t.

Section Shell.
Context {S : Type}.

(** ** [Run] *)

Definition Run (c : ctx) (name : string) (args : list string) : prog S (string * option error) :=
  '(out, err) ← sys (Exec c name args "");
  match err with
  | Some e =>
      mret (out, Some (ErrWrap (name +:+ " " +:+ Join args " " +:+ ": " +:+ Error e) e))
  | None => mret (out, None)
  end.

(** ** [Stream] *)

(** [for sc.Scan() { onLine(sc.Text()) }]; [None] when more than [fuel] lines
    arrived. *)
Definition scan_lines (fuel : nat) (onLine : string -> prog S unit) : prog S (option unit) :=
  loop fuel (fun _ : unit =>
    r ← sys CmdScan;
    match r with
    | Some line => onLine line ≫= fun _ => mret (inl tt)
    | None => mret (inr tt)
    end) tt.

Definition Stream (fuel : nat) (c : ctx) (onLine : string -> prog S unit) (name : string)
    (args : list string) : prog S (option (option error)) :=
  perr ← sys CmdPipe;
  match perr with
  | Some e => mret (Some (Some (ErrWrap (name +:+ ": " +:+ Error e) e)))
  | None =>
      serr ← sys (CmdStart c name args);
      match serr with
      | Some e =>
          mret (Some (Some (ErrWrap (name +:+ " " +:+ Join args " " +:+ ": " +:+ Error e) e)))
      | None =>
          scanned ← scan_lines fuel onLine;
          match scanned with
          | None => mret None
          | Some _ =>
              sys CmdDrain ≫= fun _ =>
              '(writes, werr) ← sys CmdWait;
              let stderr := fold_left (fun t p => (Write t p).1) writes tailBuffer0 in
              match werr with
              | Some e =>
                  mret (Some (Some (ErrWrap (name +:+ " " +:+ Join args " " +:+ ": " +:+ Error e
                    +:+ ": " +:+ TrimSpace (tail_String stderr)) e)))
              | None => mret (Some None)
              end
          end
      end
  end.

End Shell.

(** ** Lemmas *)

Lemma Run_wraps {S W} `{!World W} c name args (s : S) (w : W) :
  let o := exec (Run c name args) s w in
  let r := os_handle (Exec c name args "") w in
  (out_val o).1 = r.1.1 /\ out_state o = s /\ out_world o = r.2 /\
  out_events o = [EvExec c name args ""] /\
  match r.1.2 with
  | None => (out_val o).2 = None
  | Some e => exists t, (out_val o).2 = Some (ErrWrap t e)
  end.
Proof.
  unfold Run. run. destruct (os_handle _ w) as [[out err] w']. cbn.
  destruct err as [e|]; cbn; eauto 10.
Qed.

(** What [Run] returns, as a function of the world's answer. *)
Definition run_result (name : string) (args : list string) (r : string * option error)
  : string * option error :=
  (r.1, match r.2 with
        | Some e => Some (ErrWrap (name +:+ " " +:+ Join args " " +:+ ": " +:+ Error e) e)
        | None => None
        end).

Lemma exec_Run {S W} `{!World W} c name args (s : S) (w : W) :
  exec (Run c name args) s w =
    Out (run_result name args (os_handle (Exec c name args "") w).1) s
      (os_handle (Exec c name args "") w).2 [EvExec c name args ""].
Proof.
  unfold Run, run_result. run. destruct (os_handle _ w) as [[out err] w']. cbn.
  by destruct err.
Qed.

Lemma preserves_Run {S} (I : S -> Prop) c name args : preserves I (Run c name args : prog S _).
Proof. cbn. intros [out [e|]]; done. Qed.

Lemma preserves_Stream {S} (I : S -> Prop) fuel c (onLine : string -> prog S unit) name args :
  (forall line, preserves I (onLine line)) -> preserves I (Stream fuel c onLine name args).
Proof. intros H. unfold Stream, scan_lines. preserves. Qed.

#[export] Hint Rewrite @exec_Run : exec.
#[export] Hint Resolve preserves_Run : gosocks.

Lemma drop_bytes_drop n m s : drop_bytes n (drop_bytes m s) = drop_bytes (m + n)%nat s.
Proof.
  revert s. induction m as [|m IH]; intros s; [done|].
  destruct s as [|c s]; cbn; [by destruct n|apply IH].
Qed.

Lemma drop_bytes_append n s t :
  (n <= String.length s)%nat -> drop_bytes n (s +:+ t) = drop_bytes n s +:+ t.
Proof.
  revert s. induction n as [|n IH]; intros s Hn; [done|].
  destruct s as [|c s]; cbn in Hn; [lia|]. rewrite append_cons. cbn. apply IH. lia.
Qed.

Lemma length_drop_bytes n s : String.length (drop_bytes n s) = (String.length s - n)%nat.
Proof.
  revert s. induction n as [|n IH]; intros s; [cbn; lia|].
  destruct s as [|c s]; [done|]. cbn. apply IH.
Qed.

Lemma take_drop_bytes n s : take_bytes n s +:+ drop_bytes n s = s.
Proof.
  revert s. induction n as [|n IH]; intros s; [by destruct s|].
  destruct s as [|c s]; [done|]. cbn [take_bytes drop_bytes]. by rewrite append_cons, IH.
Qed.

(** The last [tailSize] bytes of a text. *)
Definition last_bytes (s : string) : string :=
  drop_bytes (String.length s - Z.to_nat tailSize) s.

Lemma Write_last s p :
  (Write (MkTailBuffer (last_bytes s)) p).1 = MkTailBuffer (last_bytes (s +:+ p)).
Proof.
  unfold Write, last_bytes. cbn [buf fst]. f_equal.
  set (n := Z.to_nat tailSize).
  assert (tailSize = Z.of_nat n) as HT by reflexivity. rewrite HT. clearbody n.
  set (k := (String.length s - n)%nat).
  assert (k <= String.length s)%nat as Hk by lia.
  unfold len. rewrite !length_append, length_drop_bytes.
  rewrite <- drop_bytes_append by done.
  destruct (Z.ltb_spec 0 (Z.of_nat (String.length s - k + String.length p) - Z.of_nat n)) as [H|H].
  - rewrite drop_bytes_drop. f_equal. lia.
  - f_equal. lia.
Qed.

(** The buffer always holds the end of everything written. *)
Lemma writes_last ps s :
  fold_left (fun t p => (Write t p).1) ps (MkTailBuffer (last_bytes s)) =
    MkTailBuffer (last_bytes (fold_left (fun a p => a +:+ p) ps s)).
Proof.
  revert s. induction ps as [|p ps IH]; intros s; [done|]. cbn [fold_left].
  by rewrite Write_last, IH.
Qed.

(** ** Streaming *)

(** A world that delivers the lines of a running command one by one; nothing else takes
    or adds lines. *)
Class Scanner (W : Type) `{!World W} : Type := {
  lines_of : W -> list string;
  scan_next : forall w,
    (os_handle CmdScan w).1 = head (lines_of w) /\ lines_of (os_handle CmdScan w).2 = tail (lines_of w);
  scan_keep : forall X (e : osE X) w, match e with CmdScan => True | _ => lines_of (os_handle e w).2 = lines_of w end
}.

(** A program that does not read the command's output itself. *)
Fixpoint no_scan {S A} (p : prog S A) : Prop :=
  match p with
  | Ret _ => True
  | Sys e k => match e with CmdScan => False | _ => True end /\ (forall x, no_scan (k x))
  | Crit f k => forall x, no_scan (k x)
  end.

Section Streaming.
Context {S W : Type} `{!World W} `{!Scanner W}.

Lemma no_scan_lines {A} (p : prog S A) s (w : W) :
  no_scan p -> lines_of (out_world (exec p s w)) = lines_of w.
Proof.
  revert s w. induction p as [a|X e k IH|X f k IH]; intros s w Hp; cbn in *; [done| |].
  - destruct Hp as [He Hk]. pose proof (scan_keep X e w) as Hw.
    destruct (os_handle e w) as [x w'] eqn:E. cbn. rewrite IH by done.
    destruct e; try done; by rewrite E in Hw.
  - destruct (f s) as [[x s'] ev]. cbn. auto.
Qed.

(** What one call after another does with the lines, in the worlds between them. *)
Inductive delivered (onLine : string -> prog S unit) : list string -> S -> W -> S -> list event -> Prop :=
| delivered_nil s w : delivered onLine [] s w s []
| delivered_cons line lines s w s' ev :
    let o := exec (onLine line) s (os_handle CmdScan w).2 in
    delivered onLine lines (out_state o) (out_world o) s' ev ->
    delivered onLine (line :: lines) s w s' (out_events o ++ ev).

Lemma scan_lines_delivered fuel onLine (s : S) (w : W) :
  (forall line, no_scan (onLine line)) -> (length (lines_of w) < fuel)%nat ->
  let o := exec (scan_lines fuel onLine) s w in
  out_val o = Some tt /\ delivered onLine (lines_of w) s w (out_state o) (out_events o) /\
  lines_of (out_world o) = [].
Proof.
  intros Hq. cbv zeta. unfold scan_lines. revert s w. induction fuel as [|fuel IH]; intros s w Hf; [lia|].
  cbn [loop]. run. destruct (scan_next w) as [Hh Ht].
  destruct (os_handle CmdScan w) as [r w1] eqn:E. cbn [fst snd] in *. subst r.
  destruct (lines_of w) as [|line lines] eqn:El; cbn [head tail] in *; run.
  { split_and!; [done|constructor|done]. }
  pose proof (no_scan_lines (onLine line) s w1 (Hq line)) as Hl. rewrite Ht in Hl.
  specialize (IH (out_state (exec (onLine line) s w1)) (out_world (exec (onLine line) s w1))).
  rewrite Hl in IH. destruct IH as (Hv & Hd & Hn); [cbn in Hf; lia|]. rewrite app_nil_r.
  split_and!; [done| |done].
  pose proof (delivered_cons onLine line lines s w) as Hc. rewrite E in Hc. cbn [snd] in Hc. by apply Hc.
Qed.

End Streaming.

(** ** Properties *)


#[export] Instance sim_scanner : Scanner sim.
Proof.
  refine {| lines_of := sim_lines |}.
  - intros w. cbn. destruct (sim_lines w) as [|l ls] eqn:E; cbn; by rewrite ?E.
  - intros X e w. destruct e; try done; cbn.
    + unfold sim_exec. repeat split_match; done.
    + by destruct (sim_sleeps w).
Defined.


(** C31. The stderr buffer accepts every write whole and holds the last 1024 bytes of all
    that was written, or everything while that is less. *)
Theorem tail_keeps_last ps p :
  let b := fold_left (fun t p => (Write t p).1) ps tailBuffer0 in
  let all := fold_left (fun a p => a +:+ p) ps "" in
  (Write b p).2 = (len p, None) /\
  (exists dropped, all = dropped +:+ tail_String b /\
     (dropped = "" \/ len (tail_String b) = 1024)) /\
  len (tail_String b) <= 1024.
Proof.
  cbv zeta. change tailBuffer0 with (MkTailBuffer (last_bytes "")). rewrite writes_last.
  cbn [tail_String buf]. set (all := fold_left _ ps _). unfold last_bytes. split; [done|].
  set (k := (String.length all - Z.to_nat tailSize)%nat).
  assert (len (drop_bytes k all) = Z.of_nat (String.length all - k)) as Hl
    by (unfold len; by rewrite length_drop_bytes).
  assert (Z.to_nat tailSize = 1024%nat) as HT by reflexivity.
  split; [|rewrite Hl; lia]. exists (take_bytes k all). split; [symmetry; apply take_drop_bytes|].
  rewrite Hl. destruct (Nat.le_gt_cases (String.length all) 1024).
  - left. assert (k = 0)%nat as -> by lia. by destruct all.
  - right. lia.
Qed.
