(* ===== verification/Route.v ===== *)
(** * internal/utils/route: LAN detection, the ARP table, MAC addresses, SYN lines

    The parsers are functions of the tools' output; the functions that spawn a
    tool are programs over [Shell.Run]. *)

From S2P Require Import Prelude GoStrings GoNet Effects Sim Shell.

Definition ErrNoLANInterface : error := ErrNew "no non-tunnel LAN interface found".
Definition errNoIPv4 : error := ErrNew "no IPv4 address".

(** ** MAC addresses *)

(** [if len(p) == 1 { p = "0" + p }] *)
Definition pad_octet (p : string) : string := if len p =? 1 then "0" +:+ p else p.

Definition CanonicalMAC (mac : string) : string * bool :=
  let parts := map pad_octet (Split mac colon) in
  match ParseMAC (Join parts ":") with
  | None => ("", false)
  | Some hw => (HardwareAddr_String hw, true)
  end.

Definition sameMAC (a b : string) : bool :=
  let '(ca, okA) := CanonicalMAC a in
  let '(cb, okB) := CanonicalMAC b in
  okA && okB && bool_decide (ca = cb).

(** ** ARP entries *)

Record ArpEntry : Type := MkArpEntry { a_MAC : string; a_Iface : string }.

#[global] Instance ArpEntry_eq_dec : EqDecision ArpEntry.
Proof. solve_decision. Defined.

Definition ArpEntry0 : ArpEntry := MkArpEntry "" "".

(** The loop over [fields[i]], [fields[i+1]]. *)
Fixpoint arp_scan (fields : list string) (e : ArpEntry) : ArpEntry :=
  match fields with
  | f :: rest =>
      match rest with
      | next :: _ =>
          arp_scan rest
            (if bool_decide (f = "at") then MkArpEntry next (a_Iface e)
             else if bool_decide (f = "on") then MkArpEntry (a_MAC e) next
             else e)
      | [] => e
      end
  | [] => e
  end.

Definition parseArpEntry (out : string) : ArpEntry * bool :=
  let e := arp_scan (Fields out) ArpEntry0 in
  let '(mac, ok) := CanonicalMAC (a_MAC e) in
  if negb ok || bool_decide (a_Iface e = "") then (ArpEntry0, false)
  else (MkArpEntry mac (a_Iface e), true).

Inductive PinAction : Type := PinNone | PinAdopt | PinRepin.

#[global] Instance PinAction_eq_dec : EqDecision PinAction.
Proof. solve_decision. Defined.

Definition DecidePin (entry : ArpEntry) (found : bool) (wantMAC iface : string) : PinAction :=
  if found && bool_decide (a_Iface entry = iface) && sameMAC (a_MAC entry) wantMAC then PinNone
  else if found && bool_decide (a_Iface entry = iface) then PinAdopt
  else if bool_decide (wantMAC = "") then PinNone
  else PinRepin.

(** ** The default route *)

Fixpoint parseDefault_lines (lines : list string) : string :=
  match lines with
  | [] => ""
  | line :: rest =>
      let fields := Fields line in
      if Z.of_nat (length fields) <? 4 then parseDefault_lines rest
      else if negb (bool_decide (nth 0 fields "" = "default")) then parseDefault_lines rest
      else
        let netif := List.last fields "" in
        if HasPrefix netif "utun" || HasPrefix netif "lo" || bool_decide (netif = "")
        then parseDefault_lines rest
        else netif
  end.

Definition parseDefaultNonTunnel (netstatOutput : string) : string :=
  parseDefault_lines (Split netstatOutput (asc 10)).

(** ** Interface addresses *)

Definition ipv4Prefix (ipnet : IPNet) : option Prefix :=
  match To4 (n_IP ipnet) with
  | None => None
  | Some ip4 =>
      match AddrFromSlice ip4 with
      | None => None
      | Some addr =>
          let '(ones, bits) := Mask_Size (n_Mask ipnet) in
          let ones := if bits =? 128 then ones - 96 else ones in
          if (ones <? 0) || (32 <? ones) then None
          else Some (PrefixFrom addr ones)
      end
  end.

Record lanCandidate : Type := MkCandidate { c_ifaddr : Prefix; c_iface : string }.

Definition pickCandidate (cands : list lanCandidate) (prefer : string) : option lanCandidate :=
  match cands with
  | [] => None
  | c0 :: _ =>
      match find (fun c => negb (bool_decide (prefer = "")) && bool_decide (c_iface c = prefer)) cands with
      | Some c => Some c
      | None => Some c0
      end
  end.

(** The first usable address of [connectedPrefix]. *)
Fixpoint first_connected (addrs : list IfAddr) : option Prefix :=
  match addrs with
  | [] => None
  | IfOther :: rest => first_connected rest
  | IfIPNet ipnet :: rest =>
      match ipv4Prefix ipnet with
      | None => first_connected rest
      | Some ifaddr =>
          if IsLoopback (p_ip ifaddr) || IsLinkLocalUnicast (p_ip ifaddr)
          then first_connected rest
          else Some ifaddr
      end
  end.

(** The first RFC 1918 address of an interface. *)
Fixpoint first_private (addrs : list IfAddr) : option Prefix :=
  match addrs with
  | [] => None
  | IfOther :: rest => first_private rest
  | IfIPNet ipnet :: rest =>
      match ipv4Prefix ipnet with
      | None => first_private rest
      | Some ifaddr => if IsPrivate (p_ip ifaddr) then Some ifaddr else first_private rest
      end
  end.

(** The interface filters of [rfc1918Candidates]. *)
Definition candidate_iface (ifi : Interface) : bool :=
  negb (Z.land (i_Flags ifi) FlagUp =? 0) &&
  negb (negb (Z.land (i_Flags ifi) FlagLoopback =? 0)
        || negb (Z.land (i_Flags ifi) FlagPointToPoint =? 0)) &&
  negb (HasPrefix (i_Name ifi) "utun").

Section Route.
Context {S : Type}.

Definition connectedPrefix (iface : string) : prog S (Prefix + error) :=
  r ← sys (NetInterfaceByName iface);
  match r with
  | inr err => mret (inr (ErrWrap ("interface " +:+ iface +:+ ": " +:+ Error err) err))
  | inl ifi =>
      r ← sys (NetAddrs ifi);
      match r with
      | inr err => mret (inr (ErrWrap ("addrs " +:+ iface +:+ ": " +:+ Error err) err))
      | inl addrs =>
          match first_connected addrs with
          | Some ifaddr => mret (inl ifaddr)
          | None => mret (inr (ErrWrap (Error errNoIPv4 +:+ " on " +:+ iface) errNoIPv4))
          end
      end
  end.

Fixpoint candidates_loop (ifaces : list Interface) (cands : list lanCandidate)
  : prog S (list lanCandidate) :=
  match ifaces with
  | [] => mret cands
  | ifi :: rest =>
      if negb (candidate_iface ifi) then candidates_loop rest cands
      else
        r ← sys (NetAddrs ifi);
        match r with
        | inr _ => candidates_loop rest cands
        | inl addrs =>
            match first_private addrs with
            | None => candidates_loop rest cands
            | Some ifaddr => candidates_loop rest (cands ++ [MkCandidate ifaddr (i_Name ifi)])
            end
        end
  end.

Definition rfc1918Candidates : prog S (list lanCandidate + error) :=
  r ← sys NetInterfaces;
  match r with
  | inr err => mret (inr (ErrWrap ("list interfaces: " +:+ Error err) err))
  | inl ifaces => cands ← candidates_loop ifaces []; mret (inl cands)
  end.

(** The fallback of [DetectLAN] when no usable default route is found. *)
Definition detect_fallback (prefer : string) : prog S ((Prefix * string) + error) :=
  r ← rfc1918Candidates;
  match r with
  | inr err => mret (inr err)
  | inl cands =>
      match pickCandidate cands prefer with
      | None => mret (inr ErrNoLANInterface)
      | Some c => mret (inl (c_ifaddr c, c_iface c))
      end
  end.

Definition DetectLAN (c : ctx) (prefer : string) : prog S ((Prefix * string) + error) :=
  '(out, err) ← Run c "netstat" ["-rn"; "-f"; "inet"];
  match err with
  | None =>
      let name := parseDefaultNonTunnel out in
      if bool_decide (name = "") then detect_fallback prefer
      else
        r ← connectedPrefix name;
        match r with
        | inl ifaddr => mret (inl (ifaddr, name))
        | inr _ => detect_fallback prefer
        end
  | Some _ => detect_fallback prefer
  end.

(** ** The shell operations on the ARP table *)

Definition LookupARP (c : ctx) (ip : string) : prog S (ArpEntry * bool) :=
  '(out, err) ← Run c "arp" ["-n"; ip];
  match err with
  | Some _ => mret (ArpEntry0, false)
  | None => mret (parseArpEntry out)
  end.

Definition Pin (c : ctx) (ip mac iface : string) : prog S (option error) :=
  Run c "route" ["change"; ip; "-interface"; iface] ≫= fun _ =>
  '(out, err) ← Run c "arp" ["-S"; ip; mac; "temp"];
  match err with
  | Some e => mret (Some (ErrWrap (Error e +:+ ": " +:+ TrimSpace out) e))
  | None => mret None
  end.

End Route.

(** ** SYN lines of tcpdump (syn.go) *)

Definition parseSYNLine (line : string) : option (Addr * string) :=
  match Fields line with
  | [] => None
  | f0 :: _ =>
      let '(mac, ok) := CanonicalMAC f0 in
      if negb ok then None
      else
        let '(_, rest, ok) := Cut line ", length " in
        if negb ok then None
        else
          let fields := Fields rest in
          if Z.of_nat (length fields) <? 2 then None
          else
            let f1 := nth 1 fields "" in
            match LastIndexByte f1 dot with
            | None => None
            | Some i =>
                match ParseAddr (take_bytes i f1) with
                | None => None
                | Some ip => if negb (Is4 ip) then None else Some (ip, mac)
                end
            end
  end.

Definition syn_args (iface port : string) : list string :=
  ["-i"; iface; "-p"; "-l"; "-n"; "-t"; "-e"; "-s"; "128";
   "tcp dst port " +:+ port +:+ " and tcp[tcpflags] & (tcp-syn|tcp-ack) == tcp-syn"].

Definition WatchSYN {S} (fuel : nat) (c : ctx) (iface port : string)
    (onSYN : Addr -> string -> prog S unit) : prog S (option (option error)) :=
  Stream fuel c (fun line =>
    match parseSYNLine line with
    | Some (ip, mac) => onSYN ip mac
    | None => skip
    end) "tcpdump" (syn_args iface port).

(** ** Vocabulary of the statements *)

(** One or two hex digits of either case: an octet as macOS prints it. *)
Definition octet_text (b : Z) (t : string) : Prop :=
  (exists c, t = String c "" /\ hexval c = Some b) \/ pair_text b t.

(** An IPv4 interface address with its prefix length. *)
Definition ifaddr_wf (p : Prefix) : Prop :=
  exists v b, p = PrefixFrom (Addr4 v) b /\ 0 <= v < 2 ^ 32 /\ 0 <= b <= 32.

(** A line of [arp -n]: "? (ip) at mac on iface flag ...". *)
Definition arp_line (ip mac iface : string) (flags : list string) : string :=
  Join (["?"; "(" +:+ ip +:+ ")"; "at"; mac; "on"; iface] ++ flags) " " +:+ newline.

Definition not_keyword (w : string) : Prop := w <> "at" /\ w <> "on".

(** A row of the routing table whose interface DetectLAN may use. *)
Definition lan_default (line : string) : bool :=
  let fields := Fields line in
  (4 <=? Z.of_nat (length fields)) &&
  bool_decide (nth 0 fields "" = "default") &&
  negb (HasPrefix (List.last fields "") "utun" || HasPrefix (List.last fields "") "lo"
        || bool_decide (List.last fields "" = "")).

(** ** Lemmas: MAC addresses *)

Lemma pad_octet_text b t : octet_text b t -> pair_text b (pad_octet t).
Proof.
  intros [(c & -> & Hc)|H].
  - exists "0"%char, c, 0, b. split_and!; [done|done|done|lia].
  - pose proof H as (c1 & c2 & x & y & -> & _). exact H.
Qed.

Lemma octet_text_lacks b t : octet_text b t -> lacks colon t = true.
Proof.
  intros [(c & -> & Hc%hexval_colon)|H].
  - unfold lacks. cbn [string_forallb]. by rewrite Hc.
  - by eapply pair_text_lacks.
Qed.

Lemma pair_octet_text b t : pair_text b t -> octet_text b t.
Proof. by right. Qed.

(** Every colon-separated spelling of a hardware address has the same
    canonical form. *)
Lemma CanonicalMAC_text hw ts :
  Forall2 octet_text hw ts -> mac_len_ok (Z.of_nat (length hw)) = true ->
  CanonicalMAC (Join ts ":") = (HardwareAddr_String hw, true).
Proof.
  intros Hts Hlen. unfold CanonicalMAC. change ":" with (String colon "").
  rewrite Split_Join.
  - rewrite (ParseMAC_pairs hw); [done| |done].
    clear Hlen. induction Hts; cbn [map]; constructor; auto using pad_octet_text.
  - intros ->. apply Forall2_nil_inv_r in Hts as ->. done.
  - clear Hlen. induction Hts; constructor; eauto using octet_text_lacks.
Qed.

Lemma CanonicalMAC_String hw :
  mac_ok hw -> CanonicalMAC (HardwareAddr_String hw) = (HardwareAddr_String hw, true).
Proof.
  intros [Hb Hlen]. apply CanonicalMAC_text; [|done]. clear Hlen.
  induction Hb; cbn [map]; constructor; auto using pair_octet_text, pair_text_hex2.
Qed.

(** Whatever [ParseMAC] accepts has a canonical form, that of the same address. *)
Lemma CanonicalMAC_valid s hw :
  ParseMAC s = Some hw -> CanonicalMAC s = (HardwareAddr_String hw, true).
Proof.
  intros Hp. pose proof (ParseMAC_ok _ _ Hp) as [_ Hlen].
  destruct (ParseMAC_shape s hw Hp) as [(ts & -> & Hts)|[Hl H14]].
  - change (String colon "") with ":". apply CanonicalMAC_text; [|done].
    eapply Forall2_impl; [exact Hts|]. intros b t. apply pair_octet_text.
  - unfold CanonicalMAC. rewrite Split_lacks by done. cbn [map]. unfold pad_octet.
    rewrite (proj2 (Z.eqb_neq (len s) 1)) by lia. rewrite Join_one. by rewrite Hp.
Qed.

Lemma CanonicalMAC_inv s c :
  CanonicalMAC s = (c, true) -> exists hw, mac_ok hw /\ c = HardwareAddr_String hw.
Proof.
  unfold CanonicalMAC. destruct (ParseMAC _) as [hw|] eqn:E; [|done].
  intros [= <-]. exists hw. by split; [eapply ParseMAC_ok|].
Qed.

Lemma CanonicalMAC_false s c : CanonicalMAC s = (c, false) -> c = "".
Proof. unfold CanonicalMAC. by destruct (ParseMAC _); intros [= <-]. Qed.

Lemma CanonicalMAC_canonical s c :
  CanonicalMAC s = (c, true) -> CanonicalMAC c = (c, true).
Proof. intros (hw & Hok & ->)%CanonicalMAC_inv. by apply CanonicalMAC_String. Qed.

Lemma CanonicalMAC_nonempty s c : CanonicalMAC s = (c, true) -> c <> "".
Proof. intros H%CanonicalMAC_canonical ->. by vm_compute in H. Qed.

Lemma sameMAC_iff a b :
  sameMAC a b = true <-> exists c, CanonicalMAC a = (c, true) /\ CanonicalMAC b = (c, true).
Proof.
  unfold sameMAC. destruct (CanonicalMAC a) as [ca [|]], (CanonicalMAC b) as [cb [|]]; cbn;
    try (split; [done|by intros (c & [=] & [=])]).
  rewrite bool_decide_eq_true. split; [intros ->; eauto|by intros (c & [= ->] & [= ->])].
Qed.

Lemma sameMAC_canonical c : CanonicalMAC c = (c, true) -> sameMAC c c = true.
Proof. intros H. apply sameMAC_iff. eauto. Qed.

(** Two canonical texts are the same MAC only when they are equal. *)
Lemma sameMAC_canonical_eq a b :
  CanonicalMAC a = (a, true) -> CanonicalMAC b = (b, true) ->
  sameMAC a b = bool_decide (a = b).
Proof.
  intros Ha Hb. unfold sameMAC. by rewrite Ha, Hb.
Qed.

Lemma sameMAC_empty_r a : sameMAC a "" = false.
Proof. unfold sameMAC. destruct (CanonicalMAC a) as [? []]; done. Qed.

(** ** Lemmas: ARP entries *)

Lemma Fields_Join ws :
  Forall (fun w => word w = true) ws -> Fields (Join ws " " +:+ newline) = ws.
Proof.
  induction 1 as [|w ws Hw Hws IH]; [done|].
  destruct ws as [|w' ws].
  - rewrite Join_one, <- (append_nil_r newline). by rewrite Fields_word_nl.
  - change " " with (String " " "") in *.
    by rewrite Join_cons, append_assoc, append_cons, Fields_word_sp, IH.
Qed.

Lemma arp_scan_cons f n rest e :
  arp_scan (f :: n :: rest) e =
    arp_scan (n :: rest)
      (if bool_decide (f = "at") then MkArpEntry n (a_Iface e)
       else if bool_decide (f = "on") then MkArpEntry (a_MAC e) n else e).
Proof. reflexivity. Qed.

Lemma arp_scan_plain e w ws :
  not_keyword w -> arp_scan (w :: ws) e = arp_scan ws e.
Proof.
  intros [H1 H2]. destruct ws as [|w' ws]; [done|].
  by rewrite arp_scan_cons, !bool_decide_eq_false_2.
Qed.

Lemma arp_scan_no_keywords e ws :
  Forall not_keyword ws -> arp_scan ws e = e.
Proof. induction 1 as [|w ws Hw Hws IH]; [done|]. by rewrite arp_scan_plain. Qed.

Lemma arp_line_words ip mac iface flags :
  word ip = true -> word mac = true -> word iface = true ->
  Forall (fun w => word w = true) flags ->
  Forall (fun w => word w = true) (["?"; "(" +:+ ip +:+ ")"; "at"; mac; "on"; iface] ++ flags).
Proof.
  intros Hip%word_graphic Hmac Hif Hfl.
  assert (word ("(" +:+ ip +:+ ")") = true) as Hw.
  { change (string_forallb graphic ("(" +:+ ip +:+ ")") = true).
    by rewrite !string_forallb_app, Hip. }
  cbn [app]. rewrite !Forall_cons. by split_and!.
Qed.

(** [arp -n] output for a resolved entry is read back. *)
Lemma parseArpEntry_line ip mac iface flags c :
  word ip = true -> word mac = true -> word iface = true ->
  Forall (fun w => word w = true) flags ->
  CanonicalMAC mac = (c, true) -> not_keyword iface -> Forall not_keyword flags ->
  parseArpEntry (arp_line ip mac iface flags) = (MkArpEntry c iface, true).
Proof.
  intros Hip Hmac Hif Hfl Hc Hkif Hkfl. unfold parseArpEntry, arp_line.
  rewrite Fields_Join by by apply arp_line_words.
  assert (not_keyword mac) as Hkmac by (split; intros ->; by vm_compute in Hc).
  assert (not_keyword ("(" +:+ ip +:+ ")")) as Hkip by done.
  cbn [app]. rewrite (arp_scan_plain _ "?"), (arp_scan_plain _ _ _ Hkip) by done.
  change (arp_scan ("at" :: mac :: "on" :: iface :: flags) ArpEntry0)
    with (arp_scan (mac :: "on" :: iface :: flags) (MkArpEntry mac "")).
  rewrite (arp_scan_plain _ _ _ Hkmac).
  change (arp_scan ("on" :: iface :: flags) (MkArpEntry mac ""))
    with (arp_scan (iface :: flags) (MkArpEntry mac iface)).
  rewrite arp_scan_no_keywords by by constructor. cbn [a_MAC a_Iface]. rewrite Hc.
  by rewrite bool_decide_eq_false_2 by (by intros ->).
Qed.

Lemma parseArpEntry_canonical out e :
  parseArpEntry out = (e, true) -> CanonicalMAC (a_MAC e) = (a_MAC e, true) /\ a_Iface e <> "".
Proof.
  unfold parseArpEntry. destruct (CanonicalMAC _) as [c [|]] eqn:Hc; [|done].
  cbn. case_bool_decide as Hi; [done|]. intros [= <-]. cbn.
  split; [by eapply CanonicalMAC_canonical|done].
Qed.

Lemma parseArpEntry_not_found out e : parseArpEntry out = (e, false) -> e = ArpEntry0.
Proof.
  unfold parseArpEntry. destruct (CanonicalMAC _) as [c b].
  by destruct (negb b || _); intros [= <-].
Qed.

(** ** Lemmas: DecidePin *)

Lemma DecidePin_Repin entry found want iface :
  DecidePin entry found want iface = PinRepin <->
  want <> "" /\ ~ (found = true /\ a_Iface entry = iface).
Proof.
  unfold DecidePin. destruct found; cbn; repeat case_bool_decide; cbn;
    destruct (sameMAC (a_MAC entry) want); intuition congruence.
Qed.

Lemma DecidePin_Adopt entry found want iface :
  DecidePin entry found want iface = PinAdopt <->
  found = true /\ a_Iface entry = iface /\ sameMAC (a_MAC entry) want = false.
Proof.
  unfold DecidePin. destruct found; cbn; repeat case_bool_decide; cbn;
    destruct (sameMAC (a_MAC entry) want); intuition congruence.
Qed.

Lemma DecidePin_settled mac iface :
  CanonicalMAC mac = (mac, true) -> DecidePin (MkArpEntry mac iface) true mac iface = PinNone.
Proof.
  intros H. unfold DecidePin. cbn.
  by rewrite bool_decide_eq_true_2, sameMAC_canonical.
Qed.

(** ** Lemmas: the default route *)

Lemma parseDefault_lines_cons line rest :
  parseDefault_lines (line :: rest) =
    if lan_default line then List.last (Fields line) "" else parseDefault_lines rest.
Proof.
  unfold lan_default. cbn [parseDefault_lines].
  destruct (Z.ltb_spec (Z.of_nat (length (Fields line))) 4) as [H|H].
  - by rewrite (proj2 (Z.leb_gt _ _)) by lia.
  - rewrite (proj2 (Z.leb_le _ _)) by lia. cbn [andb].
    destruct (bool_decide (nth 0 (Fields line) "" = "default")); [|done]. cbn [negb andb].
    by destruct (HasPrefix _ "utun" || _ || _).
Qed.

Lemma parseDefault_lines_spec lines :
  (parseDefault_lines lines = "" /\ Forall (fun l => lan_default l = false) lines) \/
  exists before line after,
    lines = before ++ line :: after /\ Forall (fun l => lan_default l = false) before /\
    lan_default line = true /\ parseDefault_lines lines = List.last (Fields line) "".
Proof.
  induction lines as [|line lines IH]; [by left|].
  rewrite parseDefault_lines_cons. destruct (lan_default line) eqn:E.
  - right. exists [], line, lines. auto.
  - destruct IH as [[H1 H2]|(b & l & a & -> & Hb & Hl & Heq)]; [left; auto|].
    right. exists (line :: b), l, a. auto.
Qed.

Lemma lan_default_name line :
  lan_default line = true ->
  HasPrefix (List.last (Fields line) "") "utun" = false /\
  HasPrefix (List.last (Fields line) "") "lo" = false /\ List.last (Fields line) "" <> "".
Proof.
  unfold lan_default. intros H. bools.
  by repeat match goal with H : orb _ _ = false |- _ => apply orb_false_iff in H as [? ?] end; bools.
Qed.

(** ** Lemmas: interface addresses *)

Lemma ipv4Prefix_wf n p : ipv4Prefix n = Some p -> ifaddr_wf p.
Proof.
  unfold ipv4Prefix. intros H.
  destruct (To4 (n_IP n)) as [ip4|] eqn:E4; [|done].
  destruct (AddrFromSlice4 ip4 (To4_length _ _ E4)) as (v & Hv & Hr). rewrite Hv in H.
  destruct (Mask_Size (n_Mask n)) as [ones bits].
  set (o := if bits =? 128 then ones - 96 else ones) in *.
  split_match_in H; [done|]. injection H as <-. bools. exists v, o. split; [done|lia].
Qed.

Lemma first_connected_spec addrs p :
  first_connected addrs = Some p ->
  ifaddr_wf p /\ IsLoopback (p_ip p) = false /\ IsLinkLocalUnicast (p_ip p) = false.
Proof.
  induction addrs as [|[n|] addrs IH]; cbn; [done| |done].
  destruct (ipv4Prefix n) as [q|] eqn:E; [|done].
  destruct (IsLoopback (p_ip q) || _) eqn:EL; [done|]. intros [= <-]. bools.
  split; [by eapply ipv4Prefix_wf|done].
Qed.

Lemma first_private_spec addrs p :
  first_private addrs = Some p -> ifaddr_wf p /\ IsPrivate (p_ip p) = true.
Proof.
  induction addrs as [|[n|] addrs IH]; cbn; [done| |done].
  destruct (ipv4Prefix n) as [q|] eqn:E; [|done].
  destruct (IsPrivate (p_ip q)) eqn:EP; [|done]. intros [= <-].
  split; [by eapply ipv4Prefix_wf|done].
Qed.

Lemma ifaddr_wf_subnet p : ifaddr_wf p -> Prefix_Contains (Masked p) (p_ip p) = true.
Proof.
  intros (v & b & -> & Hv & Hb). cbn [PrefixFrom p_ip withoutZone]. by apply Contains_self4.
Qed.

Lemma ifaddr_wf_Is4 p : ifaddr_wf p -> Is4 (p_ip p) = true.
Proof. by intros (v & b & -> & Hv & Hb). Qed.

#[export] Hint Resolve ipv4Prefix_wf ifaddr_wf_subnet CanonicalMAC_String : gosocks.

(** ** Lemmas: DetectLAN *)

(** A candidate of the fallback. *)
Definition candidate_ok (c : lanCandidate) : Prop :=
  ifaddr_wf (c_ifaddr c) /\ IsPrivate (p_ip (c_ifaddr c)) = true /\
  HasPrefix (c_iface c) "utun" = false.

Section RouteFacts.
Context {S W : Type} `{!World W}.

Lemma exec_connectedPrefix iface (s : S) (w : W) p :
  out_val (exec (connectedPrefix iface) s w) = inl p ->
  ifaddr_wf p /\ IsLoopback (p_ip p) = false /\ IsLinkLocalUnicast (p_ip p) = false.
Proof.
  unfold connectedPrefix. run. destruct (os_handle (NetInterfaceByName iface) w) as [[ifi|e] w1]; cbn; [|done].
  run. destruct (os_handle (NetAddrs ifi) w1) as [[addrs|e] w2]; cbn; [|done].
  destruct (first_connected addrs) as [q|] eqn:E; cbn; [|done].
  intros [= <-]. by eapply first_connected_spec.
Qed.

Lemma exec_candidates_loop ifaces cands (s : S) (w : W) :
  Forall candidate_ok cands ->
  Forall candidate_ok (out_val (exec (candidates_loop ifaces cands) s w)).
Proof.
  revert cands w. induction ifaces as [|ifi ifaces IH]; intros cands w Hc; [done|]. cbn [candidates_loop].
  destruct (candidate_iface ifi) eqn:Ei; cbn [negb]; [|by apply IH].
  run. destruct (os_handle (NetAddrs ifi) w) as [[addrs|e] w1]; cbn [fst snd]; [|by apply IH].
  destruct (first_private addrs) as [p|] eqn:Ep; [|by apply IH].
  apply IH, Forall_app. split; [done|]. constructor; [|done].
  apply first_private_spec in Ep as [? ?]. unfold candidate_iface in Ei. bools. done.
Qed.

Lemma pickCandidate_elem cands prefer c : pickCandidate cands prefer = Some c -> In c cands.
Proof.
  unfold pickCandidate. destruct cands as [|c0 cands]; [done|].
  destruct (find _ _) as [c'|] eqn:E; intros [= <-]; [|by left].
  by apply find_some in E as [? _].
Qed.

Lemma exec_detect_fallback prefer (s : S) (w : W) p name :
  out_val (exec (detect_fallback prefer) s w) = inl (p, name) ->
  candidate_ok (MkCandidate p name).
Proof.
  unfold detect_fallback, rfc1918Candidates. run.
  destruct (os_handle NetInterfaces w) as [[ifaces|e] w1]; cbn [fst snd]; [|done].
  run. pose proof (exec_candidates_loop ifaces [] s w1 (List.Forall_nil _)) as HF.
  destruct (pickCandidate (out_val (exec (candidates_loop ifaces []) s w1)) prefer)
    as [c|] eqn:E; run; [|done].
  intros [= <- <-]. apply pickCandidate_elem in E.
  rewrite List.Forall_forall in HF. destruct c. by apply HF.
Qed.

End RouteFacts.

(** Whatever the system answers, a detected address is a well-formed IPv4 one. *)
Lemma returns_connectedPrefix {S} iface :
  returns (fun r : Prefix + error => match r with inl p => ifaddr_wf p | inr _ => True end)
    (connectedPrefix iface : prog S _).
Proof.
  unfold connectedPrefix. apply returns_bind. intros [ifi|e]; [|done].
  apply returns_bind. intros [addrs|e]; [|done].
  destruct (first_connected addrs) as [p|] eqn:E; [|done]. cbn. by eapply first_connected_spec.
Qed.

Lemma returns_candidates_loop {S} ifaces cands :
  Forall candidate_ok cands -> returns (Forall candidate_ok) (candidates_loop ifaces cands : prog S _).
Proof.
  revert cands. induction ifaces as [|ifi ifaces IH]; intros cands Hc; [done|]. cbn [candidates_loop].
  destruct (candidate_iface ifi) eqn:Ei; cbn [negb]; [|by apply IH].
  apply returns_bind. intros [addrs|e]; [|by apply IH].
  destruct (first_private addrs) as [p|] eqn:Ep; [|by apply IH].
  apply IH, Forall_app. split; [done|]. constructor; [|done].
  apply first_private_spec in Ep as [? ?]. unfold candidate_iface in Ei. bools. done.
Qed.

Lemma returns_DetectLAN {S} c prefer :
  returns (fun r : (Prefix * string) + error => match r with inl (p, _) => ifaddr_wf p | inr _ => True end)
    (DetectLAN c prefer : prog S _).
Proof.
  assert (forall _ : unit, returns (fun r : (Prefix * string) + error =>
    match r with inl (p, _) => ifaddr_wf p | inr _ => True end) (detect_fallback prefer : prog S _)) as Hf.
  { intros _. unfold detect_fallback, rfc1918Candidates.
    apply (returns_bind2 (fun r : list lanCandidate + error =>
      match r with inl l => Forall candidate_ok l | inr _ => True end)).
    - apply returns_bind. intros [ifaces|e]; [|done].
      eapply returns_bind2; [by apply returns_candidates_loop|]. intros l Hl. exact Hl.
    - intros [l|e] Hl; [|done]. destruct (pickCandidate l prefer) as [x|] eqn:E; [|done].
      apply pickCandidate_elem in E. rewrite List.Forall_forall in Hl. by apply Hl. }
  unfold DetectLAN. apply returns_bind. intros [out [e|]]; [by apply (Hf tt)|].
  destruct (bool_decide _); [by apply (Hf tt)|].
  eapply returns_bind2; [apply returns_connectedPrefix|]. intros [p|e] Hp; [done|by apply (Hf tt)].
Qed.

(** None of these programs touches the shared state. *)
Lemma preserves_candidates_loop {S} (I : S -> Prop) ifaces cands :
  preserves I (candidates_loop ifaces cands).
Proof.
  revert cands. induction ifaces as [|ifi ifaces IH]; intros cands; cbn; [done|].
  destruct (candidate_iface ifi); cbn; [|apply IH].
  intros [addrs|e]; cbn; [|apply IH]. by destruct (first_private addrs).
Qed.

#[export] Hint Resolve preserves_candidates_loop : gosocks.

Lemma preserves_detect_fallback {S} (I : S -> Prop) prefer :
  preserves I (detect_fallback prefer).
Proof. unfold detect_fallback, rfc1918Candidates. preserves. Qed.

Lemma preserves_connectedPrefix {S} (I : S -> Prop) iface : preserves I (connectedPrefix iface).
Proof. unfold connectedPrefix. preserves. Qed.

#[export] Hint Resolve preserves_detect_fallback preserves_connectedPrefix : gosocks.

Lemma preserves_DetectLAN {S} (I : S -> Prop) c prefer : preserves I (DetectLAN c prefer).
Proof. unfold DetectLAN. preserves. Qed.

Lemma preserves_LookupARP {S} (I : S -> Prop) c ip : preserves I (LookupARP c ip).
Proof. unfold LookupARP. preserves. Qed.

Lemma preserves_Pin {S} (I : S -> Prop) c ip mac iface : preserves I (Pin c ip mac iface).
Proof. unfold Pin. preserves. Qed.

#[export] Hint Resolve preserves_DetectLAN preserves_LookupARP preserves_Pin : gosocks.

Lemma exec_LookupARP {S W} `{!World W} c ip (s : S) (w : W) :
  let r := os_handle (Exec c "arp" ["-n"; ip] "") w in
  exec (LookupARP c ip) s w =
    Out (match r.1.2 with Some _ => (ArpEntry0, false) | None => parseArpEntry r.1.1 end)
      s r.2 [EvExec c "arp" ["-n"; ip] ""].
Proof.
  unfold LookupARP. run. destruct (os_handle _ w) as [[out err] w']. cbn. by destruct err.
Qed.

(** ** tcpdump lines *)

Definition syn_line (smac dmac n sip sport rest : string) : string :=
  smac +:+ " > " +:+ dmac +:+ ", ethertype IPv4 (0x0800), length " +:+ n +:+ ": " +:+
  sip +:+ "." +:+ sport +:+ " > " +:+ rest.

Lemma dec_octet_graphic n : is_byte n -> string_forallb graphic (dec_octet n) = true.
Proof. apply (below_forall (fun n => string_forallb graphic (dec_octet n)) 256). reflexivity. Qed.

Lemma dec_octet_ne n : dec_octet n <> "".
Proof. unfold dec_octet. by destruct (n <? 10), (n <? 100). Qed.

Lemma Addr4_String_graphic v : string_forallb graphic (Addr4_String v) = true.
Proof.
  unfold Addr4_String. cbn [map]. change "." with (String dot "").
  rewrite !Join_cons, Join_one, !string_forallb_app. cbn [string_forallb].
  rewrite !string_forallb_app. cbn [string_forallb]. rewrite !string_forallb_app.
  cbn [string_forallb]. by rewrite !dec_octet_graphic by apply octet_byte.
Qed.

Lemma syn_line_cut smac dmac n t :
  lacks "," smac = true -> lacks "," dmac = true ->
  Cut (smac +:+ " > " +:+ dmac +:+ ", ethertype IPv4 (0x0800), length " +:+ n +:+ t) ", length " =
    (smac +:+ " > " +:+ dmac +:+ ", ethertype IPv4 (0x0800)", n +:+ t, true).
Proof.
  intros Hs Hd. unfold Cut. change ", length " with (String "," " length ").
  rewrite Cut_opt_lacks by done. rewrite Cut_opt_lacks by done. rewrite Cut_opt_lacks by done.
  assert (Cut_opt (", ethertype IPv4 (0x0800), length " +:+ n +:+ t) (String "," " length ") =
    Some (", ethertype IPv4 (0x0800)", n +:+ t)) as ->; [|done].
  change (", ethertype IPv4 (0x0800), length " +:+ n +:+ t) with
    (String "," (" ethertype IPv4 (0x0800)" +:+ (", length " +:+ n +:+ t))).
  rewrite Cut_opt_skip by reflexivity. rewrite Cut_opt_lacks by reflexivity.
  assert (forall r, Cut_opt (", length " +:+ r) ", length " = Some ("", r)) as Hc.
  { intros r. change (", length " +:+ r) with (String "," (" length " +:+ r)).
    cbn [Cut_opt]. change (String "," (" length " +:+ r)) with (", length " +:+ r).
    by rewrite HasPrefix_app, drop_bytes_app. }
  by rewrite Hc.
Qed.

(** A tcpdump line yields the sender's address and canonical MAC. *)
Lemma parseSYNLine_line smac dmac n v sport rest c :
  word smac = true -> word dmac = true -> lacks "," smac = true -> lacks "," dmac = true ->
  CanonicalMAC smac = (c, true) -> word n = true ->
  0 <= v < 2 ^ 32 -> string_forallb graphic sport = true -> lacks dot sport = true ->
  parseSYNLine (syn_line smac dmac n (Addr_String (Addr4 v)) sport rest) = Some (Addr4 v, c).
Proof.
  intros Hs Hd Hsl Hdl Hc Hn Hv Hp Hpl. unfold parseSYNLine, syn_line.
  rewrite syn_line_cut by done. change (" > " +:+ ?t) with (String " " ("> " +:+ t)) at 1.
  rewrite Fields_word_sp by done. rewrite Hc. cbn [negb].
  set (f1 := Addr_String (Addr4 v) +:+ "." +:+ sport).
  assert (n +:+ ": " +:+ Addr_String (Addr4 v) +:+ "." +:+ sport +:+ " > " +:+ rest =
    (n +:+ ":") +:+ String " " (f1 +:+ String " " ("> " +:+ rest))) as ->.
  { unfold f1. rewrite !append_assoc. reflexivity. }
  assert (word (n +:+ ":") = true) as Hn'.
  { apply word_graphic in Hn as Hg. destruct n; [done|].
    change (string_forallb graphic (String a n +:+ ":") = true).
    by rewrite string_forallb_app, Hg. }
  assert (word f1 = true) as Hf1.
  { assert (string_forallb graphic f1 = true) as Hg.
    { unfold f1. rewrite !string_forallb_app. cbn [Addr_String].
      by rewrite Addr4_String_graphic, Hp. }
    destruct f1 as [|? ?] eqn:E; [|done]. exfalso. apply (f_equal String.length) in E.
    unfold f1 in E. rewrite !length_append in E. cbn in E. lia. }
  rewrite Fields_word_sp, Fields_word_sp by done.
  rewrite (proj2 (Z.ltb_ge _ _)) by (cbn [length]; lia). cbn [nth].
  unfold f1. change ("." +:+ sport) with (String dot sport).
  rewrite LastIndexByte_last, take_bytes_app, ParseAddr_String4 by done. done.
Qed.

(** The netmask of a prefix length, as the interface list reports it. *)
Definition CIDRMask4 (ones : nat) : list Byte.byte :=
  let full := Nat.div ones 8 in
  let part := match Nat.modulo ones 8 with
              | 1 => [x80] | 2 => [xc0] | 3 => [xe0] | 4 => [xf0]
              | 5 => [xf8] | 6 => [xfc] | 7 => [xfe] | _ => [] end%nat in
  take 4 (replicate full xff ++ part ++ replicate 4 x00).

(** The MAC of a SYN is canonical. *)
Lemma parseSYNLine_canonical line ip mac :
  parseSYNLine line = Some (ip, mac) -> CanonicalMAC mac = (mac, true).
Proof.
  unfold parseSYNLine. destruct (Fields line) as [|f0 fs]; [done|].
  destruct (CanonicalMAC f0) as [c b] eqn:Ec. destruct b; cbn [negb]; [|done].
  intros H. repeat split_match_in H; try done. injection H as <- <-. by eapply CanonicalMAC_canonical.
Qed.

Lemma preserves_WatchSYN {S} (I : S -> Prop) fuel c iface port (onSYN : Addr -> string -> prog S unit) :
  (forall ip mac, CanonicalMAC mac = (mac, true) -> preserves I (onSYN ip mac)) ->
  preserves I (WatchSYN fuel c iface port onSYN).
Proof.
  intros H. apply preserves_Stream. intros line.
  destruct (parseSYNLine line) as [[ip mac]|] eqn:E; [|done].
  apply H. by eapply parseSYNLine_canonical.
Qed.

Lemma Mask_Size_CIDRMask4 ones :
  (ones <= 32)%nat ->
  Mask_Size (CIDRMask4 ones) = (Z.of_nat ones, 32) /\
  Mask_Size (replicate 12 xff ++ CIDRMask4 ones) = (96 + Z.of_nat ones, 128).
Proof. do 33 (destruct ones as [|ones]; [by vm_compute|]). lia. Qed.

(** Proves that closed texts denote closed octets. *)
Ltac octet_texts :=
  repeat (apply List.Forall2_cons;
          [first [ left; eexists; split; reflexivity
                 | right; do 4 eexists; split_and!; reflexivity ]|]);
  apply List.Forall2_nil.

Lemma ipv4Prefix_cidr a b c d (ones : nat) :
  (ones <= 32)%nat ->
  let addr := Addr4 (of_digits 8 (map bval [a; b; c; d])) in
  let mapped := replicate 10 x00 ++ [xff; xff; a; b; c; d] in
  ipv4Prefix (MkIPNet [a; b; c; d] (CIDRMask4 ones)) = Some (PrefixFrom addr (Z.of_nat ones)) /\
  ipv4Prefix (MkIPNet mapped (CIDRMask4 ones)) = Some (PrefixFrom addr (Z.of_nat ones)) /\
  ipv4Prefix (MkIPNet mapped (replicate 12 xff ++ CIDRMask4 ones)) =
    Some (PrefixFrom addr (Z.of_nat ones)).
Proof.
  intros Hle. destruct (Mask_Size_CIDRMask4 ones Hle) as [H4 H16].
  assert (forall m k, Mask_Size m = (k, 32) \/ Mask_Size m = (96 + k, 128) -> 0 <= k <= 32 ->
    ipv4Prefix (MkIPNet [a; b; c; d] m) =
      Some (PrefixFrom (Addr4 (of_digits 8 (map bval [a; b; c; d]))) k) /\
    ipv4Prefix (MkIPNet (replicate 10 x00 ++ [xff; xff; a; b; c; d]) m) =
      Some (PrefixFrom (Addr4 (of_digits 8 (map bval [a; b; c; d]))) k)) as Hm.
  { intros m k Hk Hr. unfold ipv4Prefix. cbn [n_IP n_Mask].
    assert (To4 (replicate 10 x00 ++ [xff; xff; a; b; c; d]) = Some [a; b; c; d]) as -> by done.
    change (To4 [a; b; c; d]) with (Some [a; b; c; d]).
    change (AddrFromSlice [a; b; c; d]) with (Some (Addr4 (of_digits 8 (map bval [a; b; c; d])))).
    destruct Hk as [-> | ->]; cbn -[Z.sub Z.ltb];
      [|replace (96 + k - 96) with k by lia];
      by rewrite !(proj2 (Z.ltb_ge _ _)) by lia. }
  cbv zeta. split_and!; (apply Hm; [|lia]); auto.
Qed.

Lemma ipv4Prefix_noncontiguous a b c d m :
  simpleMaskLength m = None ->
  exists p, ipv4Prefix (MkIPNet [a; b; c; d] m) = Some p /\
    forall v, 0 <= v < 2 ^ 32 -> Prefix_Contains (Masked p) (Addr4 v) = true.
Proof.
  intros Hm. destruct (AddrFromSlice4 [a; b; c; d] eq_refl) as (u & Hu & Hr).
  exists (PrefixFrom (Addr4 u) 0). split.
  - unfold ipv4Prefix, Mask_Size. cbn [n_IP n_Mask]. rewrite Hm.
    change (To4 [a; b; c; d]) with (Some [a; b; c; d]). cbv iota. by rewrite Hu.
  - intros v Hv. rewrite Contains_Masked4 by lia. apply bool_decide_eq_true_2.
    rewrite !Z.shiftr_div_pow2, !Z.div_small by lia. done.
Qed.

Lemma octet_texts_bytes hw ts : Forall2 octet_text hw ts -> Forall is_byte hw.
Proof.
  induction 1 as [|b t hw ts [(c & _ & Hc%hexval_range)|Hb%pair_text_byte] _ IH];
    constructor; auto; unfold is_byte; lia.
Qed.

(** ** Properties *)

(** Canonical texts are fixed points: what [CanonicalMAC] returns parses to a
    hardware address, is that address printed, and canonicalises to itself. *)
Theorem canonical_mac_idempotent s c :
  CanonicalMAC s = (c, true) ->
  CanonicalMAC c = (c, true) /\
  exists hw, mac_ok hw /\ c = HardwareAddr_String hw /\ ParseMAC c = Some hw.
Proof.
  intros H. split; [by eapply CanonicalMAC_canonical|].
  destruct (CanonicalMAC_inv s c H) as (hw & Hok & ->). eauto using ParseMAC_String.
Qed.

Lemma canonical_mac_idempotent_witness :
  CanonicalMAC "72:ce:39:12:45:0f" = ("72:ce:39:12:45:0f", true) /\
  exists hw, mac_ok hw /\ "72:ce:39:12:45:0f" = HardwareAddr_String hw /\
    ParseMAC "72:ce:39:12:45:0f" = Some hw.
Proof. apply (canonical_mac_idempotent "72-CE-39-12-45-0F"). reflexivity. Defined.

(** C34. Every colon-separated spelling of a hardware address (one or two digits per octet,
    either case, as macOS's arp prints it) is brought to the one canonical text, lower
    case, two digits per octet; and [sameMAC] compares the addresses, not their spelling. *)
Theorem mac_denotes hw1 hw2 ts1 ts2 :
  Forall2 octet_text hw1 ts1 -> Forall2 octet_text hw2 ts2 ->
  mac_len_ok (Z.of_nat (length hw1)) = true -> mac_len_ok (Z.of_nat (length hw2)) = true ->
  CanonicalMAC (Join ts1 ":") = (HardwareAddr_String hw1, true) /\
  sameMAC (Join ts1 ":") (Join ts2 ":") = bool_decide (hw1 = hw2).
Proof.
  intros Hs1 Hs2 Hl1 Hl2. split; [by apply CanonicalMAC_text|]. unfold sameMAC.
  rewrite (CanonicalMAC_text hw1), (CanonicalMAC_text hw2) by done. cbn [andb].
  assert (mac_ok hw1 /\ mac_ok hw2) as [Ok1 Ok2] by (split; (split; [by eapply octet_texts_bytes|done])).
  apply bool_decide_ext. split; [|by intros ->]. intros Heq%(f_equal ParseMAC).
  rewrite !ParseMAC_String in Heq by done. congruence.
Qed.

Lemma mac_denotes_witness :
  CanonicalMAC "72:ce:39:12:45:f" = ("72:ce:39:12:45:0f", true) /\
  sameMAC "72:ce:39:12:45:f" "72:CE:39:12:45:0F" = true.
Proof.
  destruct (mac_denotes [114; 206; 57; 18; 69; 15] [114; 206; 57; 18; 69; 15]
    ["72"; "ce"; "39"; "12"; "45"; "f"] ["72"; "CE"; "39"; "12"; "45"; "0F"]) as [Hc Hs];
    [octet_texts|octet_texts|reflexivity|reflexivity|]. split; [exact Hc|exact Hs].
Defined.

(** C33. The output of [arp -n] for a resolved entry is read back as that entry,
    with the MAC in canonical form, whatever flags follow the interface. *)
Theorem arp_output_roundtrip ip mac iface flags c :
  word ip = true -> word mac = true -> word iface = true ->
  Forall (fun w => word w = true) flags ->
  CanonicalMAC mac = (c, true) -> not_keyword iface -> Forall not_keyword flags ->
  parseArpEntry (arp_line ip mac iface flags) = (MkArpEntry c iface, true).
Proof. apply parseArpEntry_line. Qed.

Lemma arp_output_roundtrip_witness :
  parseArpEntry ("? (192.168.0.42) at 72:ce:39:12:45:f on en0 permanent [ethernet]" +:+ newline)
    = (MkArpEntry "72:ce:39:12:45:0f" "en0", true).
Proof.
  apply (arp_output_roundtrip "192.168.0.42" "72:ce:39:12:45:f" "en0" ["permanent"; "[ethernet]"]);
    try reflexivity; repeat constructor; discriminate.
Defined.

(** C35. [DecidePin] re-pins exactly when there is a MAC to pin and the kernel has no
    entry on the LAN interface; it adopts exactly when the kernel's entry is on the
    LAN interface with another MAC; and a client that was adopted or re-pinned needs
    nothing more. *)
Theorem DecidePin_correct entry found want iface :
  (DecidePin entry found want iface = PinRepin <->
     want <> "" /\ ~ (found = true /\ a_Iface entry = iface)) /\
  (DecidePin entry found want iface = PinAdopt <->
     found = true /\ a_Iface entry = iface /\ sameMAC (a_MAC entry) want = false) /\
  (forall c, CanonicalMAC c = (c, true) -> DecidePin (MkArpEntry c iface) true c iface = PinNone).
Proof.
  split_and!; [apply DecidePin_Repin|apply DecidePin_Adopt|].
  intros c Hc. by apply DecidePin_settled.
Qed.

(** C36. The default-route parser returns the interface of the first row that is a
    default route off the tunnel and the loopback, and the empty string exactly
    when there is no such row. *)
Theorem default_route_first out :
  let n := parseDefaultNonTunnel out in
  (n = "" /\ Forall (fun l => lan_default l = false) (Split out (asc 10))) \/
  exists before line after,
    Split out (asc 10) = before ++ line :: after /\
    Forall (fun l => lan_default l = false) before /\ lan_default line = true /\
    n = List.last (Fields line) "" /\
    n <> "" /\ HasPrefix n "utun" = false /\ HasPrefix n "lo" = false.
Proof.
  cbv zeta. unfold parseDefaultNonTunnel.
  destruct (parseDefault_lines_spec (Split out (asc 10))) as [H|(b & l & a & -> & Hb & Hl & Heq)];
    [by left|right].
  exists b, l, a. rewrite Heq. destruct (lan_default_name l Hl) as (? & ? & ?). done.
Qed.

(** C37. An IPv4 interface address becomes the address with its netmask's prefix length
    when the mask is contiguous, in the address's 4-byte or 16-byte (IPv4-mapped) form
    and the mask's; a mask that is not contiguous is taken for the empty prefix, so the
    interface's "subnet" then holds every IPv4 address. *)
Theorem ipv4Prefix_masks a b c d :
  let addr := Addr4 (of_digits 8 (map bval [a; b; c; d])) in
  let mapped := replicate 10 x00 ++ [xff; xff; a; b; c; d] in
  (forall ones : nat, (ones <= 32)%nat ->
     Forall (fun n => ipv4Prefix n = Some (PrefixFrom addr (Z.of_nat ones)))
       [MkIPNet [a; b; c; d] (CIDRMask4 ones); MkIPNet mapped (CIDRMask4 ones);
        MkIPNet mapped (replicate 12 xff ++ CIDRMask4 ones)]) /\
  (forall m, simpleMaskLength m = None ->
     exists p, ipv4Prefix (MkIPNet [a; b; c; d] m) = Some p /\
       forall v, 0 <= v < 2 ^ 32 -> Prefix_Contains (Masked p) (Addr4 v) = true).
Proof.
  cbv zeta. split; [intros ones Hle|intros m Hm; by apply ipv4Prefix_noncontiguous].
  destruct (ipv4Prefix_cidr a b c d ones Hle) as (? & ? & ?). auto.
Qed.

Lemma ipv4Prefix_masks_witness :
  ipv4Prefix (MkIPNet [xc0; xa8; x00; x2a] (CIDRMask4 24)) = Some (PrefixFrom (Addr4 3232235562) 24) /\
  exists p, ipv4Prefix (MkIPNet [xc0; xa8; x00; x2a] [xff; x00; xff; x00]) = Some p /\
    forall v, 0 <= v < 2 ^ 32 -> Prefix_Contains (Masked p) (Addr4 v) = true.
Proof.
  destruct (ipv4Prefix_masks xc0 xa8 x00 x2a) as [Hc Hn]. split.
  - assert (24 <= 32)%nat as Hle by lia. specialize (Hc 24%nat Hle). by inversion Hc.
  - apply Hn. reflexivity.
Defined.

(** The fallback's choice: the preferred interface's first candidate while it
    has one, else the first candidate; nothing only when there is none. *)
Theorem pickCandidate_prefers cands prefer :
  match pickCandidate cands prefer with
  | None => cands = []
  | Some c =>
      (exists before after, cands = before ++ c :: after /\ prefer <> "" /\ c_iface c = prefer /\
         Forall (fun d => c_iface d <> prefer) before) \/
      ((prefer = "" \/ Forall (fun d => c_iface d <> prefer) cands) /\ head cands = Some c)
  end.
Proof.
  unfold pickCandidate. destruct cands as [|c0 cands]; [done|].
  destruct (find _ (c0 :: cands)) as [c|] eqn:E.
  - left. revert E. generalize (c0 :: cands) as l. clear c0 cands.
    induction l as [|d l IH]; cbn; [done|].
    destruct (negb (bool_decide (prefer = "")) && bool_decide (c_iface d = prefer)) eqn:Ed.
    + intros [= <-]. bools. exists [], l. auto.
    + intros (b & a & -> & Hp & Hc & Hb)%IH. exists (d :: b), a. split_and!; try done.
      constructor; [|done]. intros Hd.
      by rewrite (bool_decide_eq_false_2 (prefer = "")), bool_decide_eq_true_2 in Ed.
  - right. split; [|done]. destruct (decide (prefer = "")) as [->|Hp]; [by left|right].
    apply List.Forall_forall. intros d Hd%(find_none _ _ E).
    rewrite bool_decide_eq_false_2 in Hd by done. cbn in Hd. by bools.
Qed.

(** C12. What [DetectLAN] reports is an IPv4 address inside its own subnet, on an
    interface that is not a tunnel: either the non-tunnel default route's
    interface, with an address that is neither loopback nor link-local, or one with
    a private address; and detection leaves the service's state alone. *)
Theorem DetectLAN_sound {S W} `{!World W} c prefer (s : S) (w : W) p name :
  let o := exec (DetectLAN c prefer) s w in
  out_val o = inl (p, name) ->
  out_state o = s /\ ifaddr_wf p /\ Prefix_Contains (Masked p) (p_ip p) = true /\
  HasPrefix name "utun" = false /\
  ((name = parseDefaultNonTunnel (os_handle (Exec c "netstat" ["-rn"; "-f"; "inet"] "") w).1.1 /\
    name <> "" /\ IsLoopback (p_ip p) = false /\ IsLinkLocalUnicast (p_ip p) = false) \/
   IsPrivate (p_ip p) = true).
Proof.
  cbv zeta. intros H. split.
  { symmetry. apply (preserves_exec (eq s)); [apply preserves_DetectLAN|done]. }
  assert (candidate_ok (MkCandidate p name) ->
    ifaddr_wf p /\ Prefix_Contains (Masked p) (p_ip p) = true /\ HasPrefix name "utun" = false /\
    IsPrivate (p_ip p) = true) as Hcand.
  { intros (? & ? & ?). auto using ifaddr_wf_subnet. }
  unfold DetectLAN in H. run_in H.
  destruct (os_handle (Exec c "netstat" ["-rn"; "-f"; "inet"] "") w) as [[out [e|]] w1];
    cbn [run_result fst snd] in H |- *.
  - apply exec_detect_fallback, Hcand in H. tauto.
  - case_bool_decide as Hn; [apply exec_detect_fallback, Hcand in H; tauto|]. run_in H.
    destruct (out_val (exec (connectedPrefix _) s w1)) as [q|e] eqn:E;
      [|apply exec_detect_fallback, Hcand in H; tauto].
    injection H as <- <-. apply exec_connectedPrefix in E as (Hw & ? & ?).
    split_and!; [done|by apply ifaddr_wf_subnet| |by left].
    destruct (parseDefault_lines_spec (Split out (asc 10))) as [[He _]|(b & l & a & _ & _ & Hl & He)].
    + done.
    + unfold parseDefaultNonTunnel. rewrite He. by apply lan_default_name.
Qed.

Lemma DetectLAN_sound_witness :
  let o := exec (DetectLAN CtxParent "") tt home in
  exists p, out_val o = inl (p, "en0") /\
    (out_state o = tt /\ ifaddr_wf p /\ Prefix_Contains (Masked p) (p_ip p) = true /\
     HasPrefix "en0" "utun" = false /\
     (("en0" = parseDefaultNonTunnel
         (os_handle (Exec CtxParent "netstat" ["-rn"; "-f"; "inet"] "") home).1.1 /\
       "en0" <> "" /\ IsLoopback (p_ip p) = false /\ IsLinkLocalUnicast (p_ip p) = false) \/
      IsPrivate (p_ip p) = true)).
Proof.
  eexists. split; [vm_compute; reflexivity|].
  apply (DetectLAN_sound CtxParent "" tt home). vm_compute. reflexivity.
Defined.

(** C32. A SYN line of tcpdump yields the sender's IPv4 address and its canonical
    MAC. *)
Theorem syn_line_roundtrip smac dmac n v sport rest c :
  word smac = true -> word dmac = true -> lacks "," smac = true -> lacks "," dmac = true ->
  CanonicalMAC smac = (c, true) -> word n = true ->
  0 <= v < 2 ^ 32 -> string_forallb graphic sport = true -> lacks dot sport = true ->
  parseSYNLine (syn_line smac dmac n (Addr_String (Addr4 v)) sport rest) = Some (Addr4 v, c).
Proof. apply parseSYNLine_line. Qed.

Lemma syn_line_roundtrip_witness :
  parseSYNLine ("76:c9:24:a8:c8:9 > 12:49:61:d3:72:48, ethertype IPv4 (0x0800), length 78: " +:+
    "192.168.0.82.50174 > 192.168.0.105.8080: Flags [S], seq 843104139, length 0")
  = Some (Addr4 3232235602, "76:c9:24:a8:c8:09").
Proof.
  apply (syn_line_roundtrip "76:c9:24:a8:c8:9" "12:49:61:d3:72:48" "78" 3232235602 "50174"
    "192.168.0.105.8080: Flags [S], seq 843104139, length 0"); try reflexivity; lia.
Defined.
