(* ===== verification/Cisco.v ===== *)
(** * internal/utils/cisco: the Cisco Secure Client command line *)

From S2P Require Import Prelude GoStrings GoNet Effects Sim Shell.

Definition ciscoPath : string := "/opt/cisco/secureclient/bin/vpn".

Definition StateConnected : string := "Connected".
Definition StateDisconnected : string := "Disconnected".
Definition StateReconnecting : string := "Reconnecting".
Definition StateUnknown : string := "Unknown".

Definition ErrNotConnected : error := ErrNew "vpn connection not established".
Definition ErrAcquired : error :=
  ErrNew "connect capability is unavailable, another Cisco application acquired it".

(** ** Parsers *)

(** The loop of [parseState]: the first word of the last state line. *)
Fixpoint state_scan (lines : list string) (last : string) : string :=
  match lines with
  | [] => last
  | line :: rest =>
      let '(state, ok) := CutPrefix (TrimSpace line) ">> state: " in
      state_scan rest (if ok then (Cut state " ").1.1 else last)
  end.

Definition parseState (output : string) : string :=
  let last := state_scan (Split output (asc 10)) "" in
  if bool_decide (last = "Подключено") || bool_decide (last = "Connected") then StateConnected
  else if bool_decide (last = "Отключено") || bool_decide (last = "Disconnected")
  then StateDisconnected
  else if bool_decide (last = "Reconnecting") then StateReconnecting
  else StateUnknown.

(** One line of [hasAcquiredError]. *)
Definition acquired_line (line : string) : bool :=
  let line := TrimSpace line in
  HasPrefix line ">> error:" && Contains line "Connect capability is unavailable".

Definition hasAcquiredError (output : string) : bool :=
  existsb acquired_line (Split output (asc 10)).

(** ** Commands *)

Section Cisco.
Context {S : Type}.

Definition Status (c : ctx) : prog S (string * option error) :=
  '(out, err) ← Run c ciscoPath ["-s"; "state"];
  match err with
  | Some e => mret (StateUnknown, Some (ErrWrap ("vpn state check error: " +:+ Error e) e))
  | None => mret (parseState out, None)
  end.

Definition Disconnect (c : ctx) : prog S (option error) :=
  '(_, err) ← Run c ciscoPath ["-s"; "disconnect"];
  match err with
  | Some e => mret (Some (ErrWrap ("vpn disconnection error: " +:+ Error e) e))
  | None => mret None
  end.

Definition DisablePF (c : ctx) : prog S (option error) :=
  '(out, err) ← Run c "pfctl" ["-d"];
  if bool_decide (err <> None) && Contains out "pf not enabled" then mret None
  else mret err.

Definition Connect (c : ctx) (profile user password : string) : prog S (option error) :=
  '(output, err) ← sys (Exec c ciscoPath ["-s"; "connect"; profile]
    (user +:+ newline +:+ password +:+ newline +:+ "y" +:+ newline));
  if hasAcquiredError output then mret (Some ErrAcquired)
  else match err with
  | Some e =>
      mret (Some (ErrWrap ("vpn connection error: " +:+ Error e +:+ ": " +:+ TrimSpace output) e))
  | None =>
      '(state, serr) ← Status c;
      match serr with
      | Some e => mret (Some e)
      | None =>
          if negb (bool_decide (state = StateConnected)) then
            mret (Some (ErrWrap (Error ErrNotConnected +:+ " (state " +:+ state +:+ "): " +:+
              TrimSpace output) ErrNotConnected))
          else mret None
      end
  end.

End Cisco.

(** ** Vocabulary of the statements *)

Definition is_state_line (line : string) : bool := HasPrefix (TrimSpace line) ">> state: ".

Definition has_state (output : string) : bool := existsb is_state_line (Split output (asc 10)).

(** ** Lemmas *)

Lemma state_scan_none lines last :
  existsb is_state_line lines = false -> state_scan lines last = last.
Proof.
  revert last. induction lines as [|l lines IH]; intros last; cbn [existsb state_scan]; [done|].
  intros [Hl H]%orb_false_iff. unfold CutPrefix. unfold is_state_line in Hl. rewrite Hl. auto.
Qed.

Lemma state_scan_some lines last last' :
  existsb is_state_line lines = true -> state_scan lines last = state_scan lines last'.
Proof.
  revert last last'. induction lines as [|l lines IH]; intros last last'; cbn [existsb state_scan]; [done|].
  unfold CutPrefix, is_state_line at 1.
  destruct (HasPrefix (TrimSpace l) ">> state: "); cbn [orb]; [done|]. apply IH.
Qed.

Lemma state_scan_app l1 l2 last : state_scan (l1 ++ l2) last = state_scan l2 (state_scan l1 last).
Proof.
  revert last. induction l1 as [|l l1 IH]; intros last; cbn [app state_scan]; [done|].
  destruct (CutPrefix _ _) as [st ok]. apply IH.
Qed.

Lemma parseState_range out :
  In (parseState out) [StateConnected; StateDisconnected; StateReconnecting; StateUnknown].
Proof. unfold parseState. repeat split_match; cbn; auto. Qed.

Lemma exec_Status {S W} `{!World W} c (s : S) (w : W) :
  let r := os_handle (Exec c ciscoPath ["-s"; "state"] "") w in
  exec (Status c) s w =
    Out (match (run_result ciscoPath ["-s"; "state"] r.1).2 with
         | Some e => (StateUnknown, Some (ErrWrap ("vpn state check error: " +:+ Error e) e))
         | None => (parseState r.1.1, None)
         end) s r.2 [EvExec c ciscoPath ["-s"; "state"] ""].
Proof.
  unfold Status, run_result. run. destruct (os_handle _ w) as [[out err] w']. cbn. by destruct err.
Qed.

Lemma preserves_Status {S} (I : S -> Prop) c : preserves I (Status c : prog S _).
Proof. unfold Status. preserves. Qed.

Lemma preserves_Disconnect {S} (I : S -> Prop) c : preserves I (Disconnect c : prog S _).
Proof. unfold Disconnect. preserves. Qed.

Lemma preserves_DisablePF {S} (I : S -> Prop) c : preserves I (DisablePF c : prog S _).
Proof. unfold DisablePF. preserves. Qed.

#[export] Hint Resolve preserves_Status preserves_Disconnect preserves_DisablePF : gosocks.

Lemma preserves_Connect {S} (I : S -> Prop) c p u pw : preserves I (Connect c p u pw : prog S _).
Proof. unfold Connect. preserves. Qed.

#[export] Hint Resolve preserves_Connect : gosocks.

(** ** Properties *)

(** The state is the one of the last state line: a later part of the output that
    has a state line decides alone, one that has none changes nothing. *)
Theorem parseState_last_wins a b :
  parseState (a +:+ String (asc 10) b) = if has_state b then parseState b else parseState a.
Proof.
  unfold parseState, has_state. rewrite Split_app, state_scan_app.
  destruct (existsb is_state_line (Split b (asc 10))) eqn:E.
  - by rewrite (state_scan_some _ _ "" E).
  - by rewrite state_scan_none.
Qed.

(** C15. A connect counts as established exactly when the CLI reported no conflict,
    exited cleanly, and the agent, asked afterwards, says Connected; a reported
    conflict is [ErrAcquired] whatever the exit status, and only then is the agent
    not asked after a clean exit.  The credentials go to the command's standard
    input, never into its arguments. *)
Theorem Connect_verified {S W} `{!World W} c profile user password (s : S) (w : W) :
  let o := exec (Connect c profile user password) s w in
  let stdin := user +:+ newline +:+ password +:+ newline +:+ "y" +:+ newline in
  let r := os_handle (Exec c ciscoPath ["-s"; "connect"; profile] stdin) w in
  let r2 := os_handle (Exec c ciscoPath ["-s"; "state"] "") r.2 in
  out_state o = s /\
  (hasAcquiredError r.1.1 = true -> out_val o = Some ErrAcquired) /\
  (out_val o = None <->
     hasAcquiredError r.1.1 = false /\ r.1.2 = None /\ r2.1.2 = None /\
     parseState r2.1.1 = StateConnected) /\
  out_events o =
    EvExec c ciscoPath ["-s"; "connect"; profile] stdin ::
    (if negb (hasAcquiredError r.1.1) && bool_decide (r.1.2 = None)
     then [EvExec c ciscoPath ["-s"; "state"] ""] else []).
Proof.
  cbv zeta. unfold Connect. run.
  destruct (os_handle (Exec c ciscoPath ["-s"; "connect"; profile] _) w) as [[out err] w1]. cbn [fst snd].
  destruct (hasAcquiredError out); run; [split_and!; [done|done|intuition done|done]|].
  destruct err as [e|]; run.
  { split_and!; [done|done|split; [done|by intros (_ & ? & _)]|done]. }
  rewrite exec_Status. cbv zeta. cbn [out_val out_state out_world out_events].
  unfold run_result. destruct (os_handle (Exec c ciscoPath ["-s"; "state"] "") w1) as [[out2 err2] w2].
  cbn [fst snd]. destruct err2 as [e|]; run.
  { split_and!; [done|done|split; [done|by intros (_ & _ & ? & _)]|done]. }
  case_bool_decide as Hst; cbn [negb]; run; split_and!; try done; split; try done.
  by intros (_ & _ & _ & ?).
Qed.

(** The conflict is detected exactly when some line, white space trimmed, starts
    with the error mark and mentions the capability. *)
Theorem hasAcquiredError_iff out :
  hasAcquiredError out = true <->
  exists line a b, In line (Split out (asc 10)) /\
    HasPrefix (TrimSpace line) ">> error:" = true /\
    TrimSpace line = a +:+ "Connect capability is unavailable" +:+ b.
Proof.
  unfold hasAcquiredError. rewrite existsb_exists. unfold acquired_line. split.
  - intros (line & Hin & [Hp Hc]%andb_true_iff). apply Contains_iff in Hc as (a & b & Hc). eauto 10.
  - intros (line & a & b & Hin & Hp & Hc). exists line. split; [done|].
    rewrite Hp. apply Contains_iff. eauto.
Qed.

(** Disabling the packet filter succeeds exactly when [pfctl -d] exits cleanly
    or says that pf is already off. *)
Theorem DisablePF_ok {S W} `{!World W} c (s : S) (w : W) :
  let o := exec (DisablePF c) s w in
  let r := os_handle (Exec c "pfctl" ["-d"] "") w in
  out_state o = s /\ out_events o = [EvExec c "pfctl" ["-d"] ""] /\
  (out_val o = None <-> r.1.2 = None \/ Contains r.1.1 "pf not enabled" = true).
Proof.
  cbv zeta. unfold DisablePF. run. destruct (os_handle _ w) as [[out err] w1]. cbn [run_result fst snd].
  destruct err as [e|]; cbn [run_result fst snd].
  - rewrite bool_decide_eq_true_2 by done. cbn [andb].
    destruct (Contains out "pf not enabled"); run; split_and!; try done; intuition done.
  - rewrite bool_decide_eq_false_2 by (by intros H). run. split_and!; try done. intuition done.
Qed.
