(* ===== verification/Clients.v ===== *)
(** * internal/service/clients.go: the client registry

    The registry maps an IP text to what is known of the client.  Every operation
    runs under the registry's mutex, so each is a function of the map; the entries
    are only reachable through the map, so values stand for the pointers. *)

From S2P Require Import Prelude GoStrings GoNet Effects Route.

(** [service.LANClient], an element of the configured [lan_clients]. *)
Record LANClient : Type := MkLANClient { lc_IP : string; lc_MAC : string }.

Definition discoveredClientTTL : Z := 30 * Minute.
Definition clientRefreshInterval : Z := Minute.

Record clientEntry : Type := MkEntry { e_lastSeen : Z; e_mac : string; e_static : bool }.

Definition clientRegistry : Type := gmap string clientEntry.

Definition with_mac (m : string) (e : clientEntry) : clientEntry :=
  MkEntry (e_lastSeen e) m (e_static e).
Definition with_lastSeen (t : Z) (e : clientEntry) : clientEntry :=
  MkEntry t (e_mac e) (e_static e).

Definition newClientRegistry (static : list LANClient) : gmap string clientEntry :=
  fold_left (fun r lc =>
    let '(mac, ok) := CanonicalMAC (lc_MAC lc) in
    let mac := if negb ok then "" else mac in
    <[lc_IP lc := MkEntry 0 mac true]> r) static ∅.

(** [r.seen(ip, mac, now)] *)
Definition seen (ip mac : string) (now : Z) (r : gmap string clientEntry)
  : gmap string clientEntry * bool :=
  let '(e, ok) := match r !! ip with
                  | Some e => (e, true)
                  | None => (MkEntry 0 "" false, false)
                  end in
  let e := if negb (bool_decide (mac = "")) then with_mac mac e else e in
  (<[ip := with_lastSeen now e]> r, negb ok).

(** [mac, lastSeen, ok := r.lookup(ip)] *)
Definition reg_lookup (ip : string) (r : gmap string clientEntry) : string * Z * bool :=
  match r !! ip with
  | None => ("", 0, false)
  | Some e => (e_mac e, e_lastSeen e, true)
  end.

Definition setMAC (ip mac : string) (r : gmap string clientEntry) : gmap string clientEntry :=
  match r !! ip with
  | Some e => <[ip := with_mac mac e]> r
  | None => r
  end.

Definition snapshot (r : gmap string clientEntry) : gmap string string := e_mac <$> r.

(** The function [expire] hands to [maps.DeleteFunc]. *)
Definition expires (now ttl : Z) (live : gset string) (ip : string) (e : clientEntry) : bool :=
  negb (e_static e || bool_decide (ip ∈ live) || (time_Sub now (e_lastSeen e) <? ttl)).

(** [r.expire(now, ttl, live)]: the registry left and the list of expired IPs, in
    the map's iteration order. *)
Definition expire `{!MapRange} (now ttl : Z) (live : gset string) (r : gmap string clientEntry)
  : gmap string clientEntry * list string :=
  (filter (fun kv => expires now ttl live kv.1 kv.2 = false) r,
   map fst (List.filter (fun kv => expires now ttl live kv.1 kv.2) (range r))).

Definition resetNetwork (r : gmap string clientEntry) : gmap string clientEntry :=
  with_mac "" <$> filter (fun kv => e_static kv.2 = true) r.

Definition needsRefresh (known : bool) (mac : string) (lastSeen now : Z) : bool :=
  negb known || bool_decide (mac = "") || (clientRefreshInterval <=? time_Sub now lastSeen).

(** ** Vocabulary of the statements *)

(** A MAC the registry may hold: none yet, or a canonical one. *)
Definition mac_wf (m : string) : Prop := m = "" \/ CanonicalMAC m = (m, true).

Definition registry_wf (r : gmap string clientEntry) : Prop :=
  map_Forall (fun _ e => mac_wf (e_mac e)) r.

(** The operations of the registry, as a history of calls. *)
Inductive reg_op : Type :=
| OpSeen (ip mac : string) (now : Z)
| OpSetMAC (ip mac : string)
| OpExpire (now ttl : Z) (live : gset string)
| OpReset.

Definition reg_step `{!MapRange} (r : gmap string clientEntry) (o : reg_op)
  : gmap string clientEntry :=
  match o with
  | OpSeen ip mac now => (seen ip mac now r).1
  | OpSetMAC ip mac => setMAC ip mac r
  | OpExpire now ttl live => (expire now ttl live r).1
  | OpReset => resetNetwork r
  end.

Definition is_static (r : gmap string clientEntry) (ip : string) : Prop :=
  exists e, r !! ip = Some e /\ e_static e = true.

(** ** Lemmas *)

Lemma seen_lookup ip mac now r :
  (seen ip mac now r).1 !! ip =
    Some (MkEntry now
      (if bool_decide (mac = "") then default "" (e_mac <$> r !! ip) else mac)
      (default false (e_static <$> r !! ip))).
Proof.
  unfold seen. destruct (r !! ip) as [e|]; cbn; case_bool_decide; cbn; by simplify_map_eq.
Qed.

Lemma seen_lookup_ne ip ip' mac now r :
  ip <> ip' -> (seen ip mac now r).1 !! ip' = r !! ip'.
Proof.
  intros Hne. unfold seen. destruct (r !! ip) as [e|]; cbn; by rewrite lookup_insert_ne.
Qed.

Lemma seen_new ip mac now r : (seen ip mac now r).2 = bool_decide (r !! ip = None).
Proof. unfold seen. by destruct (r !! ip). Qed.

Lemma setMAC_lookup ip mac r ip' :
  setMAC ip mac r !! ip' = if bool_decide (ip = ip') then with_mac mac <$> r !! ip' else r !! ip'.
Proof.
  unfold setMAC. case_bool_decide as Hip; [subst ip'|]; destruct (r !! ip) eqn:E; cbn;
    by simplify_map_eq.
Qed.

Lemma expire_lookup `{!MapRange} now ttl live r ip :
  (expire now ttl live r).1 !! ip =
    (e ← r !! ip; if expires now ttl live ip e then None else Some e).
Proof.
  unfold expire. cbn. rewrite map_lookup_filter. destruct (r !! ip) as [e|]; cbn; [|done].
  destruct (expires now ttl live ip e); by simplify_option_eq.
Qed.

Lemma expire_list `{!MapRange} now ttl live r ip :
  ip ∈ (expire now ttl live r).2 <-> exists e, r !! ip = Some e /\ expires now ttl live ip e = true.
Proof.
  unfold expire. cbn. rewrite list_elem_of_In, in_map_iff. split.
  - intros ([k e] & <- & [Hin Hx]%List.filter_In). exists e. split; [|done].
    apply elem_of_map_to_list. rewrite <- range_perm. by apply list_elem_of_In.
  - intros (e & He & Hx). exists (ip, e). split; [done|]. apply List.filter_In. split; [|done].
    apply list_elem_of_In. rewrite range_perm. by apply elem_of_map_to_list.
Qed.

Lemma expire_NoDup `{!MapRange} now ttl live r : NoDup (expire now ttl live r).2.
Proof.
  unfold expire. cbn. pose proof (range_perm r) as HP. apply (Permutation_map fst) in HP.
  assert (NoDup (map fst (range r))) as HN.
  { rewrite HP. apply NoDup_fst_map_to_list. }
  clear HP. induction (range r) as [|[k e] l IH]; cbn in *; [constructor|].
  apply NoDup_cons in HN as [Hk HN]. destruct (expires now ttl live k e); cbn; [|auto].
  apply NoDup_cons. split; [|auto]. rewrite list_elem_of_In in *. intros Hin. apply Hk.
  apply in_map_iff in Hin as (p & Hp & [Hin _]%List.filter_In). apply in_map_iff. eauto.
Qed.

Lemma resetNetwork_lookup r ip :
  resetNetwork r !! ip = (e ← r !! ip; if e_static e then Some (with_mac "" e) else None).
Proof.
  unfold resetNetwork. rewrite lookup_fmap, map_lookup_filter.
  destruct (r !! ip) as [e|]; cbn; [|done]. destruct (e_static e) eqn:E; by simplify_option_eq.
Qed.

Lemma snapshot_lookup r ip : snapshot r !! ip = e_mac <$> r !! ip.
Proof. apply lookup_fmap. Qed.

Lemma newClientRegistry_app l lc :
  newClientRegistry (l ++ [lc]) =
    let '(mac, ok) := CanonicalMAC (lc_MAC lc) in
    <[lc_IP lc := MkEntry 0 (if ok then mac else "") true]> (newClientRegistry l).
Proof.
  unfold newClientRegistry. rewrite fold_left_app. cbn.
  by destruct (CanonicalMAC (lc_MAC lc)) as [mac []].
Qed.

(** The registry of a configuration: one static entry per IP, never seen. *)
Lemma newClientRegistry_entry l ip e :
  newClientRegistry l !! ip = Some e ->
  e_static e = true /\ e_lastSeen e = 0 /\ mac_wf (e_mac e) /\ In ip (map lc_IP l).
Proof.
  induction l as [|lc l IH] using rev_ind; [unfold newClientRegistry; cbn; by rewrite lookup_empty|].
  rewrite newClientRegistry_app, map_app, in_app_iff. cbn.
  destruct (CanonicalMAC (lc_MAC lc)) as [mac ok] eqn:Hc.
  destruct (decide (lc_IP lc = ip)) as [->|Hne]; [|rewrite lookup_insert_ne by done; tauto].
  rewrite lookup_insert_eq. intros [= <-]. cbn. split_and!; auto.
  destruct ok; [right; by eapply CanonicalMAC_canonical|by left].
Qed.

Lemma newClientRegistry_static l ip :
  is_static (newClientRegistry l) ip <-> In ip (map lc_IP l).
Proof.
  split; [intros (e & He & _); by eapply newClientRegistry_entry|].
  unfold is_static. induction l as [|lc l IH] using rev_ind; [done|].
  rewrite newClientRegistry_app, map_app, in_app_iff. cbn.
  destruct (CanonicalMAC (lc_MAC lc)) as [mac ok].
  destruct (decide (lc_IP lc = ip)) as [->|Hne].
  - rewrite lookup_insert_eq. eauto.
  - rewrite lookup_insert_ne by done. intros [H|[H|[]]]; [auto|done].
Qed.

(** No operation adds or removes a static client. *)
Lemma reg_step_static `{!MapRange} r o ip : is_static (reg_step r o) ip <-> is_static r ip.
Proof.
  unfold is_static. destruct o as [ip' mac now|ip' mac|now ttl live|]; cbn [reg_step].
  - destruct (decide (ip' = ip)) as [->|Hne]; [|by rewrite seen_lookup_ne].
    rewrite seen_lookup. destruct (r !! ip) as [e|]; cbn; naive_solver.
  - rewrite setMAC_lookup. case_bool_decide; [|done]. destruct (r !! ip) as [e|]; cbn; naive_solver.
  - rewrite expire_lookup. destruct (r !! ip) as [e|]; cbn; [|naive_solver].
    unfold expires. destruct (e_static e) eqn:E; cbn; [naive_solver|].
    split_match; split; intros (e' & He & H'); try discriminate He; injection He as <-; congruence.
  - rewrite resetNetwork_lookup. destruct (r !! ip) as [e|]; cbn; [|naive_solver].
    destruct (e_static e) eqn:E; cbn; split; intros (e' & He & H'); try discriminate He;
      injection He as <-; cbn in *; eauto; congruence.
Qed.

Lemma reg_wf_entry r ip e : registry_wf r -> r !! ip = Some e -> mac_wf (e_mac e).
Proof. intros Hr He. by apply (Hr ip e He). Qed.

Lemma seen_wf ip mac now r : registry_wf r -> mac_wf mac -> registry_wf (seen ip mac now r).1.
Proof.
  intros Hr Hm ip' e. destruct (decide (ip = ip')) as [<-|Hne].
  - rewrite seen_lookup. intros [= <-]. cbn. case_bool_decide; [|done].
    destruct (r !! ip) as [e|] eqn:E; cbn; [by eapply reg_wf_entry|by left].
  - rewrite seen_lookup_ne by done. apply Hr.
Qed.

Lemma setMAC_wf ip mac r : registry_wf r -> mac_wf mac -> registry_wf (setMAC ip mac r).
Proof.
  intros Hr Hm ip' e. rewrite setMAC_lookup. case_bool_decide; [|apply Hr].
  destruct (r !! ip') as [e'|]; cbn; [|done]. by intros [= <-].
Qed.

Lemma expire_wf `{!MapRange} now ttl live r : registry_wf r -> registry_wf (expire now ttl live r).1.
Proof.
  intros Hr ip e. rewrite expire_lookup. destruct (r !! ip) as [e'|] eqn:E; cbn; [|done].
  destruct (expires _ _ _ _ _); [done|]. intros [= <-]. by eapply reg_wf_entry.
Qed.

Lemma resetNetwork_wf r : registry_wf (resetNetwork r).
Proof.
  intros ip e. rewrite resetNetwork_lookup. destruct (r !! ip) as [e'|]; cbn; [|done].
  destruct (e_static e'); [|done]. intros [= <-]. by left.
Qed.

Lemma newClientRegistry_wf l : registry_wf (newClientRegistry l).
Proof. intros ip e H. by apply newClientRegistry_entry in H as (_ & _ & ? & _). Qed.

#[export] Hint Resolve seen_wf setMAC_wf expire_wf resetNetwork_wf newClientRegistry_wf : gosocks.

Lemma parseArpEntry_mac_wf out : mac_wf (a_MAC (parseArpEntry out).1).
Proof.
  destruct (parseArpEntry out) as [e [|]] eqn:E; cbn.
  - right. by eapply parseArpEntry_canonical.
  - left. by rewrite (parseArpEntry_not_found _ _ E).
Qed.

(** A MAC that came out of one of the code's parsers, or none. *)
Definition mac_parsed (mac : string) : Prop :=
  mac = "" \/ (exists out, mac = a_MAC (parseArpEntry out).1) \/
  (exists line ip, parseSYNLine line = Some (ip, mac)).

Definition op_parsed (o : reg_op) : Prop :=
  match o with OpSeen _ mac _ | OpSetMAC _ mac => mac_parsed mac | _ => True end.

Lemma mac_parsed_wf mac : mac_parsed mac -> mac_wf mac.
Proof.
  intros [->|[[out ->]|(line & ip & Hl)]]; [by left|apply parseArpEntry_mac_wf|]. right.
  by eapply parseSYNLine_canonical.
Qed.

Lemma reg_step_wf `{!MapRange} r o : registry_wf r -> op_parsed o -> registry_wf (reg_step r o).
Proof.
  destruct o as [ip mac now|ip mac|now ttl live|]; cbn [reg_step op_parsed]; intros Hr Ho.
  - apply seen_wf; [done|]. by apply mac_parsed_wf.
  - apply setMAC_wf; [done|]. by apply mac_parsed_wf.
  - by apply expire_wf.
  - apply resetNetwork_wf.
Qed.

(** ** Properties *)

(** C22. The type of the registry: through any history of its operations, given only MACs
    the code's parsers return (or none), every MAC it holds is none or canonical, and its
    static clients are exactly the configured [lan_clients]: none expires, is dropped by
    a network change, or is added at run time. *)
Theorem registry_typed `{!MapRange} l ops :
  Forall op_parsed ops ->
  let r := fold_left reg_step ops (newClientRegistry l) in
  registry_wf r /\ forall ip, is_static r ip <-> In ip (map lc_IP l).
Proof.
  intros Hops. cbv zeta. split.
  - pose proof (newClientRegistry_wf l) as Hr. revert Hr. generalize (newClientRegistry l) as r.
    induction Hops as [|o ops Ho _ IH]; intros r Hr; cbn [fold_left]; [done|]. apply IH. by apply reg_step_wf.
  - intros ip. rewrite <- newClientRegistry_static. generalize (newClientRegistry l) as r. clear Hops.
    induction ops as [|o ops IH]; intros r; cbn [fold_left]; [done|]. by rewrite IH, reg_step_static.
Qed.

Lemma registry_typed_witness :
  let r := fold_left reg_step
    [OpSeen "192.168.0.9" (a_MAC (parseArpEntry "? (192.168.0.9) at 0:0:0:0:0:1 on en0").1) 5; OpReset]
    (newClientRegistry [MkLANClient "192.168.0.42" "72:CE:39:12:45:F"]) in
  registry_wf r /\ forall ip, is_static r ip <-> In ip ["192.168.0.42"].
Proof.
  apply (registry_typed [MkLANClient "192.168.0.42" "72:CE:39:12:45:F"]).
  constructor; [|repeat constructor]. right. left. eexists. reflexivity.
Defined.

(** C21. [expire] drops, and reports once each, exactly the discovered clients
    without a live connection that were last seen at least thirty minutes ago;
    everyone else's entry is untouched. *)
Theorem expire_exact `{!MapRange} now live r :
  let '(r', gone) := expire now discoveredClientTTL live r in
  NoDup gone /\
  forall ip,
    (ip ∈ gone <-> exists e, r !! ip = Some e /\ e_static e = false /\ (ip ∉ live) /\
       30 * Minute <= now - e_lastSeen e) /\
    r' !! ip = (if decide (ip ∈ gone) then None else r !! ip).
Proof.
  destruct (expire now discoveredClientTTL live r) as [r' gone] eqn:E.
  assert (gone = (expire now discoveredClientTTL live r).2) as Hg by by rewrite E.
  assert (r' = (expire now discoveredClientTTL live r).1) as Hr by by rewrite E.
  assert (forall ip e, expires now discoveredClientTTL live ip e = true <->
    e_static e = false /\ (ip ∉ live) /\ 30 * Minute <= now - e_lastSeen e) as Hx.
  { intros ip e. unfold expires. rewrite negb_true_iff, !orb_false_iff, bool_decide_eq_false.
    rewrite Z.ltb_ge, Z.le_ngt, time_Sub_lt by done. change (30 * Minute) with discoveredClientTTL.
    split; [intros [[? ?] ?]|intros (? & ? & ?)]; split_and!; auto; lia. }
  split; [rewrite Hg; apply expire_NoDup|]. intros ip.
  assert (ip ∈ gone <-> exists e, r !! ip = Some e /\ e_static e = false /\ (ip ∉ live) /\
    30 * Minute <= now - e_lastSeen e) as Hin.
  { rewrite Hg, expire_list. by setoid_rewrite Hx. }
  split; [done|]. rewrite Hr, expire_lookup.
  destruct (r !! ip) as [e|] eqn:He; cbn; [|by case_decide].
  destruct (expires now discoveredClientTTL live ip e) eqn:Ex.
  - rewrite decide_True; [done|]. apply Hin. apply Hx in Ex. eauto.
  - rewrite decide_False; [done|]. intros (e' & He' & Hc)%Hin.
    injection He' as <-. apply Hx in Hc. congruence.
Qed.

(** A network change forgets every discovered client and every MAC, and keeps
    the static clients. *)
Theorem resetNetwork_exact r ip :
  (is_static r ip <-> exists e, resetNetwork r !! ip = Some e) /\
  (forall e, resetNetwork r !! ip = Some e -> e_mac e = "" /\ e_static e = true).
Proof.
  rewrite resetNetwork_lookup. unfold is_static. destruct (r !! ip) as [e|]; cbn.
  - destruct (e_static e) eqn:E; cbn;
      (split; [split; [intros (e' & He & Hs)|intros (e' & He)]|intros e' He]);
      try discriminate He; injection He as <-; eauto; congruence.
  - by split; [split; intros (e' & He); [destruct He|]|].
Qed.

(** [seen] reports a new client exactly when the IP was unknown; it sets the
    time, keeps a known MAC when none is given and takes the given one otherwise,
    never makes a client static or changes another entry. *)
Theorem seen_exact ip mac now r :
  let '(r', isNew) := seen ip mac now r in
  (isNew = true <-> r !! ip = None) /\
  (forall ip', ip' <> ip -> r' !! ip' = r !! ip') /\
  match r !! ip with
  | None => r' !! ip = Some (MkEntry now mac false)
  | Some e =>
      r' !! ip = Some (MkEntry now (if bool_decide (mac = "") then e_mac e else mac) (e_static e))
  end.
Proof.
  destruct (seen ip mac now r) as [r' isNew] eqn:E.
  pose proof (seen_lookup ip mac now r) as H1. pose proof (seen_new ip mac now r) as H2.
  pose proof (fun ip' => seen_lookup_ne ip ip' mac now r) as H3. rewrite E in *. cbn in *.
  split_and!.
  - rewrite H2. apply bool_decide_eq_true.
  - intros ip' Hne. by apply H3.
  - rewrite H1. destruct (r !! ip) as [e|]; [done|].
    destruct (bool_decide (mac = "")) eqn:Hm; [|done]. bools. by rewrite Hm.
Qed.

(** The discovery lookup is throttled exactly for a client whose MAC is known and
    that was recorded less than a minute ago; the saturating subtraction of the
    times never changes the answer. *)
Theorem needsRefresh_throttles known mac lastSeen now :
  needsRefresh known mac lastSeen now = false <->
  known = true /\ mac <> "" /\ now - lastSeen < Minute.
Proof.
  unfold needsRefresh. rewrite !orb_false_iff, negb_false_iff, bool_decide_eq_false, Z.leb_gt.
  rewrite time_Sub_lt by (split; vm_compute; congruence). unfold clientRefreshInterval. tauto.
Qed.
