(* ===== verification/Conns.v ===== *)
(** * internal/service/proxy.go: the tracker of live client connections

    A connection is identified by a number; [RemoteAddr] gives its peer.  The
    tracker maps the connections to whether they were accepted on the LAN
    listener; closing one is an event. *)

From S2P Require Import Prelude GoStrings GoNet Effects.

(** [conn.RemoteAddr()]. *)
Class Peers : Type := RemoteAddr : positive -> NetAddr.

Definition connTracker : Type := gmap positive bool.

Definition conn_add (c : positive) (lan : bool) (ct : gmap positive bool) : gmap positive bool :=
  <[c := lan]> ct.

Definition conn_remove (c : positive) (ct : gmap positive bool) : gmap positive bool :=
  delete c ct.

Section Conns.
Context `{!MapRange} `{!Peers}.

(** [n := ct.closeAll()], the tracker left and the connections closed. *)
Definition closeAll (ct : gmap positive bool) : Z * gmap positive bool * list event :=
  (Z.of_nat (size ct), ∅, map (fun kv => EvCloseConn kv.1) (range ct)).

(** The loop of [closeLAN]: skip, or close, delete and count. *)
Definition closeLAN_step (acc : Z * gmap positive bool * list event) (kv : positive * bool)
  : Z * gmap positive bool * list event :=
  let '(n, ct, ev) := acc in
  if negb kv.2 then acc else (n + 1, delete kv.1 ct, ev ++ [EvCloseConn kv.1]).

Definition closeLAN (ct : gmap positive bool) : Z * gmap positive bool * list event :=
  fold_left closeLAN_step (range ct) (0, ct, []).

(** [ap, ok := remoteAddrPort(c)] *)
Definition remoteAddrPort (c : positive) : option (Addr * Z) :=
  match RemoteAddr c with
  | OtherNetAddr => None
  | TCPAddr ip port zone =>
      let na := match AddrFromSlice ip with Some a => WithZone a zone | None => Addr0 end in
      Some (Unmap na, port mod 2 ^ 16)
  end.

Definition remoteIPs (ct : gmap positive bool) : gset string :=
  list_to_set (omap (fun kv =>
    match remoteAddrPort kv.1 with
    | Some (a, _) => Some (Addr_String a)
    | None => None
    end) (range ct)).

(** ** Lemmas *)

Lemma foldr_delete_comm (l : list (positive * bool)) (ct : gmap positive bool) c :
  foldr (fun kv m => delete kv.1 m) (delete c ct) l =
    delete c (foldr (fun kv m => delete kv.1 m) ct l).
Proof. induction l as [|kv l IH]; cbn; [done|]. by rewrite IH, delete_delete. Qed.

Lemma closeLAN_fold l n ct ev :
  fold_left closeLAN_step l (n, ct, ev) =
    (n + Z.of_nat (length (List.filter snd l)),
     foldr (fun kv m => delete kv.1 m) ct (List.filter snd l),
     ev ++ map (fun kv => EvCloseConn kv.1) (List.filter snd l)).
Proof.
  revert n ct ev. induction l as [|[c lan] l IH]; intros n ct ev; cbn [fold_left].
  - cbn. by rewrite Z.add_0_r, app_nil_r.
  - destruct lan; cbn [closeLAN_step negb snd fst]; rewrite IH; [|done].
    cbn [List.filter snd length map foldr fst]. rewrite <- app_assoc. cbn [app].
    rewrite foldr_delete_comm. f_equal. f_equal. lia.
Qed.

Lemma foldr_delete_lookup (l : list (positive * bool)) (ct : gmap positive bool) c :
  foldr (fun kv m => delete kv.1 m) ct l !! c =
    if decide (c ∈ map fst l) then None else ct !! c.
Proof.
  induction l as [|[k b] l IH]; cbn.
  - rewrite decide_False; [done|]. by apply not_elem_of_nil.
  - destruct (decide (k = c)) as [->|Hne].
    + rewrite lookup_delete_eq, decide_True; [done|]. by left.
    + rewrite lookup_delete_ne, IH by done. apply decide_ext. rewrite elem_of_cons. naive_solver.
Qed.

Lemma lan_conns_elem (ct : gmap positive bool) c :
  c ∈ map fst (List.filter snd (range ct)) <-> ct !! c = Some true.
Proof.
  rewrite list_elem_of_In, in_map_iff. split.
  - intros ([k b] & <- & [Hin Hb]%List.filter_In). cbn in *. subst b.
    apply elem_of_map_to_list. rewrite <- range_perm. by apply list_elem_of_In.
  - intros Hc. exists (c, true). split; [done|]. apply List.filter_In. split; [|done].
    apply list_elem_of_In. rewrite range_perm. by apply elem_of_map_to_list.
Qed.

Lemma remoteIPs_elem (ct : gmap positive bool) ip :
  ip ∈ remoteIPs ct <->
  exists c lan a port, ct !! c = Some lan /\ remoteAddrPort c = Some (a, port) /\ ip = Addr_String a.
Proof.
  unfold remoteIPs. rewrite elem_of_list_to_set, list_elem_of_omap. split.
  - intros ([c lan] & Hin & Hf). rewrite range_perm in Hin. apply elem_of_map_to_list in Hin.
    cbn in Hf. destruct (remoteAddrPort c) as [[a port]|] eqn:E; [|done].
    injection Hf as <-. eauto 10.
  - intros (c & lan & a & port & Hc & Ha & ->). exists (c, lan). split.
    + rewrite range_perm. by apply elem_of_map_to_list.
    + cbn. by rewrite Ha.
Qed.

Lemma closeLAN_spec (ct : gmap positive bool) :
  let '(n, ct', ev) := closeLAN ct in
  (forall c, EvCloseConn c ∈ ev <-> ct !! c = Some true) /\
  NoDup ev /\ n = Z.of_nat (length ev) /\
  (forall c, ct' !! c = if decide (ct !! c = Some true) then None else ct !! c).
Proof.
  unfold closeLAN. rewrite closeLAN_fold. rewrite app_nil_l.
  set (l := List.filter snd (range ct)).
  assert (map (fun kv => EvCloseConn kv.1) l = map EvCloseConn (map fst l)) as ->
    by by rewrite map_map.
  split_and!.
  - intros c. rewrite <- lan_conns_elem. fold l. rewrite !list_elem_of_In, in_map_iff.
    split; [by intros (c' & [= ->] & ?)|eauto].
  - apply NoDup_fmap_2; [by intros ?? [= ->]|].
    assert (NoDup (map fst (range ct))) as HN.
    { rewrite (Permutation_map fst (range_perm ct)). apply NoDup_fst_map_to_list. }
    unfold l. clear l. induction (range ct) as [|[k b] r IH]; cbn in *; [constructor|].
    apply NoDup_cons in HN as [Hk HN]. destruct b; cbn; [|auto].
    apply NoDup_cons. split; [|auto]. rewrite list_elem_of_In in *. intros Hin. apply Hk.
    apply in_map_iff in Hin as (p & Hp & [Hin _]%List.filter_In). apply in_map_iff. eauto.
  - rewrite !length_map. lia.
  - intros c. rewrite foldr_delete_lookup. apply decide_ext. apply lan_conns_elem.
Qed.

Lemma closeAll_spec (ct : gmap positive bool) :
  let '(n, ct', ev) := closeAll ct in
  (forall c, EvCloseConn c ∈ ev <-> is_Some (ct !! c)) /\ n = Z.of_nat (length ev) /\ ct' = ∅.
Proof.
  unfold closeAll. split_and!; [|by rewrite length_map, range_perm, length_map_to_list|done].
  intros c. rewrite list_elem_of_In, in_map_iff. split.
  - intros ([k b] & [= ->] & Hin). exists b. apply elem_of_map_to_list.
    rewrite <- range_perm. by apply list_elem_of_In.
  - intros [b Hb]. exists (c, b). split; [done|]. apply list_elem_of_In.
    rewrite range_perm. by apply elem_of_map_to_list.
Qed.

End Conns.
