(* ===== verification/Service.v ===== *)
(** * internal/service/service.go: the shared state of the service

    [Service] is what the goroutines of the service share.  [status] is guarded by
    [mu], the registry and the tracker by mutexes of their own; the two channels
    are a flag each: [ciscoReady] is closed or not, [lanCheck] (capacity one) holds
    a pending check or not.  The options never change after [New], so they are a
    parameter of the operations that read them. *)

From S2P Require Import Prelude GoStrings GoNet GoTime Effects Shell Route Clients Conns.

Record Options : Type := MkOptions {
  CiscoUser : string;
  CiscoPassword : string;
  CiscoProfile : string;
  SocksUser : string;
  SocksPassword : string;
  DNSServers : list string;
  LANClients : list LANClient;
  LANDiscovery : bool
}.

Record State : Type := MkState {
  LANSubnet : Prefix;
  LANAddr : Addr;
  LANInterface : string;
  CiscoConnected : bool;
  PFDisabled : bool;
  ProxyStarted : bool;
  DNSStarted : bool
}.

Definition State0 : State := MkState Prefix0 Addr0 "" false false false false.

Record Service : Type := MkService {
  s_clients : gmap string clientEntry;
  s_conns : gmap positive bool;
  s_ciscoReady : bool;       (* closed *)
  s_lanCheck : bool;         (* a check is pending *)
  s_status : State;
  s_panicked : bool          (* a closed channel was closed again *)
}.

Definition New (opts : Options) : Service :=
  MkService (newClientRegistry (LANClients opts)) ∅ false false State0 false.

(** ** Field updates *)

Definition set_clients (r : gmap string clientEntry) (s : Service) : Service :=
  MkService r (s_conns s) (s_ciscoReady s) (s_lanCheck s) (s_status s) (s_panicked s).
Definition set_conns (ct : gmap positive bool) (s : Service) : Service :=
  MkService (s_clients s) ct (s_ciscoReady s) (s_lanCheck s) (s_status s) (s_panicked s).
Definition set_lanCheck (b : bool) (s : Service) : Service :=
  MkService (s_clients s) (s_conns s) (s_ciscoReady s) b (s_status s) (s_panicked s).
Definition set_status (st : State) (s : Service) : Service :=
  MkService (s_clients s) (s_conns s) (s_ciscoReady s) (s_lanCheck s) st (s_panicked s).

(** [close(s.ciscoReady)] *)
Definition close_ready (s : Service) : Service :=
  MkService (s_clients s) (s_conns s) true (s_lanCheck s) (s_status s)
    (s_panicked s || s_ciscoReady s).

(** What the callers of [setStatus] assign. *)
Definition st_LAN (subnet : Prefix) (addr : Addr) (iface : string) (st : State) : State :=
  MkState subnet addr iface (CiscoConnected st) (PFDisabled st) (ProxyStarted st) (DNSStarted st).
Definition st_LANAddr (addr : Addr) (st : State) : State :=
  st_LAN (LANSubnet st) addr (LANInterface st) st.
Definition st_Connected (b : bool) (st : State) : State :=
  MkState (LANSubnet st) (LANAddr st) (LANInterface st) b
    (if negb b then false else PFDisabled st) (ProxyStarted st) (DNSStarted st).
Definition st_PFDisabled (st : State) : State :=
  MkState (LANSubnet st) (LANAddr st) (LANInterface st) (CiscoConnected st) true
    (ProxyStarted st) (DNSStarted st).
Definition st_Proxy (b : bool) (st : State) : State :=
  MkState (LANSubnet st) (LANAddr st) (LANInterface st) (CiscoConnected st) (PFDisabled st) b
    (DNSStarted st).
Definition st_DNS (b : bool) (st : State) : State :=
  MkState (LANSubnet st) (LANAddr st) (LANInterface st) (CiscoConnected st) (PFDisabled st)
    (ProxyStarted st) b.

(** ** Access under the mutexes *)

Definition GetState : prog Service State := reads s_status.

Definition setStatus (fn : State -> State) : prog Service unit :=
  crit (fun s => (tt, set_status (fn (s_status s)) s, [])).

(** A critical section of the registry. *)
Definition on_clients {X} (f : gmap string clientEntry -> gmap string clientEntry * X) : prog Service X :=
  crit (fun s => let '(r, x) := f (s_clients s) in (x, set_clients r s, [])).

(** A critical section of the connection tracker. *)
Definition on_conns {X} (f : gmap positive bool -> X * gmap positive bool * list event) : prog Service X :=
  crit (fun s => let '(x, ct, ev) := f (s_conns s) in (x, set_conns ct s, ev)).

(** ** The ARP operations of the pinner and the discovery hook *)

Class PinOps : Type := {
  arp_lookup : ctx -> string -> prog Service (ArpEntry * bool);
  arp_pin : ctx -> string -> string -> string -> prog Service (option error)
}.

(** The ones [New] installs. *)
#[global] Instance route_ops : PinOps := {
  arp_lookup := LookupARP;
  arp_pin := Pin
}.

(** Neither touches the service, and a lookup reports no MAC or a canonical one. *)
Class PinOpsFrame (P : PinOps) : Prop := {
  lookup_mac : forall c ip, returns (fun x => mac_wf (a_MAC x.1)) (arp_lookup c ip);
  lookup_frame : forall I c ip, preserves I (arp_lookup c ip);
  pin_frame : forall I c ip mac iface, preserves I (arp_pin c ip mac iface)
}.

#[export] Instance route_ops_frame : PinOpsFrame route_ops.
Proof.
  split; intros; [|apply preserves_LookupARP|apply preserves_Pin].
  cbn [arp_lookup route_ops]. unfold LookupARP. apply returns_bind. intros [out [e|]]; cbn; [by left|].
  apply parseArpEntry_mac_wf.
Qed.

(** ** Waiting *)

(** [sleepCtx(ctx, d)] *)
Definition sleepCtx {S} (c : ctx) (d : Z) : prog S bool := sys (SelectTimer c d).

(** The [select] on [s.ciscoReady] and [ctx.Done()]: looks until a case is ready;
    [Some true] when [ciscoReady] was taken. *)
Definition waitReady (fuel : nat) (c : ctx) : prog Service (option bool) :=
  loop fuel (fun _ : unit =>
    ready ← reads s_ciscoReady;
    done ← sys (CtxErr c);
    match ready, done with
    | true, Some _ => pick ← sys SelectPick; mret (inr pick)
    | true, None => mret (inr true)
    | false, Some _ => mret (inr false)
    | false, None => mret (inl tt)
    end) tt.

(** ** LAN snapshots (lan.go) *)

Record lanSnapshot : Type := MkLan { lan_Subnet : Prefix; lan_Iface : string }.

#[global] Instance lanSnapshot_eq_dec : EqDecision lanSnapshot.
Proof. solve_decision. Defined.

(** [lanSnapshot{}] *)
Definition lan0 : lanSnapshot := MkLan Prefix0 "".

Definition Prefix_String (p : Prefix) : string :=
  if negb (Prefix_IsValid p) then "invalid Prefix"
  else Addr_String (p_ip p) +:+ "/" +:+ Itoa (Bits p).

Definition lan_String (l : lanSnapshot) : string :=
  if bool_decide (lan_Iface l = "") then "none"
  else lan_Iface l +:+ "/" +:+ Prefix_String (lan_Subnet l).

Definition lan_of (st : State) : lanSnapshot := MkLan (LANSubnet st) (LANInterface st).

(** [s.lanSnapshot()] *)
Definition get_lanSnapshot : prog Service lanSnapshot :=
  st ← GetState; mret (lan_of st).

Definition lanChanged (cur next : lanSnapshot) : bool :=
  negb (bool_decide (lan_Iface next = "")) && negb (bool_decide (next = cur)).

(** The non-blocking send on a channel of capacity one. *)
Definition notifyLANCheck : prog Service unit :=
  crit (fun s => (tt, set_lanCheck true s, [])).

(** ** Lemmas *)

Section Facts.
Context {W : Type} `{!World W}.

Lemma exec_GetState (s : Service) (w : W) : exec GetState s w = Out (s_status s) s w [].
Proof. reflexivity. Qed.

Lemma exec_setStatus fn (s : Service) (w : W) :
  exec (setStatus fn) s w = Out tt (set_status (fn (s_status s)) s) w [].
Proof. reflexivity. Qed.

Lemma exec_on_clients {X} (f : gmap string clientEntry -> gmap string clientEntry * X) (s : Service) (w : W) :
  exec (on_clients f) s w = Out (f (s_clients s)).2 (set_clients (f (s_clients s)).1 s) w [].
Proof. unfold on_clients. rewrite exec_crit. by destruct (f (s_clients s)). Qed.

Lemma exec_on_conns {X} (f : gmap positive bool -> X * gmap positive bool * list event) (s : Service) (w : W) :
  exec (on_conns f) s w =
    Out (f (s_conns s)).1.1 (set_conns (f (s_conns s)).1.2 s) w (f (s_conns s)).2.
Proof. unfold on_conns. rewrite exec_crit. by destruct (f (s_conns s)) as [[??]?]. Qed.

Lemma exec_get_lanSnapshot (s : Service) (w : W) :
  exec get_lanSnapshot s w = Out (lan_of (s_status s)) s w [].
Proof. reflexivity. Qed.

Lemma exec_notifyLANCheck (s : Service) (w : W) :
  exec notifyLANCheck s w = Out tt (set_lanCheck true s) w [].
Proof. reflexivity. Qed.

(** The wait for a channel that is closed is over at once. *)
Lemma exec_waitReady fuel c (s : Service) (w : W) :
  s_ciscoReady s = true -> (0 < fuel)%nat ->
  exists taken w', exec (waitReady fuel c) s w = Out (Some taken) s w' [].
Proof.
  intros Hr Hf. destruct fuel as [|fuel]; [lia|]. unfold waitReady.
  change (loop (Datatypes.S fuel) ?b tt) with (b tt ≫= fun r =>
    match r with inl l' => loop fuel b l' | inr x => Ret (Some x) end). run. rewrite Hr.
  destruct (os_handle (CtxErr c) w) as [[e|] w1]; cbn [fst snd]; run; [|eauto].
  destruct (os_handle SelectPick w1) as [pick w2]. cbn [fst snd]. run. eauto.
Qed.

Lemma exec_sleepCtx {S} c d (s : S) (w : W) :
  exec (sleepCtx c d) s w =
    Out (os_handle (SelectTimer c d) w).1 s (os_handle (SelectTimer c d) w).2 [EvSleep d].
Proof. apply exec_sys. Qed.

End Facts.

#[export] Hint Rewrite @exec_GetState @exec_setStatus @exec_on_clients @exec_on_conns
  @exec_get_lanSnapshot @exec_notifyLANCheck @exec_sleepCtx : exec.

Lemma preserves_GetState I : preserves I GetState.
Proof. apply preserves_reads. Qed.

Lemma preserves_get_lanSnapshot I : preserves I get_lanSnapshot.
Proof. apply preserves_bind; [apply preserves_GetState|done]. Qed.

Lemma preserves_waitReady I fuel c : preserves I (waitReady fuel c).
Proof. unfold waitReady. preserves. Qed.

Lemma preserves_sleepCtx {S} (I : S -> Prop) c d : preserves I (sleepCtx c d).
Proof. apply preserves_sys. Qed.

#[export] Hint Resolve preserves_GetState preserves_get_lanSnapshot preserves_waitReady
  preserves_sleepCtx lookup_frame pin_frame : gosocks.

Lemma preserves_on_clients {X} (I : Service -> Prop)
    (f : gmap string clientEntry -> gmap string clientEntry * X) :
  (forall s, I s -> I (set_clients (f (s_clients s)).1 s)) -> preserves I (on_clients f).
Proof.
  intros Hf. apply preserves_crit. intros s Hs. specialize (Hf s Hs).
  by destruct (f (s_clients s)).
Qed.

Lemma preserves_on_conns {X} (I : Service -> Prop)
    (f : gmap positive bool -> X * gmap positive bool * list event) :
  (forall s ct, I s -> I (set_conns ct s)) -> preserves I (on_conns f).
Proof.
  intros Hf. apply preserves_crit. intros s Hs. destruct (f (s_conns s)) as [[??]?]. by apply Hf.
Qed.

Lemma preserves_setStatus (I : Service -> Prop) fn :
  (forall s, I s -> I (set_status (fn (s_status s)) s)) -> preserves I (setStatus fn).
Proof. intros Hf. by apply preserves_crit. Qed.

Lemma preserves_notifyLANCheck (I : Service -> Prop) :
  (forall s, I s -> I (set_lanCheck true s)) -> preserves I notifyLANCheck.
Proof. intros Hf. by apply preserves_crit. Qed.

Lemma lanChanged_true cur next :
  lanChanged cur next = true <-> lan_Iface next <> "" /\ next <> cur.
Proof.
  unfold lanChanged. rewrite andb_true_iff, !negb_true_iff, !bool_decide_eq_false. done.
Qed.
