(* ===== verification/Pinner.v ===== *)
(** * internal/service/service.go: the pinner

    [pinClients] (one pass over the registry) and [startPinner] (the loop).  What a
    pass does is stated against [ArpSpec], the contract of the ARP operations; the
    shell-based operations of internal/utils/route meet it on every [Kernel]. *)

From S2P Require Import Prelude GoStrings GoNet GoTime Effects Sim Shell Route Clients Conns Service.

Definition pinInterval : Z := Second.
Definition clientExpireInterval : Z := Minute.

Section Pinner.
Context `{!MapRange} `{!Peers} `{!PinOps}.

(** One round of the loop of [pinClients]. *)
Definition pin_one (c : ctx) (state : State) (kv : string * string) : prog Service unit :=
  let '(ip, mac) := kv in
  match ParseAddr ip with
  | None => skip
  | Some addr =>
      if negb (Prefix_Contains (LANSubnet state) addr) then skip
      else if bool_decide (ip = Addr_String (LANAddr state)) then skip
      else
        '(entry, found) ← arp_lookup c ip;
        match DecidePin entry found mac (LANInterface state) with
        | PinAdopt =>
            on_clients (fun r => (setMAC ip (a_MAC entry) r, tt)) ≫= fun _ =>
            if bool_decide (mac = "") then
              slog LevelInfo "LAN client MAC learned" [("ip", ip); ("mac", a_MAC entry)]
            else
              slog LevelWarn "LAN client MAC changed"
                [("ip", ip); ("old", mac); ("new", a_MAC entry)]
        | PinRepin =>
            err ← arp_pin c ip mac (LANInterface state);
            match err with
            | Some e => slog LevelDebug "arp pin failed" [("ip", ip); ("error", Error e)]
            | None => slog LevelInfo "LAN client pinned" [("ip", ip); ("mac", mac)]
            end
        | PinNone => skip
        end
  end.

Definition pinClients (c : ctx) (state : State) : prog Service unit :=
  snap ← on_clients (fun r => (r, snapshot r));
  for_each (range snap) (pin_one c state).

(** One round of the pinner's loop; the loop state is [lastExpire]. *)
Definition pinner_round (c : ctx) (lastExpire : Z) : prog Service (Z + unit) :=
  alive ← sleepCtx c pinInterval;
  if negb alive then mret (inr tt)
  else
    now ← sys TimeNow;
    lastExpire ←
      (if clientExpireInterval <=? time_Sub now lastExpire then
         live ← reads (fun s => remoteIPs (s_conns s));
         gone ← on_clients (expire now discoveredClientTTL live);
         for_each gone (fun ip => slog LevelInfo "LAN client expired" [("ip", ip)]) ≫= fun _ =>
         mret now
       else mret lastExpire);
    state ← GetState;
    if negb (CiscoConnected state) || bool_decide (LANInterface state = "") then
      mret (inl lastExpire)
    else pinClients c state ≫= fun _ => mret (inl lastExpire).

Definition startPinner (fuel : nat) (c : ctx) : prog Service (option unit) :=
  ready ← waitReady fuel c;
  match ready with
  | None => mret None
  | Some false => mret (Some tt)
  | Some true => loop fuel (pinner_round c) 0
  end.

End Pinner.

(** ** Vocabulary of the statements *)

(** A client the pinner looks after in this state. *)
Definition pin_target (st : State) (ip : string) : bool :=
  match ParseAddr ip with
  | Some addr => Prefix_Contains (LANSubnet st) addr && negb (bool_decide (ip = Addr_String (LANAddr st)))
  | None => false
  end.

(** The text of an IPv4 address. *)
Definition ip_text (ip : string) : Prop := exists v, ParseAddr ip = Some (Addr4 v).

(** An interface name [arp] can print. *)
Definition iface_ok (iface : string) : Prop := word iface = true /\ not_keyword iface.

(** What the ARP operations promise: [arp_of] is what a lookup reports. *)
Class ArpSpec (W : Type) `{!World W} (P : PinOps) : Type := {
  arp_ok : W -> Prop;
  arp_of : W -> string -> ArpEntry * bool;
  arp_of_canonical : forall w ip e,
    arp_ok w -> arp_of w ip = (e, true) -> CanonicalMAC (a_MAC e) = (a_MAC e, true);
  lookup_spec : forall c ip s w, arp_ok w ->
    let o := exec (arp_lookup c ip) s w in
    out_val o = arp_of w ip /\ out_state o = s /\ arp_ok (out_world o) /\
    (forall ip', arp_of (out_world o) ip' = arp_of w ip');
  pin_spec : forall c ip mac iface s w,
    arp_ok w -> ip_text ip -> CanonicalMAC mac = (mac, true) -> iface_ok iface ->
    let o := exec (arp_pin c ip mac iface) s w in
    out_state o = s /\ arp_ok (out_world o) /\
    (forall ip', ip_text ip' -> ip' <> ip -> arp_of (out_world o) ip' = arp_of w ip') /\
    (out_val o = None -> arp_of (out_world o) ip = (MkArpEntry mac iface, true));
  log_spec : forall l m a w, arp_ok w ->
    arp_ok (os_handle (Slog l m a) w).2 /\
    (forall ip, arp_of (os_handle (Slog l m a) w).2 ip = arp_of w ip);
  clock_spec : forall w, arp_ok w ->
    arp_ok (os_handle TimeNow w).2 /\
    (forall ip, arp_of (os_handle TimeNow w).2 ip = arp_of w ip)
}.

(** What a pass does with one registered client: [r], [T] before and [r'], [T'] after,
    registry and ARP table; [failed] when the pin command failed. *)
Definition pass_effect (st : State) (r r' : gmap string clientEntry) (T T' : string -> ArpEntry * bool)
    (failed : Prop) (ip : string) : Prop :=
  match r !! ip with
  | Some e =>
      if pin_target st ip then
        match DecidePin (T ip).1 (T ip).2 (e_mac e) (LANInterface st) with
        | PinNone => r' !! ip = Some e /\ T' ip = T ip
        | PinAdopt => r' !! ip = Some (with_mac (a_MAC (T ip).1) e) /\ T' ip = T ip
        | PinRepin =>
            r' !! ip = Some e /\ (failed \/ T' ip = (MkArpEntry (e_mac e) (LANInterface st), true))
        end
      else r' !! ip = Some e /\ (ip_text ip -> T' ip = T ip)
  | None => r' !! ip = None /\ (ip_text ip -> T' ip = T ip)
  end.

(** The log line of a failed pin. *)
Definition pin_failed (ev : list event) (ip : string) : Prop :=
  exists e, EvLog LevelDebug "arp pin failed" [("ip", ip); ("error", e)] ∈ ev.

(** Nothing is left to do for the registry [r]. *)
Definition settled (st : State) (r : gmap string clientEntry) (T : string -> ArpEntry * bool) : Prop :=
  forall ip e, r !! ip = Some e -> pin_target st ip = true ->
    DecidePin (T ip).1 (T ip).2 (e_mac e) (LANInterface st) = PinNone.

(** A state whose subnet is an IPv4 one, with a printable interface name. *)
Definition lan_ok (st : State) : Prop :=
  Is4 (p_ip (LANSubnet st)) = true /\ iface_ok (LANInterface st).

(** ** Lemmas: one pass *)

Lemma pin_target_text st ip : lan_ok st -> pin_target st ip = true -> ip_text ip.
Proof.
  intros [H4 _]. unfold pin_target, ip_text. destruct (ParseAddr ip) as [a|]; [|done].
  intros [Hc _]%andb_true_iff. unfold Prefix_Contains in Hc.
  destruct (negb _ || _); [done|]. destruct (p_ip (LANSubnet st)) as [|u|]; [done| |done].
  destruct a as [|v|]; [done| |done]. by exists v.
Qed.

Lemma set_clients_id (s : Service) : set_clients (s_clients s) s = s.
Proof. by destruct s. Qed.

Lemma set_clients_set r r' (s : Service) : set_clients r (set_clients r' s) = set_clients r s.
Proof. done. Qed.

Lemma s_clients_set r (s : Service) : s_clients (set_clients r s) = r.
Proof. done. Qed.

Lemma pin_failed_app ev1 ev2 ip : pin_failed ev1 ip \/ pin_failed ev2 ip -> pin_failed (ev1 ++ ev2) ip.
Proof. intros [[e H]|[e H]]; exists e; apply elem_of_app; auto. Qed.

(** The effect on a client depends only on that client's entries. *)
Lemma pass_effect_frame st r1 r2 r1' r2' T1 T2 T1' T2' (F1 F2 : Prop) ip :
  lan_ok st -> (F1 -> F2) -> r2 !! ip = r1 !! ip -> r2' !! ip = r1' !! ip ->
  (ip_text ip -> T2 ip = T1 ip) -> (ip_text ip -> T2' ip = T1' ip) ->
  pass_effect st r1 r1' T1 T1' F1 ip -> pass_effect st r2 r2' T2 T2' F2 ip.
Proof.
  intros Hlan HF Hr Hr' HT HT'. unfold pass_effect. rewrite Hr, Hr'.
  assert (ip_text ip -> T1' ip = T1 ip -> T2' ip = T2 ip) as Hsame.
  { intros Hip H. by rewrite HT, HT'. }
  destruct (r1 !! ip) as [e|]; [|intros [H1 H2]; auto].
  destruct (pin_target st ip) eqn:Ht; [|intros [H1 H2]; auto].
  pose proof (pin_target_text _ _ Hlan Ht) as Hip. rewrite HT by done.
  destruct (DecidePin _ _ _ _); intros [H1 H2]; (split; [done|]).
  - by rewrite HT', H2.
  - by rewrite HT', H2.
  - destruct H2 as [H2|H2]; [left; auto|right; by rewrite HT'].
Qed.

Lemma pass_effect_adopted st r r' T T' F ip e :
  pass_effect st r r' T T' F ip -> r !! ip = Some e -> pin_target st ip = true ->
  DecidePin (T ip).1 (T ip).2 (e_mac e) (LANInterface st) = PinAdopt ->
  r' !! ip = Some (with_mac (a_MAC (T ip).1) e).
Proof. unfold pass_effect. intros H Hr Ht HD. rewrite Hr, Ht, HD in H. apply H. Qed.

Lemma pass_effect_repinned st r r' T T' F ip e :
  pass_effect st r r' T T' F ip -> r !! ip = Some e -> pin_target st ip = true ->
  DecidePin (T ip).1 (T ip).2 (e_mac e) (LANInterface st) = PinRepin -> r' !! ip = Some e.
Proof. unfold pass_effect. intros H Hr Ht HD. rewrite Hr, Ht, HD in H. apply H. Qed.

Section Pass.
Context `{!MapRange} `{!Peers} {P : PinOps} {W : Type} `{!World W} `{!ArpSpec W P}.

(** A round touches only its own client, as [pass_effect] says. *)
Lemma pin_one_effect c st (s : Service) (w : W) ip e :
  arp_ok w -> registry_wf (s_clients s) -> lan_ok st -> s_clients s !! ip = Some e ->
  let o := exec (pin_one c st (ip, e_mac e)) s w in
  exists r', out_state o = set_clients r' s /\ arp_ok (out_world o) /\ registry_wf r' /\
    (forall ip', ip' <> ip -> r' !! ip' = s_clients s !! ip' /\
       (ip_text ip' -> arp_of (out_world o) ip' = arp_of w ip')) /\
    pass_effect st (s_clients s) r' (arp_of w) (arp_of (out_world o)) (pin_failed (out_events o) ip) ip.
Proof.
  intros Hok Hr Hlan He. cbv zeta. unfold pass_effect. rewrite He.
  assert (pin_target st ip = false -> pin_one c st (ip, e_mac e) = skip) as Hskip.
  { unfold pin_target, pin_one. destruct (ParseAddr ip) as [a|]; [|done].
    destruct (Prefix_Contains _ _); cbn; [|done]. by destruct (bool_decide _). }
  destruct (pin_target st ip) eqn:Ht.
  2: { rewrite Hskip by done. run. exists (s_clients s). rewrite set_clients_id. naive_solver. }
  pose proof (pin_target_text _ _ Hlan Ht) as Hip. clear Hskip.
  unfold pin_target in Ht. unfold pin_one.
  destruct (ParseAddr ip) as [a|]; [|done]. apply andb_true_iff in Ht as [-> Hself%negb_true_iff].
  cbn [negb]. rewrite Hself. run.
  destruct (lookup_spec c ip s w Hok) as (Hv & Hs & Hok1 & HT1).
  set (o1 := exec (arp_lookup c ip) s w) in *. rewrite Hv, Hs.
  destruct (arp_of w ip) as [entry found] eqn:ET. cbn [fst snd].
  destruct (DecidePin entry found (e_mac e) (LANInterface st)) eqn:ED; run.
  - exists (s_clients s). rewrite set_clients_id. split_and!; auto. by rewrite HT1.
  - apply DecidePin_Adopt in ED as (-> & _ & _).
    pose proof (arp_of_canonical w ip entry Hok ET) as Hcan.
    match goal with |- context [exec ?q _ _] => set (msg := q) end.
    assert (exists l m at', msg = slog l m at') as (l & m & at' & ->)
      by (unfold msg; destruct (bool_decide (e_mac e = "")); eauto).
    run. destruct (log_spec l m at' _ Hok1) as [Hok2 HT2].
    eexists. split; [done|]. split_and!.
    + done.
    + apply setMAC_wf; [done|by right].
    + intros ip' Hne. rewrite setMAC_lookup, bool_decide_eq_false_2 by done.
      split; [done|]. intros _. by rewrite HT2, HT1.
    + by rewrite setMAC_lookup, bool_decide_eq_true_2, He.
    + by rewrite HT2, HT1.
  - apply DecidePin_Repin in ED as [Hmac _].
    assert (CanonicalMAC (e_mac e) = (e_mac e, true)) as Hcan.
    { by destruct (reg_wf_entry _ _ _ Hr He). }
    destruct (pin_spec c ip (e_mac e) (LANInterface st) s _ Hok1 Hip Hcan (proj2 Hlan))
      as (Hs2 & Hok2 & HT2 & Hpin).
    set (o2 := exec (arp_pin _ _ _ _) s _) in *. rewrite Hs2.
    destruct (out_val o2) as [err|] eqn:Eo; run.
    + destruct (log_spec LevelDebug "arp pin failed" [("ip", ip); ("error", Error err)] _ Hok2)
        as [Hok3 HT3].
      exists (s_clients s). rewrite set_clients_id. split_and!; auto.
      * intros ip' Hne. split; [done|]. intros Hip'. by rewrite HT3, HT2, HT1.
      * left. apply pin_failed_app. right. apply pin_failed_app. right. exists (Error err). left.
    + destruct (log_spec LevelInfo "LAN client pinned" [("ip", ip); ("mac", e_mac e)] _ Hok2)
        as [Hok3 HT3].
      exists (s_clients s). rewrite set_clients_id. split_and!; auto.
      * intros ip' Hne. split; [done|]. intros Hip'. by rewrite HT3, HT2, HT1.
      * right. rewrite HT3. by apply Hpin.
Qed.

(** The rounds over a list of distinct clients. *)
Lemma pin_rounds_effect c st (l : list (string * string)) (s : Service) (w : W) :
  arp_ok w -> registry_wf (s_clients s) -> lan_ok st ->
  NoDup (map fst l) -> (forall ip m, (ip, m) ∈ l -> e_mac <$> s_clients s !! ip = Some m) ->
  let o := exec (for_each l (pin_one c st)) s w in
  exists r', out_state o = set_clients r' s /\ arp_ok (out_world o) /\ registry_wf r' /\
    (forall ip, ip ∉ map fst l -> r' !! ip = s_clients s !! ip /\
       (ip_text ip -> arp_of (out_world o) ip = arp_of w ip)) /\
    (forall ip, ip ∈ map fst l ->
       pass_effect st (s_clients s) r' (arp_of w) (arp_of (out_world o))
         (pin_failed (out_events o) ip) ip).
Proof.
  revert s w. induction l as [|[ip m] l IH]; intros s w Hok Hr Hlan HN Hl; cbn [for_each];
    [|change (map fst ((ip, m) :: l)) with (ip :: map fst l) in *].
  { cbv zeta. run. exists (s_clients s). rewrite set_clients_id. split_and!; auto.
    intros ip Hin. by apply elem_of_nil in Hin. }
  cbv zeta. apply NoDup_cons in HN as [Hnin HN].
  destruct (s_clients s !! ip) as [e|] eqn:He.
  2: { specialize (Hl ip m ltac:(left)). by rewrite He in Hl. }
  assert (m = e_mac e) as -> by (specialize (Hl ip m ltac:(left)); rewrite He in Hl; by injection Hl).
  run. destruct (pin_one_effect c st s w ip e Hok Hr Hlan He) as (r1 & Hs1 & Hok1 & Hr1 & Hfr & Heff).
  set (o1 := exec (pin_one c st (ip, e_mac e)) s w) in *. rewrite Hs1.
  destruct (IH (set_clients r1 s) (out_world o1)) as (r2 & Hs2 & Hok2 & Hr2 & Hfr2 & Heff2);
    [done|done|done|done| |].
  { intros ip' m' Hin. rewrite s_clients_set. destruct (Hfr ip') as [-> _]; [|apply Hl; by right].
    intros ->. apply Hnin. apply list_elem_of_fmap. by exists (ip, m'). }
  rewrite s_clients_set in *. set (o2 := exec (for_each l _) _ _) in *.
  exists r2. rewrite Hs2. split_and!; try done.
  - intros ip' Hne. rewrite not_elem_of_cons in Hne. destruct Hne as [Hne Hnin'].
    destruct (Hfr ip' Hne) as [H1 H2]. destruct (Hfr2 ip' Hnin') as [H3 H4].
    split; [by rewrite H3|]. intros Hip. by rewrite H4, H2.
  - intros ip'. destruct (decide (ip' = ip)) as [->|Hne].
    + intros _. destruct (Hfr2 ip Hnin) as [H1 H2].
      eapply pass_effect_frame; [done| |done|exact H1|done|exact H2|exact Heff].
      intros HF. apply pin_failed_app. by left.
    + intros [?|Hin]%elem_of_cons; [done|]. destruct (Hfr ip' Hne) as [H1 H2].
      eapply pass_effect_frame; [done| | |done| |done|apply (Heff2 ip' Hin)].
      * intros HF. apply pin_failed_app. by right.
      * done.
      * intros Hip. by rewrite H2.
Qed.

Lemma snapshot_keys (r : gmap string clientEntry) ip :
  ip ∈ map fst (range (snapshot r)) <-> is_Some (r !! ip).
Proof.
  rewrite (list_elem_of_fmap fst (range (snapshot r)) ip).
  split.
  - intros ([k m] & -> & Hin). rewrite range_perm in Hin. apply elem_of_map_to_list in Hin.
    rewrite snapshot_lookup in Hin. cbn. destruct (r !! k); eauto; done.
  - intros [e He]. exists (ip, e_mac e). split; [done|]. rewrite range_perm.
    apply elem_of_map_to_list. by rewrite snapshot_lookup, He.
Qed.

Lemma pass_spec c st (s : Service) (w : W) :
  arp_ok w -> registry_wf (s_clients s) -> lan_ok st ->
  let o := exec (pinClients c st) s w in
  exists r', out_state o = set_clients r' s /\ arp_ok (out_world o) /\ registry_wf r' /\
    (forall ip, pass_effect st (s_clients s) r' (arp_of w) (arp_of (out_world o))
       (pin_failed (out_events o) ip) ip).
Proof.
  intros Hok Hr Hlan. cbv zeta. unfold pinClients. run. rewrite set_clients_id.
  set (l := range (snapshot (s_clients s))).
  destruct (pin_rounds_effect c st l s w) as (r' & Hs & Hok' & Hr' & Hfr & Heff);
    [done|done|done| | |].
  - unfold l. rewrite (Permutation_map fst (range_perm _)). apply NoDup_fst_map_to_list.
  - intros ip m Hin. unfold l in Hin. rewrite range_perm in Hin. apply elem_of_map_to_list in Hin.
    by rewrite snapshot_lookup in Hin.
  - exists r'. split_and!; try done. intros ip.
    destruct (s_clients s !! ip) as [e|] eqn:He.
    + apply Heff. apply snapshot_keys. eauto.
    + unfold pass_effect. rewrite He. destruct (Hfr ip) as [H1 H2]; [|by rewrite H1].
      intros Hin%snapshot_keys. rewrite He in Hin. by destruct Hin.
Qed.

(** After a pass whose pins all went through, nothing is left to do. *)
Lemma pass_settles st r r' T T' (F : string -> Prop) :
  registry_wf r -> (forall ip e, T ip = (e, true) -> CanonicalMAC (a_MAC e) = (a_MAC e, true)) ->
  (forall ip, pass_effect st r r' T T' (F ip) ip) -> (forall ip, ~ F ip) -> settled st r' T'.
Proof.
  intros Hr HT Heff HF ip e' He' Ht. specialize (Heff ip). unfold pass_effect in Heff.
  destruct (r !! ip) as [e|] eqn:He; [|destruct Heff; congruence]. rewrite Ht in Heff.
  destruct (DecidePin (T ip).1 (T ip).2 (e_mac e) (LANInterface st)) eqn:ED.
  - destruct Heff as [H1 ->]. rewrite H1 in He'. by injection He' as <-.
  - destruct Heff as [H1 ->]. rewrite H1 in He'. injection He' as <-. cbn [with_mac e_mac].
    apply DecidePin_Adopt in ED as (Hf & Hif & _).
    destruct (T ip) as [[mac iface] f] eqn:ET. cbn in *. subst. apply DecidePin_settled.
    by apply (HT ip (MkArpEntry mac (LANInterface st))).
  - destruct Heff as [H1 [H2|H2]]; [by destruct (HF ip)|]. rewrite H1 in He'.
    injection He' as <-. rewrite H2. cbn. apply DecidePin_settled.
    apply DecidePin_Repin in ED as [Hne _]. by destruct (reg_wf_entry _ _ _ Hr He).
Qed.

(** A pass over a settled registry changes nothing. *)
Lemma settled_quiet st r r' T T' (F : string -> Prop) :
  settled st r T -> (forall ip, pass_effect st r r' T T' (F ip) ip) ->
  r' = r /\ (forall ip, ip_text ip -> T' ip = T ip).
Proof.
  intros Hset Heff. split.
  - apply map_eq. intros ip. specialize (Heff ip). specialize (Hset ip). unfold pass_effect in Heff.
    destruct (r !! ip) as [e|]; [|naive_solver].
    destruct (pin_target st ip); [|naive_solver]. rewrite Hset in Heff by done. naive_solver.
  - intros ip Hip. specialize (Heff ip). specialize (Hset ip). unfold pass_effect in Heff.
    destruct (r !! ip) as [e|]; [|naive_solver].
    destruct (pin_target st ip); [|naive_solver]. rewrite Hset in Heff by done. naive_solver.
Qed.

End Pass.

(** ** The shell-based operations meet the contract *)

(** A kernel's ARP table as [arp] and [route] show and change it: [k_arp] maps an IP
    text to the MAC, as printed, and the interface. *)
Class Kernel (W : Type) `{!World W} : Type := {
  k_ok : W -> Prop;
  k_arp : W -> gmap string (string * string);
  k_wf : forall w ip mac iface, k_ok w -> k_arp w !! ip = Some (mac, iface) ->
    word mac = true /\ iface_ok iface /\ exists c, CanonicalMAC mac = (c, true);
  k_show : forall c ip w, k_ok w ->
    let r := os_handle (Exec c "arp" ["-n"; ip] "") w in
    k_ok r.2 /\ k_arp r.2 = k_arp w /\
    match k_arp w !! ip with
    | Some (mac, iface) =>
        exists shown flags, r.1 = (arp_line shown mac iface flags, None) /\ word shown = true /\
          Forall (fun f => word f = true /\ not_keyword f) flags
    | None => r.1.2 <> None \/ exists host, word host = true /\ not_keyword host /\
        r.1 = (Join [host; "(" +:+ host +:+ ")"; "--"; "no"; "entry"] " " +:+ newline, None)
    end;
  k_pin : forall c ip mac iface w,
    k_ok w -> ip_text ip -> CanonicalMAC mac = (mac, true) -> iface_ok iface ->
    let w1 := (os_handle (Exec c "route" ["change"; ip; "-interface"; iface] "") w).2 in
    let r := os_handle (Exec c "arp" ["-S"; ip; mac; "temp"] "") w1 in
    k_ok r.2 /\ (forall ip', ip_text ip' -> ip' <> ip -> k_arp r.2 !! ip' = k_arp w !! ip') /\
    (r.1.2 = None -> exists shown, k_arp r.2 !! ip = Some (shown, iface) /\
       CanonicalMAC shown = (mac, true));
  k_log : forall l m a w, k_ok w ->
    k_ok (os_handle (Slog l m a) w).2 /\ k_arp (os_handle (Slog l m a) w).2 = k_arp w;
  k_clock : forall w, k_ok w ->
    k_ok (os_handle TimeNow w).2 /\ k_arp (os_handle TimeNow w).2 = k_arp w
}.

(** What a lookup reports of a table entry. *)
Definition entry_of (x : option (string * string)) : ArpEntry * bool :=
  match x with
  | Some (mac, iface) => (MkArpEntry (CanonicalMAC mac).1 iface, true)
  | None => (ArpEntry0, false)
  end.

Lemma parseArpEntry_no_entry host :
  word host = true -> not_keyword host ->
  parseArpEntry (Join [host; "(" +:+ host +:+ ")"; "--"; "no"; "entry"] " " +:+ newline) = (ArpEntry0, false).
Proof.
  intros Hw Hk. unfold parseArpEntry. rewrite Fields_Join.
  - rewrite (arp_scan_plain _ host), (arp_scan_plain _ ("(" +:+ host +:+ ")")) by done.
    vm_compute. done.
  - repeat constructor; [done|].
    change (string_forallb graphic ("(" +:+ host +:+ ")") = true).
    by rewrite !string_forallb_app, (word_graphic host Hw).
Qed.

Section RouteOps.
Context {W : Type} `{!World W} `{!Kernel W}.

Lemma route_lookup c ip (s : Service) (w : W) :
  k_ok w ->
  let o := exec (LookupARP c ip) s w in
  out_val o = entry_of (k_arp w !! ip) /\ out_state o = s /\ k_ok (out_world o) /\
  k_arp (out_world o) = k_arp w.
Proof.
  intros Hok. cbv zeta. rewrite exec_LookupARP. cbv zeta. cbn [out_val out_state out_world].
  destruct (k_show c ip w Hok) as (Hok' & HT & Hshow). split_and!; try done.
  destruct (k_arp w !! ip) as [[mac iface]|] eqn:E; cbn [entry_of].
  - destruct Hshow as (shown & flags & -> & Hsh & Hfl). cbn [fst snd].
    destruct (k_wf w ip mac iface Hok E) as (Hmac & [Hif Hk] & cm & Hc). rewrite Hc.
    apply parseArpEntry_line; try done; (eapply Forall_impl; [exact Hfl|naive_solver]).
  - destruct Hshow as [Hne|(host & Hw & Hk & ->)].
    + by destruct (os_handle _ w).1.2.
    + cbn [fst snd]. by apply parseArpEntry_no_entry.
Qed.

Lemma route_pin c ip mac iface (s : Service) (w : W) :
  k_ok w -> ip_text ip -> CanonicalMAC mac = (mac, true) -> iface_ok iface ->
  let o := exec (Pin c ip mac iface) s w in
  out_state o = s /\ k_ok (out_world o) /\
  (forall ip', ip_text ip' -> ip' <> ip -> k_arp (out_world o) !! ip' = k_arp w !! ip') /\
  (out_val o = None -> entry_of (k_arp (out_world o) !! ip) = (MkArpEntry mac iface, true)).
Proof.
  intros Hok Hip Hmac Hif. cbv zeta. destruct (k_pin c ip mac iface w Hok Hip Hmac Hif) as (Hok' & Hfr & Hset).
  unfold Pin. run.
  destruct (os_handle (Exec c "route" _ "") w) as [r1 w1]. cbn [fst snd] in *.
  destruct (os_handle (Exec c "arp" _ "") w1) as [[out err] w2]. cbn [fst snd run_result] in *.
  destruct err as [e|]; run; split_and!; try done.
  intros _. destruct (Hset eq_refl) as (shown & -> & Hc). cbn. by rewrite Hc.
Qed.

#[export] Instance route_arp_spec : ArpSpec W route_ops.
Proof.
  refine {| arp_ok := k_ok; arp_of := fun w ip => entry_of (k_arp w !! ip) |}.
  - intros w ip e Hok. destruct (k_arp w !! ip) as [[mac iface]|] eqn:E; cbn; [|done].
    destruct (k_wf w ip mac iface Hok E) as (_ & _ & c & Hc). intros [= <-]. cbn. rewrite Hc.
    by eapply CanonicalMAC_canonical.
  - intros c ip s w Hok. destruct (route_lookup c ip s w Hok) as (H1 & H2 & H3 & H4).
    cbv zeta. cbn [arp_lookup route_ops] in *. split_and!; try done. intros ip'. by rewrite H4.
  - intros c ip mac iface s w Hok Hip Hmac Hif.
    destruct (route_pin c ip mac iface s w Hok Hip Hmac Hif) as (H1 & H2 & H3 & H4).
    cbv zeta. cbn [arp_pin route_ops] in *. split_and!; try done. intros ip' Hip' Hne. by rewrite H3.
  - intros l m a w Hok. destruct (k_log l m a w Hok) as [H1 H2]. split; [done|]. intros ip. by rewrite H2.
  - intros w Hok. destruct (k_clock w Hok) as [H1 H2]. split; [done|]. intros ip. by rewrite H2.
Defined.

End RouteOps.

(** ** The simulated host is such a kernel *)

Definition sim_ok (w : sim) : Prop :=
  map_Forall (fun ip p => ip_text ip /\ word p.1 = true /\ iface_ok p.2 /\ exists c, CanonicalMAC p.1 = (c, true)) (sim_arp w).

Lemma Join_hex_word b hw :
  Forall is_byte (b :: hw) -> word (Join (map hex2 (b :: hw)) (String colon "")) = true.
Proof.
  revert b. induction hw as [|b' hw IH]; intros b [Hb Hbs]%Forall_cons.
  - exact (below_forall (fun b => word (hex2 b)) 256 b eq_refl Hb).
  - specialize (IH b' Hbs). apply word_graphic in IH.
    change (map hex2 (b :: b' :: hw)) with (hex2 b :: map hex2 (b' :: hw)).
    change (map hex2 (b' :: hw)) with (hex2 b' :: map hex2 hw) in *. rewrite Join_cons.
    pose proof (below_forall (fun b => word (hex2 b)) 256 b eq_refl Hb) as Hw.
    cbv beta in Hw. apply word_graphic in Hw.
    assert (string_forallb graphic (hex2 b +:+ String colon (Join (hex2 b' :: map hex2 hw) (String colon ""))) = true)
      as H by (rewrite string_forallb_app, Hw; cbn [string_forallb andb]; by rewrite IH).
    exact H.
Qed.

Lemma canonical_word c : CanonicalMAC c = (c, true) -> word c = true.
Proof.
  intros (hw & [Hb Hlen] & ->)%CanonicalMAC_inv. destruct hw as [|b hw]; [done|].
  by apply Join_hex_word.
Qed.

Lemma ip_text_word ip : ip_text ip -> word ip = true /\ not_keyword ip.
Proof.
  intros [v [-> Hv]%ParseAddr4_text]. cbn [Addr_String]. pose proof (Addr4_String_graphic v) as H.
  assert (exists n r, is_byte n /\ Addr4_String v = dec_octet n +:+ r) as (n & r & Hn & E).
  { unfold Addr4_String. cbn [map]. change "." with (String dot ""). rewrite Join_cons.
    eauto using octet_byte. }
  assert (exists c t, Addr4_String v = String c t /\ c <> "a"%char /\ c <> "o"%char) as (c & t & Ec & Ha & Ho).
  { pose proof (below_forall (fun n => match dec_octet n with
      | String c _ => negb (Ascii.eqb c "a" || Ascii.eqb c "o") | _ => false end) 256 n eq_refl Hn) as Hc.
    cbv beta in Hc. rewrite E. destruct (dec_octet n) as [|c t]; [done|].
    rewrite append_cons. exists c, (t +:+ r). bools.
    split_and!; [done| |]; by apply Ascii.eqb_neq. }
  rewrite Ec in *. split; [exact H|]. by split; intros [= ? _].
Qed.

#[export] Instance sim_kernel : Kernel sim.
Proof.
  refine {| k_ok := sim_ok; k_arp := sim_arp |}.
  - intros w ip mac iface Hok H. by apply (Hok ip (mac, iface) H).
  - intros c ip w Hok. cbn [os_handle sim_world sim_exec].
    rewrite !bool_decide_eq_true_2 by done. cbn [andb]. cbv zeta.
    destruct (sim_arp w !! ip) as [[mac iface]|] eqn:E; cbn [fst snd]; split_and!; try done.
    + destruct (Hok ip _ E) as (Hip & _). exists ip, ["ifscope"; "[ethernet]"].
      split_and!; [done|by apply ip_text_word|by repeat constructor].
    + by left.
  - intros c ip mac iface w Hok Hip Hmac Hif. cbv zeta. cbn [os_handle sim_world sim_exec].
    change (bool_decide ("arp" = "route")) with false. change (bool_decide ("arp" = "arp")) with true.
    change (bool_decide ("-S" = "-S")) with true. change (bool_decide ("route" = "route")) with true.
    change (bool_decide ("change" = "change")) with true. cbn [andb fst snd with_route sim_route].
    rewrite lookup_insert_eq. cbn [fst snd with_arp sim_arp].
    split_and!.
    + unfold sim_ok. cbn [sim_arp]. apply map_Forall_insert_2; [|exact Hok]. cbn [fst snd].
      split_and!; eauto using canonical_word; apply Hif.
    + intros ip' _ Hne. by rewrite lookup_insert_ne.
    + intros _. exists mac. by rewrite lookup_insert_eq.
  - by intros l m a w Hok.
  - by intros w Hok.
Defined.

(** ** Lemmas: the loop *)

Lemma preserves_pinClients `{!MapRange} {P : PinOps} `{!PinOpsFrame P} (I : Service -> Prop) c st :
  (forall s, I s -> I (set_clients (s_clients s) s)) ->
  (forall s ip mac, I s -> mac_wf mac -> I (set_clients (setMAC ip mac (s_clients s)) s)) ->
  preserves I (pinClients c st).
Proof.
  intros H1 H2. unfold pinClients.
  apply preserves_bind; [by apply preserves_on_clients|intros snap]. apply preserves_for_each. intros [ip mac].
  unfold pin_one. destruct (ParseAddr ip); [|done]. destruct (negb _); [done|].
  destruct (bool_decide _); [done|].
  eapply preserves_bind_returns; [apply lookup_frame|apply lookup_mac|]. intros [entry found] Hmac.
  preserves. apply preserves_on_clients. intros s Hs. by apply H2.
Qed.

Lemma preserves_startPinner `{!MapRange} `{!Peers} {P : PinOps} `{!PinOpsFrame P} (I : Service -> Prop) fuel c :
  (forall s, I s -> I (set_clients (s_clients s) s)) ->
  (forall s ip mac, I s -> mac_wf mac -> I (set_clients (setMAC ip mac (s_clients s)) s)) ->
  (forall s now live, I s -> I (set_clients (expire now discoveredClientTTL live (s_clients s)).1 s)) ->
  preserves I (startPinner fuel c).
Proof.
  intros H1 H2 H3. unfold startPinner, pinner_round. preserves; [|by apply preserves_pinClients].
  apply preserves_on_clients. auto.
Qed.

(** Every command of a pass is a lookup of a client it looks after, or part of a pin
    of such a client with its registered MAC. *)
Definition pass_command (st : State) (snap : gmap string string) (e : event) : Prop :=
  match e with
  | EvExec _ name args _ =>
      exists ip mac, snap !! ip = Some mac /\ pin_target st ip = true /\
      ((name = "arp" /\ args = ["-n"; ip]) \/
       mac <> "" /\ ((name = "route" /\ args = ["change"; ip; "-interface"; LANInterface st]) \/
                    (name = "arp" /\ args = ["-S"; ip; mac; "temp"])))
  | EvLog _ _ _ => True
  | _ => False
  end.

Lemma emits_LookupARP {S} (P : event -> Prop) c ip :
  P (EvExec c "arp" ["-n"; ip] "") -> emits P (LookupARP c ip : prog S _).
Proof. intros H. unfold LookupARP, Run. emits; done. Qed.

Lemma emits_Pin {S} (P : event -> Prop) c ip mac iface :
  P (EvExec c "route" ["change"; ip; "-interface"; iface] "") ->
  P (EvExec c "arp" ["-S"; ip; mac; "temp"] "") -> emits P (Pin c ip mac iface : prog S _).
Proof. intros H1 H2. unfold Pin, Run. emits; done. Qed.

Lemma emits_on_clients P {X} (f : gmap string clientEntry -> gmap string clientEntry * X) :
  emits P (on_clients f).
Proof. apply emits_crit. intros s. destruct (f (s_clients s)). constructor. Qed.

#[export] Hint Resolve emits_on_clients : gosocks.

Lemma emits_pin_one c st snap ip mac :
  snap !! ip = Some mac ->
  emits (pass_command st snap) (pin_one (H1 := route_ops) c st (ip, mac)).
Proof.
  intros Hm. unfold pin_one. destruct (ParseAddr ip) as [a|] eqn:Ea; [|done].
  destruct (Prefix_Contains (LANSubnet st) a) eqn:Ec; [|done].
  destruct (bool_decide (ip = Addr_String (LANAddr st))) eqn:Es; [done|].
  assert (pin_target st ip = true) as Ht by (unfold pin_target; by rewrite Ea, Ec, Es).
  cbn [negb arp_lookup arp_pin route_ops]. apply emits_bind.
  { apply emits_LookupARP. cbn. eauto 10. }
  intros [entry found]. destruct (DecidePin _ _ _ _) eqn:ED; [done|emits; done|].
  apply DecidePin_Repin in ED as [Hne _].
  apply emits_bind; [apply emits_Pin; cbn; eauto 15|]. emits; done.
Qed.

Lemma pinner_round_sleeps `{!MapRange} `{!Peers} {P : PinOps} {W} `{!World W} `{!Cancels W}
    c l (s : Service) (w : W) l' :
  out_val (exec (pinner_round c l) s w) = inl l' ->
  (budget (out_world (exec (pinner_round c l) s w)) < budget w)%nat.
Proof.
  unfold pinner_round, sleepCtx. rewrite exec_bind, exec_sys. cbv zeta. cbn [out_val out_state out_world].
  pose proof (budget_sleep c pinInterval w) as Hs.
  destruct (os_handle (SelectTimer c pinInterval) w) as [alive w1]. cbn [fst snd] in *.
  destruct alive; cbn [negb]; [|done]. intros _. specialize (Hs eq_refl).
  eapply Nat.le_lt_trans; [apply exec_budget|done].
Qed.

(** *** A home network, for the witnesses *)

#[export] Instance home_peers : Peers :=
  fun c => if (c =? 1)%positive then OtherNetAddr else TCPAddr [xc0; xa8; x00; x52] 50174 "".

Definition home_options : Options :=
  MkOptions "user" "password" "profile" "" "" ["10.0.0.1"]
    [MkLANClient "192.168.0.42" "72:ce:39:12:45:f"; MkLANClient "192.168.0.82" "";
     MkLANClient "192.168.0.105" ""] true.

Definition home_state : State :=
  MkState (PrefixFrom (Addr4 3232235520) 24) (Addr4 3232235625) "en0" true true true true.

Definition home_service : Service := set_status home_state (New home_options).

(** .82 is known on the LAN, .42 only on the tunnel. *)
Definition home_kernel : sim :=
  with_arp (<["192.168.0.82" := ("76:c9:24:a8:c8:9", "en0")]>
    (<["192.168.0.42" := ("0:0:0:0:0:1", "utun4")]> ∅)) home.

Lemma home_kernel_ok : arp_ok home_kernel.
Proof.
  cbn. unfold sim_ok. cbn [sim_arp with_arp home_kernel].
  assert (forall v ip mac iface, ParseAddr ip = Some (Addr4 v) -> word mac = true -> word iface = true ->
    not_keyword iface -> (CanonicalMAC mac).2 = true ->
    ip_text ip /\ word (mac, iface).1 = true /\ iface_ok (mac, iface).2 /\
    exists c, CanonicalMAC (mac, iface).1 = (c, true)) as H.
  { intros v ip mac iface Hip Hm Hw Hk Hc. split_and!; [by exists v|done|by split|].
    cbn. destruct (CanonicalMAC mac) as [c b]. cbn in Hc. subst b. by exists c. }
  apply map_Forall_insert_2; [eapply H; by vm_compute|].
  apply map_Forall_insert_2; [eapply H; by vm_compute|]. apply map_Forall_empty.
Qed.

Lemma home_lan_ok : lan_ok home_state.
Proof. split; [reflexivity|split; [reflexivity|by split]]. Qed.

(** ** Properties *)

(** C5. One pass over the registry, client by client: a client outside the subnet, or
    with our own address, is left alone; one whose kernel entry is on the LAN
    interface has the kernel's MAC afterwards, and the kernel's table is not written
    (a re-pin would drop frames in flight); one without such an entry is pinned with
    its registered MAC, if it has one, or the failure is logged. *)
Theorem pass_exact `{!MapRange} {P : PinOps} {W} `{!World W} `{!ArpSpec W P}
    c st (s : Service) (w : W) :
  arp_ok w -> registry_wf (s_clients s) -> lan_ok st ->
  let o := exec (pinClients c st) s w in
  exists r', out_state o = set_clients r' s /\ arp_ok (out_world o) /\ registry_wf r' /\
    forall ip, pass_effect st (s_clients s) r' (arp_of w) (arp_of (out_world o))
      (pin_failed (out_events o) ip) ip.
Proof. apply pass_spec. Qed.

Lemma pass_exact_witness :
  exists r', out_state (exec (pinClients CtxParent home_state) home_service home_kernel) =
      set_clients r' home_service /\
    e_mac <$> r' !! "192.168.0.82" = Some "76:c9:24:a8:c8:09" /\
    e_mac <$> r' !! "192.168.0.42" = Some "72:ce:39:12:45:0f".
Proof.
  destruct (pass_exact CtxParent home_state home_service home_kernel home_kernel_ok
    (newClientRegistry_wf _) home_lan_ok) as (r' & Hs & _ & _ & He).
  exists r'. split; [exact Hs|]. split.
  - rewrite (pass_effect_adopted _ _ _ _ _ _ _ (MkEntry 0 "" true) (He "192.168.0.82"));
      vm_compute; reflexivity.
  - rewrite (pass_effect_repinned _ _ _ _ _ _ _ (MkEntry 0 "72:ce:39:12:45:0f" true) (He "192.168.0.42"));
      vm_compute; reflexivity.
Defined.

(** C6. A pass in which no pin failed leaves nothing to do: while the kernel keeps its
    entries, the next pass changes neither the registry nor the ARP table. *)
Theorem pass_converges `{!MapRange} {P : PinOps} {W} `{!World W} `{!ArpSpec W P}
    c st (s : Service) (w : W) :
  arp_ok w -> registry_wf (s_clients s) -> lan_ok st ->
  let o := exec (pinClients c st) s w in
  (forall ip, ~ pin_failed (out_events o) ip) ->
  let o2 := exec (pinClients c st) (out_state o) (out_world o) in
  settled st (s_clients (out_state o)) (arp_of (out_world o)) /\
  out_state o2 = out_state o /\
  forall ip, ip_text ip -> arp_of (out_world o2) ip = arp_of (out_world o) ip.
Proof.
  intros Hok Hr Hlan. cbv zeta. intros Hnf.
  destruct (pass_spec c st s w Hok Hr Hlan) as (r1 & Hs1 & Hok1 & Hr1 & He1).
  set (o1 := exec (pinClients c st) s w) in *. rewrite Hs1, s_clients_set.
  assert (settled st r1 (arp_of (out_world o1))) as Hset.
  { eapply pass_settles; [exact Hr| |exact He1|exact Hnf]. intros ip e. by apply arp_of_canonical. }
  destruct (pass_spec c st (set_clients r1 s) (out_world o1)) as (r2 & Hs2 & _ & _ & He2);
    [done|done|done|]. rewrite s_clients_set in He2.
  destruct (settled_quiet _ _ _ _ _ _ Hset He2) as [-> Hq].
  split_and!; [done|by rewrite Hs2|done].
Qed.

Lemma pass_converges_witness :
  let o := exec (pinClients CtxParent home_state) home_service home_kernel in
  let o2 := exec (pinClients CtxParent home_state) (out_state o) (out_world o) in
  out_state o2 = out_state o /\
  arp_of (out_world o2) "192.168.0.42" = (MkArpEntry "72:ce:39:12:45:0f" "en0", true).
Proof.
  destruct (pass_converges CtxParent home_state home_service home_kernel home_kernel_ok
    (newClientRegistry_wf _) home_lan_ok) as (_ & Hs & HT).
  - intros ip [e He]. vm_compute in He. repeat (apply elem_of_cons in He as [He|He]; [done|]).
    by apply elem_of_nil in He.
  - split; [exact Hs|]. rewrite HT; [vm_compute; reflexivity|]. eexists. vm_compute. reflexivity.
Defined.

(** C14. A pass runs no command but lookups of, and pins for, registered clients in the LAN subnet other than
    ourselves; a pin uses the MAC registered when the pass began, and a client without
    a MAC is never pinned. *)
Theorem pass_commands `{!MapRange} {W} `{!World W} c st (s : Service) (w : W) :
  Forall (pass_command st (snapshot (s_clients s)))
    (out_events (exec (pinClients (H1 := route_ops) c st) s w)).
Proof.
  unfold pinClients. run. apply emits_exec, emits_for_each. intros [ip mac] Hin.
  apply emits_pin_one. rewrite range_perm in Hin. by apply elem_of_map_to_list.
Qed.

(** While the VPN is down, or before a LAN is known, the pinner runs no command and
    writes nothing but the expiry of clients. *)
Theorem pinner_idle `{!MapRange} `{!Peers} {P : PinOps} {W} `{!World W} c last (s : Service) (w : W) :
  CiscoConnected (s_status s) = false \/ LANInterface (s_status s) = "" ->
  let o := exec (pinner_round c last) s w in
  (forall cx name args stdin, EvExec cx name args stdin ∉ out_events o) /\
  exists r, out_state o = set_clients r s /\
    (r = s_clients s \/ exists now,
       r = (expire now discoveredClientTTL (remoteIPs (s_conns s)) (s_clients s)).1 /\
       clientExpireInterval <= time_Sub now last).
Proof.
  intros Hoff. cbv zeta. unfold pinner_round. run.
  destruct (os_handle (SelectTimer c pinInterval) w) as [alive w1]. cbn [fst snd].
  destruct alive; cbn [negb]; run.
  2: { split; [intros ???? [?|?%elem_of_nil]%elem_of_cons; done|].
       exists (s_clients s). rewrite set_clients_id. auto. }
  destruct (os_handle TimeNow w1) as [now w2]. cbn [fst snd os_event app].
  match goal with |- context [exec (if ?b then _ else _) s w2] => destruct b eqn:Eb end; run.
  - match goal with |- context [exec (for_each ?l ?f) ?s0 ?w0] =>
      assert (out_state (exec (for_each l f) s0 w0) = s0) as Hst;
      [symmetry; apply (preserves_exec (eq s0)); [preserves|done]|];
      assert (Forall (fun e => match e with EvLog _ _ _ => True | _ => False end)
        (out_events (exec (for_each l f) s0 w0))) as Hev;
      [apply emits_exec, emits_for_each; intros ip _; emits; done|] end.
    rewrite Hst.
    match goal with |- context [if ?b then _ else _] => assert (b = true) as Hb end.
    { cbn. destruct Hoff as [-> | ->]; [done|]. apply orb_true_r. }
    rewrite Hb. run. rewrite !app_nil_r. split.
    + intros ???? [?|Hin]%elem_of_cons; [done|]. rewrite Forall_forall in Hev. by apply Hev in Hin.
    + eexists. split; [done|]. right. exists now. split; [done|]. by apply Z.leb_le.
  - match goal with |- context [if ?b then _ else _] => assert (b = true) as Hb end.
    { destruct Hoff as [-> | ->]; [done|]. apply orb_true_r. }
    rewrite Hb. run. split; [intros ???? [?|?%elem_of_nil]%elem_of_cons; done|].
    exists (s_clients s). rewrite set_clients_id. auto.
Qed.

Lemma pinner_idle_witness :
  let o := exec (pinner_round CtxParent 0) (New home_options) home_kernel in
  (forall cx name args stdin, EvExec cx name args stdin ∉ out_events o) /\
  exists r, out_state o = set_clients r (New home_options) /\
    (r = s_clients (New home_options) \/ exists now,
       r = (expire now discoveredClientTTL (remoteIPs (s_conns (New home_options)))
              (s_clients (New home_options))).1 /\
       clientExpireInterval <= time_Sub now 0).
Proof. apply (pinner_idle CtxParent 0 (New home_options) home_kernel). left. reflexivity. Defined.

(** The pinner returns once the context ends: with more rounds of fuel than sleeps
    the context has left. *)
Theorem pinner_returns `{!MapRange} `{!Peers} {P : PinOps} {W} `{!World W} `{!Cancels W}
    fuel c (s : Service) (w : W) :
  s_ciscoReady s = true -> (budget w < fuel)%nat ->
  out_val (exec (startPinner fuel c) s w) = Some tt.
Proof.
  intros Hr Hf. unfold startPinner, waitReady. destruct fuel as [|fuel]; [lia|].
  change (loop (S fuel) ?b tt) with (b tt ≫= fun r =>
    match r with inl l' => loop fuel b l' | inr x => Ret (Some x) end). run. rewrite Hr.
  pose proof (budget_mono _ (CtxErr c) w) as Hm.
  destruct (os_handle (CtxErr c) w) as [[e|] w1]; cbn [fst snd] in *; run.
  - pose proof (budget_mono _ SelectPick w1) as Hm'.
    destruct (os_handle SelectPick w1) as [[|] w2]; cbn [fst snd] in *; run; [|done].
    destruct (loop_terminates (S fuel) (pinner_round c) 0 s w2) as [[] ?];
      [apply pinner_round_sleeps|lia|done].
  - destruct (loop_terminates (S fuel) (pinner_round c) 0 s w1) as [[] ?];
      [apply pinner_round_sleeps|lia|done].
Qed.

Lemma pinner_returns_witness :
  out_val (exec (startPinner 5 CtxParent) (close_ready home_service) (with_sleeps 4 home_kernel)) = Some tt.
Proof. apply pinner_returns; [reflexivity|cbn; lia]. Defined.
