(* ===== verification/Discovery.v ===== *)
(** * internal/service/clients.go, sniff.go: discovering LAN clients

    Clients are found on Accept ([discoverClient]) and, before the handshake, from the
    SYNs tcpdump sees ([observeSYN] under [sniffLAN]).  The watcher goroutine that
    [sniffLAN] starts is a program of its own; that it cancels the context shows in what the
    world answers to [CtxErr]. *)

From S2P Require Import Prelude GoStrings GoNet GoTime Effects Sim Shell Route Clients Conns Service Pinner.

Definition snifferRetry : Z := 10 * Second.
Definition snifferLANPoll : Z := 2 * Second.
Definition proxyPort : string := "8080".

Definition errSnifferExited : error := ErrNew "tcpdump exited".

(** ** clients.go *)

Definition discoveryEnabled (opts : Options) : bool :=
  negb (bool_decide (SocksUser opts = "")) || LANDiscovery opts.

Definition warnSelfClients (opts : Options) (self : Addr) : prog Service unit :=
  for_each (LANClients opts) (fun lc =>
    when (bool_decide (lc_IP lc = Addr_String self))
      (slog LevelWarn "lan_clients entry is this host's own address, ignored" [("ip", lc_IP lc)])).

Section Discovery.
Context `{!Peers} `{!PinOps}.

Definition discoverClient (c : ctx) (conn : positive) : prog Service unit :=
  match remoteAddrPort conn with
  | None => skip
  | Some (a, _) =>
      state ← GetState;
      if bool_decide (LANInterface state = "") || negb (Prefix_Contains (LANSubnet state) a) then skip
      else
        let ip := Addr_String a in
        now ← sys TimeNow;
        '(mac, lastSeen, known) ← on_clients (fun r => (r, reg_lookup ip r));
        if negb (needsRefresh known mac lastSeen now) then skip
        else
          '(e, found) ← arp_lookup c ip;
          let mac := if found && bool_decide (a_Iface e = LANInterface state) then a_MAC e else "" in
          isNew ← on_clients (seen ip mac now);
          when isNew (slog LevelInfo "LAN client discovered" [("ip", ip); ("mac", mac)])
  end.

(** ** sniff.go *)

Definition repinStale (c : ctx) (state : State) (ip mac : string) : prog Service unit :=
  if negb (CiscoConnected state) then skip
  else
    '(entry, found) ← arp_lookup c ip;
    if negb found || negb (bool_decide (a_Iface entry = LANInterface state)) ||
       bool_decide (a_MAC entry = mac) then skip
    else
      err ← arp_pin c ip mac (LANInterface state);
      match err with
      | Some e => slog LevelDebug "arp pin failed" [("ip", ip); ("error", Error e)]
      | None => slog LevelInfo "LAN client pinned" [("ip", ip); ("mac", mac)]
      end.

(** The [switch] at the end of [observeSYN]. *)
Definition observe_log (key old mac : string) (known : bool) : prog Service unit :=
  if negb known then slog LevelInfo "LAN client discovered" [("ip", key); ("mac", mac)]
  else when (negb (bool_decide (old = "")) && negb (bool_decide (old = mac)))
    (slog LevelWarn "LAN client MAC changed" [("ip", key); ("old", old); ("new", mac)]).

Definition observeSYN (c : ctx) (ip : Addr) (mac : string) : prog Service unit :=
  state ← GetState;
  if bool_decide (LANInterface state = "") || negb (Prefix_Contains (LANSubnet state) ip) ||
     bool_decide (ip = LANAddr state) then skip
  else
    let key := Addr_String ip in
    '(old, _, known) ← on_clients (fun r => (r, reg_lookup key r));
    when (negb (bool_decide (mac = old))) (repinStale c state key mac) ≫= fun _ =>
    now ← sys TimeNow;
    on_clients (seen key mac now) ≫= fun _ =>
    observe_log key old mac known.

(** The goroutine [sniffLAN] starts: [Some true] when it cancels the context. *)
Definition lan_watcher (fuel : nat) (c : ctx) (lan : lanSnapshot) : prog Service (option bool) :=
  loop fuel (fun _ : unit =>
    alive ← sleepCtx (CtxWithCancel c) snifferLANPoll;
    if negb alive then mret (inr false)
    else
      now ← get_lanSnapshot;
      if negb (bool_decide (now = lan)) then mret (inr true) else mret (inl tt)) tt.

(** [err := s.sniffLAN(ctx, lan)]; [None] when tcpdump printed more than [fuel] lines. *)
Definition sniffLAN (fuel : nat) (c : ctx) (lan : lanSnapshot) : prog Service (option (option error)) :=
  let c' := CtxWithCancel c in
  sys (Spawn (GoWatcher (lan_Subnet lan) (lan_Iface lan))) ≫= fun _ =>
  r ← WatchSYN fuel c' (lan_Iface lan) proxyPort (observeSYN c');
  match r with
  | None => mret None
  | Some err =>
      cerr ← sys (CtxErr c');
      match cerr with
      | Some _ => mret (Some None)
      | None =>
          mret (Some (Some match err with None => errSnifferExited | Some e => e end))
      end
  end.

(** One round of the loop of [startSniffer]; [inr] when it returns, [inr None] when
    [sniffLAN] ran out of fuel. *)
Definition sniffer_round (fuel : nat) (c : ctx) : prog Service (unit + option unit) :=
  lan ← get_lanSnapshot;
  if bool_decide (lan_Iface lan = "") then
    alive ← sleepCtx c snifferLANPoll;
    if negb alive then mret (inr (Some tt)) else mret (inl tt)
  else
    r ← sniffLAN fuel c lan;
    match r with
    | None => mret (inr None)
    | Some err =>
        alive ←
          match err with
          | Some e =>
              slog LevelWarn "SYN sniffer failed" [("interface", lan_Iface lan); ("error", Error e)] ≫= fun _ =>
              sleepCtx c snifferRetry
          | None => mret true
          end;
        if negb alive then mret (inr (Some tt))
        else
          cerr ← sys (CtxErr c);
          match cerr with
          | Some _ => mret (inr (Some tt))
          | None => mret (inl tt)
          end
    end.

Definition startSniffer (fuel : nat) (opts : Options) (c : ctx) : prog Service (option (option unit)) :=
  if negb (discoveryEnabled opts) then mret (Some (Some tt))
  else loop fuel (fun _ : unit => sniffer_round fuel c) tt.

End Discovery.

(** ** Lemmas *)

(** Facts that depend on the registry alone. *)
Definition on_registry (I : gmap string clientEntry -> Prop) (s : Service) : Prop := I (s_clients s).

Section Frame.
Context {P : PinOps} `{!PinOpsFrame P} (I : Service -> Prop).
Hypothesis Hid : forall s, I s -> I (set_clients (s_clients s) s).
Hypothesis Hseen : forall s ip mac now, I s -> mac_wf mac -> I (set_clients (seen ip mac now (s_clients s)).1 s).

Lemma preserves_discoverClient `{!Peers} c conn : preserves I (discoverClient c conn).
Proof.
  unfold discoverClient. destruct (remoteAddrPort conn) as [[a p]|]; [|done].
  apply preserves_bind; [apply preserves_GetState|intros st]. destruct (_ || _); [done|].
  apply preserves_bind; [apply preserves_sys|intros now].
  apply preserves_bind; [by apply preserves_on_clients|intros [[mac last] known]].
  destruct (negb _); [done|].
  eapply preserves_bind_returns; [apply lookup_frame|apply lookup_mac|]. intros [e found] Hmac.
  preserves. apply preserves_on_clients. intros s Hs. apply Hseen; [done|].
  destruct (_ && _); [done|by left].
Qed.

Lemma preserves_repinStale c st ip mac : preserves I (repinStale c st ip mac).
Proof. unfold repinStale. preserves. Qed.

Lemma preserves_observeSYN c ip mac : mac_wf mac -> preserves I (observeSYN c ip mac).
Proof.
  intros Hmac. unfold observeSYN, observe_log. preserves; [by apply preserves_on_clients| |].
  - apply preserves_repinStale.
  - apply preserves_on_clients. auto.
Qed.

Lemma preserves_startSniffer fuel opts c : preserves I (startSniffer fuel opts c).
Proof.
  assert (forall lan, preserves I (sniffLAN fuel c lan)) as Hs.
  { intros lan. unfold sniffLAN.
    apply preserves_bind; [auto with gosocks|intros _]. apply preserves_bind; [|intros r; preserves].
    apply preserves_WatchSYN. intros ip mac Hmac. apply preserves_observeSYN. by right. }
  unfold startSniffer, sniffer_round. destruct (negb _); [done|].
  apply preserves_loop. intros _. apply preserves_bind; [auto with gosocks|intros lan].
  destruct (bool_decide _); [preserves|]. apply preserves_bind; [apply Hs|]. preserves.
Qed.

End Frame.

Lemma preserves_lan_watcher (I : Service -> Prop) fuel c lan : preserves I (lan_watcher fuel c lan).
Proof. unfold lan_watcher. preserves. Qed.

Lemma preserves_warnSelfClients (I : Service -> Prop) opts a : preserves I (warnSelfClients opts a).
Proof. unfold warnSelfClients. preserves. Qed.

#[export] Hint Resolve preserves_warnSelfClients : gosocks.

Section Effects.
Context {P : PinOps} {W : Type} `{!World W} `{!ArpSpec W P}.

(** [repinStale] leaves no entry of another MAC on the LAN interface. *)
Lemma repinStale_effect c st key mac (s : Service) (w : W) :
  arp_ok w -> lan_ok st -> CiscoConnected st = true -> ip_text key -> CanonicalMAC mac = (mac, true) ->
  let o := exec (repinStale c st key mac) s w in
  out_state o = s /\ arp_ok (out_world o) /\
  (pin_failed (out_events o) key \/
   forall e, arp_of (out_world o) key = (e, true) -> a_Iface e = LANInterface st -> a_MAC e = mac).
Proof.
  intros Hok Hlan Hc Hip Hmac. cbv zeta. unfold repinStale. rewrite Hc. cbn [negb]. run.
  destruct (lookup_spec c key s w Hok) as (Hv & Hs & Hok1 & HT1).
  set (o1 := exec (arp_lookup c key) s w) in *. rewrite Hv, Hs.
  destruct (arp_of w key) as [entry found] eqn:ET. cbn [fst snd].
  destruct (negb found || _ || _) eqn:Eg; run.
  - split_and!; [done|done|]. right. intros e. rewrite HT1, ET. intros [= -> ->] Hif.
    rewrite Hif, bool_decide_eq_true_2 in Eg by done. cbn in Eg. by bools.
  - destruct (pin_spec c key mac (LANInterface st) s _ Hok1 Hip Hmac (proj2 Hlan))
      as (Hs2 & Hok2 & HT2 & Hpin).
    set (o2 := exec (arp_pin _ _ _ _) s _) in *. rewrite Hs2.
    destruct (out_val o2) as [err|] eqn:Eo; run.
    + destruct (log_spec LevelDebug "arp pin failed" [("ip", key); ("error", Error err)] _ Hok2).
      split_and!; [done|done|]. left. apply pin_failed_app. right. apply pin_failed_app. right.
      exists (Error err). left.
    + destruct (log_spec LevelInfo "LAN client pinned" [("ip", key); ("mac", mac)] _ Hok2) as [Hok3 HT3].
      split_and!; [done|done|]. right. intros e. rewrite HT3, (Hpin eq_refl). by intros [= <-].
Qed.

Lemma observe_log_quiet key old mac known (s : Service) (w : W) :
  arp_ok w ->
  let o := exec (observe_log key old mac known) s w in
  out_state o = s /\ arp_ok (out_world o) /\ (forall ip, arp_of (out_world o) ip = arp_of w ip).
Proof.
  intros Hok. cbv zeta. unfold observe_log, when. destruct (negb known); [|destruct (_ && _)]; run;
    [| |done]; (split; [done|]); apply log_spec; done.
Qed.

(** What is known after a SYN of another MAC than the registered one. *)
Lemma observeSYN_effect c v mac (s : Service) (w : W) :
  let st := s_status s in
  let key := Addr_String (Addr4 v) in
  arp_ok w -> lan_ok st -> CiscoConnected st = true -> LANInterface st <> "" -> 0 <= v < 2 ^ 32 ->
  Prefix_Contains (LANSubnet st) (Addr4 v) = true -> Addr4 v <> LANAddr st ->
  CanonicalMAC mac = (mac, true) -> e_mac <$> s_clients s !! key <> Some mac ->
  let o := exec (observeSYN c (Addr4 v) mac) s w in
  exists now, out_state o = set_clients (seen key mac now (s_clients s)).1 s /\ arp_ok (out_world o) /\
    (pin_failed (out_events o) key \/
     forall e, arp_of (out_world o) key = (e, true) -> a_Iface e = LANInterface st -> a_MAC e = mac).
Proof.
  intros st key Hok Hlan Hc Hif Hv Hin Hself Hmac Hold. cbv zeta. unfold observeSYN. run.
  fold st. rewrite (bool_decide_eq_false_2 _ Hif), Hin, (bool_decide_eq_false_2 (Addr4 v = _)) by done.
  cbn [orb negb]. run. fold key. rewrite set_clients_id.
  assert (exists old seen0 known, reg_lookup key (s_clients s) = (old, seen0, known) /\ mac <> old)
    as (old & seen0 & known & -> & Hne).
  { unfold reg_lookup. destruct (s_clients s !! key) as [e|]; do 3 eexists; (split; [done|]).
    - intros ->. by apply Hold.
    - by eapply CanonicalMAC_nonempty. }
  rewrite (bool_decide_eq_false_2 _ Hne). cbn [negb when]. run.
  destruct (repinStale_effect c st key mac s w Hok Hlan Hc) as (Hs1 & Hok1 & H1);
    [by exists v; apply ParseAddr_String4|done|].
  set (o1 := exec (repinStale _ _ _ _) s w) in *. rewrite Hs1.
  destruct (clock_spec (out_world o1) Hok1) as [Hok2 HT2].
  destruct (os_handle TimeNow (out_world o1)) as [now w2]. cbn [fst snd] in *.
  set (s2 := set_clients _ s). destruct (observe_log_quiet key old mac known s2 w2 Hok2) as (Hs3 & Hok3 & HT3).
  set (o3 := exec (observe_log _ _ _ _) s2 w2) in *. exists now. rewrite Hs3. split_and!; [done|done|].
  destruct H1 as [H1|H1]; [left; apply pin_failed_app; by left|right].
  intros e. rewrite HT3, HT2. apply H1.
Qed.

End Effects.

Lemma pinnone_entry entry found want iface :
  DecidePin entry found want iface = PinNone -> CanonicalMAC want = (want, true) ->
  found = true /\ a_Iface entry = iface /\ sameMAC (a_MAC entry) want = true.
Proof.
  intros HD Hw. pose proof (CanonicalMAC_nonempty _ _ Hw) as Hne. revert HD. unfold DecidePin.
  destruct found; cbn [andb]; repeat case_bool_decide; cbn [andb]; try done.
  by destruct (sameMAC (a_MAC entry) want).
Qed.

(** A peer's address is a plain IPv4 one whenever it lies in an IPv4 subnet. *)
Lemma remoteAddrPort_range `{!Peers} conn v port :
  remoteAddrPort conn = Some (Addr4 v, port) -> 0 <= v < 2 ^ 32.
Proof.
  unfold remoteAddrPort. destruct (RemoteAddr conn) as [ip p zone|]; [|done]. intros [= Ha _].
  destruct (AddrFromSlice ip) as [a|] eqn:E; [|done].
  unfold AddrFromSlice in E. destruct (Z.eqb_spec (Z.of_nat (length ip)) 4) as [H4|_].
  - injection E as <-. cbn [WithZone Unmap] in Ha.
    destruct (AddrFromSlice4 ip) as (u & Hu & Hr); [lia|].
    unfold AddrFromSlice in Hu. rewrite H4 in Hu. cbn in Hu. injection Hu as Hu.
    injection Ha as <-. by rewrite Hu.
  - destruct (_ =? 16); [|done]. injection E as <-. cbn [WithZone Unmap] in Ha.
    destruct (Is4In6 _); [|done]. injection Ha as <-. rewrite Z.land_ones by lia.
    apply Z.mod_pos_bound. lia.
Qed.

(** ** Properties *)





(** A watch of the LAN ends without an error exactly when its context ended;
    whatever else stops tcpdump, even a clean exit, is reported. *)
Theorem sniffLAN_result {P : PinOps} {W} `{!World W} fuel c lan (s : Service) (w : W) :
  let c' := CtxWithCancel c in
  let w1 := (os_handle (Spawn (GoWatcher (lan_Subnet lan) (lan_Iface lan))) w).2 in
  let ow := exec (WatchSYN fuel c' (lan_Iface lan) proxyPort (observeSYN c')) s w1 in
  let o := exec (sniffLAN fuel c lan) s w in
  match out_val ow with
  | None => out_val o = None
  | Some err =>
      exists res, out_val o = Some res /\
        (res = None <-> (os_handle (CtxErr c') (out_world ow)).1 <> None) /\
        (forall e, res = Some e -> err = Some e \/ (err = None /\ e = errSnifferExited))
  end.
Proof.
  cbv zeta. unfold sniffLAN. run. set (w1 := (os_handle _ w).2). change (fst (os_handle ?e ?v)) with (os_handle e v).1.
  set (ow := exec (WatchSYN _ _ _ _ _) s w1). destruct (out_val ow) as [err|]; run; [|done].
  destruct (os_handle (CtxErr (CtxWithCancel c)) (out_world ow)) as [[e|] w2]; cbn [fst snd]; run.
  - exists None. split_and!; [done| |done]. by split.
  - eexists. split_and!; [done| |].
    + split; [by destruct err|]. by intros [].
    + intros e. destruct err as [e'|]; intros [= <-]; auto.
Qed.
