(* ===== verification/Supervisor.v ===== *)
(** * internal/service/cisco.go: the supervisor of the VPN connection

    [ciscoSupervisor] is the goroutine's own state; [tick] is one iteration, [startCisco]
    the loop with its deferred [shutdown].  The supervisor is the only writer of the
    LAN and VPN fields of [State] and of [ciscoReady]. *)

From S2P Require Import Prelude GoStrings GoNet GoTime Effects Sim Shell Route Cisco Clients Conns Service Pinner Discovery.

Definition ciscoPollInterval : Z := 5 * Second.
Definition ciscoMaxConnectDelay : Z := Minute.
Definition ciscoReconnectGrace : Z := 2 * Minute.
Definition ciscoDisconnectTimeout : Z := 30 * Second.

Record ciscoSupervisor : Type := MkSv {
  reconnectingSince : Z;
  pendingLAN : lanSnapshot;
  connectDelay : Z;
  readyNotified : bool;
  connectedByUs : bool
}.

(** ** Field updates *)

Definition with_since (t : Z) (sv : ciscoSupervisor) : ciscoSupervisor :=
  MkSv t (pendingLAN sv) (connectDelay sv) (readyNotified sv) (connectedByUs sv).
Definition with_pending (l : lanSnapshot) (sv : ciscoSupervisor) : ciscoSupervisor :=
  MkSv (reconnectingSince sv) l (connectDelay sv) (readyNotified sv) (connectedByUs sv).
Definition with_delay (d : Z) (sv : ciscoSupervisor) : ciscoSupervisor :=
  MkSv (reconnectingSince sv) (pendingLAN sv) d (readyNotified sv) (connectedByUs sv).
Definition with_notified (sv : ciscoSupervisor) : ciscoSupervisor :=
  MkSv (reconnectingSince sv) (pendingLAN sv) (connectDelay sv) true (connectedByUs sv).
Definition with_ours (sv : ciscoSupervisor) : ciscoSupervisor :=
  MkSv (reconnectingSince sv) (pendingLAN sv) (connectDelay sv) (readyNotified sv) true.

(** ** LAN detection *)

Definition confirmLAN (cur next : lanSnapshot) (sv : ciscoSupervisor) : ciscoSupervisor * bool :=
  if negb (lanChanged cur next) then (with_pending lan0 sv, false)
  else if negb (bool_decide (lan_Iface cur = "")) && negb (bool_decide (pendingLAN sv = next))
  then (with_pending next sv, false)
  else (with_pending lan0 sv, true).

Definition detectLAN (opts : Options) (c : ctx) (sv : ciscoSupervisor) : prog Service ciscoSupervisor :=
  cur ← get_lanSnapshot;
  r ← DetectLAN c (lan_Iface cur);
  match r with
  | inr err =>
      when (negb (errors_Is err ErrNoLANInterface))
        (slog LevelWarn "failed to detect LAN" [("error", Error err)]) ≫= fun _ =>
      mret (with_pending lan0 sv)
  | inl (ifaddr, iface) =>
      let subnet := Masked ifaddr in
      let addr := p_ip ifaddr in
      let next := MkLan subnet iface in
      let '(sv, confirmed) := confirmLAN cur next sv in
      if negb confirmed then
        when (bool_decide (next = cur)) (setStatus (st_LANAddr addr)) ≫= fun _ => mret sv
      else
        (if bool_decide (lan_Iface cur = "") then
           slog LevelInfo "LAN detected" [("subnet", Prefix_String subnet); ("interface", iface)]
         else
           slog LevelInfo "LAN changed" [("old", lan_String cur); ("new", lan_String next)] ≫= fun _ =>
           on_clients (fun r => (resetNetwork r, tt))) ≫= fun _ =>
        setStatus (st_LAN subnet addr iface) ≫= fun _ =>
        warnSelfClients opts addr ≫= fun _ =>
        notifyLANCheck ≫= fun _ => mret sv
  end.

(** ** The VPN *)

Definition setConnected (connected : bool) : prog Service unit := setStatus (st_Connected connected).

Definition awaitReconnect (c : ctx) (sv : ciscoSupervisor) : prog Service ciscoSupervisor :=
  sv ← (if time_IsZero (reconnectingSince sv)
        then t ← sys TimeNow; mret (with_since t sv)
        else mret sv);
  now ← sys TimeNow;
  let elapsed := time_Sub now (reconnectingSince sv) in
  if elapsed <=? ciscoReconnectGrace then
    slog LevelInfo "cisco agent is reconnecting, waiting" [] ≫= fun _ => mret sv
  else
    slog LevelWarn "cisco agent stuck in reconnecting, forcing disconnect"
      [("elapsed", Duration_String (Duration_Round elapsed Second))] ≫= fun _ =>
    err ← Disconnect (CtxWithTimeout c ciscoDisconnectTimeout);
    match err with
    | Some e =>
        slog LevelError "failed to force disconnect" [("error", Error e)] ≫= fun _ => mret sv
    | None => mret (with_since 0 sv)
    end.

(** [delay := sv.connect(ctx)] *)
Definition connect (opts : Options) (c : ctx) (sv : ciscoSupervisor) : prog Service (Z * ciscoSupervisor) :=
  err ← Connect c (CiscoProfile opts) (CiscoUser opts) (CiscoPassword opts);
  match err with
  | Some e =>
      if errors_Is e ErrAcquired then
        slog LevelWarn "another Cisco client has connection capability, will retry" [] ≫= fun _ =>
        mret (ciscoPollInterval, sv)
      else
        cerr ← sys (CtxErr c);
        match cerr with
        | Some _ => mret (ciscoPollInterval, sv)
        | None =>
            let delay := connectDelay sv in
            let sv := with_delay (Z.min (connectDelay sv * 2) ciscoMaxConnectDelay) sv in
            slog LevelError "failed to connect to cisco"
              [("error", Error e); ("retry_in", Duration_String delay)] ≫= fun _ =>
            mret (delay, sv)
        end
  | None =>
      let sv := with_ours (with_delay ciscoPollInterval sv) in
      setConnected true ≫= fun _ => mret (ciscoPollInterval, sv)
  end.

Definition disablePF (c : ctx) : prog Service unit :=
  st ← GetState;
  if PFDisabled st then skip
  else
    slog LevelInfo "disabling network packet filter" [] ≫= fun _ =>
    err ← DisablePF c;
    match err with
    | Some e => slog LevelError "failed to disable network pf" [("error", Error e)]
    | None =>
        slog LevelInfo "network packet filter disabled successfully" [] ≫= fun _ =>
        setStatus st_PFDisabled
    end.

(** The [switch] of [tick] on the agent's state. *)
Definition tick_state (opts : Options) (c : ctx) (state : string) (err : option error)
    (sv : ciscoSupervisor) : prog Service (Z * ciscoSupervisor) :=
  match err with
  | Some e =>
      slog LevelError "failed to get cisco state" [("error", Error e)] ≫= fun _ =>
      mret (ciscoPollInterval, sv)
  | None =>
      if bool_decide (state = StateConnected) then
        setConnected true ≫= fun _ => mret (ciscoPollInterval, with_since 0 (with_delay ciscoPollInterval sv))
      else if bool_decide (state = StateReconnecting) then
        setConnected false ≫= fun _ =>
        sv ← awaitReconnect c sv;
        mret (ciscoPollInterval, sv)
      else
        setConnected false ≫= fun _ =>
        connect opts c (with_since 0 sv)
  end.

(** What [tick] does once the VPN is up. *)
Definition tick_connected (c : ctx) (sv : ciscoSupervisor) : prog Service ciscoSupervisor :=
  st ← GetState;
  if CiscoConnected st then
    disablePF c ≫= fun _ =>
    if negb (readyNotified sv) then
      crit (fun s => (tt, close_ready s, [])) ≫= fun _ => mret (with_notified sv)
    else mret sv
  else mret sv.

Definition tick (opts : Options) (c : ctx) (sv : ciscoSupervisor) : prog Service (Z * ciscoSupervisor) :=
  sv ← detectLAN opts c sv;
  '(state, err) ← Status c;
  '(delay, sv) ← tick_state opts c state err sv;
  sv ← tick_connected c sv;
  mret (delay, sv).

Definition shutdown (c : ctx) (sv : ciscoSupervisor) : prog Service unit :=
  setConnected false ≫= fun _ =>
  if negb (connectedByUs sv) then skip
  else
    err ← Disconnect (CtxWithTimeout (CtxWithoutCancel c) ciscoDisconnectTimeout);
    match err with
    | Some e => slog LevelError "failed to disconnect cisco" [("error", Error e)]
    | None => skip
    end.

Definition sv0 : ciscoSupervisor := MkSv 0 lan0 ciscoPollInterval false false.

(** [for sleepCtx(ctx, delay) { delay = sv.tick(ctx) }] *)
Definition cisco_round (opts : Options) (c : ctx) (l : ciscoSupervisor * Z)
  : prog Service (ciscoSupervisor * Z + ciscoSupervisor) :=
  let '(sv, delay) := l in
  alive ← sleepCtx c delay;
  if negb alive then mret (inr sv)
  else
    '(delay, sv) ← tick opts c sv;
    mret (inl (sv, delay)).

Definition startCisco (fuel : nat) (opts : Options) (c : ctx) : prog Service (option unit) :=
  r ← loop fuel (cisco_round opts c) (sv0, 0);
  match r with
  | None => mret None
  | Some sv => shutdown c sv ≫= fun _ => mret (Some tt)
  end.

(** ** Lemmas: execution *)

Section Exec.
Context {W : Type} `{!World W}.

Lemma exec_quiet (p : prog Service unit) (s : Service) (w : W) :
  (forall I, preserves I p) -> out_state (exec p s w) = s.
Proof. intros Hp. symmetry. by apply (preserves_exec (eq s)). Qed.

Lemma confirmLAN_applies cur next sv :
  (confirmLAN cur next sv).2 = true <->
  lanChanged cur next = true /\ (lan_Iface cur = "" \/ pendingLAN sv = next).
Proof.
  unfold confirmLAN. destruct (lanChanged cur next); cbn [negb]; [|by split; [|intros [? _]]].
  repeat case_bool_decide; cbn; naive_solver.
Qed.

(** What [detectLAN] leaves, by the result [d] of the detection. *)
Definition detect_after (d : (Prefix * string) + error) (sv : ciscoSupervisor) (s : Service)
  : ciscoSupervisor * Service :=
  match d with
  | inr _ => (with_pending lan0 sv, s)
  | inl (ifaddr, iface) =>
      let cur := lan_of (s_status s) in
      let next := MkLan (Masked ifaddr) iface in
      let s_LAN f s := set_status (f (s_status s)) s in
      if (confirmLAN cur next sv).2 then
        (with_pending lan0 sv,
         set_lanCheck true (s_LAN (st_LAN (Masked ifaddr) (p_ip ifaddr) iface)
           (if bool_decide (lan_Iface cur = "") then s else set_clients (resetNetwork (s_clients s)) s)))
      else
        (with_pending (if lanChanged cur next then next else lan0) sv,
         if bool_decide (next = cur) then s_LAN (st_LANAddr (p_ip ifaddr)) s else s)
  end.

Lemma exec_detectLAN opts c sv (s : Service) (w : W) :
  let d := exec (DetectLAN c (LANInterface (s_status s))) s w in
  let o := exec (detectLAN opts c sv) s w in
  (out_val o, out_state o) = detect_after (out_val d) sv s.
Proof.
  cbv zeta. unfold detectLAN. run. cbn [lan_of lan_Iface].
  assert (out_state (exec (DetectLAN c (LANInterface (s_status s))) s w) = s) as Hs.
  { symmetry. apply (preserves_exec (eq s)); [apply preserves_DetectLAN|done]. }
  set (d := exec (DetectLAN c _) s w) in *. rewrite Hs. unfold detect_after.
  destruct (out_val d) as [[ifaddr iface]|err]; run.
  2: { rewrite exec_quiet; [done|intros I; preserves]. }
  destruct (confirmLAN _ _ sv) as [sv' ok] eqn:E. cbn [snd].
  assert (sv' = with_pending (if ok then lan0
    else if lanChanged (lan_of (s_status s)) (MkLan (Masked ifaddr) iface)
         then MkLan (Masked ifaddr) iface else lan0) sv) as ->.
  { unfold confirmLAN in E. destruct (lanChanged _ _); cbn in E; [|by injection E as <- <-].
    destruct (_ && _); by injection E as <- <-. }
  destruct ok; cbn [negb]; run.
  - change (lan_Iface (lan_of (s_status s))) with (LANInterface (s_status s)).
    case_bool_decide as Hcur; run; by rewrite exec_quiet by (intros I; apply preserves_warnSelfClients).
  - case_bool_decide; by run.
Qed.

Lemma exec_tick_state_delay opts c state err sv :
  returns (fun x : Z * ciscoSupervisor =>
    (x.1 = ciscoPollInterval \/ x.1 = connectDelay sv) /\
    (connectDelay x.2 = ciscoPollInterval \/ connectDelay x.2 = connectDelay sv \/
     connectDelay x.2 = Z.min (connectDelay sv * 2) ciscoMaxConnectDelay) /\
    (connectedByUs sv = true -> connectedByUs x.2 = true) /\
    readyNotified x.2 = readyNotified sv)
    (tick_state opts c state err sv).
Proof.
  unfold tick_state. destruct err as [e|]; [by cbn; intros _; auto|].
  destruct (bool_decide _); [by cbn; intros _; auto|].
  destruct (bool_decide _).
  - apply returns_bind. intros _. unfold awaitReconnect, Disconnect, Run.
    apply (returns_bind2 (fun x : ciscoSupervisor => connectDelay x = connectDelay sv /\
      connectedByUs x = connectedByUs sv /\ readyNotified x = readyNotified sv)).
    + apply (returns_bind2 (fun x : ciscoSupervisor => connectDelay x = connectDelay sv /\
      connectedByUs x = connectedByUs sv /\ readyNotified x = readyNotified sv)).
      * destruct (time_IsZero _); cbn; auto.
      * intros x Hx. apply returns_bind. intros now. destruct (_ <=? _); [by cbn; intros _|].
        apply returns_bind. intros _. apply returns_bind. intros [e|]; cbn; auto.
    + intros x (H1 & H2 & H3). cbn. rewrite H1, H2, H3. auto 10.
  - apply returns_bind. intros _. unfold connect. apply returns_bind. intros [e|].
    + destruct (errors_Is _ _); [by cbn; intros _; auto|]. apply returns_bind. intros [e'|]; cbn; auto 10.
    + cbn. auto 10.
Qed.

End Exec.

(** ** Vocabulary of the statements *)

Definition delay_ok (d : Z) : Prop := ciscoPollInterval <= d <= ciscoMaxConnectDelay.

(** [n] calls of [connect] in a row, with the delays they return. *)
Fixpoint connect_runs (opts : Options) (c : ctx) (n : nat) (sv : ciscoSupervisor)
  : prog Service (list Z * ciscoSupervisor) :=
  match n with
  | O => mret ([], sv)
  | S n' =>
      '(d, sv) ← connect opts c sv;
      '(ds, sv) ← connect_runs opts c n' sv;
      mret (d :: ds, sv)
  end.

(** [vpn -s disconnect], with the deadline its caller gives it. *)
Definition ev_disconnect (c : ctx) : event := EvExec c ciscoPath ["-s"; "disconnect"] "".

(** Commands other than [vpn -s connect]. *)
Definition not_connect (e : event) : Prop :=
  match e with EvExec _ _ (_ :: sub :: _) _ => sub <> "connect" | _ => True end.

(** ** Lemmas: termination and delays *)

Section Rounds.
Context {W : Type} `{!World W} `{!Cancels W}.

Lemma cisco_round_sleeps opts c l (s : Service) (w : W) l' :
  out_val (exec (cisco_round opts c l) s w) = inl l' ->
  (budget (out_world (exec (cisco_round opts c l) s w)) < budget w)%nat.
Proof.
  destruct l as [sv delay]. unfold cisco_round, sleepCtx. rewrite exec_bind, exec_sys.
  cbv zeta. cbn [out_val out_state out_world].
  pose proof (budget_sleep c delay w) as Hs.
  destruct (os_handle (SelectTimer c delay) w) as [alive w1]. cbn [fst snd] in *.
  destruct alive; cbn [negb]; [|done]. intros _. specialize (Hs eq_refl).
  eapply Nat.le_lt_trans; [apply exec_budget|done].
Qed.

End Rounds.

Lemma detectLAN_fields opts c sv :
  returns (fun x => connectDelay x = connectDelay sv /\ connectedByUs x = connectedByUs sv /\
    readyNotified x = readyNotified sv /\ reconnectingSince x = reconnectingSince sv) (detectLAN opts c sv).
Proof.
  unfold detectLAN. apply returns_bind. intros cur. apply returns_bind. intros [[ifaddr iface]|err].
  - destruct (confirmLAN _ _ sv) as [sv' ok] eqn:E.
    assert (exists l, sv' = with_pending l sv) as [l ->].
    { unfold confirmLAN in E. destruct (negb _); [injection E as <- <-; eauto|].
      destruct (_ && _); injection E as <- <-; eauto. }
    destruct (negb ok); repeat (apply returns_bind; intros ?); done.
  - apply returns_bind. intros _. done.
Qed.

Lemma tick_connected_fields c sv :
  returns (fun x => connectDelay x = connectDelay sv /\ connectedByUs x = connectedByUs sv) (tick_connected c sv).
Proof.
  unfold tick_connected. apply returns_bind. intros st. destruct (CiscoConnected st); [|done].
  apply returns_bind. intros _. destruct (negb _); [|done]. apply returns_bind. done.
Qed.

Lemma tick_fields opts c sv :
  delay_ok (connectDelay sv) ->
  returns (fun x => delay_ok x.1 /\ delay_ok (connectDelay x.2) /\
    (connectedByUs sv = true -> connectedByUs x.2 = true)) (tick opts c sv).
Proof.
  intros Hd. unfold tick. eapply returns_bind2; [apply detectLAN_fields|]. intros sv1 (H1 & H2 & _ & _).
  apply returns_bind. intros [state err].
  eapply returns_bind2; [apply exec_tick_state_delay|]. intros [delay sv2] (H3 & H4 & H5 & _). cbn [fst snd] in *.
  eapply returns_bind2; [apply tick_connected_fields|]. intros sv3 (H6 & H7). cbn.
  rewrite H1, H2, H6, H7 in *. unfold delay_ok, ciscoPollInterval, ciscoMaxConnectDelay, Minute, Second, Millisecond in *.
  split_and!; try lia. auto.
Qed.

Lemma connect_fails opts c sv {W} `{!World W} (s : Service) (w : W) e :
  let oc := exec (Connect (S := Service) c (CiscoProfile opts) (CiscoUser opts) (CiscoPassword opts)) s w in
  out_val oc = Some e -> errors_Is e ErrAcquired = false ->
  (os_handle (CtxErr c) (out_world oc)).1 = None ->
  out_val (exec (connect opts c sv) s w) =
    (connectDelay sv, with_delay (Z.min (connectDelay sv * 2) ciscoMaxConnectDelay) sv).
Proof.
  cbv zeta. intros He Ha Hc. unfold connect. run. rewrite He, Ha. run.
  destruct (os_handle (CtxErr c) _) as [cerr w2]. cbn [fst snd] in Hc. subst. by run.
Qed.

(** ** Properties *)


Lemma backoff_from opts c {W} `{!World W} n (sv : ciscoSupervisor) (s : Service) (w : W) k :
  (forall (s : Service) (w : W), exists e,
     out_val (exec (Connect c (CiscoProfile opts) (CiscoUser opts) (CiscoPassword opts)) s w) = Some e /\
     errors_Is e ErrAcquired = false) ->
  (forall w : W, (os_handle (CtxErr c) w).1 = None) ->
  connectDelay sv = Z.min (ciscoPollInterval * 2 ^ Z.of_nat k) ciscoMaxConnectDelay ->
  (out_val (exec (connect_runs opts c n sv) s w)).1 =
    map (fun i => Z.min (ciscoPollInterval * 2 ^ Z.of_nat i) ciscoMaxConnectDelay) (seq k n).
Proof.
  intros Hf Hc. revert sv s w k. induction n as [|n IH]; intros sv s w k Hk; [done|].
  cbn [connect_runs seq map]. run. destruct (Hf s w) as (e & He & Ha).
  rewrite (connect_fails opts c sv s w e He Ha (Hc _)). run.
  set (s1 := out_state _). set (w1 := out_world _). set (sv1 := with_delay _ sv).
  destruct (out_val (exec (connect_runs opts c n sv1) s1 w1)) as [ds sv2] eqn:E. run.
  rewrite Hk. f_equal. specialize (IH sv1 s1 w1 (S k)). rewrite E in IH. apply IH.
  unfold sv1. cbn [with_delay connectDelay]. rewrite Hk, Nat2Z.inj_succ, Z.pow_succ_r by lia.
  unfold ciscoPollInterval, ciscoMaxConnectDelay, Minute, Second, Millisecond. lia.
Qed.


(** A host on which every command fails. *)
Definition dead_world : World unit := fun X e w => (refuse true e, w).


(** Whatever the agent and the CLI answer, every tick asks for the next one after
    five seconds to one minute. *)
Theorem tick_delay_bounded {W} `{!World W} opts c sv (s : Service) (w : W) :
  delay_ok (connectDelay sv) ->
  let o := exec (tick opts c sv) s w in
  delay_ok (out_val o).1 /\ delay_ok (connectDelay (out_val o).2).
Proof.
  intros Hd. cbv zeta. by destruct (returns_exec _ _ s w (tick_fields opts c sv Hd)) as (? & ? & _).
Qed.

Lemma tick_delay_bounded_witness :
  let o := exec (tick home_options CtxParent sv0) (New home_options) home in
  delay_ok (out_val o).1 /\ delay_ok (connectDelay (out_val o).2).
Proof. apply (tick_delay_bounded home_options CtxParent sv0). vm_compute. by split. Defined.


(** C20. The supervisor issues no connect while the agent is connected or reconnecting,
    or while its state could not be read. *)
Theorem no_connect_over_agent {W} `{!World W} opts c state err sv (s : Service) (w : W) :
  err <> None \/ state = StateConnected \/ state = StateReconnecting ->
  Forall not_connect (out_events (exec (tick_state opts c state err sv) s w)).
Proof.
  intros H. apply emits_exec. unfold tick_state. destruct err as [e|]; [by emits|].
  destruct H as [H|H]; [done|].
  case_bool_decide as H1; [unfold setConnected, setStatus; emits; by apply emits_crit|].
  rewrite bool_decide_eq_true_2 by tauto.
  apply emits_bind; [by apply emits_crit|intros _]. unfold awaitReconnect, Disconnect, Run.
  emits; done.
Qed.

Lemma no_connect_over_agent_witness :
  Forall not_connect (out_events
    (exec (tick_state home_options CtxParent StateReconnecting None sv0) (New home_options) home)).
Proof. apply no_connect_over_agent. right. right. reflexivity. Defined.

(** C11. On shutdown the VPN status is cleared, and the VPN is disconnected exactly when
    this process connected it, with a context that outlives the cancelled one and ends
    after thirty seconds. *)
Theorem shutdown_disconnects {W} `{!World W} c sv (s : Service) (w : W) :
  let o := exec (shutdown c sv) s w in
  CiscoConnected (s_status (out_state o)) = false /\ PFDisabled (s_status (out_state o)) = false /\
  (connectedByUs sv = false -> out_events o = []) /\
  (connectedByUs sv = true ->
     head (out_events o) = Some (ev_disconnect (CtxWithTimeout (CtxWithoutCancel c) (30 * Second)))).
Proof.
  cbv zeta. unfold shutdown, setConnected, Disconnect. run. destruct (connectedByUs sv); cbn [negb]; run; [|done].
  destruct (os_handle (Exec _ _ _ _) w) as [[out err] w1]. cbn [run_result fst snd].
  destruct err as [e|]; run; done.
Qed.

(** The supervisor's loop returns once its context ends, and leaves the service
    disconnected. *)
Theorem supervisor_returns {W} `{!World W} `{!Cancels W} fuel opts c (s : Service) (w : W) :
  (budget w < fuel)%nat ->
  let o := exec (startCisco fuel opts c) s w in
  out_val o = Some tt /\
  CiscoConnected (s_status (out_state o)) = false /\ PFDisabled (s_status (out_state o)) = false.
Proof.
  intros Hf. cbv zeta. unfold startCisco.
  destruct (loop_terminates fuel (cisco_round opts c) (sv0, 0) s w) as [sv Hsv];
    [apply cisco_round_sleeps|done|].
  run. rewrite Hsv. unfold shutdown, setConnected, Disconnect. run.
  destruct (connectedByUs sv); cbn [negb]; run; [|done].
  destruct (os_handle (Exec _ _ _ _) _) as [[out err] w1]. cbn [run_result fst snd].
  destruct err as [e|]; run; done.
Qed.

Lemma supervisor_returns_witness :
  out_val (exec (startCisco 10 home_options CtxParent) (New home_options) (with_sleeps 5 home)) = Some tt.
Proof.
  apply (supervisor_returns 10 home_options CtxParent (New home_options) (with_sleeps 5 home)). cbn. lia.
Defined.
