(* ===== verification/Socks.v ===== *)
(** * internal/service/socks.go: what the SOCKS servers are given

    The protocol itself is go-socks5's.  The code hands it a resolver and a CONNECT
    middleware, both closed while the VPN is down, and credentials for the LAN
    listener.  [RepNetworkUnreachable] is the library's reply code. *)

From S2P Require Import Prelude GoStrings GoNet GoTime Effects Sim Shell Route Clients Conns Service Pinner.

Definition errVPNDown : error := ErrNew "VPN is not connected".

Section Socks.
Context (RepNetworkUnreachable : Z).

(** [s.vpnGate(ctx, w, request)]; [dest] is [request.DestAddr.Address()]. *)
Definition vpnGate (dest : string) : prog Service (option error) :=
  st ← GetState;
  if negb (CiscoConnected st) then
    slog LevelDebug "connection refused, VPN is down" [("dest", dest)] ≫= fun _ =>
    err ← sys (SocksSendReply RepNetworkUnreachable);
    match err with
    | Some e => mret (Some (ErrWrap ("send reply: " +:+ Error e) e))
    | None => mret (Some errVPNDown)
    end
  else
    slog LevelInfo ("connection to " +:+ dest) [] ≫= fun _ => mret None.

(** [vpnGatedResolver.Resolve] *)
Definition Resolve (name : string) : prog Service (list Byte.byte + error) :=
  st ← GetState;
  if negb (CiscoConnected st) then mret (inr errVPNDown)
  else sys (SocksDNSResolve name).

(** The options [newSocksServer] passes to the library. *)
Record socksServer : Type := MkSocksServer {
  ss_resolver : string -> prog Service (list Byte.byte + error);
  ss_connect : string -> prog Service (option error);
  ss_credential : option (string * string)
}.

Definition newSocksServer (opts : Options) (lan : bool) : socksServer :=
  MkSocksServer Resolve vpnGate
    (if lan && negb (bool_decide (SocksUser opts = ""))
     then Some (SocksUser opts, SocksPassword opts) else None).

(** ** Properties *)


(** The LAN listener asks for the configured credentials exactly when there are
    any; the loopback listener never does. *)
Theorem lan_credentials opts lan :
  ss_credential (newSocksServer opts lan) =
    if lan then (if decide (SocksUser opts = "") then None else Some (SocksUser opts, SocksPassword opts))
    else None.
Proof.
  cbn. destruct lan; [|done]. case_decide as H; cbn.
  - by rewrite bool_decide_eq_true_2.
  - by rewrite bool_decide_eq_false_2.
Qed.

End Socks.
