(* ===== verification/Lan.v ===== *)
(** * internal/service/lan.go, bind_darwin.go, bind_other.go: the LAN listener

    [serveLAN] owns at most one listener, bound to the LAN interface of [State].  A
    [lanListener] is the listener and what it was bound for; the cancel function and
    the done channel show in [WakeDone], the end of the accept loop.  The [select] is a
    call to the world, which may also wake the loop for nothing. *)

From S2P Require Import Prelude GoStrings GoNet GoTime Effects Sim Shell Route Clients Conns Service Pinner Discovery.

Definition lanRetryInterval : Z := 10 * Second.

Record lanListener : Type := MkLanListener { ll_l : positive; ll_bound : lanSnapshot }.

#[global] Instance lanListener_eq_dec : EqDecision lanListener.
Proof. solve_decision. Defined.

(** [ll.close()] *)
Definition ll_close {S} (ll : lanListener) : prog S unit := sys (ListenerClose (ll_l ll)).

(** bind_darwin.go: IP_BOUND_IF is set to the interface's index before the bind. *)
Definition listenBoundToInterface {S} (c : ctx) (iface : string) : prog S (positive + error) :=
  r ← sys (NetInterfaceByName iface);
  match r with
  | inr err => mret (inr err)
  | inl ifi => sys (NetListen c "tcp4" (JoinHostPort "0.0.0.0" proxyPort) (Some (i_Index ifi)))
  end.

(** bind_other.go: other systems have no LAN listener. *)
Definition listenBoundToInterface_other {S} (_ : ctx) (_ : string) : prog S (positive + error) :=
  mret (inr (ErrNew "binding to an interface is only supported on macOS")).

Section Lan.
Context `{!MapRange}.

Definition openLAN (c : ctx) (lan : lanSnapshot) : prog Service (option lanListener) :=
  r ← listenBoundToInterface c (lan_Iface lan);
  match r with
  | inr err =>
      slog LevelWarn "failed to listen on LAN interface"
        [("interface", lan_Iface lan); ("error", Error err)] ≫= fun _ => mret None
  | inl l =>
      slog LevelInfo "proxy bound to LAN interface"
        [("interface", lan_Iface lan); ("subnet", Prefix_String (lan_Subnet lan))] ≫= fun _ =>
      sys (Spawn (GoAccept l)) ≫= fun _ =>
      mret (Some (MkLanListener l lan))
  end.

(** The listener of another LAN is closed, with its connections. *)
Definition rebind_close (cur : option lanListener) (want : lanSnapshot) : prog Service (option lanListener) :=
  match cur with
  | Some ll =>
      if negb (bool_decide (ll_bound ll = want)) then
        ll_close ll ≫= fun _ =>
        n ← on_conns closeLAN;
        when (0 <? n) (slog LevelInfo ("LAN changed, dropped " +:+ Itoa n +:+ " LAN connections") []) ≫= fun _ =>
        mret None
      else mret cur
  | None => mret cur
  end.

(** The [switch] that opens a listener; with it, whether the lack of a LAN was reported. *)
Definition rebind_open (c : ctx) (cur : option lanListener) (want : lanSnapshot) (warned : bool)
  : prog Service (option lanListener * bool) :=
  match cur with
  | Some _ => mret (cur, warned)
  | None =>
      if negb (bool_decide (lan_Iface want = "")) then
        cur ← openLAN c want; mret (cur, warned)
      else if negb warned then
        slog LevelWarn "no LAN interface detected, proxy serves localhost only" [] ≫= fun _ =>
        mret (None, true)
      else mret (None, warned)
  end.

(** One round; leaving it by [return] runs the deferred close. *)
Definition serve_round (c : ctx) (l : option lanListener * bool)
  : prog Service ((option lanListener * bool) + option error) :=
  let '(cur, warned) := l in
  want ← get_lanSnapshot;
  cur ← rebind_close cur want;
  '(cur, warned) ← rebind_open c cur want warned;
  wake ← sys (SelectLAN (bool_decide (cur = None) && negb (bool_decide (lan_Iface want = "")))
    (negb (bool_decide (cur = None))));
  match wake with
  | WakeCtx =>
      match cur with Some ll => ll_close ll | None => skip end ≫= fun _ => mret (inr None)
  | WakeCheck => crit (fun s => (tt, set_lanCheck false s, [])) ≫= fun _ => mret (inl (cur, warned))
  | WakeRetry => mret (inl (cur, warned))
  | WakeDone err => mret (inr err)
  end.

Definition serveLAN (fuel : nat) (c : ctx) : prog Service (option (option error)) :=
  loop fuel (serve_round c) (None, false).

End Lan.


(** ** Vocabulary of the statements *)

(** Listeners opened less listeners closed. *)
Definition open_delta (e : event) : Z :=
  match e with EvSpawn (GoAccept _) => 1 | EvCloseListener _ => -1 | _ => 0 end.
Definition open_count (ev : list event) : Z := foldr (fun e n => open_delta e + n) 0 ev.

Definition held (cur : option lanListener) : Z := match cur with Some _ => 1 | None => 0 end.

(** The listener held is for another LAN. *)
Definition rebinds (cur : option lanListener) (want : lanSnapshot) : bool :=
  match cur with Some ll => negb (bool_decide (ll_bound ll = want)) | None => false end.

(** ** Lemmas *)

Lemma open_count_app ev1 ev2 : open_count (ev1 ++ ev2) = open_count ev1 + open_count ev2.
Proof. unfold open_count. induction ev1 as [|e ev1 IH]; cbn; [done|]. rewrite IH. lia. Qed.

Lemma open_count_conns ev : Forall (fun e => exists c, e = EvCloseConn c) ev -> open_count ev = 0.
Proof. unfold open_count. induction 1 as [|e ev [c ->] _ IH]; cbn; [done|]. by rewrite IH. Qed.

Section Facts.
Context `{!MapRange} {W : Type} `{!World W}.

Lemma closeLAN_events ct : Forall (fun e => exists c, e = EvCloseConn c) (closeLAN ct).2.
Proof.
  unfold closeLAN. rewrite closeLAN_fold. cbn [snd app]. apply Forall_fmap, Forall_true.
  intros x. cbn. eauto.
Qed.

(** Closing the listener of another LAN: the log line is left open. *)
Lemma exec_rebind_close cur want (s : Service) (w : W) :
  let o := exec (rebind_close cur want) s w in
  match cur with
  | Some ll =>
      if decide (ll_bound ll = want) then out_val o = cur /\ out_state o = s /\ out_events o = []
      else
        out_val o = None /\ out_state o = set_conns (closeLAN (s_conns s)).1.2 s /\
        exists log, out_events o = EvCloseListener (ll_l ll) :: (closeLAN (s_conns s)).2 ++ log /\
          open_count log = 0 /\ (forall conn, EvCloseConn conn ∉ log)
  | None => out_val o = None /\ out_state o = s /\ out_events o = []
  end.
Proof.
  cbv zeta. unfold rebind_close. destruct cur as [ll|]; [|by run].
  case_decide as Hb; [rewrite bool_decide_eq_true_2 by done; by run|].
  rewrite bool_decide_eq_false_2 by done. cbn [negb]. unfold ll_close. run.
  destruct (closeLAN (s_conns s)) as [[n ct] ev]. cbn [fst snd].
  destruct (0 <? n); cbn [when]; run; (split; [done|split; [done|]]).
  - eexists. split; [rewrite <- ?app_assoc; reflexivity|split; [reflexivity|]].
    intros conn [?|?%elem_of_nil]%elem_of_cons; done.
  - exists []. rewrite !app_nil_r. split_and!; try done. by intros conn ?%elem_of_nil.
Qed.

Lemma exec_rebind_open c cur want warned (s : Service) (w : W) :
  let o := exec (rebind_open c cur want warned) s w in
  out_state o = s /\ open_count (out_events o) = held (out_val o).1 - held cur /\
  (forall conn, EvCloseConn conn ∉ out_events o) /\ (forall l, EvCloseListener l ∉ out_events o) /\
  match cur with
  | Some _ => (out_val o).1 = cur /\ out_events o = []
  | None => forall ll, (out_val o).1 = Some ll -> ll_bound ll = want /\ lan_Iface want <> ""
  end.
Proof.
  cbv zeta. unfold rebind_open. destruct cur as [ll|]; run.
  { split_and!; try done; try (intros ? ?%elem_of_nil; done). }
  case_bool_decide as Hif; cbn [negb].
  { destruct (negb warned); run; (split_and!; try done; cbn; intros; rewrite ?elem_of_cons, ?elem_of_nil;
      naive_solver). }
  unfold openLAN, listenBoundToInterface. run.
  destruct (os_handle (NetInterfaceByName _) w) as [[ifi|e] w1]; cbn [fst snd]; run.
  2: { split_and!; try done; cbn; intros; rewrite ?elem_of_cons, ?elem_of_nil; naive_solver. }
  destruct (os_handle (NetListen _ _ _ _) w1) as [[l|e] w2]; cbn [fst snd]; run;
    (split_and!; try done; cbn; intros; rewrite ?elem_of_cons, ?elem_of_nil; naive_solver).
Qed.

End Facts.

Section Rounds.
Context `{!MapRange} {W : Type} `{!World W}.

(** A round as its three parts. *)
Lemma exec_serve_round c cur warned (s : Service) (w : W) :
  let want := lan_of (s_status s) in
  let o1 := exec (rebind_close cur want) s w in
  let o2 := exec (rebind_open c (out_val o1) want warned) (out_state o1) (out_world o1) in
  let cur' := (out_val o2).1 in
  let wk := os_handle (SelectLAN (bool_decide (cur' = None) && negb (bool_decide (lan_Iface want = "")))
    (negb (bool_decide (cur' = None)))) (out_world o2) in
  let o := exec (serve_round c (cur, warned)) s w in
  match wk.1 with
  | WakeCtx => out_val o = inr None /\ out_state o = out_state o2 /\
      out_events o = out_events o1 ++ out_events o2 ++
        match cur' with Some ll => [EvCloseListener (ll_l ll)] | None => [] end
  | WakeCheck => out_val o = inl (out_val o2) /\ out_state o = set_lanCheck false (out_state o2) /\
      out_events o = out_events o1 ++ out_events o2
  | WakeRetry => out_val o = inl (out_val o2) /\ out_state o = out_state o2 /\
      out_events o = out_events o1 ++ out_events o2
  | WakeDone err => out_val o = inr err /\ out_state o = out_state o2 /\
      out_events o = out_events o1 ++ out_events o2
  end.
Proof.
  cbv zeta. unfold serve_round. run.
  set (o1 := exec (rebind_close _ _) s w). set (o2 := exec (rebind_open _ _ _ _) _ _).
  destruct (out_val o2) as [cur' warned']. cbn [fst]. run.
  destruct (os_handle (SelectLAN _ _) (out_world o2)) as [wk w3]. cbn [fst snd os_event].
  destruct wk as [| | |err]; run; rewrite ?app_nil_r; try done.
  destruct cur' as [ll|]; unfold ll_close; run; rewrite ?app_nil_r; done.
Qed.

(** Opened less closed over a round, with the listener held before and after. *)
Lemma serve_round_count c cur warned (s : Service) (w : W) :
  let o := exec (serve_round c (cur, warned)) s w in
  match out_val o with
  | inl (cur', _) => open_count (out_events o) = held cur' - held cur
  | inr _ => open_count (out_events o) = - held cur \/ open_count (out_events o) = 1 - held cur
  end /\
  (out_val o = inr None -> (forall r d w, (os_handle (SelectLAN r d) w).1 <> WakeDone None) ->
   open_count (out_events o) = - held cur).
Proof.
  cbv zeta. pose proof (exec_serve_round c cur warned s w) as HR. cbv zeta in HR.
  pose proof (exec_rebind_close cur (lan_of (s_status s)) s w) as H1. cbv zeta in H1.
  set (o1 := exec (rebind_close _ _) s w) in *.
  assert (open_count (out_events o1) = held (out_val o1) - held cur) as C1.
  { destruct cur as [ll|]; [|by destruct H1 as (-> & _ & ->)]. case_decide.
    - destruct H1 as (-> & _ & ->). cbn. lia.
    - destruct H1 as (-> & _ & log & -> & Hlog & _). cbn [open_count foldr].
      change (foldr _ 0 ?l) with (open_count l).
      rewrite open_count_app, Hlog, (open_count_conns _ (closeLAN_events _)). done. }
  destruct (exec_rebind_open c (out_val o1) (lan_of (s_status s)) warned (out_state o1) (out_world o1))
    as (_ & C2 & _).
  set (o2 := exec (rebind_open _ _ _ _) _ _) in *.
  assert (0 <= held (out_val o2).1 <= 1) as Hh by (destruct (out_val o2).1; cbn; lia).
  match type of HR with context [os_handle ?e ?w2] => destruct (os_handle e w2) as [wk w3] eqn:Ew end.
  destruct (out_val o2) as [cur' warned'] eqn:Eo. cbn [fst snd] in *.
  destruct wk as [| | |err]; destruct HR as (-> & _ & ->); rewrite ?open_count_app; (split; [|intros Hv Hl]);
    try done; try lia.
  - left. destruct cur' as [ll|]; [change (open_count [EvCloseListener _]) with (-1)|change (open_count []) with 0];
      cbn [held fst] in *; lia.
  - destruct cur' as [ll|]; [change (open_count [EvCloseListener _]) with (-1)|change (open_count []) with 0];
      cbn [held fst] in *; lia.
  - injection Hv as ->. exfalso. apply (Hl _ _ _ (f_equal fst Ew)).
Qed.

Lemma serve_count fuel c cur warned (s : Service) (w : W) :
  let o := exec (loop fuel (serve_round c) (cur, warned)) s w in
  0 <= held cur + open_count (out_events o) <= 1 /\
  (out_val o = Some None -> (forall r d w, (os_handle (SelectLAN r d) w).1 <> WakeDone None) ->
   held cur + open_count (out_events o) = 0).
Proof.
  cbv zeta. revert cur warned s w. induction fuel as [|fuel IH]; intros cur warned s w; cbn [loop].
  { run. split; [destruct cur; cbn; lia|done]. }
  run. destruct (serve_round_count c cur warned s w) as [H1 H2].
  set (o := exec (serve_round c (cur, warned)) s w) in *.
  assert (0 <= held cur <= 1) by (destruct cur; cbn; lia).
  destruct (out_val o) as [[cur' warned']|err]; rewrite open_count_app.
  - destruct (IH cur' warned' (out_state o) (out_world o)) as [H3 H4].
    split; [lia|]. intros Hv Hl. specialize (H4 Hv Hl). lia.
  - run. change (open_count []) with 0. split; [lia|]. intros [= ->] Hl. specialize (H2 eq_refl Hl). lia.
Qed.

End Rounds.

(** ** Properties *)


