(* ===== verification/Proxy.v ===== *)
(** * internal/service/proxy.go: accepting connections, dropping them, the proxy's life

    The goroutines are programs of their own: [acceptConns] for each listener,
    [conn_goroutine] for each connection, [dropConnsOnVPNLoss].  What the errgroup of
    [startProxy] returns after running them is a parameter of [startProxy]. *)

From S2P Require Import Prelude GoStrings GoNet GoTime Effects Sim Shell Route Clients Conns Service Pinner Discovery Socks Lan.

Definition acceptErrorBackoff : Z := 500 * Millisecond.
Definition vpnWatchInterval : Z := 2 * Second.

(** [net.ErrClosed] *)
Definition ErrClosed : error := ErrNew "use of closed network connection".

(** ** Connections *)

(** One round of the loop of [acceptConns]. *)
Definition accept_round (c : ctx) (l : positive) (lan : bool) (_ : unit) : prog Service (unit + option error) :=
  r ← sys (Accept l);
  match r with
  | inr err =>
      cerr ← sys (CtxErr c);
      match cerr with
      | Some _ => mret (inr None)
      | None =>
          if errors_Is err ErrClosed then
            addr ← sys (ListenerAddr l);
            mret (inr (Some (ErrWrap ("listener " +:+ addr +:+ " closed unexpectedly: " +:+ Error err) err)))
          else
            slog LevelWarn "accept error" [("error", Error err)] ≫= fun _ =>
            alive ← sleepCtx c acceptErrorBackoff;
            if negb alive then mret (inr None) else mret (inl tt)
      end
  | inl conn =>
      on_conns (fun ct => (tt, conn_add conn lan ct, [])) ≫= fun _ =>
      sys (Spawn (GoConn conn lan)) ≫= fun _ =>
      mret (inl tt)
  end.

Definition acceptConns (fuel : nat) (c : ctx) (l : positive) (lan : bool) : prog Service (option (option error)) :=
  loop fuel (accept_round c l lan) tt.

Section Proxy.
Context `{!MapRange} `{!Peers} `{!PinOps} (RepNetworkUnreachable : Z).

(** The goroutine of a connection. *)
Definition conn_goroutine (opts : Options) (c : ctx) (conn : positive) (lan : bool) : prog Service unit :=
  when (lan && discoveryEnabled opts) (discoverClient c conn) ≫= fun _ =>
  sys (ServeConn conn (ss_credential (newSocksServer RepNetworkUnreachable opts lan))) ≫= fun _ =>
  on_conns (fun ct => (tt, conn_remove conn ct, [])).

(** One tick of [dropConnsOnVPNLoss]; the loop state is [wasConnected]. *)
Definition drop_round (c : ctx) (wasConnected : bool) : prog Service (bool + unit) :=
  alive ← sleepCtx c vpnWatchInterval;
  if negb alive then mret (inr tt)
  else
    st ← GetState;
    let connected := CiscoConnected st in
    when (wasConnected && negb connected)
      (n ← on_conns closeAll;
       when (0 <? n) (slog LevelInfo ("VPN lost, dropped " +:+ Itoa n +:+ " active connections") [])) ≫= fun _ =>
    mret (inl connected).

Definition dropConnsOnVPNLoss (fuel : nat) (c : ctx) : prog Service (option unit) :=
  st ← GetState;
  loop fuel (drop_round c) (CiscoConnected st).

(** ** The proxy *)

(** The announcements of a proxy that listens. *)
Definition proxy_started (opts : Options) : prog Service unit :=
  setStatus (st_Proxy true) ≫= fun _ =>
  slog LevelInfo ("starting SOCKS5 server on " +:+ proxyPort) [] ≫= fun _ =>
  when (bool_decide (SocksUser opts = "") && LANDiscovery opts)
    (slog LevelWarn "lan_discovery without socks_user: the LAN proxy is open to anyone on the network" []).

(** From the return of [g.Wait()] to the deferred [closeAll]; the goroutine that waits
    for the group's context closes the listener. *)
Definition proxy_end (loopback : positive) (err : option error) : prog Service (option error) :=
  sys (ListenerClose loopback) ≫= fun _ =>
  res ←
    match err with
    | Some e => mret (Some (ErrWrap ("proxy: " +:+ Error e) e))
    | None => slog LevelInfo "proxy server stopped" [] ≫= fun _ => mret None
    end;
  on_conns closeAll ≫= fun _ => mret res.

(** The errgroup of [startProxy] on the loopback listener. *)
Definition proxy_group (loopback : positive) : prog Service (option error) :=
  sys (Spawn (GoLoopback loopback)) ≫= fun _ =>
  sys (Spawn GoServeLAN) ≫= fun _ =>
  sys (Spawn GoDropConns) ≫= fun _ =>
  sys GroupWait.

(** The body of [startProxy] after the wait, without its first deferred call.  [group l]
    is [proxy_group l], or it with what else happens until [g.Wait()] returns. *)
Definition proxy_body (opts : Options) (c : ctx) (group : positive -> prog Service (option error))
  : prog Service (option error) :=
  r ← sys (NetListen c "tcp4" (JoinHostPort "127.0.0.1" proxyPort) None);
  match r with
  | inr err => mret (Some (ErrWrap ("failed to listen on loopback: " +:+ Error err) err))
  | inl loopback =>
      proxy_started opts ≫= fun _ =>
      err ← group loopback;
      proxy_end loopback err
  end.

Definition startProxy (fuel : nat) (opts : Options) (c : ctx)
    (group : positive -> prog Service (option error)) : prog Service (option (option error)) :=
  ready ← waitReady fuel c;
  match ready with
  | None => mret None
  | Some true =>
      res ← proxy_body opts c group;
      setStatus (st_Proxy false) ≫= fun _ => mret (Some res)
  | Some false => setStatus (st_Proxy false) ≫= fun _ => mret (Some None)
  end.

End Proxy.

(** ** Lemmas *)

Section Frame.
Context `{!MapRange} `{!Peers} {P : PinOps} `{!PinOpsFrame P} (I : Service -> Prop).
Hypothesis Hconns : forall s ct, I s -> I (set_conns ct s).

Lemma preserves_acceptConns fuel c l lan : preserves I (acceptConns fuel c l lan).
Proof. unfold acceptConns, accept_round. preserves. by apply preserves_on_conns. Qed.

Lemma preserves_dropConns fuel c : preserves I (dropConnsOnVPNLoss fuel c).
Proof. unfold dropConnsOnVPNLoss, drop_round. preserves. by apply preserves_on_conns. Qed.

Hypothesis Hid : forall s, I s -> I (set_clients (s_clients s) s).
Hypothesis Hseen : forall s ip mac now, I s -> mac_wf mac -> I (set_clients (seen ip mac now (s_clients s)).1 s).

Lemma preserves_conn_goroutine rep opts c conn lan : preserves I (conn_goroutine rep opts c conn lan).
Proof.
  unfold conn_goroutine. apply preserves_bind; [apply preserves_when, preserves_discoverClient; auto|intros _].
  preserves. by apply preserves_on_conns.
Qed.

Hypothesis Hproxy : forall s b, I s -> I (set_status (st_Proxy b (s_status s)) s).

Lemma preserves_startProxy fuel opts c group :
  (forall l, preserves I (group l)) -> preserves I (startProxy fuel opts c group).
Proof.
  intros Hg. unfold startProxy, proxy_body, proxy_started, proxy_end. preserves;
    by first [apply preserves_setStatus; auto|apply preserves_on_conns; auto].
Qed.

End Frame.

Lemma preserves_serveLAN `{!MapRange} (I : Service -> Prop) fuel c :
  (forall s ct, I s -> I (set_conns ct s)) -> (forall s, I s -> I (set_lanCheck false s)) ->
  preserves I (serveLAN fuel c).
Proof.
  intros H1 H2. unfold serveLAN. apply preserves_loop. intros [cur warned].
  unfold serve_round, rebind_close, rebind_open, openLAN, listenBoundToInterface, ll_close. preserves.
  - by apply preserves_on_conns.
  - by apply preserves_crit.
Qed.

(** ** Properties *)

(** C10. Once the watcher sees the VPN down that it saw up before, every tracked
    connection has been closed and the tracker is empty; on any other tick no
    connection is touched.  The next tick compares with what this one saw. *)
Theorem vpn_loss_drops `{!MapRange} {W} `{!World W} c was (s : Service) (w : W) :
  let o := exec (drop_round c was) s w in
  let now := CiscoConnected (s_status s) in
  (out_val o = inl now \/ out_val o = inr tt) /\
  (out_val o = inl now -> was = true -> now = false ->
     s_conns (out_state o) = ∅ /\ forall conn, is_Some (s_conns s !! conn) -> EvCloseConn conn ∈ out_events o) /\
  (out_val o = inr tt \/ was = false \/ now = true ->
     out_state o = s /\ forall conn, EvCloseConn conn ∉ out_events o).
Proof.
  cbv zeta. unfold drop_round. run.
  destruct (os_handle (SelectTimer c vpnWatchInterval) w) as [[|] w1]; cbn [fst snd negb]; run.
  2: { split_and!; [by right|done|]. intros _. split; [done|].
       intros conn [?|?%elem_of_nil]%elem_of_cons; done. }
  destruct (was && negb (CiscoConnected (s_status s))) eqn:Eb; cbn [when]; run.
  - apply andb_true_iff in Eb as [-> Hc%negb_true_iff]. rewrite Hc.
    pose proof (closeAll_spec (s_conns s)) as HA. destruct (closeAll (s_conns s)) as [[n ct] ev].
    cbn [fst snd]. destruct HA as (HA & _ & ->).
    match goal with |- context [exec (when ?b ?p) ?s2 ?w2] =>
      assert (out_state (exec (when b p) s2 w2) = s2) as -> by (destruct b; cbn [when]; by run) end.
    split_and!; [by left| |intros [?|[?|?]]; done].
    intros _ _ _. split; [done|]. intros conn Hconn. apply HA in Hconn.
    right. apply elem_of_app. left. apply elem_of_app. by left.
  - split_and!; [by left|intros _ -> Hc; by rewrite Hc in Eb|]. intros _. split; [done|].
    intros conn [?|?%elem_of_nil]%elem_of_cons; done.
Qed.


Lemma exec_proxy_started {W} `{!World W} opts (s : Service) (w : W) :
  out_state (exec (proxy_started opts) s w) = set_status (st_Proxy true (s_status s)) s.
Proof. unfold proxy_started. run. destruct (_ && _); cbn [when]; by run. Qed.

Lemma exec_proxy_end `{!MapRange} {W} `{!World W} l err (s : Service) (w : W) :
  let o := exec (proxy_end l err) s w in
  out_state o = set_conns ∅ s /\ out_val o = ((fun e => ErrWrap ("proxy: " +:+ Error e) e) <$> err) /\ EvCloseListener l ∈ out_events o.
Proof.
  cbv zeta. unfold proxy_end. destruct err as [e|]; run; split_and!; try done; left.
Qed.


