(* ===== verification/Dns.v ===== *)
(** * internal/service/dns.go: the DNS forwarder

    Messages and their operations belong to github.com/miekg/dns: [DnsLib] lists what
    the code uses of them, with the network exchange and the answer to the client as
    programs.  [DnsLaws] states the library behaviour the theorems rely on. *)

From S2P Require Import Prelude GoStrings GoNet GoTime Effects Sim Shell Route Clients Conns Service Pinner.

Class DnsLib : Type := {
  Msg : Type;
  RR : Type;
  ResponseWriter : Type;
  first_question : Msg -> option (string * string);   (* name and type text of Question[0] *)
  has_edns0 : Msg -> bool;                             (* r.IsEdns0() != nil *)
  Copy : Msg -> Msg;
  SetEdns0 : Z -> bool -> Msg -> Msg;
  Extra : Msg -> list RR;
  set_Extra : list RR -> Msg -> Msg;
  is_OPT : RR -> bool;                                 (* Header().Rrtype == dns.TypeOPT *)
  Truncated : Msg -> bool;
  servfail : Msg -> Msg;                               (* new(dns.Msg) after SetRcode(r, RcodeServerFailure) *)
  Exchange : Msg -> string -> prog Service (Msg + error); (* the UDP client, dnsUpstreamTimeout *)
  WriteMsg : ResponseWriter -> Msg -> prog Service unit
}.

Definition dnsListenAddr : string := "127.0.0.1:53".
Definition dnsUpstreamTimeout : Z := 5 * Second.
Definition dnsUpstreamUDPSize : Z := 4096.

Section Dns.
Context `{!DnsLib}.

(** The request sent upstream. *)
Definition upstream_request (r : Msg) : Msg :=
  if negb (has_edns0 r) then SetEdns0 dnsUpstreamUDPSize false (Copy r) else r.

(** The answer relayed: without the OPT records the client did not ask for. *)
Definition relayed (r resp : Msg) : Msg :=
  if negb (has_edns0 r) then set_Extra (List.filter (fun rr => negb (is_OPT rr)) (Extra resp)) resp else resp.

(** The loop over the servers; [lastErr] is the error of the last one that failed. *)
Fixpoint forward_loop (r req : Msg) (servers : list string) (lastErr : option error) : prog Service (Msg + error) :=
  match servers with
  | [] =>
      mret (inr match lastErr with
                | Some e => ErrWrap ("all dns servers failed: " +:+ Error e) e
                | None => ErrNew "all dns servers failed: %!w(<nil>)"
                end)
  | server :: rest =>
      x ← Exchange req (JoinHostPort server "53");
      match x with
      | inr err =>
          slog LevelDebug "dns upstream failed" [("server", server); ("error", Error err)] ≫= fun _ =>
          forward_loop r req rest (Some err)
      | inl resp =>
          let resp := relayed r resp in
          when (Truncated resp) (slog LevelWarn ("dns answer truncated by upstream " +:+ server) []) ≫= fun _ =>
          mret (inl resp)
      end
  end.

Definition forwardDNS (opts : Options) (r : Msg) : prog Service (Msg + error) :=
  forward_loop r (upstream_request r) (DNSServers opts) None.

(** The handler of [startDNS]. *)
Definition dns_handler (opts : Options) (w : ResponseWriter) (r : Msg) : prog Service unit :=
  match first_question r with
  | Some (name, type) => slog LevelInfo "dns query" [("name", name); ("type", type)]
  | None => skip
  end ≫= fun _ =>
  res ← forwardDNS opts r;
  match res with
  | inr err =>
      slog LevelError "dns forward failed" [("error", Error err)] ≫= fun _ =>
      WriteMsg w (servfail r)
  | inl resp => WriteMsg w resp
  end.

(** The body of [startDNS] after the wait, without its deferred call; [serve l] is what
    [ActivateAndServe] returns on the listener [l], which is closed afterwards. *)
Definition dns_body (c : ctx) (serve : positive -> prog Service (option error)) : prog Service (option error) :=
  r ← sys (NetListen c "tcp" dnsListenAddr None);
  match r with
  | inr err => mret (Some (ErrWrap ("dns listen: " +:+ Error err) err))
  | inl l =>
      setStatus (st_DNS true) ≫= fun _ =>
      slog LevelInfo ("starting DNS server on " +:+ dnsListenAddr) [] ≫= fun _ =>
      err ← serve l;
      sys (ListenerClose l) ≫= fun _ =>
      match err with
      | Some e =>
          cerr ← sys (CtxErr c);
          match cerr with
          | None => mret (Some (ErrWrap ("dns server error: " +:+ Error e) e))
          | Some _ => slog LevelInfo "DNS server stopped" [] ≫= fun _ => mret None
          end
      | None => slog LevelInfo "DNS server stopped" [] ≫= fun _ => mret None
      end
  end.

Definition startDNS (fuel : nat) (c : ctx) (serve : positive -> prog Service (option error))
  : prog Service (option (option error)) :=
  ready ← waitReady fuel c;
  match ready with
  | None => mret None
  | Some true =>
      res ← dns_body c serve;
      setStatus (st_DNS false) ≫= fun _ => mret (Some res)
  | Some false => setStatus (st_DNS false) ≫= fun _ => mret (Some None)
  end.

(** What the library documents, as far as the theorems need it. *)
Class DnsLaws : Prop := {
  extra_set : forall l m, Extra (set_Extra l m) = l;
  edns_set : forall n d m, has_edns0 (SetEdns0 n d (Copy m)) = true
}.

(** [forward_trace w req servers k resp]: the first [k] servers fail, the next one
    answers [resp]; the worlds are those the exchanges leave. *)
Inductive forward_trace {W} `{!World W} (req : Msg) : Service -> W -> list string -> list string -> string -> Msg -> Prop :=
| ft_answer s w server rest resp :
    out_val (exec (Exchange req (JoinHostPort server "53")) s w) = inl resp ->
    forward_trace req s w (server :: rest) [] server resp
| ft_fail s w server rest err failed server' resp :
    let o := exec (Exchange req (JoinHostPort server "53")) s w in
    let o' := exec (slog LevelDebug "dns upstream failed" [("server", server); ("error", Error err)])
                (out_state o) (out_world o) in
    out_val o = inr err ->
    forward_trace req (out_state o') (out_world o') rest failed server' resp ->
    forward_trace req s w (server :: rest) (server :: failed) server' resp.

Lemma preserves_startDNS (I : Service -> Prop) fuel c serve :
  (forall s b, I s -> I (set_status (st_DNS b (s_status s)) s)) ->
  (forall l, preserves I (serve l)) -> preserves I (startDNS fuel c serve).
Proof.
  intros Hdns Hs. unfold startDNS, dns_body. preserves; by apply preserves_setStatus; auto.
Qed.

Lemma forward_loop_spec {W} `{!World W} r req servers lastErr (s : Service) (w : W) :
  match out_val (exec (forward_loop r req servers lastErr) s w) with
  | inl m => exists failed server resp,
      forward_trace req s w servers failed server resp /\ m = relayed r resp
  | inr _ => forall failed server resp, ~ forward_trace req s w servers failed server resp
  end.
Proof.
  revert lastErr s w. induction servers as [|server rest IH]; intros lastErr s w; cbn [forward_loop].
  - run. by inversion 1.
  - run. set (o := exec (Exchange req (JoinHostPort server "53")) s w).
    destruct (out_val o) as [resp|err] eqn:Eo; run.
    + exists [], server, resp. split; [by constructor|done].
    + specialize (IH (Some err) (out_state (exec (slog LevelDebug "dns upstream failed" [("server", server); ("error", Error err)]) (out_state o) (out_world o)))
        (out_world (exec (slog LevelDebug "dns upstream failed" [("server", server); ("error", Error err)]) (out_state o) (out_world o)))).
      rewrite exec_slog in IH. cbn [out_state out_world] in IH.
      destruct (out_val (exec (forward_loop r req rest (Some err)) _ _)) as [m|e].
      * destruct IH as (failed & server' & resp & Ht & Hm). exists (server :: failed), server', resp.
        split; [|done]. eapply ft_fail; [exact Eo|]. fold o. rewrite exec_slog. exact Ht.
      * intros failed server' resp Ht.
        inversion Ht as [? ? ? ? ? Hv|? ? ? ? err' failed' ? ? o1 o2 Hv Ht']; subst.
        { assert (@inl Msg error resp = inr err) as Hx by (rewrite <- Hv; exact Eo). done. }
        assert (@inr Msg error err' = inr err) as Hx by (rewrite <- Hv; exact Eo). injection Hx as ->.
        unfold o2, o1 in Ht'. rewrite exec_slog in Ht'. by eapply IH.
Qed.

(** ** Properties *)



End Dns.

(** A toy library: a message is its EDNS0 mark and its records, OPT or not; the server
    10.0.0.1 is down, any other returns one OPT record and one other. *)
#[export] Instance toy_dns : DnsLib := {|
  Msg := bool * list bool;
  RR := bool;
  ResponseWriter := unit;
  first_question := fun _ => Some ("example.com.", "A");
  has_edns0 := fst;
  Copy := fun m => m;
  SetEdns0 := fun _ _ m => (true, m.2);
  Extra := snd;
  set_Extra := fun l m => (m.1, l);
  is_OPT := fun b => b;
  Truncated := fun _ => false;
  servfail := fun _ => (false, []);
  Exchange := fun _ addr =>
    if bool_decide (addr = "10.0.0.1:53") then mret (inr exit_error) else mret (inl (true, [true; false]));
  WriteMsg := fun _ _ => skip
|}.

Definition toy_query : @Msg toy_dns := (false, []).
Definition toy_answer : @Msg toy_dns := (true, [false]).


