(* ===== verification/Start.v ===== *)
(** * internal/service/service.go: the goroutines of the service

    [Start] runs the five goroutines of the service under an errgroup; [body] gives the
    code of every goroutine, with the context it gets.  Each is shown to end by itself
    once its context has: none needs more rounds than the context gives answers. *)

From S2P Require Import Prelude GoStrings GoNet GoTime Effects Ending Sim Shell Route Cisco Clients Conns Service Pinner Discovery Supervisor Socks Lan Proxy Dns.

(** A goroutine without an error to report. *)
Definition no_error {S A} (p : prog S (option A)) : prog S (option (option error)) :=
  p ≫= fun x => mret (match x with Some _ => Some None | None => None end).

(** The goroutines [Start] runs. *)
Definition start_goroutines : list goroutine := [GoCisco; GoProxy; GoDNS; GoPinner; GoSniffer].

(** [s.Start(ctx)] *)
Definition Start : prog Service (option error) :=
  for_each start_goroutines (fun g => sys (Spawn g)) ≫= fun _ => sys GroupWait.

Section Start.
Context `{!MapRange} `{!Peers} `{!PinOps} (rep : Z)
  (serve : positive -> prog Service (option error)) (fuel : nat) (opts : Options) (c : ctx).

(** The context of the errgroup of [Start], and that of the one of [startProxy]. *)
Definition start_ctx : ctx := CtxWithCancel c.
Definition proxy_ctx : ctx := CtxWithCancel start_ctx.

(** What a goroutine runs; [None] when a loop ran out of fuel. *)
Definition body (g : goroutine) : prog Service (option (option error)) :=
  match g with
  | GoCisco => no_error (startCisco fuel opts start_ctx)
  | GoProxy => startProxy fuel opts start_ctx proxy_group
  | GoDNS => startDNS fuel start_ctx serve
  | GoPinner => no_error (startPinner fuel start_ctx)
  | GoSniffer => startSniffer fuel opts start_ctx ≫= fun x =>
      mret (match x with Some (Some _) => Some None | _ => None end)
  | GoLoopback l => acceptConns fuel proxy_ctx l false
  | GoServeLAN => serveLAN fuel proxy_ctx
  | GoDropConns => no_error (dropConnsOnVPNLoss fuel proxy_ctx)
  | GoAccept l => acceptConns fuel (CtxWithCancel proxy_ctx) l true
  | GoConn conn lan =>
      conn_goroutine rep opts (if lan then CtxWithCancel proxy_ctx else proxy_ctx) conn lan ≫= fun _ =>
      mret (Some None)
  | GoWatcher subnet iface => no_error (lan_watcher fuel start_ctx (MkLan subnet iface))
  end.

End Start.

(** ** Lemmas: each goroutine ends *)

(** It ended by itself, with what it reports. *)
Definition ended (r : option (option error)) : Prop := exists err, r = Some err.

Section Pace.
Context `{!MapRange} `{!Peers} `{!PinOps}.

Lemma paced_no_error {A} b (p : prog Service (option A)) :
  paced b p (fun r _ => exists x, r = Some x) -> paced b (no_error p) (fun r _ => ended r).
Proof.
  intros Hp. apply paced_bind. eapply paced_conseq; [exact Hp|]. intros r n _ [x ->].
  apply paced_mret. by exists None.
Qed.

(** A round that begins by asking whether the context goes on. *)
Lemma paced_hears {X L R} b (e : osE X) (k : X -> prog Service (L + R)) (Q : R -> Prop) :
  (forall x b', (b' <= b)%nat -> paced b' (k x) (fun r b'' =>
     match r with inl _ => if alive e x then True else (b'' < b)%nat | inr x => Q x end)) ->
  paced_round b (sys e ≫= k) Q.
Proof.
  intros Hk. apply paced_bind, paced_sys. intros x b' Hb Ha.
  eapply paced_conseq; [exact (Hk x b' Hb)|].
  intros [l|r] n Hn Hr; [|done]. destruct (alive e x); [|lia]. specialize (Ha eq_refl). lia.
Qed.

Lemma paced_loop_any {L R} b fuel (round : L -> prog Service (L + R)) l (Q : R -> Prop) :
  (forall l b', (b' <= b)%nat -> paced_round b' (round l) Q) -> (b < fuel)%nat ->
  paced b (loop fuel round l) (fun r _ => exists x, r = Some x).
Proof.
  intros Hr Hf. eapply paced_conseq; [by apply (paced_loop b fuel round l Q)|].
  intros r n _ (x & -> & _). by exists x.
Qed.

(** The loops that sleep in every round. *)
Lemma paced_sleeper {L R} b fuel (round : L -> prog Service (L + R)) cx d (k : L -> prog Service (L + R))
    (stop : L -> R) l :
  (forall l, round l = (sleepCtx cx (d l) ≫= fun alive => if negb alive then mret (inr (stop l)) else k l)) ->
  (b < fuel)%nat -> paced b (loop fuel round l) (fun r _ => exists x, r = Some x).
Proof.
  intros Hround. apply (paced_loop_any _ _ _ _ (fun _ => True)). intros l' b' _. rewrite Hround.
  apply paced_hears. intros [|] b'' _; cbn [negb alive]; [|by apply paced_mret].
  apply paced_any. by intros [?|?].
Qed.

Lemma paced_reads {X} b (f : Service -> X) (Q : X -> nat -> Prop) :
  (forall x b', (b' <= b)%nat -> Q x b') -> paced b (reads f) Q.
Proof. intros HQ x b' Hb. by apply HQ. Qed.

(** A round keeps its pace from fewer answers. *)
Lemma paced_round_le {L R} b b' (p : prog Service (L + R)) (Q : R -> Prop) :
  paced_round b' p Q -> (b' <= b)%nat -> paced b' p (fun r n => match r with inl _ => (n < b)%nat | inr x => Q x end).
Proof.
  intros Hp Hb. eapply paced_conseq; [exact Hp|]. intros [l|x] n Hn Hr; [lia|done].
Qed.

(** What precedes the first question takes its time, whatever it does. *)
Lemma paced_prefix {X A} b (p : prog Service X) (k : X -> prog Service A) Q :
  (forall x n, (n <= b)%nat -> paced n (k x) Q) -> paced b (p ≫= k) Q.
Proof. intros Hk. by apply paced_bind, paced_any. Qed.

Lemma paced_waitReady b fuel c :
  (b < fuel)%nat -> paced b (waitReady fuel c) (fun r _ => exists x, r = Some x).
Proof.
  apply (paced_loop_any _ _ _ _ (fun _ => True)). intros [] b' _. apply paced_bind, paced_reads. intros ready b1 Hb1.
  apply paced_round_le; [|done]. apply paced_hears. intros [e|] b2 Hb2; destruct ready; cbn [alive].
  - apply paced_bind, paced_any. intros pick n _. by apply paced_mret.
  - by apply paced_mret.
  - by apply paced_mret.
  - by apply paced_mret.
Qed.

Lemma paced_waits {R} b fuel c (k : option bool -> prog Service (option R)) :
  (b < fuel)%nat ->
  (forall taken b', (b' <= b)%nat -> paced b' (k (Some taken)) (fun r _ => exists x, r = Some x)) ->
  paced b (waitReady fuel c ≫= k) (fun r _ => exists x, r = Some x).
Proof.
  intros Hf Hk. apply paced_bind.
  eapply paced_conseq; [by apply paced_waitReady|]. intros r n Hn [x ->]. by apply Hk.
Qed.

Lemma paced_startCisco b fuel opts c :
  (b < fuel)%nat -> paced b (startCisco fuel opts c) (fun r _ => exists x, r = Some x).
Proof.
  intros Hf. apply paced_bind. eapply paced_conseq; [|].
  - by apply (paced_sleeper b fuel (cisco_round opts c) c snd
      (fun l => '(delay, sv) ← tick opts c l.1; mret (inl (sv, delay))) fst); [intros []|].
  - intros r n _ [sv ->]. apply paced_bind, paced_any. intros x m _. apply paced_mret. by exists tt.
Qed.

Lemma paced_startPinner b fuel c :
  (b < fuel)%nat -> paced b (startPinner fuel c) (fun r _ => exists x, r = Some x).
Proof.
  intros Hf. apply paced_waits; [done|]. intros [|] b' Hb'; [|apply paced_mret; by exists tt].
  eapply (paced_sleeper _ _ (pinner_round c) c (fun _ => pinInterval) _ (fun _ => tt)); [reflexivity|lia].
Qed.

Lemma paced_dropConns b fuel c :
  (b < fuel)%nat -> paced b (dropConnsOnVPNLoss fuel c) (fun r _ => exists x, r = Some x).
Proof.
  intros Hf. apply paced_bind, paced_reads. intros st b' Hb'.
  eapply (paced_sleeper _ _ (drop_round c) c (fun _ => vpnWatchInterval) _ (fun _ => tt)); [reflexivity|lia].
Qed.

Lemma paced_lan_watcher b fuel c lan :
  (b < fuel)%nat -> paced b (lan_watcher fuel c lan) (fun r _ => exists x, r = Some x).
Proof.
  intros Hf. eapply (paced_sleeper _ _ _ (CtxWithCancel c) (fun _ => snifferLANPoll) _ (fun _ => false)); [|done].
  reflexivity.
Qed.

Lemma paced_acceptConns b fuel c l lan :
  (b < fuel)%nat -> paced b (acceptConns fuel c l lan) (fun r _ => exists x, r = Some x).
Proof.
  apply (paced_loop_any _ _ _ _ (fun _ => True)). intros [] b' _. unfold accept_round. apply paced_hears.
  intros [conn|err] b1 Hb1; cbn [alive].
  - apply paced_any. by intros [?|?].
  - apply paced_round_le; [|done]. apply paced_hears. intros [e|] b2 Hb2; cbn [alive]; [by apply paced_mret|].
    apply paced_any. by intros [?|?].
Qed.

Lemma paced_serveLAN b fuel c :
  (b < fuel)%nat -> paced b (serveLAN fuel c) (fun r _ => exists x, r = Some x).
Proof.
  apply (paced_loop_any _ _ _ _ (fun _ => True)). intros [cur warned] b' _. unfold serve_round.
  apply paced_prefix. intros want n1 Hn1. apply paced_prefix. intros cur' n2 Hn2.
  apply paced_prefix. intros [cur2 warned2] n3 Hn3.
  apply paced_round_le; [|lia]. apply paced_hears.
  intros [| | |err] b4 Hb4; cbn [alive].
  - apply paced_bind, paced_any. intros x n _. by apply paced_mret.
  - apply paced_any. by intros [?|?].
  - apply paced_any. by intros [?|?].
  - by apply paced_mret.
Qed.

Lemma paced_Stream b fuel c onLine name args :
  (b < fuel)%nat -> paced b (Stream fuel c onLine name args : prog Service _) (fun r _ => exists x, r = Some x).
Proof.
  intros Hf. apply paced_bind, paced_sys. intros [e|] b1 Hb1 _; [apply paced_mret; eauto|].
  apply paced_bind, paced_sys. intros [e|] b2 Hb2 _; [apply paced_mret; eauto|]. apply paced_bind.
  assert (paced b2 (scan_lines fuel onLine : prog Service _) (fun r _ => exists x, r = Some x)) as Hs.
  { apply (paced_loop_any _ _ _ _ (fun _ => True)); [|lia]. intros [] b' _. apply paced_hears.
    intros [line|] b3 Hb3; cbn [alive]; [|by apply paced_mret]. apply paced_any. by intros [?|?]. }
  eapply paced_conseq; [exact Hs|]. intros r n _ [x ->].
  apply paced_bind, paced_any. intros _ n1 _. apply paced_bind, paced_any. intros [writes [e|]] n2 _; apply paced_mret; eauto.
Qed.

Lemma paced_startSniffer b fuel opts c :
  (b < fuel)%nat -> paced b (startSniffer fuel opts c) (fun r _ => r = Some (Some tt)).
Proof.
  intros Hf. unfold startSniffer. destruct (negb _); [by apply paced_mret|].
  eapply paced_conseq; [apply (paced_loop b fuel _ tt (fun r => r = Some tt)); [|done]|].
  2: { by intros r n _ (x & -> & ->). }
  intros [] b' Hb'. unfold sniffer_round. apply paced_prefix. intros lan n1 Hn1.
  apply paced_round_le; [|lia]. destruct (bool_decide _).
  { apply paced_hears. intros [|] b2 Hb2; cbn [negb alive]; by apply paced_mret. }
  apply paced_bind.
  assert (paced n1 (sniffLAN fuel c lan) (fun r _ => exists x, r = Some x)) as Hs.
  { unfold sniffLAN. apply paced_bind, paced_sys. intros [] b1 Hb1 _. apply paced_bind.
    eapply paced_conseq; [apply paced_Stream; lia|]. intros r n _ [x ->].
    apply paced_bind, paced_any. intros [e|] m _; apply paced_mret; eauto. }
  eapply paced_conseq; [exact Hs|]. intros r n2 Hn2 [err ->]. apply paced_prefix.
  intros [|] n3 Hn3; cbn [negb]; [|by apply paced_mret]. apply paced_round_le; [|lia].
  apply paced_hears. intros [e|] b4 Hb4; cbn [alive]; by apply paced_mret.
Qed.

Lemma paced_body b rep serve fuel opts c g :
  (b < fuel)%nat -> paced b (body rep serve fuel opts c g) (fun r _ => ended r).
Proof.
  intros Hf. destruct g; cbn [body].
  - by apply paced_no_error, paced_startCisco.
  - apply paced_waits; [done|]. intros [|] b' Hb'.
    + do 2 (apply paced_prefix; intros). apply paced_mret. by eexists.
    + apply paced_prefix; intros. apply paced_mret. by eexists.
  - apply paced_waits; [done|]. intros [|] b' Hb'.
    + do 2 (apply paced_prefix; intros). apply paced_mret. by eexists.
    + apply paced_prefix; intros. apply paced_mret. by eexists.
  - by apply paced_no_error, paced_startPinner.
  - apply paced_bind. eapply paced_conseq; [by apply paced_startSniffer|]. intros r n _ ->.
    apply paced_mret. by exists None.
  - by apply paced_acceptConns.
  - by apply paced_serveLAN.
  - by apply paced_no_error, paced_dropConns.
  - by apply paced_acceptConns.
  - apply paced_prefix. intros. apply paced_mret. by exists None.
  - by apply paced_no_error, paced_lan_watcher.
Qed.

End Pace.
