(* ===== verification/System.v ===== *)
(** * The service as a whole: the goroutines that share [Service]

    The supervisor is the single writer of the LAN and VPN fields of [State] and of
    [ciscoReady]; the other goroutines write the registry, the tracker, [lanCheck] and
    the flags [ProxyStarted] and [DNSStarted].  [svc_ok] holds in every state any
    interleaving of their atomic actions can reach, whatever the world does; and the
    goroutines of [Start] end once the context has.  The file closes with a schedule in
    which a pass of the pinner overlaps a change of the LAN. *)

From S2P Require Import Prelude GoStrings GoNet GoTime Effects Ending Sim Shell Route Cisco Clients Conns Service Pinner Discovery Supervisor Socks Lan Proxy Dns Start.

(** ** Vocabulary of the statements *)

(** What the supervisor alone writes. *)
Record view : Type := MkView {
  v_subnet : Prefix; v_addr : Addr; v_iface : string;
  v_connected : bool; v_pf : bool; v_ready : bool
}.

Definition sup_view (s : Service) : view :=
  let st := s_status s in
  MkView (LANSubnet st) (LANAddr st) (LANInterface st) (CiscoConnected st) (PFDisabled st) (s_ciscoReady s).

(** The LAN in [State]: when there is one, it is the IPv4 subnet of our own address. *)
Definition lan_wf (st : State) : Prop :=
  LANInterface st <> "" ->
  exists p, ifaddr_wf p /\ LANSubnet st = Masked p /\ Prefix_Contains (LANSubnet st) (LANAddr st) = true.

(** The invariant of the shared state; [opts] are the options of [New]. *)
Record svc_ok (opts : Options) (s : Service) : Prop := MkSvcOk {
  ok_panic : s_panicked s = false;
  ok_pf : PFDisabled (s_status s) = true -> CiscoConnected (s_status s) = true;
  ok_lan : lan_wf (s_status s);
  ok_registry : registry_wf (s_clients s);
  ok_static : forall ip, is_static (s_clients s) ip <-> In ip (map lc_IP (LANClients opts))
}.

(** ** Lemmas: the other goroutines *)

Section System.
Context `{!MapRange} `{!Peers} {P : PinOps} `{!PinOpsFrame P} (opts : Options) (rep : Z).

Local Abbreviation I := (svc_ok opts).

Lemma svc_ok_New : svc_ok opts (New opts).
Proof.
  split; [done|done|by intros []|apply newClientRegistry_wf|intros ip; apply newClientRegistry_static].
Qed.

Lemma svc_ok_conns s ct : I s -> I (set_conns ct s).
Proof. by intros []. Qed.

Lemma svc_ok_lanCheck s b : I s -> I (set_lanCheck b s).
Proof. by intros []. Qed.

Lemma svc_ok_op s o :
  I s -> (registry_wf (s_clients s) -> registry_wf (reg_step (s_clients s) o)) ->
  I (set_clients (reg_step (s_clients s) o) s).
Proof.
  intros [H1 H2 H3 H4 H5] Ho. split; [done..|by apply Ho|].
  intros ip. cbn [s_clients set_clients]. by rewrite reg_step_static.
Qed.

Lemma svc_ok_id s : I s -> I (set_clients (s_clients s) s).
Proof. by rewrite set_clients_id. Qed.

Lemma svc_ok_seen s ip mac now : I s -> mac_wf mac -> I (set_clients (seen ip mac now (s_clients s)).1 s).
Proof. intros HI Hm. apply (svc_ok_op s (OpSeen ip mac now) HI). intros ?. by apply seen_wf. Qed.

Lemma svc_ok_setMAC s ip mac : I s -> mac_wf mac -> I (set_clients (setMAC ip mac (s_clients s)) s).
Proof. intros HI Hm. apply (svc_ok_op s (OpSetMAC ip mac) HI). intros ?. by apply setMAC_wf. Qed.

Lemma svc_ok_expire s now ttl live : I s -> I (set_clients (expire now ttl live (s_clients s)).1 s).
Proof. intros HI. apply (svc_ok_op s (OpExpire now ttl live) HI). intros ?. by apply expire_wf. Qed.

Lemma svc_ok_reset s : I s -> I (set_clients (resetNetwork (s_clients s)) s).
Proof. intros HI. apply (svc_ok_op s OpReset HI). intros _. apply resetNetwork_wf. Qed.

Lemma svc_ok_proxy s b : I s -> I (set_status (st_Proxy b (s_status s)) s).
Proof. by intros []. Qed.

Lemma svc_ok_DNS s b : I s -> I (set_status (st_DNS b (s_status s)) s).
Proof. by intros []. Qed.

(** Every goroutine but the supervisor leaves its fields alone. *)
Lemma leaves_no_error {A} (p : prog Service (option A)) : leaves sup_view I p -> leaves sup_view I (no_error p).
Proof. intros Hp l. by apply preserves_bind. Qed.

Lemma body_leaves serve fuel c g :
  (forall J l, preserves J (serve l)) -> g <> GoCisco -> leaves sup_view I (body rep serve fuel opts c g).
Proof.
  intros Hserve Hg. destruct g; cbn [body]; [done|..].
  - intros l. apply preserves_startProxy; [| |intros p; unfold proxy_group; preserves].
    + intros s ct [? ?]. split; [by apply svc_ok_conns|done].
    + intros s b [? ?]. split; [by apply svc_ok_proxy|done].
  - intros l. apply preserves_startDNS; [|auto]. intros s b [? ?]. split; [by apply svc_ok_DNS|done].
  - apply leaves_no_error. intros l. apply preserves_startPinner; [intros s [? ?]; rewrite set_clients_id; done| |].
    + intros s ip mac [? ?] Hm. split; [by apply svc_ok_setMAC|done].
    + intros s now live [? ?]. split; [by apply svc_ok_expire|done].
  - intros l. apply preserves_bind; [|intros; preserves].
    apply preserves_startSniffer; [intros s [? ?]; rewrite set_clients_id; done|].
    intros s ip mac now [? ?] Hm. split; [by apply svc_ok_seen|done].
  - intros l'. apply preserves_acceptConns. intros s ct [? ?]. split; [by apply svc_ok_conns|done].
  - intros l. apply preserves_serveLAN.
    + intros s ct [? ?]. split; [by apply svc_ok_conns|done].
    + intros s [? ?]. split; [by apply svc_ok_lanCheck|done].
  - apply leaves_no_error. intros l. apply preserves_dropConns. intros s ct [? ?]. split; [by apply svc_ok_conns|done].
  - intros l'. apply preserves_acceptConns. intros s ct [? ?]. split; [by apply svc_ok_conns|done].
  - intros l. apply preserves_bind; [|done].
    apply preserves_conn_goroutine; [|intros s [? ?]; rewrite set_clients_id; done|].
    + intros s ct [? ?]. split; [by apply svc_ok_conns|done].
    + intros s ip mac now [? ?] Hm. split; [by apply svc_ok_seen|done].
  - apply leaves_no_error. intros l. apply preserves_lan_watcher.
Qed.

Lemma bodies_leave serve fuel c gs :
  (forall J l, preserves J (serve l)) -> Forall (fun g => g <> GoCisco) gs ->
  Forall (leaves sup_view I) (map (body rep serve fuel opts c) gs).
Proof. intros Hserve Hgs. apply Forall_map. eapply Forall_impl; [exact Hgs|]. intros g. by apply body_leaves. Qed.

(** ** Lemmas: the supervisor *)

Local Abbreviation sup l p Q := (owns sup_view I l p Q).

Lemma sup_reads {X} l (f : Service -> X) (Q : X -> view -> Prop) :
  (forall s, I s -> sup_view s = l -> Q (f s) l) -> sup l (reads f) Q.
Proof. intros Hf. apply owns_crit. intros s HI HV. cbn. rewrite HV. auto. Qed.

Lemma sup_quiet {X} l (p : prog Service X) (Q : X -> view -> Prop) :
  (forall J, preserves J p) -> (forall x, Q x l) -> sup l p Q.
Proof. intros Hp HQ. by apply owns_leaves. Qed.

Lemma sup_bind_quiet {X Y} l (p : prog Service X) (k : X -> prog Service Y) Q :
  (forall J, preserves J p) -> (forall x, sup l (k x) Q) -> sup l (p ≫= k) Q.
Proof. intros Hp Hk. apply owns_bind. by apply sup_quiet. Qed.

(** A change of the supervisor's fields. *)
Lemma sup_write {Y} l (f : Service -> Service) (g : view -> view) (k : unit -> prog Service Y) Q :
  (forall s, I s -> sup_view s = l -> I (f s) /\ sup_view (f s) = g l) ->
  sup (g l) (k tt) Q -> sup l (crit (fun s => (tt, f s, [])) ≫= k) Q.
Proof.
  intros Hf Hk. apply owns_bind, owns_crit. intros s HI HV. cbn.
  destruct (Hf s HI HV) as [? ->]. done.
Qed.

(** What a step of the supervisor keeps between its own state and the view. *)
Definition sv_ok (sv : ciscoSupervisor) (l : view) : Prop := readyNotified sv = v_ready l.

Lemma sup_detectLAN l c sv :
  sv_ok sv l -> sup l (detectLAN opts c sv) (fun sv' l' => sv_ok sv' l').
Proof.
  intros Hsv. unfold detectLAN. apply owns_bind. unfold get_lanSnapshot, GetState. apply owns_bind.
  apply sup_reads. intros s0 HI0 HV0. apply owns_mret. apply owns_bind.
  eapply owns_mono; [apply owns_frame; [intros J; apply preserves_DetectLAN|apply returns_DetectLAN]|].
  intros [[ifaddr iface]|err] l' [Hp ->].
  - destruct (confirmLAN _ _ sv) as [sv' ok] eqn:E.
    assert (sv_ok sv' l) as Hsv'.
    { unfold sv_ok. rewrite <- Hsv. unfold confirmLAN in E. destruct (negb _); [by injection E as <- <-|].
      destruct (_ && _); by injection E as <- <-. }
    destruct ok; cbn [negb].
    + apply owns_bind.
      match goal with |- sup l ?p _ => assert (sup l p (fun _ l' => l' = l)) as Hp1 end.
      { destruct (bool_decide _); [apply sup_quiet; [intros J; preserves|done]|].
        apply sup_bind_quiet; [intros J; preserves|intros _]. apply owns_crit. intros s HI HV. cbn.
        split; [by apply svc_ok_reset|exact HV]. }
      eapply owns_mono; [exact Hp1|]. intros _ ? ->.
      apply (sup_write l (fun s => set_status (st_LAN (Masked ifaddr) (p_ip ifaddr) iface (s_status s)) s)
        (fun v => MkView (Masked ifaddr) (p_ip ifaddr) iface (v_connected v) (v_pf v) (v_ready v))).
      * intros s [H1 H2 H3 H4 H5] <-. split; [|done]. split; [done|done| |done|done].
        intros _. exists ifaddr. split_and!; [done|done|by apply ifaddr_wf_subnet].
      * apply sup_bind_quiet; [intros J; apply preserves_warnSelfClients|intros _].
        apply (sup_write _ (fun s => set_lanCheck true s) (fun v => v)); [|done].
        intros s HI <-. split; [by apply svc_ok_lanCheck|done].
    + case_bool_decide as Hcur; cbn [when]; [|by apply owns_mret].
      apply (sup_write l (fun s => set_status (st_LANAddr (p_ip ifaddr) (s_status s)) s)
        (fun v => MkView (v_subnet v) (p_ip ifaddr) (v_iface v) (v_connected v) (v_pf v) (v_ready v))); [|done].
      intros s [H1 H2 H3 H4 H5] HV. split; [|by rewrite <- HV]. split; [done|done| |done|done].
      intros Hif. exists ifaddr. assert (LANSubnet (s_status s) = Masked ifaddr) as Hs.
      { rewrite <- HV0 in HV. unfold sup_view in HV. injection HV as -> _ _ _ _ _. by injection Hcur as ->. }
      cbn. rewrite Hs. split_and!; [done|done|by apply ifaddr_wf_subnet].
  - apply sup_bind_quiet; [intros J; preserves|intros _]. by apply owns_mret.
Qed.

Lemma sup_setConnected {Y} b l (k : unit -> prog Service Y) Q :
  sup (MkView (v_subnet l) (v_addr l) (v_iface l) b (if negb b then false else v_pf l) (v_ready l)) (k tt) Q ->
  sup l (setConnected b ≫= k) Q.
Proof.
  apply (sup_write l (fun s => set_status (st_Connected b (s_status s)) s)
    (fun v => MkView (v_subnet v) (v_addr v) (v_iface v) b (if negb b then false else v_pf v) (v_ready v))).
  intros s [H1 H2 H3 H4 H5] <-. split; [|done]. split; [done| |done|done|done].
  cbn. destruct b; cbn; auto.
Qed.

Lemma sup_tick_state l c state err sv :
  sv_ok sv l -> sup l (tick_state opts c state err sv) (fun x l' => sv_ok x.2 l').
Proof.
  intros Hsv. eapply owns_mono.
  - apply (owns_returns _ _ _ _ (fun _ l' => v_ready l' = v_ready l)); [|apply exec_tick_state_delay].
    unfold tick_state. destruct err as [e|]; [by apply sup_quiet; [intros J; preserves|]|].
    destruct (bool_decide _); [by apply sup_setConnected, owns_mret|].
    destruct (bool_decide _); apply sup_setConnected.
    + by apply sup_quiet; [intros J; unfold awaitReconnect; preserves|].
    + unfold connect. apply sup_bind_quiet; [intros J; apply preserves_Connect|]. intros [e|].
      * by apply sup_quiet; [intros J; preserves|].
      * by apply sup_setConnected, owns_mret.
  - intros [delay sv'] l' [Hr (_ & _ & _ & Hn)]. cbn in *. unfold sv_ok in *. by rewrite Hn, Hr.
Qed.

Lemma sup_disablePF l c :
  v_connected l = true -> sup l (disablePF c) (fun _ l' => v_ready l' = v_ready l).
Proof.
  intros Hc. unfold disablePF. apply owns_bind. apply sup_reads. intros s0 _ _.
  destruct (PFDisabled (s_status s0)); [by apply owns_mret|].
  apply sup_bind_quiet; [intros J; preserves|intros _].
  apply sup_bind_quiet; [intros J; preserves|]. intros [e|]; [by apply sup_quiet; [intros J; preserves|]|].
  apply sup_bind_quiet; [intros J; preserves|intros _].
  unfold setStatus. apply owns_crit. intros s [H1 H2 H3 H4 H5] <-. cbn. split; [|done].
  split; [done|by intros _|done|done|done].
Qed.

Lemma sup_tick_connected l c sv :
  sv_ok sv l -> sup l (tick_connected c sv) (fun sv' l' => sv_ok sv' l').
Proof.
  intros Hsv. unfold tick_connected. apply owns_bind. apply sup_reads. intros s0 HI0 HV0.
  destruct (CiscoConnected (s_status s0)) eqn:Ec; [|by apply owns_mret].
  apply owns_bind. eapply owns_mono; [apply sup_disablePF; by rewrite <- HV0|]. intros x l' Hl'. cbv beta in Hl'. clear x.
  unfold sv_ok in *. destruct (readyNotified sv) eqn:Er; cbn [negb]; [apply owns_mret; by rewrite Er, Hl'|].
  apply (sup_write l' close_ready (fun v => MkView (v_subnet v) (v_addr v) (v_iface v) (v_connected v) (v_pf v) true)).
  - intros s [H1 H2 H3 H4 H5] HV. split; [|by rewrite <- HV]. split; [|done..].
    cbn. rewrite H1. cbn. rewrite <- HV in Hl'. cbn in Hl'. by rewrite Hl', <- Hsv.
  - by apply owns_mret.
Qed.

Lemma sup_tick l c sv :
  sv_ok sv l -> sup l (tick opts c sv) (fun x l' => sv_ok x.2 l').
Proof.
  intros Hsv. unfold tick. apply owns_bind. eapply owns_mono; [by apply sup_detectLAN|]. intros sv1 l1 H1.
  apply sup_bind_quiet; [intros J; apply preserves_Status|]. intros [state err].
  apply owns_bind. eapply owns_mono; [by apply sup_tick_state|]. intros [delay sv2] l2 H2.
  apply owns_bind. eapply owns_mono; [by apply sup_tick_connected|]. intros sv3 l3 H3. by apply owns_mret.
Qed.

Lemma sup_startCisco l fuel c :
  v_ready l = false ->
  sup l (startCisco fuel opts c) (fun r l' => r = None \/ v_connected l' = false /\ v_pf l' = false).
Proof.
  intros Hl. unfold startCisco. apply owns_bind.
  apply (owns_loop _ _ (fun a l => sv_ok a.1 l)); [unfold sv_ok; by rewrite Hl| |].
  - intros l'. apply owns_mret. by left.
  - intros [sv delay] l' Hsv. unfold cisco_round. apply sup_bind_quiet; [intros J; preserves|].
    intros alive. destruct (negb alive).
    + apply owns_mret. apply owns_bind. unfold shutdown. apply sup_setConnected.
      apply sup_quiet; [intros J; preserves|]. intros _. apply owns_mret. by right.
    + apply owns_bind. eapply owns_mono; [by apply sup_tick|]. intros [d sv'] l2 H2. by apply owns_mret.
Qed.

Lemma service_runs serve fuel c gs {W} `{!World W} (w : W) cfg :
  (forall J l, preserves J (serve l)) -> Forall (fun g => g <> GoCisco) gs ->
  rtc cstep (map (body rep serve fuel opts c) (start_goroutines ++ gs), New opts, w) cfg ->
  svc_ok opts cfg.1.2 /\ exists p' ts', cfg.1.1 = p' :: ts' /\
    sup (sup_view cfg.1.2) p' (fun r l' => ended r -> v_connected l' = false /\ v_pf l' = false).
Proof.
  intros Hserve Hgs Hr. eapply (owner_interleaving sup_view I
    (map (body rep serve fuel opts c) (start_goroutines ++ gs), New opts, w) cfg); [reflexivity|exact Hr| | |].
  - apply svc_ok_New.
  - apply owns_bind. eapply owns_mono; [by apply sup_startCisco|]. intros r l' Hl. apply owns_mret.
    intros [err Herr]. destruct Hl as [-> |Hl]; [done|exact Hl].
  - apply (bodies_leave serve fuel c ([GoProxy; GoDNS; GoPinner; GoSniffer] ++ gs)); [done|].
    apply Forall_app. split; [by repeat constructor|done].
Qed.

(** ** Properties *)

(** C1. Under every interleaving of the goroutines of [Start] with any number of those
    they start (listeners, connections, watchers), and whatever the world does:
    [ciscoReady] is never closed twice (which would panic), pf counts as disabled only
    while the VPN is connected, a LAN in [State] is the IPv4 subnet of our own address,
    every MAC of the registry is canonical, and its static clients are exactly the
    configured ones. *)
Theorem service_invariant serve fuel c gs {W} `{!World W} (w : W) cfg :
  (forall J l, preserves J (serve l)) -> Forall (fun g => g <> GoCisco) gs ->
  rtc cstep (map (body rep serve fuel opts c) (start_goroutines ++ gs), New opts, w) cfg ->
  svc_ok opts cfg.1.2.
Proof. intros Hserve Hgs Hr. by destruct (service_runs serve fuel c gs w cfg Hserve Hgs Hr). Qed.


End System.

(** A VPN that is up from the start. *)
Definition home_vpn : sim :=
  with_sleeps 20 (with_cmds [("netstat -rn -f inet", (home_netstat, None));
    ("/opt/cisco/secureclient/bin/vpn -s state", (">> state: Connected" +:+ newline, None));
    ("pfctl -d", ("pf disabled", None))] home).

Definition no_dns (l : positive) : prog Service (option error) := mret None.

Definition home_start (fuel : nat) (gs : list goroutine) : list (prog Service (option (option error))) :=
  map (body 3 no_dns fuel home_options CtxParent) (start_goroutines ++ gs).

(** Twenty steps of the supervisor, then the pinner and the supervisor in turn. *)
Definition home_order : list nat := replicate 20 0%nat ++ mjoin (replicate 20 [3; 0]%nat).

Lemma service_invariant_witness :
  let cfg := schedule home_order (home_start 10 [GoConn 7 true], New home_options, home_vpn) in
  svc_ok home_options cfg.1.2 /\ PFDisabled (s_status cfg.1.2) = true /\ s_ciscoReady cfg.1.2 = true.
Proof.
  split; [|vm_compute; by split].
  apply (service_invariant home_options 3 no_dns 10 CtxParent [GoConn 7 true] home_vpn).
  - intros J l. exact Logic.I.
  - repeat constructor. discriminate.
  - apply schedule_rtc.
Defined.

(** Every goroutine in turn, until nothing is left to do. *)
Definition fair_order (n : nat) : list nat := mjoin (replicate n (seq 0 6)).


(** ** A pass against a change of the LAN *)

(** Another network with the same subnet, on en1, where the kernel still has the entries
    of the old one. *)
Definition office : sim :=
  with_ifaces [(MkInterface "en1" 5 3, [IfIPNet (MkIPNet [xc0; xa8; x00; x07] [xff; xff; xff; x00])])]
    (with_cmds [("netstat -rn -f inet",
      ("default            192.168.0.1        UGScg                 en1" +:+ newline, None))] home_kernel).

Definition office_sv : ciscoSupervisor :=
  with_pending (MkLan (LANSubnet home_state) "en1") sv0.

(** The pass reads the registry and the kernel's entry for .82, then the supervisor takes over
    the new network, then the pass stores what it read. *)
Definition race_order : list nat := replicate 6 1%nat ++ replicate 30 0%nat ++ replicate 10 1%nat.

(** [resetNetwork] is meant to keep a MAC of the old network from being pinned in the new
    one.  A pass that began before it undoes that: it stores the MAC it read on the old
    interface after the reset, and the next pass pins it on the new one. *)
Lemma stale_mac_race :
  let cfg := schedule race_order
    ([detectLAN home_options CtxParent office_sv ≫= (fun _ => skip); pinClients CtxParent home_state],
     home_service, office) in
  let s := cfg.1.2 in
  LANInterface (s_status s) = "en1" /\
  e_mac <$> s_clients s !! "192.168.0.82" = Some "76:c9:24:a8:c8:09" /\
  EvExec CtxParent "arp" ["-S"; "192.168.0.82"; "76:c9:24:a8:c8:09"; "temp"] "" ∈
    out_events (exec (pinClients CtxParent (s_status s)) s cfg.2).
Proof.
  cbv zeta. split; [vm_compute; reflexivity|]. split; [vm_compute; reflexivity|].
  refine (bool_decide_eq_true_1 _ _). vm_compute. reflexivity.
Qed.
