(* ===== verification/Log.v ===== *)
(** * internal/utils/log: the console log handler

    A record is rendered to one text, written with one [Write].  An attribute's value
    is its text, or [None] for the zero [slog.Value]; the time of a record is its local
    hour, minute and second. *)

From S2P Require Import Prelude GoStrings GoTime.

(** [slog.Level], and the named ones. *)
Definition slog_Debug : Z := -4.
Definition slog_Info : Z := 0.
Definition slog_Warn : Z := 4.
Definition slog_Error : Z := 8.

Record Attr : Type := MkAttr { at_Key : string; at_Value : option string }.

Record LogRecord : Type := MkRecord { r_Time : Z * Z * Z; r_Level : Z; r_Message : string; r_Attrs : list Attr }.

Record colorHandler : Type := MkHandler { h_level : Z; h_attrs : list Attr }.

(** The handler [Setup] makes the default one of slog; its writer is named by the caller. *)
Definition Setup (level : Z) : colorHandler := MkHandler level [].

Definition escape : string := String (asc 27) "".

Definition Colorize (s : string) (c : Z) : string :=
  escape +:+ "[38;5;" +:+ Itoa c +:+ "m" +:+ s +:+ escape +:+ "[0m".

Definition formatLevel (l : Z) : string :=
  if slog_Error <=? l then Colorize "ERR" 9
  else if slog_Warn <=? l then Colorize "WRN" 11
  else if slog_Info <=? l then Colorize "INF" 10
  else Colorize "DBG" 8.

Definition Enabled (h : colorHandler) (l : Z) : bool := h_level h <=? l.

(** [Value.String()] *)
Definition value_String (v : option string) : string := default "<nil>" v.

(** Two digits. *)
Definition pad2 (n : Z) : string := (if n <? 10 then "0" else "") +:+ Itoa n.

(** [t.Format("15:04:05")] *)
Definition time_Format (t : Z * Z * Z) : string :=
  let '(h, m, s) := t in pad2 h +:+ ":" +:+ pad2 m +:+ ":" +:+ pad2 s.

(** The closure [appendAttr] on the builder and [errStr]. *)
Definition appendAttr (acc : string * string) (a : Attr) : string * string :=
  let '(b, errStr) := acc in
  if bool_decide (at_Key a = "") && bool_decide (at_Value a = None) then acc
  else if bool_decide (at_Key a = "error") then (b, value_String (at_Value a))
  else (b +:+ " " +:+ Colorize (at_Key a +:+ "=" +:+ value_String (at_Value a)) 8, errStr).

(** The text [Handle] writes. *)
Definition Handle (h : colorHandler) (r : LogRecord) : string :=
  let b := Colorize (time_Format (r_Time r)) 7 +:+ " " +:+ formatLevel (r_Level r) +:+ " " +:+ r_Message r in
  let acc := fold_left appendAttr (h_attrs h) (b, "") in
  let '(b, errStr) := fold_left appendAttr (r_Attrs r) acc in
  (if bool_decide (errStr = "") then b else b +:+ " " +:+ Colorize errStr 1) +:+ newline.

Definition WithAttrs (attrs : list Attr) (h : colorHandler) : colorHandler :=
  MkHandler (h_level h) (h_attrs h ++ attrs).

Definition WithGroup (_ : string) (h : colorHandler) : colorHandler := h.

(** ** Vocabulary of the statements *)

Definition is_error (a : Attr) : bool := bool_decide (at_Key a = "error").
Definition is_zero (a : Attr) : bool := bool_decide (at_Key a = "") && bool_decide (at_Value a = None).

(** The attributes printed in the middle of the line, as one text. *)
Definition plain_attrs (l : list Attr) : string :=
  foldr (fun a t => (if is_zero a || is_error a then "" else
    " " +:+ Colorize (at_Key a +:+ "=" +:+ value_String (at_Value a)) 8) +:+ t) "" l.

(** The error that ends the line: the last one given. *)
Definition last_error (l : list Attr) : string :=
  fold_left (fun e a => if is_error a then value_String (at_Value a) else e) l "".

(** ** Lemmas *)

Lemma appendAttr_fold l b e :
  fold_left appendAttr l (b, e) =
    (b +:+ plain_attrs l, fold_left (fun e a => if is_error a then value_String (at_Value a) else e) l e).
Proof.
  revert b e. induction l as [|a l IH]; intros b e; cbn [fold_left plain_attrs foldr].
  { by rewrite append_nil_r. }
  change (foldr _ "" l) with (plain_attrs l). unfold appendAttr at 2, is_zero, is_error.
  destruct (bool_decide (at_Key a = "")) eqn:E1; cbn [andb].
  - bools. rewrite E1, (bool_decide_eq_false_2 ("" = "error")) by done. cbn [orb].
    destruct (bool_decide (at_Value a = None)); cbn [orb]; rewrite IH.
    + by rewrite append_nil_l.
    + by rewrite !append_assoc.
  - destruct (bool_decide (at_Key a = "error")); cbn [orb]; rewrite IH.
    + by rewrite append_nil_l.
    + by rewrite !append_assoc.
Qed.

Lemma plain_attrs_app l k : plain_attrs (l ++ k) = plain_attrs l +:+ plain_attrs k.
Proof.
  induction l as [|a l IH]; cbn [app plain_attrs foldr]; [by rewrite append_nil_l|].
  change (foldr _ "" ?x) with (plain_attrs x). by rewrite IH, append_assoc.
Qed.

(** ** Properties *)

(** A record is one line: time, level, message, then the attributes of the handler
    and of the record in order, with the last error moved to the end; attributes given
    to [WithAttrs] are printed as if each record began with them. *)
Theorem log_line h r attrs :
  let all := h_attrs h ++ r_Attrs r in
  Handle h r =
    Colorize (time_Format (r_Time r)) 7 +:+ " " +:+ formatLevel (r_Level r) +:+ " " +:+ r_Message r +:+
    plain_attrs all +:+
    (if decide (last_error all = "") then "" else " " +:+ Colorize (last_error all) 1) +:+ newline /\
  Handle (WithAttrs attrs h) r =
    Handle h (MkRecord (r_Time r) (r_Level r) (r_Message r) (attrs ++ r_Attrs r)).
Proof.
  assert (forall h r, Handle h r =
    Colorize (time_Format (r_Time r)) 7 +:+ " " +:+ formatLevel (r_Level r) +:+ " " +:+ r_Message r +:+
    plain_attrs (h_attrs h ++ r_Attrs r) +:+
    (if decide (last_error (h_attrs h ++ r_Attrs r) = "") then ""
     else " " +:+ Colorize (last_error (h_attrs h ++ r_Attrs r)) 1) +:+ newline) as Hshape.
  { clear. intros h r. unfold Handle. rewrite !appendAttr_fold. unfold last_error. rewrite fold_left_app.
    rewrite plain_attrs_app. case_decide as He; [rewrite bool_decide_eq_true_2 by done|rewrite bool_decide_eq_false_2 by done];
      rewrite !append_assoc; rewrite ?append_nil_l; done. }
  split; [apply Hshape|]. rewrite !Hshape. cbn [h_attrs WithAttrs r_Attrs r_Time r_Level r_Message].
  by rewrite app_assoc.
Qed.
