(* ===== verification/Config.v ===== *)
(** * cmd/config.go and cmd/main.go: the configuration, and the run

    [validate] checks a parsed configuration; its errors carry what the messages of the
    code print.  The environment, the user database, the file system and the YAML
    decoder are parameters of [loadConfig].  [run] and [main] put the service and the TUI
    together. *)

From S2P Require Import Prelude GoStrings GoNet GoTime Effects Sim Shell Route Cisco Clients Conns Service Pinner Discovery Socks Lan Proxy Start Log.

Record Config : Type := MkConfig {
  cfg_CiscoUser : string;
  cfg_CiscoPassword : string;
  cfg_CiscoProfile : string;
  cfg_SocksUser : string;
  cfg_SocksPassword : string;
  cfg_DNSServers : list string;
  cfg_LANClients : list LANClient;
  cfg_LANDiscovery : bool;
  noTUI : bool;
  debug : bool
}.

Inductive config_error : Type :=
| UserRequired
| PasswordRequired
| ProfileRequired
| DNSServersRequired
| InvalidDNSServer (i : nat) (srv : string)
| InvalidClientIP (i : nat) (ip : string)
| InvalidClientMAC (i : nat) (mac : string)
| SocksPairRequired.

(** The loop over [dns_servers], from index [i]. *)
Fixpoint validate_dns (i : nat) (servers : list string) : option config_error :=
  match servers with
  | [] => None
  | srv :: rest =>
      match ParseIP srv with
      | None => Some (InvalidDNSServer i srv)
      | Some _ => validate_dns (S i) rest
      end
  end.

(** The loop over [lan_clients]. *)
Fixpoint validate_clients (i : nat) (clients : list LANClient) : option config_error :=
  match clients with
  | [] => None
  | lc :: rest =>
      match ParseIP (lc_IP lc) with
      | None => Some (InvalidClientIP i (lc_IP lc))
      | Some ip =>
          if negb (ip16_is4 ip) then Some (InvalidClientIP i (lc_IP lc))
          else if bool_decide (lc_MAC lc = "") then validate_clients (S i) rest
          else match ParseMAC (lc_MAC lc) with
          | None => Some (InvalidClientMAC i (lc_MAC lc))
          | Some _ => validate_clients (S i) rest
          end
      end
  end.

Definition validate (c : Config) : option config_error :=
  if bool_decide (cfg_CiscoUser c = "") then Some UserRequired
  else if bool_decide (cfg_CiscoPassword c = "") then Some PasswordRequired
  else if bool_decide (cfg_CiscoProfile c = "") then Some ProfileRequired
  else if Z.of_nat (length (cfg_DNSServers c)) =? 0 then Some DNSServersRequired
  else match validate_dns 0 (cfg_DNSServers c) with
  | Some e => Some e
  | None =>
      match validate_clients 0 (cfg_LANClients c) with
      | Some e => Some e
      | None =>
          if negb (Bool.eqb (bool_decide (cfg_SocksUser c = "")) (bool_decide (cfg_SocksPassword c = "")))
          then Some SocksPairRequired else None
      end
  end.

Definition serviceOptions (c : Config) : Options :=
  MkOptions (cfg_CiscoUser c) (cfg_CiscoPassword c) (cfg_CiscoProfile c) (cfg_SocksUser c)
    (cfg_SocksPassword c) (cfg_DNSServers c) (cfg_LANClients c) (cfg_LANDiscovery c).

(** ** Loading *)

Inductive load_error : Type :=
| NoSudoUser
| LookupFailed (name : string) (e : error)
| ReadFailed (e : error)
| ParseFailed (e : error)
| Invalid (e : config_error).

Section Load.
Context (LookupEnv : string -> option string) (Lookup : string -> string + error)
  (ReadFile : string -> string + error) (Join2 : string -> string -> string)
  (Unmarshal : string -> Config -> Config + error).

(** [flags] are the parsed [-no-tui] and [-debug]. *)
Definition loadConfig (flags : bool * bool) : Config + load_error :=
  let cfg := MkConfig "" "" "" "" "" [] [] false flags.1 flags.2 in
  match LookupEnv "SUDO_USER" with
  | None | Some EmptyString => inr NoSudoUser
  | Some name =>
      match Lookup name with
      | inr e => inr (LookupFailed name e)
      | inl home =>
          match ReadFile (Join2 home ".cisco-socks5.yaml") with
          | inr e => inr (ReadFailed e)
          | inl data =>
              match Unmarshal data cfg with
              | inr e => inr (ParseFailed e)
              | inl cfg =>
                  match validate cfg with
                  | Some e => inr (Invalid e)
                  | None => inl cfg
                  end
              end
          end
      end
  end.

(** ** The run (main.go)

    The root context ends on a signal, which is the world's doing, or when [run] or the
    TUI's goroutine cancels it.  [load_text] is the text of an error of [loadConfig]. *)

Context (load_text : load_error -> string).

(** What [run] returns: the error of [loadConfig], which it wraps, or that of the service
    or of the TUI. *)
Definition run (flags : bool * bool) : prog Service (option (load_error + error)) :=
  match loadConfig flags with
  | inr e => mret (Some (inl e))
  | inl cfg =>
      let level := if debug cfg then slog_Debug else slog_Info in
      sys (LogSetup false level) ≫= fun _ =>
      crit (fun _ => (tt, New (serviceOptions cfg), [])) ≫= fun _ =>
      when (negb (noTUI cfg)) (sys (GoTUI level)) ≫= fun _ =>
      err ← Start;
      sys Cancel ≫= fun _ =>
      terr ← (if noTUI cfg then mret None else sys TuiErr);
      let err :=
        match terr, err with
        | Some t, None => Some (ErrWrap ("tui: " +:+ Error t) t)
        | _, _ => err
        end in
      sys (LogSetup false level) ≫= fun _ =>
      sys Cancel ≫= fun _ =>
      mret (match err with Some e => Some (inr e) | None => None end)
  end.

Definition run_text (e : load_error + error) : string :=
  match e with inl e => "load config: " +:+ load_text e | inr e => Error e end.

Definition main (flags : bool * bool) : prog Service unit :=
  err ← run flags;
  match err with
  | Some e => slog LevelError "fatal" [("error", run_text e)] ≫= fun _ => sys (Exit 1)
  | None => skip
  end.

End Load.

(** ** Vocabulary of the statements *)

Definition client_valid (lc : LANClient) : Prop :=
  (exists ip, ParseIP (lc_IP lc) = Some ip /\ ip16_is4 ip = true) /\
  (lc_MAC lc = "" \/ exists hw, ParseMAC (lc_MAC lc) = Some hw).

Definition config_valid (c : Config) : Prop :=
  cfg_CiscoUser c <> "" /\ cfg_CiscoPassword c <> "" /\ cfg_CiscoProfile c <> "" /\
  cfg_DNSServers c <> [] /\ Forall (fun srv => is_Some (ParseIP srv)) (cfg_DNSServers c) /\
  Forall client_valid (cfg_LANClients c) /\
  (cfg_SocksUser c = "" <-> cfg_SocksPassword c = "").

(** ** Lemmas *)

Lemma validate_dns_ok i l : validate_dns i l = None <-> Forall (fun srv => is_Some (ParseIP srv)) l.
Proof.
  revert i. induction l as [|srv l IH]; intros i; cbn [validate_dns]; [by split|].
  rewrite Forall_cons. destruct (ParseIP srv) as [v|]; [rewrite IH; naive_solver|].
  split; [done|]. intros [[v Hv] _]. done.
Qed.

Lemma validate_clients_ok i l : validate_clients i l = None <-> Forall client_valid l.
Proof.
  revert i. induction l as [|lc l IH]; intros i; cbn [validate_clients]; [by split|].
  rewrite Forall_cons. unfold client_valid at 1.
  destruct (ParseIP (lc_IP lc)) as [v|]; [|split; [done|by intros [[(? & ? & _) _] _]]].
  destruct (ip16_is4 v) eqn:E4; cbn [negb].
  2: { split; [done|]. intros [[(v' & [= <-] & H4) _] _]. congruence. }
  case_bool_decide as Hm; [rewrite IH; naive_solver|].
  destruct (ParseMAC (lc_MAC lc)) as [hw|]; [rewrite IH; naive_solver|].
  split; [done|]. by intros [[_ [?|[? ?]]] _].
Qed.

Lemma validate_valid c : validate c = None <-> config_valid c.
Proof.
  unfold validate, config_valid.
  case_bool_decide; [split; [done|tauto]|]. case_bool_decide; [split; [done|tauto]|].
  case_bool_decide; [split; [done|tauto]|].
  destruct (Z.eqb_spec (Z.of_nat (length (cfg_DNSServers c))) 0) as [Hz|Hz].
  { assert (cfg_DNSServers c = []) by (apply length_zero_iff_nil; lia). split; [done|tauto]. }
  assert (cfg_DNSServers c <> []) by (intros Hd; by rewrite Hd in Hz).
  pose proof (validate_dns_ok 0 (cfg_DNSServers c)) as Hd.
  destruct (validate_dns 0 (cfg_DNSServers c)); [split; [done|intros; exfalso; naive_solver]|].
  pose proof (validate_clients_ok 0 (cfg_LANClients c)) as Hc.
  destruct (validate_clients 0 (cfg_LANClients c)); [split; [done|intros; exfalso; naive_solver]|].
  do 2 case_bool_decide; cbn; naive_solver.
Qed.

(** An IP text [net.ParseIP] takes for IPv4 is one for [netip.ParseAddr], or an
    IPv4-mapped IPv6 one. *)
Lemma ParseIP4_cases s ip :
  ParseIP s = Some ip -> ip16_is4 ip = true ->
  (exists v, ParseAddr s = Some (Addr4 v)) \/ (exists a, ParseAddr s = Some a /\ Is4In6 a = true).
Proof.
  unfold ParseIP, ip16_is4. destruct (ParseAddr s) as [[|v|v [|]]|]; try done; [eauto|].
  intros [= <-] H4. right. eexists. split; [done|]. exact H4.
Qed.

Lemma newClientRegistry_lookup l lc :
  NoDup (map lc_IP l) -> In lc l ->
  newClientRegistry l !! lc_IP lc =
    Some (MkEntry 0 (let '(mac, ok) := CanonicalMAC (lc_MAC lc) in if ok then mac else "") true).
Proof.
  induction l as [|lc' l IH] using rev_ind; [done|]. rewrite map_app, newClientRegistry_app. cbn [map].
  intros HN [Hin|[->|[]]]%in_app_iff.
  - apply NoDup_app in HN as (HN & Hd & _).
    assert (lc_IP lc' <> lc_IP lc) as Hne.
    { intros Heq. apply (Hd (lc_IP lc)); [|by rewrite Heq; left]. apply list_elem_of_In, in_map_iff. eauto. }
    destruct (CanonicalMAC (lc_MAC lc')) as [mac ok]. rewrite lookup_insert_ne by done. auto.
  - destruct (CanonicalMAC (lc_MAC lc)) as [mac ok]. by rewrite lookup_insert_eq.
Qed.

(** ** Properties *)

(** C39. [validate] accepts exactly the configurations with credentials and a profile, at
    least one DNS server, only IP addresses as DNS servers, only IPv4 clients with no
    MAC or a well-formed one, and SOCKS user and password both or neither. *)
Theorem validate_iff c : validate c = None <-> config_valid c.
Proof. apply validate_valid. Qed.


Definition sample_config : Config :=
  MkConfig "user" "password" "profile" "proxy" "secret" ["10.0.0.1"; "fd00::1"]
    [MkLANClient "192.168.0.42" "72CE.3912.450F"; MkLANClient "::ffff:192.168.0.43" ""] false false false.


(** C17. With an accepted configuration, automatic discovery without the explicit
    [lan_discovery] means that the LAN listener asks for a non-empty user and password;
    the loopback listener never asks. *)
Theorem no_open_proxy rep c :
  validate c = None -> discoveryEnabled (serviceOptions c) = true -> cfg_LANDiscovery c = false ->
  (exists u p, u <> "" /\ p <> "" /\
     ss_credential (newSocksServer rep (serviceOptions c) true) = Some (u, p)) /\
  ss_credential (newSocksServer rep (serviceOptions c) false) = None.
Proof.
  intros Hv Hd Hl. apply validate_valid in Hv as (_ & _ & _ & _ & _ & _ & Hs).
  unfold discoveryEnabled in Hd. cbn [serviceOptions SocksUser LANDiscovery] in Hd.
  rewrite Hl, orb_false_r in Hd. bools. split; [|done].
  exists (cfg_SocksUser c), (cfg_SocksPassword c). split_and!; [done|tauto|].
  unfold newSocksServer. cbn [ss_credential serviceOptions SocksUser SocksPassword andb].
  by rewrite bool_decide_eq_false_2.
Qed.

Lemma no_open_proxy_witness :
  ss_credential (newSocksServer 3 (serviceOptions sample_config) false) = None.
Proof. apply (no_open_proxy 3 sample_config); vm_compute; reflexivity. Defined.

