(* ===== verification/Tui.v ===== *)
(** * internal/utils/tui: the terminal UI

    Views, the main loop and the drawing are gocui's: the code's calls of it are calls to
    the world ([GuiTry], [GuiDo]), the closures it hands to [g.Update] are named
    ([gui_update], run by [run_update]), and so are its goroutines ([tui_body]).  The UI
    shares the service, the channel of log records and the colour of the banner. *)

From S2P Require Import Prelude GoStrings GoNet GoTime GoFloat Effects Ending Sim Shell Route Clients Conns Service Pinner Log.

(** What the goroutines of the UI share. *)
Record TUI : Type := MkTUI {
  tu_svc : Service;
  tu_logs : list string;                             (* lw.logs *)
  tu_cl : Z                                          (* cl of animateBanner *)
}.

Definition set_logs (l : list string) (t : TUI) : TUI := MkTUI (tu_svc t) l (tu_cl t).
Definition set_cl (cl : Z) (t : TUI) : TUI := MkTUI (tu_svc t) (tu_logs t) cl.

Definition sidebarWidth : Z := 22.

(** The capacity of [lw.logs]. *)
Definition logs_capacity : Z := 256.

(** [l.Write(p)] on the records waiting in the channel: the send, or its default. *)
Definition log_Write (p : string) (logs : list string) : list string * (Z * option error) :=
  (if Z.of_nat (length logs) <? logs_capacity then logs ++ [p] else logs, (len p, None)).

(** A receive from [logs], when a record waits. *)
Definition log_receive (logs : list string) : option string * list string :=
  match logs with
  | [] => (None, [])
  | msg :: rest => (Some msg, rest)
  end.

(** ** The texts *)

Definition indicator (ok : bool) : string :=
  if ok then Colorize "● OK" 10 else Colorize "○ --" 9.

Definition bindLabel (iface : string) : string :=
  if bool_decide (iface = "") then Colorize "○ --" 9 else Colorize ("● " +:+ iface) 10.

(** The lines of the status panel. *)
Definition status_lines (st : State) : list string :=
  [" VPN    " +:+ indicator (CiscoConnected st) +:+ newline;
   " PF     " +:+ indicator (PFDisabled st) +:+ newline;
   " Bind   " +:+ bindLabel (LANInterface st) +:+ newline;
   " Proxy  " +:+ indicator (ProxyStarted st) +:+ newline;
   " DNS    " +:+ indicator (DNSStarted st) +:+ newline].

(** [int(d.Hours())] and the like of a duration that is not negative, which those of the
    monotonic clock are: [float64(d / unit) + float64(d % unit) / unit]. *)
Definition int_units (unit d : Z) : Z :=
  to_int (fadd (of_int (Z.quot d unit)) (fdiv (of_int (Z.rem d unit)) (of_int unit))).

(** The number of UTF-8 sequences: the bytes that do not continue one. *)
Fixpoint RuneCount (s : string) : Z :=
  match s with
  | EmptyString => 0
  | String c s' => (if (128 <=? Z.of_N (N_of_ascii c)) && (Z.of_N (N_of_ascii c) <? 192) then 0 else 1) + RuneCount s'
  end.

Fixpoint spaces (n : nat) : string :=
  match n with O => "" | S n' => " " +:+ spaces n' end.

(** [fmt.Sprintf("%*s", w, s)] *)
Definition pad_left (w : Z) (s : string) : string := spaces (Z.to_nat (w - RuneCount s)) +:+ s.

(** What the uptime view shows. *)
Definition uptime_text (d : Z) : string :=
  let h := int_units Hour d in
  let m := Z.rem (int_units Minute d) 60 in
  let s := Z.rem (int_units Second d) 60 in
  pad_left (sidebarWidth - 3) ("⏱ " +:+ pad2 h +:+ ":" +:+ pad2 m +:+ ":" +:+ pad2 s).

(** ** The closures given to [g.Update] *)

(** What follows [cl++]. *)
Definition banner_step (cl : Z) : Z := if 231 <? cl + 1 then 52 else cl + 1.

Section TUI.
(** The sentinel errors of gocui. *)
Context (ErrUnknownView ErrQuit : error).

Definition TUI_GetState : prog TUI State := reads (fun t => s_status (tu_svc t)).

Definition run_update (u : gui_update) : prog TUI (option error) :=
  match u with
  | UpdQuit => mret (Some ErrQuit)
  | UpdBanner =>
      err ← sys (GuiTry (GuiView "banner"));
      match err with
      | None => cl ← reads tu_cl; sys (GuiDo (GuiFgColor "banner" cl)) ≫= fun _ => mret None
      | Some _ => mret None
      end
  | UpdLog msg => sys (GuiDo (GuiPrint "logs" msg)) ≫= fun _ => mret None
  | UpdStatus =>
      sys (GuiDo (GuiClear "status")) ≫= fun _ =>
      state ← TUI_GetState;
      for_each (status_lines state) (fun line => sys (GuiDo (GuiPrint "status" line))) ≫= fun _ => mret None
  | UpdUptime start =>
      sys (GuiDo (GuiClear "uptime")) ≫= fun _ =>
      now ← sys TimeNow;
      sys (GuiDo (GuiPrint "uptime" (uptime_text (time_Sub now start)))) ≫= fun _ => mret None
  end.

(** ** The goroutines *)

(** The loop of a goroutine that queues [u] at every tick until [done] is closed. *)
Definition ticks (fuel : nat) (period : Z) (before : prog TUI unit) (u : gui_update) : prog TUI (option unit) :=
  loop fuel (fun _ : unit =>
    fired ← sys (GuiTick period);
    if negb fired then mret (inr tt)
    else before ≫= fun _ => sys (GuiDo (GuiUpdate u)) ≫= fun _ => mret (inl tt)) tt.

Definition animateBanner (fuel : nat) : prog TUI (option unit) :=
  crit (fun t => (tt, set_cl 51 t, [])) ≫= fun _ =>
  ticks fuel (75 * Millisecond) (crit (fun t => (tt, set_cl (banner_step (tu_cl t)) t, []))) UpdBanner.

(** The goroutine of [setupLogs]: its [select] looks until a case is ready. *)
Definition logs_round (_ : unit) : prog TUI (unit + unit) :=
  over ← sys GuiDone;
  if over : bool then mret (inr tt)
  else
    msg ← crit (fun t => let '(msg, rest) := log_receive (tu_logs t) in (msg, set_logs rest t, []));
    match msg with
    | Some msg => sys (GuiDo (GuiUpdate (UpdLog msg))) ≫= fun _ => mret (inl tt)
    | None => mret (inl tt)
    end.

(** The goroutine of [CreateTUI] that ends the main loop with the context. *)
Definition quit_round (c : ctx) (_ : unit) : prog TUI (unit + unit) :=
  over ← sys GuiDone;
  if over : bool then mret (inr tt)
  else
    err ← sys (CtxErr c);
    match err with
    | Some _ => sys (GuiDo (GuiUpdate UpdQuit)) ≫= fun _ => mret (inr tt)
    | None => mret (inl tt)
    end.

Definition tui_body (fuel : nat) (c : ctx) (g : tui_goroutine) : prog TUI (option unit) :=
  match g with
  | TuiAnimate => animateBanner fuel
  | TuiQuitWatch => loop fuel (quit_round c) tt
  | TuiLogs => loop fuel logs_round tt
  | TuiStatus => ticks fuel Second skip UpdStatus
  | TuiUptime start => ticks fuel Second skip (UpdUptime start)
  end.

(** ** The layout *)

Definition isNewView (err : error) : bool := errors_Is err ErrUnknownView.

(** [v, err := g.SetView(..)], and what is done when the view is new. *)
Definition set_view (view : string) (x0 y0 x1 y1 : Z) (new : prog TUI unit) : prog TUI (option error) :=
  err ← sys (GuiTry (GuiSetView view x0 y0 x1 y1));
  match err with
  | None => mret None
  | Some e => if negb (isNewView e) then mret (Some e) else new ≫= fun _ => mret None
  end.

Definition arts : list string :=
  ["⊂(◉‿◉)つ"; "( ✜︵ ✜ )"; "ʕっ •ᴥ•ʔっ"; "(｡◕‿‿◕｡)"; "(っ ´ω`c)♡"; "(ʘ‿ʘ)╯"].

Definition randomArt : prog TUI string :=
  i ← sys (RandIntn (Z.of_nat (length arts))); mret (nth (Z.to_nat i) arts "").

Definition setupBanner (maxX : Z) : prog TUI (option error) :=
  set_view "banner" 0 0 (maxX - sidebarWidth) 2
    (sys (GuiDo (GuiFrame "banner" false)) ≫= fun _ =>
     art ← randomArt;
     sys (GuiDo (GuiPrint "banner" (" " +:+ art +:+ " cisco-socks-server")))).

Definition setupLogs (maxX maxY : Z) : prog TUI (option error) :=
  set_view "logs" 0 3 (maxX - sidebarWidth) (maxY - 1)
    (sys (GuiDo (GuiTitle "logs" " Logs ")) ≫= fun _ =>
     sys (GuiDo (GuiWrap "logs")) ≫= fun _ =>
     sys (GuiDo (GuiAutoscroll "logs")) ≫= fun _ =>
     sys (GuiDo (GuiGo TuiLogs))).

Definition setupStatus (maxX maxY : Z) : prog TUI (option error) :=
  set_view "status" (maxX - sidebarWidth + 1) 3 (maxX - 1) (maxY - 1)
    (sys (GuiDo (GuiTitle "status" " Status ")) ≫= fun _ =>
     sys (GuiDo (GuiGo TuiStatus))).

Definition setupUptime (maxX : Z) : prog TUI (option error) :=
  set_view "uptime" (maxX - sidebarWidth + 1) 0 (maxX - 1) 2
    (sys (GuiDo (GuiFrame "uptime" false)) ≫= fun _ =>
     start ← sys TimeNow;
     sys (GuiDo (GuiGo (TuiUptime start)))).

(** [if err := first; err != nil { return err }; rest] *)
Definition try_then (first rest : prog TUI (option error)) : prog TUI (option error) :=
  err ← first;
  match err with Some e => mret (Some e) | None => rest end.

(** The manager function: gocui calls it before every redraw. *)
Definition layout : prog TUI (option error) :=
  '(maxX, maxY) ← sys GuiSize;
  try_then (setupBanner maxX) (
  try_then (setupLogs maxX maxY) (
  try_then (setupStatus maxX maxY) (
  try_then (setupUptime maxX) (mret None)))).

(** ** The life of the UI *)

(** From [done := make(..)] on; the deferred calls are [close_gui]'s and [restore]'s. *)
Definition gui_main : prog TUI (option error) :=
  sys (GuiDo GuiColors) ≫= fun _ =>
  sys (GuiDo (GuiGo TuiAnimate)) ≫= fun _ =>
  sys (GuiDo (GuiGo TuiQuitWatch)) ≫= fun _ =>
  sys (GuiDo GuiSetManager) ≫= fun _ =>
  try_then (sys (GuiTry GuiBindCtrlC)) (
    err ← sys (GuiTry GuiMainLoop);
    match err with
    | Some e => if negb (errors_Is e ErrQuit) then mret (Some e) else mret None
    | None => mret None
    end).

Definition close_gui : prog TUI unit :=
  sys (GuiDo CloseDone) ≫= fun _ => sys (GuiDo GuiClose).

Definition restore : prog TUI unit :=
  sys (GuiDo StdRestore) ≫= fun _ => sys (GuiDo DevNullClose).

Definition CreateTUI (level : Z) : prog TUI (option error) :=
  sys (LogSetup true level) ≫= fun _ =>
  try_then (sys (GuiTry DevNullOpen)) (
    sys (GuiDo StdToNull) ≫= fun _ =>
    res ← try_then (sys (GuiTry GuiNew)) (err ← gui_main; close_gui ≫= fun _ => mret err);
    restore ≫= fun _ => mret res).

End TUI.

(** ** Vocabulary of the statements *)

(** Histories of the log channel: the records waiting, printed and offered so far. *)
Inductive log_op : Type := LogWrite (p : string) | LogReceive.

Definition log_step (acc : list string * list string * list string) (o : log_op)
  : list string * list string * list string :=
  let '(logs, printed, offered) := acc in
  match o with
  | LogWrite p => ((log_Write p logs).1, printed, offered ++ [p])
  | LogReceive => let '(msg, rest) := log_receive logs in (rest, printed ++ option_list msg, offered)
  end.

(** The panel whose goroutine an event starts. *)
Definition panel_of (e : event) : option string :=
  match e with
  | EvGui (GuiGo TuiLogs) => Some "logs"
  | EvGui (GuiGo TuiStatus) => Some "status"
  | EvGui (GuiGo (TuiUptime _)) => Some "uptime"
  | _ => None
  end.

Definition started (v : string) (ev : list event) : nat := length (filter (fun e => panel_of e = Some v) ev).

Definition has (v : string) (vs : gset string) : nat := if bool_decide (v ∈ vs) then 1%nat else 0%nat.

(** What gocui documents of [SetView]: a view that exists is only moved, a new one is
    reported by [ErrUnknownView]; any other error leaves the views as they are. *)
Class Views (ErrUnknownView : error) (W : Type) `{!World W} : Type := {
  views : W -> gset string;
  view_set : forall v x0 y0 x1 y1 w,
    let r := os_handle (GuiTry (GuiSetView v x0 y0 x1 y1)) w in
    match r.1 with
    | None => v ∈ views w /\ views r.2 = views w
    | Some e =>
        if errors_Is e ErrUnknownView then (v ∉ views w) /\ views r.2 = {[v]} ∪ views w
        else views r.2 = views w
    end;
  view_keep : forall X (e : osE X) w,
    match e with GuiTry (GuiSetView _ _ _ _ _) => True | _ => views (os_handle e w).2 = views w end
}.

(** What the main loop does: a redraw, which lays the views out first, or an update. *)
Definition main_loop_action (ErrUnknownView ErrQuit : error) (a : option gui_update) : prog TUI unit :=
  match a with
  | None => layout ErrUnknownView ≫= fun _ => skip
  | Some u => run_update ErrQuit u ≫= fun _ => skip
  end.

(** ** Lemmas: the panels *)

Lemma started_app v ev1 ev2 : started v (ev1 ++ ev2) = (started v ev1 + started v ev2)%nat.
Proof. unfold started. by rewrite filter_app, length_app. Qed.

Lemma started_other v e ev : panel_of e = None -> started v (e :: ev) = started v ev.
Proof. intros He. unfold started. by rewrite filter_cons_False by (by rewrite He). Qed.

Section Panels.
Context (ErrUnknownView ErrQuit : error) {W : Type} `{!World W} `{!Views ErrUnknownView W}.

(** A program that starts the goroutine of a panel just when it makes its view. *)
Definition balanced {A} (p : prog TUI A) : Prop := forall v t w, v <> "banner" ->
  let o := exec p t w in
  (started v (out_events o) + has v (views w) = has v (views (out_world o)))%nat.

(** A program that starts what is given, and makes no view. *)
Definition starts {A} (g : option string) (p : prog TUI A) : Prop := forall v t w,
  let o := exec p t w in
  views (out_world o) = views w /\ started v (out_events o) = (if bool_decide (g = Some v) then 1%nat else 0%nat).

Lemma starts_balanced {A} (p : prog TUI A) : starts None p -> balanced p.
Proof. intros Hp v t w _. cbv zeta. destruct (Hp v t w) as [-> ->]. done. Qed.

Lemma balanced_bind {A B} (p : prog TUI A) (k : A -> prog TUI B) :
  balanced p -> (forall x, balanced (k x)) -> balanced (p ≫= k).
Proof.
  intros Hp Hk v t w Hv. cbv zeta. rewrite exec_bind. cbv zeta. cbn [out_events out_world].
  rewrite started_app. specialize (Hp v t w Hv).
  specialize (Hk (out_val (exec p t w)) v (out_state (exec p t w)) (out_world (exec p t w)) Hv). cbv zeta in *. lia.
Qed.

Lemma starts_bind {A B} g1 g2 (p : prog TUI A) (k : A -> prog TUI B) :
  starts g1 p -> (forall x, starts g2 (k x)) -> g1 = None \/ g2 = None ->
  starts (match g1 with None => g2 | _ => g1 end) (p ≫= k).
Proof.
  intros Hp Hk Hg v t w. cbv zeta. rewrite exec_bind. cbv zeta. cbn [out_events out_world].
  rewrite started_app. destruct (Hp v t w) as [Hv1 Hs1].
  destruct (Hk (out_val (exec p t w)) v (out_state (exec p t w)) (out_world (exec p t w))) as [Hv2 Hs2].
  cbv zeta in *. rewrite Hv2, Hv1, Hs1, Hs2. split; [done|].
  destruct Hg as [-> | ->]; [done|]. destruct g1; [by rewrite Nat.add_0_r|done].
Qed.

Lemma starts_mret {A} (a : A) : starts None (mret a : prog TUI A).
Proof. intros v t w. by rewrite exec_mret. Qed.

Lemma starts_sys {X} (e : osE X) :
  match e with GuiTry (GuiSetView _ _ _ _ _) => False | _ => True end ->
  starts (match e with GuiDo d => panel_of (EvGui d) | _ => None end) (sys e).
Proof.
  intros He v t w. rewrite exec_sys. cbn [out_world out_events]. split.
  - pose proof (view_keep X e w) as Hk. destruct e; try done. by destruct t0.
  - unfold started. destruct e; try done. cbn [os_event].
    rewrite filter_cons, filter_nil. case_bool_decide; [by rewrite decide_True|by rewrite decide_False].
Qed.

Lemma starts_crit {X} (f : TUI -> X * TUI * list event) : (forall t, (f t).2 = []) -> starts None (crit f).
Proof. intros Hf v t w. rewrite exec_crit. cbn [out_world out_events]. by rewrite Hf. Qed.

Lemma starts_reads {X} (f : TUI -> X) : starts None (reads f).
Proof. intros v t w. by rewrite exec_reads. Qed.

Lemma starts_for_each {A} (l : list A) (f : A -> prog TUI unit) :
  (forall x, starts None (f x)) -> starts None (for_each l f).
Proof.
  intros Hf. induction l as [|x l IH]; cbn [for_each]; [apply starts_mret|].
  by apply (starts_bind None None); [|intros _|left].
Qed.

Lemma starts_run_update u : starts None (run_update ErrQuit u).
Proof.
  destruct u; cbn [run_update].
  - apply starts_mret.
  - apply (starts_bind None None); [by apply starts_sys| |by left]. intros [e|]; [apply starts_mret|].
    apply (starts_bind None None); [apply starts_reads|intros cl|by left].
    apply (starts_bind None None); [by apply starts_sys|intros _; apply starts_mret|by left].
  - apply (starts_bind None None); [by apply starts_sys|intros _; apply starts_mret|by left].
  - apply (starts_bind None None); [by apply starts_sys|intros _|by left].
    apply (starts_bind None None); [apply starts_reads|intros st|by left].
    apply (starts_bind None None); [|intros _; apply starts_mret|by left].
    apply starts_for_each. intros line. by apply starts_sys.
  - apply (starts_bind None None); [by apply starts_sys|intros _|by left].
    apply (starts_bind None None); [by apply starts_sys|intros now|by left].
    apply (starts_bind None None); [by apply starts_sys|intros _; apply starts_mret|by left].
Qed.

Lemma balanced_set_view v x0 y0 x1 y1 (new : prog TUI unit) :
  starts (if bool_decide (v = "banner") then None else Some v) new ->
  balanced (set_view ErrUnknownView v x0 y0 x1 y1 new).
Proof.
  intros Hnew v' t w Hv'. cbv zeta. unfold set_view. rewrite exec_bind, exec_sys. cbv zeta.
  cbn [out_val out_state out_world out_events os_event app]. pose proof (view_set v x0 y0 x1 y1 w) as Hset. cbv zeta in Hset.
  destruct (os_handle _ w) as [[e|] w1]; cbn [fst snd] in *.
  - unfold isNewView. destruct (errors_Is e ErrUnknownView); cbn [negb].
    + destruct Hset as [Hnot Hw1]. rewrite exec_bind. cbv zeta. cbn [out_world out_events out_val].
      destruct (Hnew v' t w1) as [Hvw Hst]. cbv zeta in *. rewrite !exec_mret. cbn [out_world out_events].
      rewrite app_nil_r, started_other, Hst, Hvw, Hw1 by done. unfold has.
      destruct (decide (v' = v)) as [->|Hne].
      * assert (v ∈ {[v]} ∪ views w) as Hin by (apply elem_of_union; left; by apply elem_of_singleton).
        by rewrite (bool_decide_eq_false_2 (v = "banner")), (bool_decide_eq_true_2 (Some v = Some v)),
          (bool_decide_eq_true_2 _ Hin), (bool_decide_eq_false_2 (v ∈ views w)).
      * assert (bool_decide ((if bool_decide (v = "banner") then None else Some v) = Some v') = false) as ->.
        { apply bool_decide_eq_false_2. intros Hg. destruct (bool_decide _); [done|]. by injection Hg as ->. }
        assert (bool_decide (v' ∈ {[v]} ∪ views w) = bool_decide (v' ∈ views w)) as ->; [|done].
        apply bool_decide_ext. rewrite elem_of_union, elem_of_singleton. tauto.
    + rewrite exec_mret. cbn [out_world out_events]. by rewrite Hset, started_other.
  - rewrite exec_mret. cbn [out_world out_events]. destruct Hset as [_ ->]. by rewrite started_other.
Qed.

Lemma balanced_try_then p q : balanced p -> balanced q -> balanced (try_then p q).
Proof.
  intros Hp Hq. apply balanced_bind; [done|]. intros [e|]; [|done]. apply starts_balanced, starts_mret.
Qed.

Lemma balanced_layout : balanced (layout ErrUnknownView).
Proof.
  unfold layout. apply balanced_bind; [by apply starts_balanced, starts_sys|]. intros [maxX maxY].
  repeat apply balanced_try_then; try apply balanced_set_view; cbn [bool_decide].
  - apply (starts_bind None None); [by apply starts_sys|intros _|by left].
    apply (starts_bind None None); [|intros art; by apply starts_sys|by left].
    apply (starts_bind None None); [by apply starts_sys|intros i; apply starts_mret|by left].
  - do 3 (apply (starts_bind None (Some "logs")); [by apply starts_sys|intros _|by left]). by apply starts_sys.
  - apply (starts_bind None (Some "status")); [by apply starts_sys|intros _|by left]. by apply starts_sys.
  - apply (starts_bind None (Some "uptime")); [by apply starts_sys|intros _|by left].
    apply (starts_bind None (Some "uptime")); [by apply starts_sys|intros start|by left]. by apply starts_sys.
  - apply starts_balanced, starts_mret.
Qed.

Lemma balanced_actions l : balanced (for_each l (main_loop_action ErrUnknownView ErrQuit)).
Proof.
  induction l as [|[u|] l IH]; cbn [for_each]; [apply starts_balanced, starts_mret|..];
    (apply balanced_bind; [|done]); cbn [main_loop_action];
    (apply balanced_bind; [|intros _; apply starts_balanced, starts_mret]).
  - apply starts_balanced, starts_run_update.
  - apply balanced_layout.
Qed.

End Panels.

(** ** Lemmas: the log channel, the uptime *)

Lemma log_step_keeps logs printed offered o logs' printed' offered' :
  log_step (logs, printed, offered) o = (logs', printed', offered') ->
  printed ++ logs `sublist_of` offered -> (length logs <= 256)%nat ->
  printed' ++ logs' `sublist_of` offered' /\ (length logs' <= 256)%nat.
Proof.
  destruct o as [p|]; cbn [log_step log_Write fst].
  - destruct (Z.ltb_spec (Z.of_nat (length logs)) logs_capacity) as [Hl|Hl]; intros [= <- <- <-] Hs Hn.
    + unfold logs_capacity in Hl. rewrite length_app. cbn. split; [|lia]. rewrite app_assoc. by apply sublist_app.
    + split; [|done]. by apply sublist_inserts_r.
  - destruct logs as [|msg rest]; cbn [log_receive option_list]; intros [= <- <- <-] Hs Hn.
    + by rewrite app_nil_r.
    + rewrite <- app_assoc. cbn [app]. split; [done|]. cbn in Hn. lia.
Qed.

(** The units of a duration, for every unit whose nanoseconds a double can tell apart up
    to [2 ^ A] units. *)
Lemma int_units_exact unit d A :
  0 <= d -> 0 < unit -> d < unit * 2 ^ A -> 0 <= A <= 53 -> unit * 2 ^ A < 2 ^ 54 - unit -> unit < 2 ^ 53 ->
  int_units unit d = d / unit.
Proof.
  intros Hd Hu Hlt HA Hc Hu53. unfold int_units. rewrite Z.quot_div_nonneg, Z.rem_mod_nonneg by lia.
  apply (int_part_exact _ _ _ A); try done.
  - split; [by apply Z.div_pos; lia|]. by apply Z.div_lt_upper_bound.
  - by apply Z.mod_pos_bound.
Qed.

(** ** Properties *)

(** C40. The log writer never blocks and never fails: whatever is written and shown, in
    any order, the records shown or waiting are among those written, in the order
    written, at most 256 of them waiting; a record is dropped only when 256 wait. *)
Theorem log_channel ops p :
  let '(logs, printed, offered) := fold_left log_step ops ([], [], []) in
  printed ++ logs `sublist_of` offered /\ (length logs <= 256)%nat /\
  (log_Write p logs).2 = (len p, None) /\
  ((log_Write p logs).1 = logs ++ [p] \/ (log_Write p logs).1 = logs /\ length logs = 256%nat).
Proof.
  assert (forall acc, acc.1.2 ++ acc.1.1 `sublist_of` acc.2 -> (length acc.1.1 <= 256)%nat ->
    let r := fold_left log_step ops acc in
    r.1.2 ++ r.1.1 `sublist_of` r.2 /\ (length r.1.1 <= 256)%nat) as Hall.
  { induction ops as [|o ops IH]; intros [[logs printed] offered] Hs Hl; cbn [fold_left]; [done|].
    destruct (log_step (logs, printed, offered) o) as [[logs' printed'] offered'] eqn:E.
    destruct (log_step_keeps _ _ _ _ _ _ _ E Hs Hl) as [Hs' Hl']. by apply IH. }
  specialize (Hall ([], [], []) (sublist_nil_l _) ltac:(cbn; lia)). cbv zeta in Hall.
  destruct (fold_left log_step ops ([], [], [])) as [[logs printed] offered]. cbn [fst snd] in Hall.
  destruct Hall as [Hs Hl]. split_and!; [done|done|done|]. unfold log_Write, logs_capacity. cbn [fst].
  destruct (Z.ltb_spec (Z.of_nat (length logs)) 256); [by left|right]. split; [done|lia].
Qed.


(** C38. The uptime view shows the whole hours, minutes and seconds of the uptime, although
    they are computed in floating point, for 4096 hours; it is then one hour ahead in the
    last nanosecond of some hours. *)
Theorem uptime_exact d :
  (0 <= d < 4096 * Hour ->
   uptime_text d = pad_left 19 ("⏱ " +:+ pad2 (d / Hour) +:+ ":" +:+ pad2 ((d / Minute) mod 60) +:+ ":" +:+
     pad2 ((d / Second) mod 60))) /\
  int_units Hour (4097 * Hour - 1) = 4097.
Proof.
  split; [|vm_compute; reflexivity]. unfold Hour, Minute, Second, Millisecond. intros Hd. unfold uptime_text.
  unfold Hour, Minute, Second, Millisecond.
  rewrite (int_units_exact _ d 12), (int_units_exact _ d 18), (int_units_exact _ d 24) by lia.
  by rewrite !Z.rem_mod_nonneg by (try apply Z.div_pos; lia).
Qed.

Lemma uptime_exact_witness :
  uptime_text (25 * Hour + 61 * Second) = pad_left 19 ("⏱ " +:+ "25:01:01").
Proof.
  rewrite (proj1 (uptime_exact (25 * Hour + 61 * Second))); [reflexivity|].
  unfold Hour, Minute, Second, Millisecond. lia.
Defined.

(** C30. Although gocui lays the views out before every redraw, the goroutine that feeds a
    panel is started once, when its view is made: whatever redraws and updates the main
    loop does, a panel that exists has one, and one that does not has none. *)
Theorem panels_once ErrUnknownView ErrQuit {W} `{!World W} `{!Views ErrUnknownView W} l v t (w : W) :
  views w = ∅ -> v <> "banner" ->
  let o := exec (for_each l (main_loop_action ErrUnknownView ErrQuit)) t w in
  started v (out_events o) = if bool_decide (v ∈ views (out_world o)) then 1%nat else 0%nat.
Proof.
  intros Hw Hv. cbv zeta. pose proof (balanced_actions ErrUnknownView ErrQuit l v t w Hv) as Hb.
  cbv zeta in Hb. rewrite Hw in Hb. unfold has in Hb.
  rewrite (bool_decide_eq_false_2 (v ∈ ∅)) in Hb by set_solver. lia.
Qed.

(** gocui's views on top of a simulated host. *)
Definition gui_sim : Type := gset string * sim.

Definition unknown_view : error := ErrNew "unknown view".
Definition quit : error := ErrNew "quit".

#[global] Instance gui_world : World gui_sim := fun X e w =>
  match e in osE X return X * gui_sim -> X * gui_sim with
  | GuiTry (GuiSetView v _ _ _ _) => fun _ =>
      if bool_decide (v ∈ w.1) then (None, w) else (Some unknown_view, ({[v]} ∪ w.1, w.2))
  | _ => fun r => r
  end (let '(x, w') := sim_world X e w.2 in (x, (w.1, w'))).

#[global] Instance gui_views : Views unknown_view gui_sim.
Proof.
  refine {| views := fst |}.
  - intros v x0 y0 x1 y1 [vs w]. unfold os_handle, gui_world. cbn [fst snd].
    destruct (bool_decide (v ∈ vs)) eqn:E; cbn [fst snd]; bools; [done|].
    rewrite errors_Is_refl. done.
  - intros X e [vs w]. unfold os_handle, gui_world. cbn [fst snd].
    destruct e; try (by destruct (sim_world _ _ w)).
    match goal with op : gui_try |- _ => destruct op end; try done; by destruct (sim_world _ _ w).
Defined.

(** Three redraws around an update of the status panel. *)
Lemma panels_once_witness :
  let o := exec (for_each [None; None; Some UpdStatus; None] (main_loop_action unknown_view quit))
    (MkTUI home_service [] 51) (∅, home) in
  started "status" (out_events o) = 1%nat /\ started "panel" (out_events o) = 0%nat.
Proof.
  pose proof (panels_once unknown_view quit [None; None; Some UpdStatus; None]) as Hp. cbv zeta in Hp |- *.
  split; rewrite (Hp _ _ (∅, home)); [| | |reflexivity| |]; try done; vm_compute; reflexivity.
Defined.


Lemma banner_step_range cl : 51 <= cl <= 231 -> 52 <= banner_step cl <= 231.
Proof. unfold banner_step. destruct (Z.ltb_spec 231 (cl + 1)); lia. Qed.
